(* ===== verification/_CoqProject ===== *)
-Q . S2P
Prelude.v
GoFloat.v
Sha256.v
ConfigData.v
Execution.v
RouterData.v
RouterPolicy.v
RouterPolicyFacts.v
RouterOps.v
RouterInv.v
RouterReach.v
RouterScores.v
RouterFacts.v
RouterLimits.v
RouterStatus.v
RouterEvents.v
RouterDemo.v
RouterTheorems.v
RouterLeases.v
Json.v
JsonFacts.v
Request.v
RequestFacts.v
GoText.v
RequestSpec.v
RewriteFacts.v
Sse.v
SseFacts.v
Observer.v
ObserverFacts.v
Providerdef.v
GoNet.v
ConfigAccounts.v
ConfigValidate.v
ConfigSpec.v
ValidateSpec.v
ConfigTheorems.v
Service.v
ServiceFacts.v
ServiceTheorems.v
Program.v
Gateway.v
GatewaySem.v
GatewayFacts.v
GatewayDemo.v
GatewayTheorems.v
GatewaySafety.v
GatewayIngress.v
Vault.v
OAuth.v
VaultSem.v
VaultFacts.v
VaultDisk.v
VaultTheorems.v
Evidence.v
Jobs.v
JobsFacts.v
Catalog.v
Bindings.v
BindingsTheorems.v
Control.v
ControlFacts.v
ControlServers.v
ControlTheorems.v
Marshal.v
Number.v
ChatChunks.v
Wire.v
WireFacts.v
ChatRequest.v
Cursor.v
CursorFacts.v
Warp.v
WarpFacts.v
Collect.v
CollectFacts.v
EventStream.v
EventStreamFacts.v
AmazonQFacts.v
