(* ===== verification/Prelude.v ===== *)
(** * Verification of the Clash of Tokens gateway: root of the development

    Clash of Tokens is a local gateway written in Go.  It offers the API of a
    few model vendors on one address, chooses for every request one of many
    configured sources, forwards the request, relays the answer and records what
    became of it; an administration API edits the configuration, the stored
    credentials and long operations while requests run.  This development
    models that core as executable definitions and proves what makes it correct.

    ** The parts and their files

    - _Configuration_ ([internal/config]).  [ConfigData] has the data types and
      the policy predicates; [ConfigAccounts], [ConfigValidate] the validation as
      the code runs it; [ConfigSpec], [ValidateSpec] the order-free meaning of a
      valid configuration, and [ConfigTheorems] that they agree.  [Service] is
      [service.go]: revisions, journal, atomic replacement of the file, prepared
      runtimes; [ServiceFacts], [ServiceTheorems] prove atomicity, crash safety,
      linear history and rollback.
    - _Routing_ ([internal/routing]).  [RouterData] is the shared store of
      pointers (states, quotas, capacities, routers, leases), [RouterPolicy] the
      choice of a source ([eligible], [choose], pools, preferences), [RouterOps]
      the operations ([Acquire] cut at its waits, [Release], recording, [Adopt]).
      [RouterInv], [RouterReach] prove the accounting invariant of every reachable
      store, [RouterPolicyFacts], [RouterScores], [RouterFacts], [RouterLimits],
      [RouterLeases], [RouterEvents], [RouterStatus] what follows for each
      operation, [RouterTheorems] the claims.
    - _Protocol_ ([internal/protocol]).  [Json] is the part of [encoding/json] the
      gateway relies on, [GoText] its text functions.  [Request] is [Inspect] and
      [Rewrite], which scan bytes without a parser; [RequestFacts], [RequestSpec]
      prove they read what the JSON value says and [RewriteFacts] that a rewrite
      changes the model and nothing else.  [Sse], [SseFacts] are the event
      frames; [Observer], [ObserverFacts] the observer that decides whether a
      stream completed; [Execution] the recorded results and their redaction.
    - _The generation endpoint_ ([internal/api/server.go], [attempts.go],
      [stream.go]).  [Program] has handlers as trees of effects and monitors on
      them; [Gateway] the handler itself; [GatewaySem] many requests interleaved
      on one server.  [GatewayFacts], [GatewayTheorems] prove that
      requests return all they took, [GatewaySafety] that replays and streams are
      safe, [GatewayIngress] that reading an upload ends within its limit.
    - _Credentials_ ([internal/credentials]).  [Vault] is the store and its file,
      [OAuth] the refresh of tokens, [VaultSem] the operations as programs and
      many of them at once; [VaultFacts], [VaultDisk] carry
      [VaultTheorems]: secrets only move forward, and what is saved reads back.
    - _Control plane_ ([internal/api/control.go], [jobs.go],
      [credential_binding.go], [account_material.go], [credentials.go]).
      [Bindings] is what a configuration may bind, [BindingsTheorems] that
      credentials stay with their account; [Jobs], [JobsFacts] the long
      operations; [Control] the generations of servers, and [ControlFacts],
      [ControlServers], [ControlTheorems] that a
      server is closed once, when nobody needs it.  [Evidence] is the numbered
      history of facts ([internal/evidence]).
    - _Tables_.  [Providerdef] is the registry of adapters, [Catalog] the
      catalogue ([catalog]) with its host matching and presets.
    - _Adapters_ ([internal/providers]).  [Marshal] is [json.Marshal] on what the
      adapters write; [ChatChunks] the chunks of a streamed answer, with the
      contract [answers]: a stream the gateway's own reader and observer take for
      a completed answer of these texts.  [Wire] is the protobuf and Connect layer
      ([codingfinal/wire.go]), [WireFacts] its grammar and trees of fields;
      [ChatRequest] the decoding of a request ([client.go]); [Cursor],
      [CursorFacts] and [Warp], [WarpFacts] the two adapters on it, which are
      proved against [answers].  [EventStream] is the checksummed framing of
      Amazon Q and its two readers ([codingmore/eventstream.go]);
      [EventStreamFacts] proves that damage is noticed, [AmazonQFacts] that both
      readers agree.  [Number] is [strconv] on floating point numbers, which a
      decoded value holds; [Collect] puts a stream together to the one response
      a client gets that does not stream ([client.go]), and [CollectFacts]
      proves it the same answer.
    [Sha256] and [GoFloat] are the hash and the floating point of the standard
    library the code computes with, [GoNet] its addresses, URLs and paths.

    ** How they fit

    A request enters a generation ([Control.acquire]); its handler
    ([Gateway.generate]) reads the upload, inspects it ([Request.Inspect]),
    acquires a lease from the router of that generation ([RouterOps.grant]),
    resolves the credential ([VaultSem.ResolveContext]) and relays the answer
    through [Sse] and [Observer]; its deferred function records the result and
    returns the lease ([RouterOps.RecordExecution], [RouterOps.Release]).  A
    change of the configuration goes through [Service.apply], which prepares a
    server ([Control.prepare], guarded by [Bindings.server_config]) and commits it
    ([Control.commit], [RouterOps.Adopt]).

    Shared mutable objects are locations of an explicit store, and every critical
    section of a mutex is one function on it; what runs between critical sections
    may interleave in any order ([RouterInv.reachable], [GatewaySem], [VaultSem],
    [Jobs.job_step], [Control.plane_step] are the step relations).  Blocking
    calls are cut where they wait.

    ** Interfaces

    Code that is not in the repository is a parameter: [UrlParser]
    ([url.Parse]), [Codec] and [CodecLaws] ([encoding/json] of the
    configuration), [VaultCodec], [Protection], [VaultLaws] (encoding and
    encryption of the vault), [EntryCodec], [EntryLaws] (evidence), [ProofCodec]
    (the proof of a verification), [TimeParser] (the date of a Retry-After),
    [Unicode] and [is_print] (the tables of [unicode]), [Gzip] (what a gzip reader
    gives).  The laws are documented
    behaviour of those packages (what is written reads back, for text that is
    UTF-8), and every theorem that uses them has a witness with a concrete
    instance.

    ** Fuel

    Recursions that are not structural take fuel computed from their input:
    [Json.json_fuel], [Request.string_end_loop] and [Sse.next_loop] from the length
    of the text, [Gateway.read_fuel] from the bytes left and the reads that give
    none, [Gateway.acquire_loop] from [attemptLimit].  The theorems state the
    result itself, so that fuel that runs out would refute them.
    The decoders of the adapters take the length of their data
    ([Wire.decodeProtoFields], [EventStream.parseEventHeaders]) or of the stream
    ([Cursor.cursorToSSE], [EventStream.Read], [EventStream.collectAmazonQ]), since
    every round consumes some of it; that this is enough is part of their
    theorems.

    ** Not modelled

    The other adapters under [internal/providers], [internal/chatgptweb],
    [internal/drivers] and the browser packages drive third-party pages, processes
    and devices: their behaviour is that of what they talk to, and so is the
    HTTP exchange of the modelled ones.  The dispatch,
    forms and JSON of the administration pages, login batches, browser processes
    and the verification of accounts in [internal/api] are input and output
    around the modelled operations; the encryption of the platform and the
    processes of password managers are interfaces.  Weak memory, timers and the
    scheduler are not modelled beyond arbitrary interleaving, and error texts are
    kept only as far as the code distinguishes them. *)

From Stdlib Require Export ZArith Lia Ascii String.
From stdpp Require Export base tactics list strings gmap fin_maps fin_sets relations.

#[export] Set Default Goal Selector "!".

(** ** Results of fallible Go code

    A Go function that returns [(T, error)] is modelled by [res E T]: [Ok]
    carries the value returned with a nil error, [Err] the error. *)

Inductive res (E A : Type) : Type :=
| Ok (a : A)
| Err (e : E).
Arguments Ok {E A} _.
Arguments Err {E A} _.

Definition res_bind {E A B} (m : res E A) (k : A → res E B) : res E B :=
  match m with
  | Ok a => k a
  | Err e => Err e
  end.

Definition is_ok {E A} (m : res E A) : bool :=
  match m with Ok _ => true | Err _ => false end.

Declare Scope go_scope.
Delimit Scope go_scope with go.
Notation "'let?' x ':=' m 'in' k" := (res_bind m (fun x => k))
  (at level 10, x pattern, m at level 100, k at level 200) : go_scope.
(** [reject c e ;; k] is the Go idiom [if c { return e }; k]. *)
Notation "'reject' c 'with' e ';;' k" := (if (c : bool) then Err e else k)
  (at level 10, c at level 99, e at level 99, k at level 200) : go_scope.
Notation "'ensure' m ';;' k" := (res_bind m (fun _ => k))
  (at level 10, m at level 99, k at level 200) : go_scope.
Open Scope go_scope.
(** String equality, beside the [=?] of numbers. *)
Notation "a =s b" := (String.eqb a b) (at level 70, no associativity) : go_scope.

(** A Go [for range] loop whose body may return an error. *)
Fixpoint fold_res {E S A} (f : S → A → res E S) (s : S) (l : list A) : res E S :=
  match l with
  | [] => Ok s
  | a :: l' => let? s' := f s a in fold_res f s' l'
  end.

Lemma res_bind_ok {E A B} (m : res E A) (k : A → res E B) b :
  res_bind m k = Ok b ↔ ∃ a, m = Ok a ∧ k a = Ok b.
Proof. destruct m; simpl; naive_solver. Qed.

Lemma fold_res_app {E S A} (f : S → A → res E S) l1 l2 s :
  fold_res f s (l1 ++ l2) = let? s' := fold_res f s l1 in fold_res f s' l2.
Proof. revert s; induction l1 as [|a l1 IH]; intros s; simpl; [done|]. destruct (f s a); simpl; auto. Qed.

(** The loop rule: an invariant of the accumulator that every successful
    iteration preserves holds after a loop that ran to its end. *)
Lemma fold_res_inv {E S A} (f : S → A → res E S) (P : list A → S → Prop) l s s' :
  P [] s →
  (∀ done_ a s0 s1, done_ ++ [a] `prefix_of` l → P done_ s0 → f s0 a = Ok s1 → P (done_ ++ [a]) s1) →
  fold_res f s l = Ok s' → P l s'.
Proof.
  intros H0 Hstep.
  enough (Hgen : ∀ l2 l1 s0, l = l1 ++ l2 → P l1 s0 → fold_res f s0 l2 = Ok s' → P l s').
  { intros Hf. by apply (Hgen l [] s). }
  induction l2 as [|a l2 IH]; intros l1 s0 -> HP Hf; simpl in Hf.
  - simplify_eq. by rewrite app_nil_r.
  - apply res_bind_ok in Hf as (s1 & Hs1 & Hf).
    apply (IH (l1 ++ [a]) s1); [by rewrite <-app_assoc| |done].
    eapply Hstep; [|done|done]. exists l2. by rewrite <-app_assoc.
Qed.

(** Loops without an early exit: an invariant indexed by the iterations done. *)
Lemma fold_left_inv {B A} (f : B → A → B) (P : nat → B → Prop) l s :
  P 0%nat s → (∀ n s a, a ∈ l → P n s → P (1 + n)%nat (f s a)) → P (length l) (fold_left f l s).
Proof.
  intros H0 Hstep.
  enough (Hgen : ∀ l2 n s0, (∀ a, a ∈ l2 → a ∈ l) → P n s0 → P (n + length l2)%nat (fold_left f l2 s0)).
  { by apply (Hgen l 0%nat s). }
  induction l2 as [|a l2 IH]; intros n s0 Hin HP; simpl; [by rewrite Nat.add_0_r|].
  replace (n + S (length l2))%nat with ((1 + n) + length l2)%nat by lia.
  apply IH; [set_solver|]. apply Hstep; [set_solver|done].
Qed.

(** ** Machine integers

    [int] and [int64] values are mathematical integers; where the code can
    overflow, the wrap-around is written out with these two functions. *)

Definition two64 : Z := 18446744073709551616.
Definition two63 : Z := 9223372036854775808.
(** conversion to (and arithmetic in) [uint64] *)
Definition u64 (z : Z) : Z := z `mod` two64.
(** conversion to (and arithmetic in) [int64] *)
Definition i64 (z : Z) : Z := (z + two63) `mod` two64 - two63.

Definition is_i64 (z : Z) : Prop := (- two63 ≤ z < two63)%Z.
Definition is_u64 (z : Z) : Prop := (0 ≤ z < two64)%Z.

Lemma u64_range z : is_u64 (u64 z).
Proof. unfold is_u64, u64, two64. apply Z.mod_pos_bound. lia. Qed.

Lemma u64_small z : is_u64 z → u64 z = z.
Proof. apply Z.mod_small. Qed.

Lemma i64_range z : is_i64 (i64 z).
Proof.
  unfold is_i64, i64.
  pose proof (Z.mod_pos_bound (z + two63) two64 ltac:(unfold two64; lia)).
  unfold two64, two63 in *. lia.
Qed.

Lemma i64_small z : is_i64 z → i64 z = z.
Proof. unfold is_i64, i64. intros ?. rewrite Z.mod_small; unfold two64, two63 in *; lia. Qed.

Lemma u64_i64 z : u64 (i64 z) = u64 z.
Proof.
  unfold u64, i64.
  rewrite Zminus_mod, Z.mod_mod by (unfold two64; lia).
  rewrite <-Zminus_mod. f_equal. lia.
Qed.

(** ** Strings *)

Definition str_drop (n : nat) (s : string) : string :=
  String.substring n (String.length s - n) s.
(** [strings.HasPrefix], [strings.TrimPrefix] *)
Definition has_prefix (s p : string) : bool := String.prefix p s.
Definition trim_prefix (s p : string) : string :=
  if has_prefix s p then str_drop (String.length p) s else s.
(** [strings.HasSuffix], [strings.TrimSuffix] *)
Definition has_suffix (s p : string) : bool :=
  (String.length p <=? String.length s)%nat &&
  String.eqb (str_drop (String.length s - String.length p) s) p.
Definition trim_suffix (s p : string) : string :=
  if has_suffix s p then String.substring 0 (String.length s - String.length p) s else s.
(** [len(s)] as a Go [int] *)
Definition slen (s : string) : Z := Z.of_nat (String.length s).

Definition ascii_in (c : ascii) (set : string) : bool :=
  existsb (Ascii.eqb c) (list_ascii_of_string set).
(** [strings.ContainsAny] *)
Definition contains_any (s set : string) : bool :=
  existsb (fun c => ascii_in c set) (list_ascii_of_string s).

(** the package-level [contains] of the router, and [slices.Contains] *)
Definition contains (a : list string) (v : string) : bool := existsb (String.eqb v) a.

Lemma contains_spec a v : contains a v = true ↔ v ∈ a.
Proof.
  unfold contains. rewrite existsb_exists. split.
  - intros (x & Hx & ->%String.eqb_eq). by apply list_elem_of_In.
  - intros Hv. exists v. split; [by apply list_elem_of_In|apply String.eqb_refl].
Qed.

Lemma contains_false a v : contains a v = false ↔ v ∉ a.
Proof. rewrite <-contains_spec. destruct (contains a v); naive_solver. Qed.

(** ** Generic automation *)

(** Split a hypothesis about boolean connectives into propositions. *)
Ltac bool_prop :=
  repeat match goal with
  | H : _ && _ = true |- _ => apply andb_true_iff in H as [? ?]
  | H : _ || _ = false |- _ => apply orb_false_iff in H as [? ?]
  | H : negb _ = true |- _ => apply negb_true_iff in H
  | H : negb _ = false |- _ => apply negb_false_iff in H
  | H : (_ <? _)%Z = true |- _ => apply Z.ltb_lt in H
  | H : (_ <? _)%Z = false |- _ => apply Z.ltb_ge in H
  | H : (_ <=? _)%Z = true |- _ => apply Z.leb_le in H
  | H : (_ <=? _)%Z = false |- _ => apply Z.leb_gt in H
  | H : (_ =? _)%Z = true |- _ => apply Z.eqb_eq in H
  | H : (_ =? _)%Z = false |- _ => apply Z.eqb_neq in H
  | H : (_ =? _)%string = true |- _ => apply String.eqb_eq in H
  | H : (_ =? _)%string = false |- _ => apply String.eqb_neq in H
  end.

(** Walk through a chain of guards [if c then Err e else k] that ended in [Ok]. *)
Ltac guards H :=
  repeat match type of H with
  | (if ?c then Err _ else _) = Ok _ =>
      let E := fresh "Hg" in destruct c eqn:E; [discriminate H|]
  | res_bind _ _ = Ok _ =>
      let a := fresh "a" in let E := fresh "Hm" in
      apply res_bind_ok in H as (a & E & H)
  end.

(** Conversely, what the guards of a chain amount to, by rewriting. *)
Lemma reject_ok {E A} (c : bool) (e : E) (k : res E A) x : (reject c with e ;; k) = Ok x ↔ c = false ∧ k = Ok x.
Proof. destruct c; naive_solver. Qed.
Lemma ok_inj {E A} (a b : A) : Ok (E := E) a = Ok b ↔ b = a.
Proof. naive_solver. Qed.
Lemma andb_false_impl a b : a && b = false ↔ (a = true → b = false).
Proof. destruct a, b; naive_solver. Qed.
Lemma orb_true_or a b : a || b = true ↔ a = true ∨ b = true.
Proof. apply orb_true_iff. Qed.
Lemma fold_res_unit {E A} (f : A → res E unit) l :
  fold_res (λ _ a, f a) tt l = Ok tt ↔ Forall (λ a, f a = Ok tt) l.
Proof.
  induction l as [|a l IH]; simpl; [by split|]. rewrite Forall_cons, <-IH. destruct (f a) as [[]|]; naive_solver.
Qed.

(** A loop whose accumulator depends only on the elements it has passed. *)
Lemma fold_res_positions {E S A} (f : S → A → res E S) (ok : list A → A → Prop) (acc : list A → S) l s :
  (∀ pre a post s', l = pre ++ a :: post → (∀ pre' b post', pre = pre' ++ b :: post' → ok pre' b) →
     f (acc pre) a = Ok s' ↔ ok pre a ∧ s' = acc (pre ++ [a])) →
  fold_res f (acc []) l = Ok s ↔ (∀ pre a post, l = pre ++ a :: post → ok pre a) ∧ s = acc l.
Proof.
  intros Hf. enough (Hgen : ∀ l2 l1, l = l1 ++ l2 → (∀ pre b post, l1 = pre ++ b :: post → ok pre b) →
    fold_res f (acc l1) l2 = Ok s ↔ (∀ pre a post, l2 = pre ++ a :: post → ok (l1 ++ pre) a) ∧ s = acc l).
  { apply (Hgen l []); [done|]. by intros []. }
  induction l2 as [|a l2 IH]; intros l1 -> Hl1; simpl.
  - rewrite app_nil_r. split; [intros [= <-]; split; [by intros []|done]|by intros [_ ->]].
  - specialize (Hf l1 a l2). assert (Hl1' : ok l1 a → ∀ pre b post, l1 ++ [a] = pre ++ b :: post → ok pre b).
    { intros Ha pre b post Heq. destruct post as [|c post _] using rev_ind.
      - apply app_inj_tail in Heq as [-> ->]. done.
      - rewrite app_comm_cons, app_assoc in Heq. apply app_inj_tail in Heq as [-> _]. by eapply Hl1. }
    specialize (IH (l1 ++ [a])). rewrite <-app_assoc in IH. specialize (IH eq_refl). split.
    + intros (s' & Hs & Hl)%res_bind_ok. apply Hf in Hs as [Ha ->]; [|done|done].
      apply IH in Hl as [Hl ->]; [|by apply Hl1']. split; [|done]. intros [|b pre] c post [= -> ->]; [by rewrite app_nil_r|].
      rewrite (cons_middle b l1 pre), app_assoc. by eapply Hl.
    + intros [Hl ->]. assert (Ha : ok l1 a) by (rewrite <-(app_nil_r l1); by eapply (Hl [])).
      assert (Hs := proj2 (Hf (acc (l1 ++ [a])) eq_refl Hl1) (conj Ha eq_refl)). rewrite Hs. simpl.
      apply IH; [by apply Hl1'|]. split; [|done]. intros pre b post ->. rewrite <-app_assoc. by eapply (Hl (a :: pre)).
Qed.

Lemma positions_forall {A} (P : A → Prop) l : (∀ pre a post, l = pre ++ a :: post → P a) ↔ Forall P l.
Proof.
  rewrite Forall_forall. split.
  - intros H a (l1 & l2 & ->)%list_elem_of_split. by eapply H.
  - intros H pre a post ->. apply H. apply elem_of_app. right. by left.
Qed.

Lemma positions_and {A} (P Q : list A → A → Prop) l :
  (∀ pre a post, l = pre ++ a :: post → P pre a ∧ Q pre a) ↔
  (∀ pre a post, l = pre ++ a :: post → P pre a) ∧ (∀ pre a post, l = pre ++ a :: post → Q pre a).
Proof.
  split; [intros H; split; intros ??? E; by destruct (H _ _ _ E)|]. intros [H1 H2] ??? E. eauto.
Qed.

Lemma positions_nodup {A B} (key : A → B) l : (∀ pre a post, l = pre ++ a :: post → key a ∉ map key pre) ↔ NoDup (map key l).
Proof.
  induction l as [|x l IH] using rev_ind; [split; [constructor|by intros _ []]|].
  rewrite map_app, NoDup_app, <-IH. split.
  - intros H. split_and!.
    + intros pre a post ->. eapply H. by rewrite <-app_assoc.
    + intros k Hk ->%list_elem_of_singleton. by eapply (H l x []).
    + apply NoDup_singleton.
  - intros (H1 & H2 & _) pre a post Heq. destruct post as [|b post _] using rev_ind.
    + apply app_inj_tail in Heq as [-> ->]. intros Hin. apply (H2 _ Hin). by left.
    + rewrite app_comm_cons, app_assoc in Heq. apply app_inj_tail in Heq as [-> _]. by eapply H1.
Qed.

Create HintDb gateway.
#[export] Hint Resolve u64_range i64_range : gateway.
#[export] Hint Rewrite @reject_ok @ok_inj orb_false_iff negb_false_iff negb_true_iff andb_true_iff andb_false_impl
  orb_true_or Z.ltb_lt Z.ltb_ge Z.leb_le Z.leb_gt Z.eqb_eq Z.eqb_neq String.eqb_eq String.eqb_neq
  contains_spec contains_false bool_decide_eq_true bool_decide_eq_false : guards.

(** ** Strings *)

Lemma string_app_nil_r s : (s ++ "")%string = s.
Proof. induction s as [|c s IH]; [done|]. exact (f_equal (String c) IH). Qed.
Lemma string_app_assoc a b c : (a ++ (b ++ c))%string = ((a ++ b) ++ c)%string.
Proof. induction a as [|x a IH]; [done|]. exact (f_equal (String x) IH). Qed.
