(* ===== verification/GoFloat.v ===== *)
(** * Go's [float64]

    A [float64] is an IEEE 754 binary64 datum of the Standard Library's
    executable specification ([SpecFloat], precision 53, maximal exponent
    1024, round to nearest even).  Every operation below is the operation the
    compiled program performs, rounding included; nothing is idealised to the
    reals. *)

From Stdlib Require Import Floats.SpecFloat.
From S2P Require Import Prelude.

Abbreviation float64 := spec_float.

Definition prec64 : Z := 53.
Definition emax64 : Z := 1024.

Definition fadd : float64 → float64 → float64 := SFadd prec64 emax64.
Definition fmul : float64 → float64 → float64 := SFmul prec64 emax64.
Definition fdiv : float64 → float64 → float64 := SFdiv prec64 emax64.
(** [a < b], [a <= b], [a == b] on float64 *)
Definition fltb : float64 → float64 → bool := SFltb.
Definition fleb : float64 → float64 → bool := SFleb.
Definition feqb : float64 → float64 → bool := SFeqb.
(** [float64(n)] for an integer [n] *)
Definition f_of_Z (n : Z) : float64 := binary_normalize prec64 emax64 n 0 false.

Definition f0 : float64 := S754_zero false.
Definition finf : float64 := S754_infinity false.
Definition f1e6 : float64 := f_of_Z 1000000.
Definition f1e9 : float64 := f_of_Z 1000000000.
Definition f1000 : float64 := f_of_Z 1000.
(** the constants [.8] and [.2] *)
Definition f08 : float64 := S754_finite false 7205759403792794 (-53).
Definition f02 : float64 := S754_finite false 7205759403792794 (-55).

Definition is_nan (x : float64) : bool :=
  match x with S754_nan => true | _ => false end.
Definition is_inf (x : float64) : bool :=
  match x with S754_infinity _ => true | _ => false end.

(** [math.Max] on the arguments the code gives it (no NaN; +0 above -0) *)
Definition fmax (x y : float64) : float64 :=
  if is_inf x && fltb f0 x then x
  else if is_inf y && fltb f0 y then y
  else if is_nan x || is_nan y then S754_nan
  else match x, y with
       | S754_zero sx, S754_zero _ => if sx then y else x
       | _, _ => if fltb y x then x else y
       end.

(** ** Order lemmas *)

(** [x] is not below zero: its sign bit is clear (or it is a zero or a NaN). *)
Definition not_neg (x : float64) : bool :=
  match x with
  | S754_zero _ | S754_nan => true
  | S754_infinity s | S754_finite s _ _ => negb s
  end.

Lemma not_neg_not_lt_zero x z : not_neg x = true → feqb z f0 = true → fltb x z = false.
Proof.
  destruct z as [s|s| |s m e]; try (destruct s; discriminate); try discriminate.
  destruct x as [sx|sx| |sx mx ex]; intros Hx _; try done; by destruct sx.
Qed.

Lemma fltb_irrefl x : fltb x x = false.
Proof.
  destruct x as [s|s| |s m e]; [done|by destruct s|done|].
  destruct s; unfold fltb, SFltb, SFcompare; rewrite Z.compare_refl; fold (Pos.compare m m);
    rewrite Pos.compare_refl; done.
Qed.

Lemma fleb_fltb x y : fleb x y = true → fltb y x = false.
Proof.
  unfold fleb, fltb, SFleb, SFltb.
  destruct x as [sx|sx| |sx mx ex], y as [sy|sy| |sy my ey]; try done;
    try (destruct sx; done); try (destruct sy; done); try (destruct sx, sy; done).
  simpl. fold (Pos.compare mx my) (Pos.compare my mx).
  destruct sx, sy; try done; rewrite (Z.compare_antisym ex ey), (Pos.compare_antisym mx my);
    destruct (Z.compare_spec ex ey); simpl; try done; destruct (Pos.compare mx my); done.
Qed.

Lemma binary_round_aux_not_neg m e l : not_neg (binary_round_aux prec64 emax64 false m e l) = true.
Proof.
  unfold binary_round_aux.
  destruct (shr_fexp prec64 emax64 m e l) as [mrs e1].
  destruct (shr_fexp _ _ _ _ _) as [mrs2 e2].
  destruct (shr_m mrs2); [done| |done]. by destruct (e2 <=? _)%Z.
Qed.

Lemma binary_normalize_not_neg m e : (0 ≤ m)%Z → not_neg (binary_normalize prec64 emax64 m e false) = true.
Proof.
  destruct m as [|p|p]; intros H; [done| |lia]. unfold binary_normalize, binary_round.
  destruct (shl_align _ _ _). apply binary_round_aux_not_neg.
Qed.

Lemma f_of_Z_not_neg n : (0 ≤ n)%Z → not_neg (f_of_Z n) = true.
Proof. apply binary_normalize_not_neg. Qed.

Lemma fadd_not_neg x y : not_neg x = true → not_neg y = true → not_neg (fadd x y) = true.
Proof.
  destruct x as [sx|sx| |sx mx ex], y as [sy|sy| |sy my ey]; try done;
    simpl; try (destruct sx; done); try (destruct sx, sy; done).
  intros ->%negb_true_iff ->%negb_true_iff. unfold fadd, SFadd.
  apply binary_normalize_not_neg. simpl. lia.
Qed.

Lemma fmul_not_neg x y : not_neg x = true → not_neg y = true → not_neg (fmul x y) = true.
Proof.
  destruct x as [sx|sx| |sx mx ex], y as [sy|sy| |sy my ey]; try done;
    simpl; try (destruct sx; done); try (destruct sx, sy; done).
  intros ->%negb_true_iff ->%negb_true_iff. apply binary_round_aux_not_neg.
Qed.

Lemma fdiv_not_neg x y :
  not_neg x = true → not_neg y = true → y ≠ S754_zero true → not_neg (fdiv x y) = true.
Proof.
  destruct x as [sx|sx| |sx mx ex], y as [sy|sy| |sy my ey]; try done;
    simpl; try (destruct sx; done); try (destruct sx, sy; done).
  intros ->%negb_true_iff ->%negb_true_iff _. unfold fdiv, SFdiv.
  destruct (SFdiv_core_binary _ _ _ _ _ _) as [[mz ez] lz]. apply binary_round_aux_not_neg.
Qed.

Lemma f_of_Z_not_negzero n : f_of_Z n ≠ S754_zero true ∨ (n < 0)%Z.
Proof.
  destruct n as [|p|p]; [by left| |by right; lia]. left.
  unfold f_of_Z, binary_normalize, binary_round. destruct (shl_align _ _ _).
  unfold binary_round_aux. destruct (shr_fexp _ _ _ _ _) as [? ?]. destruct (shr_fexp _ _ _ _ _) as [mrs ?].
  destruct (shr_m mrs); [done| |done]. by destruct (_ <=? _)%Z.
Qed.

(** A quotient of counters, the load of a source or account, is not negative. *)
Lemma fdiv_counts_not_neg a b : (0 ≤ a)%Z → (0 ≤ b)%Z → not_neg (fdiv (f_of_Z a) (f_of_Z b)) = true.
Proof.
  intros Ha Hb. destruct (f_of_Z_not_negzero a), (f_of_Z_not_negzero b); try lia.
  apply fdiv_not_neg; auto using f_of_Z_not_neg.
Qed.

#[export] Hint Resolve f_of_Z_not_neg fadd_not_neg fmul_not_neg fdiv_counts_not_neg : gateway.
