(* ===== verification/Sha256.v ===== *)
(** * SHA-256 ([crypto/sha256.Sum256])

    The router's sticky pools, the device lease and the session digests hash
    strings.  The function is executable; [sha256_abc] and [sha256_empty] check
    it against the FIPS 180-4 vectors. *)

From S2P Require Import Prelude.
Local Open Scope Z_scope.

Definition w32 (z : Z) : Z := Z.land z 4294967295.
Definition rotr (n x : Z) : Z := w32 (Z.lor (Z.shiftr x n) (Z.shiftl x (32 - n))).
Definition not32 (x : Z) : Z := Z.lxor x 4294967295.

Definition sha_k : list Z := [
  1116352408;1899447441;3049323471;3921009573;961987163;1508970993;2453635748;2870763221;
  3624381080;310598401;607225278;1426881987;1925078388;2162078206;2614888103;3248222580;
  3835390401;4022224774;264347078;604807628;770255983;1249150122;1555081692;1996064986;
  2554220882;2821834349;2952996808;3210313671;3336571891;3584528711;113926993;338241895;
  666307205;773529912;1294757372;1396182291;1695183700;1986661051;2177026350;2456956037;
  2730485921;2820302411;3259730800;3345764771;3516065817;3600352804;4094571909;275423344;
  430227734;506948616;659060556;883997877;958139571;1322822218;1537002063;1747873779;
  1955562222;2024104815;2227730452;2361852424;2428436474;2756734187;3204031479;3329325298].

Definition sha_h0 : list Z := [
  1779033703;3144134277;1013904242;2773480762;1359893119;2600822924;528734635;1541459225].

(** Bytes of a string, and the padded message. *)
Definition bytes_of (s : string) : list Z :=
  map (λ c, Z.of_N (N_of_ascii c)) (list_ascii_of_string s).

Definition be_bytes (n : nat) (z : Z) : list Z :=
  map (λ i, Z.land (Z.shiftr z (8 * Z.of_nat (n - 1 - i))) 255) (seq 0 n).

Definition be_value (l : list Z) : Z := fold_left (λ acc b, acc * 256 + b) l 0.

Definition sha_pad (m : list Z) : list Z :=
  let len := length m in
  let zeros := ((119 - len mod 64) mod 64)%nat in
  m ++ [128] ++ repeat 0 zeros ++ be_bytes 8 (8 * Z.of_nat len).

Fixpoint chunks (fuel n : nat) (l : list Z) : list (list Z) :=
  match fuel with
  | O => []
  | S fuel' =>
      match l with
      | [] => []
      | _ => take n l :: chunks fuel' n (drop n l)
      end
  end.

(** The message schedule, newest word first. *)
Fixpoint sha_extend (fuel : nat) (w : list Z) : list Z :=
  match fuel with
  | O => w
  | S fuel' =>
      let at_ i := nth i w 0 in
      let w15 := at_ 14%nat in let w2 := at_ 1%nat in
      let s0 := Z.lxor (Z.lxor (rotr 7 w15) (rotr 18 w15)) (Z.shiftr w15 3) in
      let s1 := Z.lxor (Z.lxor (rotr 17 w2) (rotr 19 w2)) (Z.shiftr w2 10) in
      sha_extend fuel' (w32 (at_ 15%nat + s0 + at_ 6%nat + s1) :: w)
  end.

Definition sha_schedule (block : list Z) : list Z :=
  rev (sha_extend 48 (rev (map be_value (chunks 16 4 block)))).

Definition sha_round (st : list Z) (kw : Z * Z) : list Z :=
  match st with
  | [a; b; c; d; e; f; g; h] =>
      let s1 := Z.lxor (Z.lxor (rotr 6 e) (rotr 11 e)) (rotr 25 e) in
      let ch := Z.lxor (Z.land e f) (Z.land (not32 e) g) in
      let t1 := h + s1 + ch + fst kw + snd kw in
      let s0 := Z.lxor (Z.lxor (rotr 2 a) (rotr 13 a)) (rotr 22 a) in
      let maj := Z.lxor (Z.lxor (Z.land a b) (Z.land a c)) (Z.land b c) in
      [w32 (t1 + s0 + maj); a; b; c; w32 (d + t1); e; f; g]
  | _ => st
  end.

Definition sha_block (st block : list Z) : list Z :=
  zip_with (λ x y, w32 (x + y)) st (fold_left sha_round (zip sha_k (sha_schedule block)) st).

(** The 32 digest bytes. *)
Definition sha256 (m : list Z) : list Z :=
  let p := sha_pad m in
  mjoin (map (be_bytes 4) (fold_left sha_block (chunks (length p) 64 p) sha_h0)).

Definition sha256_string (s : string) : list Z := sha256 (bytes_of s).

(** [hex.EncodeToString] *)
Definition hex_digit (z : Z) : ascii :=
  nth (Z.to_nat z) (list_ascii_of_string "0123456789abcdef") "0"%char.
Definition hex_encode (l : list Z) : string :=
  string_of_list_ascii (mjoin (map (λ b, [hex_digit (Z.shiftr b 4); hex_digit (Z.land b 15)]) l)).

Example sha256_abc :
  hex_encode (sha256_string "abc") = "ba7816bf8f01cfea414140de5dae2223b00361a396177a9cb410ff61f20015ad".
Proof. vm_compute. reflexivity. Qed.

Example sha256_empty :
  hex_encode (sha256_string "") = "e3b0c44298fc1c149afbf4c8996fb92427ae41e4649b934ca495991b7852b855".
Proof. vm_compute. reflexivity. Qed.

Example sha256_two_blocks :
  hex_encode (sha256_string "abcdbcdecdefdefgefghfghighijhijkijkljklmklmnlmnomnopnopq")
  = "248d6a61d20638b8e5c026930c3e6039a33ce45964ff2167f6ecedd419db06c1".
Proof. vm_compute. reflexivity. Qed.

Lemma be_value_nonneg l : Forall (λ b, 0 ≤ b) l → 0 ≤ be_value l.
Proof.
  intros H. unfold be_value. enough (∀ a, 0 ≤ a → 0 ≤ fold_left (λ acc b, acc * 256 + b) l a) by auto with lia.
  induction H as [|b l Hb _ IH]; intros a Ha; simpl; [done|]. apply IH. lia.
Qed.

Lemma sha256_nonneg m : Forall (λ b, 0 ≤ b) (sha256 m).
Proof.
  unfold sha256. generalize (fold_left sha_block (chunks (length (sha_pad m)) 64 (sha_pad m)) sha_h0).
  induction l as [|z l IH]; [constructor|]. apply Forall_app. split; [|exact IH].
  unfold be_bytes. apply Forall_map, Forall_forall. intros i _. apply Z.land_nonneg. lia.
Qed.
