(* ===== verification/ConfigData.v ===== *)
(** * Configuration data ([internal/config], the data types and the policy
    predicates the router reads)

    The structs of [config.go], [accounts.go] and [browser_profiles.go] field
    by field, and the pure methods on them ([metadata.go], [pricing.go],
    [Tier]).  A pointer field is an [option]; a [time.Time] is a number of
    nanoseconds since Go's zero time.  The two resolver callbacks of [Source]
    (never serialised) are arguments of the functions of file Credential. *)

From S2P Require Import Prelude GoFloat.

Record BrowserProfile := {
  bp_External : bool; bp_ID : string; bp_Enabled : bool; bp_Engine : string; bp_CDPURL : string }.

Record Provider := {
  p_ID : string; p_Enabled : bool; p_AutoApproved : bool; p_PoolStrategy : string }.

Record Account := {
  a_VerificationState : string; a_VerificationVersion : Z; a_VerificationBinding : string;
  a_VerificationAt : option Z; a_ID : string; a_ProviderID : string; a_DisplayName : string;
  a_Enabled : bool; a_AutoApproved : bool; a_CredentialRef : string; a_LoginCredentialRef : string;
  a_ExpectedIdentity : string; a_CredentialTypeOverride : bool; a_BrowserProfileID : string;
  a_BaseURL : string; a_Organization : string; a_Project : string; a_QuotaDomain : string;
  a_MaxInflight : Z; a_Weight : Z; a_CreatedAt : Z }.

Record Device := {
  d_Enabled : bool; d_ADBPath : string; d_Serial : string; d_StateDir : string;
  d_OCRPath : string; d_OCRDataDir : string; d_ClipboardSyncMS : Z }.

Record Browser := {
  b_ExpectedIdentity : string; b_Engine : string; b_Enabled : bool; b_CDPURL : string;
  b_StateFile : string; b_MaxSessions : Z; b_SessionTTLSeconds : Z; b_PollMS : Z;
  b_MaxPromptBytes : Z; b_MaxResponseBytes : Z }.

Record Runtime := {
  rt_MaxInflight : Z; rt_MaxQueued : Z; rt_MaxBodyBytes : Z; rt_MaxBufferedBytes : Z;
  rt_MaxOutputBytes : Z; rt_QueueTimeoutMS : Z; rt_RequestTimeoutMS : Z; rt_WriteTimeoutMS : Z;
  rt_BodyReadTimeoutMS : Z }.

Record Model := {
  m_InputUSDPerMillion : option float64; m_OutputUSDPerMillion : option float64;
  m_Enabled : option bool; m_AutoApproved : option bool; m_DeclaredModel : string;
  m_CanonicalModel : string; m_ID : string; m_Upstream : string; m_Protocols : list string;
  m_Tier : string; m_RatingBasis : string; m_Tools : string; m_Vision : bool;
  m_MaxInputBytes : Z }.

Record Source := {
  s_Weight : Z; s_AccountID : string; s_CredentialRef : string; s_CredentialTypeOverride : bool;
  s_SourceKind : string; s_ExecutionLocation : string; s_InferenceLocation : string;
  s_BillingMode : string; s_CredentialMode : string; s_ID : string; s_Provider : string;
  s_Adapter : string; s_BaseURL : string; s_KeyEnv : string; s_AccountIDEnv : string;
  s_Organization : string; s_Project : string; s_Enabled : bool; s_AutoApproved : bool;
  s_Local : bool; s_Anonymous : bool; s_Paid : bool; s_MaxInflight : Z; s_QuotaDomain : string;
  s_QuotaMaxInflight : Z; s_Models : list Model }.

Record Group := {
  g_RequireVision : bool; g_MaxUSDPerMillion : option float64; g_MaxUSDPerRequest : option float64;
  g_Preferences : list string; g_MaxAttempts : Z; g_AllowMetered : option bool;
  g_AllowSubscription : option bool; g_AllowUnknownCost : option bool;
  g_AllowedSourceKinds : list string; g_ID : string; g_Type : string; g_Sources : list string;
  g_MinTier : string; g_AllowUnrated : bool; g_AllowPaid : bool; g_LocalOnly : bool;
  g_RequireTools : bool }.

Record Config := {
  c_BrowserProfiles : list BrowserProfile; c_Providers : list Provider; c_Accounts : list Account;
  c_SchemaVersion : Z; c_Listen : string; c_APIKeyEnv : string; c_AdminKeyEnv : string;
  c_Runtime : Runtime; c_Browser : Browser; c_Device : Device; c_Sources : list Source;
  c_Groups : list Group }.

(** The zero values of the structs a lookup in a Go map can return. *)
Definition zero_Provider : Provider :=
  {| p_ID := ""; p_Enabled := false; p_AutoApproved := false; p_PoolStrategy := "" |}.

Definition zero_Account : Account :=
  {| a_VerificationState := ""; a_VerificationVersion := 0; a_VerificationBinding := "";
     a_VerificationAt := None; a_ID := ""; a_ProviderID := ""; a_DisplayName := "";
     a_Enabled := false; a_AutoApproved := false; a_CredentialRef := ""; a_LoginCredentialRef := "";
     a_ExpectedIdentity := ""; a_CredentialTypeOverride := false; a_BrowserProfileID := "";
     a_BaseURL := ""; a_Organization := ""; a_Project := ""; a_QuotaDomain := "";
     a_MaxInflight := 0; a_Weight := 0; a_CreatedAt := 0 |}.

Definition zero_Group : Group :=
  {| g_RequireVision := false; g_MaxUSDPerMillion := None; g_MaxUSDPerRequest := None;
     g_Preferences := []; g_MaxAttempts := 0; g_AllowMetered := None; g_AllowSubscription := None;
     g_AllowUnknownCost := None; g_AllowedSourceKinds := []; g_ID := ""; g_Type := "";
     g_Sources := []; g_MinTier := ""; g_AllowUnrated := false; g_AllowPaid := false;
     g_LocalOnly := false; g_RequireTools := false |}.

Definition zero_Model : Model :=
  {| m_InputUSDPerMillion := None; m_OutputUSDPerMillion := None; m_Enabled := None;
     m_AutoApproved := None; m_DeclaredModel := ""; m_CanonicalModel := ""; m_ID := "";
     m_Upstream := ""; m_Protocols := []; m_Tier := ""; m_RatingBasis := ""; m_Tools := "";
     m_Vision := false; m_MaxInputBytes := 0 |}.

Definition zero_Source : Source :=
  {| s_Weight := 0; s_AccountID := ""; s_CredentialRef := ""; s_CredentialTypeOverride := false;
     s_SourceKind := ""; s_ExecutionLocation := ""; s_InferenceLocation := ""; s_BillingMode := "";
     s_CredentialMode := ""; s_ID := ""; s_Provider := ""; s_Adapter := ""; s_BaseURL := "";
     s_KeyEnv := ""; s_AccountIDEnv := ""; s_Organization := ""; s_Project := "";
     s_Enabled := false; s_AutoApproved := false; s_Local := false; s_Anonymous := false;
     s_Paid := false; s_MaxInflight := 0; s_QuotaDomain := ""; s_QuotaMaxInflight := 0;
     s_Models := [] |}.

(** ** Tiers, metadata and billing *)

Definition Tier (s : string) : Z :=
  if (s =? "bronze")%string then 0
  else if (s =? "silver")%string then 1
  else if (s =? "gold")%string then 2
  else if (s =? "platinum")%string then 3
  else if (s =? "diamond")%string then 4
  else -1.

Definition LocalInference (s : Source) : bool :=
  (s_InferenceLocation s =? "local")%string && (s_SourceKind s =? "local_model")%string && s_Local s.

Definition EffectiveBilling (s : Source) : string :=
  if negb (s_BillingMode s =? "")%string then s_BillingMode s
  else if s_Paid s then "metered" else "unknown".

Definition BillingAllowed (g : Group) (s : Source) : bool :=
  let b := EffectiveBilling s in
  if (b =? "free_allowance")%string || (b =? "local")%string then true
  else
    let override :=
      if (b =? "metered")%string then g_AllowMetered g
      else if (b =? "subscription")%string then g_AllowSubscription g
      else if (b =? "unknown")%string then g_AllowUnknownCost g
      else None in
    match override with
    | Some v => v
    | None => if (b =? "unknown")%string then false else g_AllowPaid g
    end.

(** ** Prices *)

Definition ValidPrice (price : option float64) : bool :=
  match price with
  | None => true
  | Some p => negb (is_nan p) && negb (is_inf p) && fleb f0 p && fleb p f1e9
  end.

Definition UnitCost (m : Model) : float64 * bool :=
  match m_InputUSDPerMillion m, m_OutputUSDPerMillion m with
  | Some i, Some o =>
      if negb (ValidPrice (Some i)) || negb (ValidPrice (Some o)) then (f0, false)
      else (fmax i o, true)
  | _, _ => (f0, false)
  end.

(** ** Lemmas *)

Lemma Tier_range s : (-1 ≤ Tier s ≤ 4)%Z.
Proof. unfold Tier. repeat case_match; lia. Qed.

(** A source of unknown cost is admitted only by an explicit opt-in. *)
Lemma unknown_cost_needs_opt_in g s :
  EffectiveBilling s = "unknown" → BillingAllowed g s = true → g_AllowUnknownCost g = Some true.
Proof.
  unfold BillingAllowed. intros ->. simpl.
  destruct (g_AllowUnknownCost g) as [[]|]; naive_solver.
Qed.

Lemma valid_price_not_neg p : ValidPrice (Some p) = true → not_neg p = true.
Proof.
  unfold ValidPrice. intros H. bool_prop.
  destruct p as [s|s| |s m e]; try done; by destruct s.
Qed.
