(* ===== verification/Execution.v ===== *)
(** * Execution results ([internal/protocol/execution.go], [redaction.go])

    The record a gateway attempt leaves behind, when it counts as a success,
    and the redaction that keeps adapter error text out of the runtime state. *)

From S2P Require Import Prelude.

Record ExecutionResult := {
  er_InputTokens : Z; er_OutputTokens : Z; er_TotalTokens : Z; er_UsageKnown : bool;
  er_UpstreamStatus : Z; er_TransportOK : bool; er_ProtocolComplete : bool;
  er_UpstreamError : string; er_ClientCanceled : bool }.

Definition zero_ExecutionResult : ExecutionResult :=
  {| er_InputTokens := 0; er_OutputTokens := 0; er_TotalTokens := 0; er_UsageKnown := false;
     er_UpstreamStatus := 0; er_TransportOK := false; er_ProtocolComplete := false;
     er_UpstreamError := ""; er_ClientCanceled := false |}.

Definition Successful (r : ExecutionResult) : bool :=
  er_TransportOK r && er_ProtocolComplete r && (er_UpstreamError r =? "")%string
  && negb (er_ClientCanceled r).

(** The error categories [Redacted] keeps (the case labels of its switch). *)
Definition error_categories : list string :=
  [""; "upstream_error"; "unexpected_completion_marker"; "invalid_sse_json";
   "upstream_incomplete"; "upstream_blocked"; "unknown_stream_protocol";
   "invalid_choice_index"; "missing_completion"; "truncated_stream";
   "output_limit"; "transport_or_adapter_error"; "upstream_rejected"; "expected_stream"].

Definition er_set_error (r : ExecutionResult) (e : string) : ExecutionResult :=
  {| er_InputTokens := er_InputTokens r; er_OutputTokens := er_OutputTokens r;
     er_TotalTokens := er_TotalTokens r; er_UsageKnown := er_UsageKnown r;
     er_UpstreamStatus := er_UpstreamStatus r; er_TransportOK := er_TransportOK r;
     er_ProtocolComplete := er_ProtocolComplete r; er_UpstreamError := e;
     er_ClientCanceled := er_ClientCanceled r |}.

Definition Redacted (r : ExecutionResult) : ExecutionResult :=
  if contains error_categories (er_UpstreamError r) then r
  else er_set_error r "upstream_error".

Lemma redacted_category r : er_UpstreamError (Redacted r) ∈ error_categories.
Proof.
  unfold Redacted. destruct (contains error_categories _) eqn:E; [by apply contains_spec|].
  apply contains_spec. reflexivity.
Qed.

(** C: redaction keeps only gateway-owned categories, never turns a failure
    into a success or the reverse, and is idempotent. *)
Lemma redacted_successful r : Successful (Redacted r) = Successful r.
Proof.
  unfold Redacted. destruct (contains error_categories (er_UpstreamError r)) eqn:E; [done|].
  unfold Successful. simpl. apply contains_false in E.
  destruct (String.eqb_spec (er_UpstreamError r) "") as [H|H]; [|done].
  rewrite H in E. exfalso. apply E. constructor.
Qed.

Lemma redacted_idem r : Redacted (Redacted r) = Redacted r.
Proof. unfold Redacted at 1. pose proof (redacted_category r) as H%contains_spec. by rewrite H. Qed.

#[export] Hint Rewrite redacted_successful redacted_idem : gateway.
