(* ===== verification/RouterData.v ===== *)
(** * The router's data ([internal/routing], the types)

    The structs of [router.go] and [events.go] field by field.  A Go pointer is
    a location ([loc]) of an explicit store [heap]: states, quotas, capacities,
    routers and leases are shared between router generations, so the aliasing
    matters and is modelled.  The intrusive list [head]/[tail]/[next] of waiters
    is the list [r_queue]; a waiter's [ready] channel (capacity one) is a flag;
    a context is a number, in [h_done] once it is done; a [sync.Once] is a flag
    set by its first use.  All methods of the package hold one mutex, so every
    operation is one atomic step that reads one clock value [now]. *)

From S2P Require Import Prelude GoFloat ConfigData Execution.
Local Open Scope Z_scope.

Abbreviation loc := nat.

Record Target := mk_Target { t_Source : nat; t_Model : Model }.
Definition zero_Target : Target := mk_Target 0 zero_Model.

Record state := mk_state {
  st_inputTokens : Z;
  st_outputTokens : Z;
  st_totalTokens : Z;
  st_estimatedCost : float64;
  st_costKnown : bool;
  st_executions : Z;
  st_pricedExecutions : Z;
  st_lastExecution : option ExecutionResult;
  st_ttftMS : float64;
  st_lastSuccess : Z;
  st_lastFailure : Z;
  st_lastHTTPStatus : Z;
  st_virtualFinish : float64;
  st_enabled : bool;
  st_active : Z;
  st_cooldown : Z;
  st_failures : Z;
  st_completed : Z;
  st_latency : float64;
  st_blocked : bool }.

Definition zero_state : state :=
  mk_state 0 0 0 f0 false 0 0 None f0 0 0 0 f0 false 0 0 0 0 f0 false.
Definition with_st_enabled (v : bool) (st : state) : state :=
  mk_state (st_inputTokens st) (st_outputTokens st) (st_totalTokens st) (st_estimatedCost st) (st_costKnown st) (st_executions st) (st_pricedExecutions st) (st_lastExecution st) (st_ttftMS st) (st_lastSuccess st) (st_lastFailure st) (st_lastHTTPStatus st) (st_virtualFinish st) v (st_active st) (st_cooldown st) (st_failures st) (st_completed st) (st_latency st) (st_blocked st).
Definition with_st_active (v : Z) (st : state) : state :=
  mk_state (st_inputTokens st) (st_outputTokens st) (st_totalTokens st) (st_estimatedCost st) (st_costKnown st) (st_executions st) (st_pricedExecutions st) (st_lastExecution st) (st_ttftMS st) (st_lastSuccess st) (st_lastFailure st) (st_lastHTTPStatus st) (st_virtualFinish st) (st_enabled st) v (st_cooldown st) (st_failures st) (st_completed st) (st_latency st) (st_blocked st).
Definition with_st_virtualFinish (v : float64) (st : state) : state :=
  mk_state (st_inputTokens st) (st_outputTokens st) (st_totalTokens st) (st_estimatedCost st) (st_costKnown st) (st_executions st) (st_pricedExecutions st) (st_lastExecution st) (st_ttftMS st) (st_lastSuccess st) (st_lastFailure st) (st_lastHTTPStatus st) v (st_enabled st) (st_active st) (st_cooldown st) (st_failures st) (st_completed st) (st_latency st) (st_blocked st).
Definition with_st_blocked (v : bool) (st : state) : state :=
  mk_state (st_inputTokens st) (st_outputTokens st) (st_totalTokens st) (st_estimatedCost st) (st_costKnown st) (st_executions st) (st_pricedExecutions st) (st_lastExecution st) (st_ttftMS st) (st_lastSuccess st) (st_lastFailure st) (st_lastHTTPStatus st) (st_virtualFinish st) (st_enabled st) (st_active st) (st_cooldown st) (st_failures st) (st_completed st) (st_latency st) v.
Definition with_st_cooldown (v : Z) (st : state) : state :=
  mk_state (st_inputTokens st) (st_outputTokens st) (st_totalTokens st) (st_estimatedCost st) (st_costKnown st) (st_executions st) (st_pricedExecutions st) (st_lastExecution st) (st_ttftMS st) (st_lastSuccess st) (st_lastFailure st) (st_lastHTTPStatus st) (st_virtualFinish st) (st_enabled st) (st_active st) v (st_failures st) (st_completed st) (st_latency st) (st_blocked st).
Definition with_st_lastHTTPStatus (v : Z) (st : state) : state :=
  mk_state (st_inputTokens st) (st_outputTokens st) (st_totalTokens st) (st_estimatedCost st) (st_costKnown st) (st_executions st) (st_pricedExecutions st) (st_lastExecution st) (st_ttftMS st) (st_lastSuccess st) (st_lastFailure st) v (st_virtualFinish st) (st_enabled st) (st_active st) (st_cooldown st) (st_failures st) (st_completed st) (st_latency st) (st_blocked st).
Definition with_st_lastSuccess (v : Z) (st : state) : state :=
  mk_state (st_inputTokens st) (st_outputTokens st) (st_totalTokens st) (st_estimatedCost st) (st_costKnown st) (st_executions st) (st_pricedExecutions st) (st_lastExecution st) (st_ttftMS st) v (st_lastFailure st) (st_lastHTTPStatus st) (st_virtualFinish st) (st_enabled st) (st_active st) (st_cooldown st) (st_failures st) (st_completed st) (st_latency st) (st_blocked st).
Definition with_st_completed (v : Z) (st : state) : state :=
  mk_state (st_inputTokens st) (st_outputTokens st) (st_totalTokens st) (st_estimatedCost st) (st_costKnown st) (st_executions st) (st_pricedExecutions st) (st_lastExecution st) (st_ttftMS st) (st_lastSuccess st) (st_lastFailure st) (st_lastHTTPStatus st) (st_virtualFinish st) (st_enabled st) (st_active st) (st_cooldown st) (st_failures st) v (st_latency st) (st_blocked st).
Definition with_st_latency (v : float64) (st : state) : state :=
  mk_state (st_inputTokens st) (st_outputTokens st) (st_totalTokens st) (st_estimatedCost st) (st_costKnown st) (st_executions st) (st_pricedExecutions st) (st_lastExecution st) (st_ttftMS st) (st_lastSuccess st) (st_lastFailure st) (st_lastHTTPStatus st) (st_virtualFinish st) (st_enabled st) (st_active st) (st_cooldown st) (st_failures st) (st_completed st) v (st_blocked st).
Definition with_st_lastFailure (v : Z) (st : state) : state :=
  mk_state (st_inputTokens st) (st_outputTokens st) (st_totalTokens st) (st_estimatedCost st) (st_costKnown st) (st_executions st) (st_pricedExecutions st) (st_lastExecution st) (st_ttftMS st) (st_lastSuccess st) v (st_lastHTTPStatus st) (st_virtualFinish st) (st_enabled st) (st_active st) (st_cooldown st) (st_failures st) (st_completed st) (st_latency st) (st_blocked st).
Definition with_st_failures (v : Z) (st : state) : state :=
  mk_state (st_inputTokens st) (st_outputTokens st) (st_totalTokens st) (st_estimatedCost st) (st_costKnown st) (st_executions st) (st_pricedExecutions st) (st_lastExecution st) (st_ttftMS st) (st_lastSuccess st) (st_lastFailure st) (st_lastHTTPStatus st) (st_virtualFinish st) (st_enabled st) (st_active st) (st_cooldown st) v (st_completed st) (st_latency st) (st_blocked st).
Definition with_st_inputTokens (v : Z) (st : state) : state :=
  mk_state v (st_outputTokens st) (st_totalTokens st) (st_estimatedCost st) (st_costKnown st) (st_executions st) (st_pricedExecutions st) (st_lastExecution st) (st_ttftMS st) (st_lastSuccess st) (st_lastFailure st) (st_lastHTTPStatus st) (st_virtualFinish st) (st_enabled st) (st_active st) (st_cooldown st) (st_failures st) (st_completed st) (st_latency st) (st_blocked st).
Definition with_st_outputTokens (v : Z) (st : state) : state :=
  mk_state (st_inputTokens st) v (st_totalTokens st) (st_estimatedCost st) (st_costKnown st) (st_executions st) (st_pricedExecutions st) (st_lastExecution st) (st_ttftMS st) (st_lastSuccess st) (st_lastFailure st) (st_lastHTTPStatus st) (st_virtualFinish st) (st_enabled st) (st_active st) (st_cooldown st) (st_failures st) (st_completed st) (st_latency st) (st_blocked st).
Definition with_st_totalTokens (v : Z) (st : state) : state :=
  mk_state (st_inputTokens st) (st_outputTokens st) v (st_estimatedCost st) (st_costKnown st) (st_executions st) (st_pricedExecutions st) (st_lastExecution st) (st_ttftMS st) (st_lastSuccess st) (st_lastFailure st) (st_lastHTTPStatus st) (st_virtualFinish st) (st_enabled st) (st_active st) (st_cooldown st) (st_failures st) (st_completed st) (st_latency st) (st_blocked st).
Definition with_st_executions (v : Z) (st : state) : state :=
  mk_state (st_inputTokens st) (st_outputTokens st) (st_totalTokens st) (st_estimatedCost st) (st_costKnown st) v (st_pricedExecutions st) (st_lastExecution st) (st_ttftMS st) (st_lastSuccess st) (st_lastFailure st) (st_lastHTTPStatus st) (st_virtualFinish st) (st_enabled st) (st_active st) (st_cooldown st) (st_failures st) (st_completed st) (st_latency st) (st_blocked st).
Definition with_st_pricedExecutions (v : Z) (st : state) : state :=
  mk_state (st_inputTokens st) (st_outputTokens st) (st_totalTokens st) (st_estimatedCost st) (st_costKnown st) (st_executions st) v (st_lastExecution st) (st_ttftMS st) (st_lastSuccess st) (st_lastFailure st) (st_lastHTTPStatus st) (st_virtualFinish st) (st_enabled st) (st_active st) (st_cooldown st) (st_failures st) (st_completed st) (st_latency st) (st_blocked st).
Definition with_st_estimatedCost (v : float64) (st : state) : state :=
  mk_state (st_inputTokens st) (st_outputTokens st) (st_totalTokens st) v (st_costKnown st) (st_executions st) (st_pricedExecutions st) (st_lastExecution st) (st_ttftMS st) (st_lastSuccess st) (st_lastFailure st) (st_lastHTTPStatus st) (st_virtualFinish st) (st_enabled st) (st_active st) (st_cooldown st) (st_failures st) (st_completed st) (st_latency st) (st_blocked st).
Definition with_st_costKnown (v : bool) (st : state) : state :=
  mk_state (st_inputTokens st) (st_outputTokens st) (st_totalTokens st) (st_estimatedCost st) v (st_executions st) (st_pricedExecutions st) (st_lastExecution st) (st_ttftMS st) (st_lastSuccess st) (st_lastFailure st) (st_lastHTTPStatus st) (st_virtualFinish st) (st_enabled st) (st_active st) (st_cooldown st) (st_failures st) (st_completed st) (st_latency st) (st_blocked st).
Definition with_st_lastExecution (v : option ExecutionResult) (st : state) : state :=
  mk_state (st_inputTokens st) (st_outputTokens st) (st_totalTokens st) (st_estimatedCost st) (st_costKnown st) (st_executions st) (st_pricedExecutions st) v (st_ttftMS st) (st_lastSuccess st) (st_lastFailure st) (st_lastHTTPStatus st) (st_virtualFinish st) (st_enabled st) (st_active st) (st_cooldown st) (st_failures st) (st_completed st) (st_latency st) (st_blocked st).
Definition with_st_ttftMS (v : float64) (st : state) : state :=
  mk_state (st_inputTokens st) (st_outputTokens st) (st_totalTokens st) (st_estimatedCost st) (st_costKnown st) (st_executions st) (st_pricedExecutions st) (st_lastExecution st) v (st_lastSuccess st) (st_lastFailure st) (st_lastHTTPStatus st) (st_virtualFinish st) (st_enabled st) (st_active st) (st_cooldown st) (st_failures st) (st_completed st) (st_latency st) (st_blocked st).

Record quota := mk_quota {
  q_lastDispatch : Z;
  q_virtualFinish : float64;
  q_active : Z;
  q_limit : Z;
  q_cooldown : Z }.

Definition zero_quota : quota := mk_quota 0 f0 0 0 0.
Definition with_q_lastDispatch (v : Z) (qt : quota) : quota :=
  mk_quota v (q_virtualFinish qt) (q_active qt) (q_limit qt) (q_cooldown qt).
Definition with_q_virtualFinish (v : float64) (qt : quota) : quota :=
  mk_quota (q_lastDispatch qt) v (q_active qt) (q_limit qt) (q_cooldown qt).
Definition with_q_active (v : Z) (qt : quota) : quota :=
  mk_quota (q_lastDispatch qt) (q_virtualFinish qt) v (q_limit qt) (q_cooldown qt).
Definition with_q_limit (v : Z) (qt : quota) : quota :=
  mk_quota (q_lastDispatch qt) (q_virtualFinish qt) (q_active qt) v (q_cooldown qt).
Definition with_q_cooldown (v : Z) (qt : quota) : quota :=
  mk_quota (q_lastDispatch qt) (q_virtualFinish qt) (q_active qt) (q_limit qt) v.

Record compiledGroup := mk_compiledGroup { cg_Group : Group; cg_members : gmap string Z }.
Definition zero_compiledGroup : compiledGroup := mk_compiledGroup zero_Group ∅.

Record Query := {
  qr_Probe : bool; qr_Detail : bool; qr_ExcludedSources : list string; qr_Affinity : string;
  qr_Model : string; qr_Protocol : string; qr_Tools : bool; qr_Bytes : Z; qr_OutputTokens : Z;
  qr_SpentUSD : float64; qr_Stateful : bool; qr_Vision : bool }.

Record waiter := { w_id : nat; w_query : Query; w_ctx : nat; w_ready : bool }.

Record ExecutionEvent := {
  ev_Sequence : Z; ev_FinishedAt : Z; ev_Source : string; ev_Model : string;
  ev_Protocol : string; ev_Validation : bool; ev_Status : Z; ev_Outcome : string;
  ev_DurationMS : float64; ev_TTFTMS : float64; ev_Execution : option ExecutionResult }.

Record capacity := mk_capacity {
  cap_events : list ExecutionEvent;
  cap_eventCursor : nat;
  cap_eventSequence : Z;
  cap_active : Z;
  cap_dispatchSequence : Z;
  cap_sourceStates : gmap string loc;
  cap_quotaStates : gmap string loc;
  cap_accountStates : gmap string loc;
  cap_current : loc }.

Definition zero_capacity : capacity := mk_capacity [] 0 0 0 0 ∅ ∅ ∅ 0.
Definition with_cap_events (v : list ExecutionEvent) (c : capacity) : capacity :=
  mk_capacity v (cap_eventCursor c) (cap_eventSequence c) (cap_active c) (cap_dispatchSequence c) (cap_sourceStates c) (cap_quotaStates c) (cap_accountStates c) (cap_current c).
Definition with_cap_eventCursor (v : nat) (c : capacity) : capacity :=
  mk_capacity (cap_events c) v (cap_eventSequence c) (cap_active c) (cap_dispatchSequence c) (cap_sourceStates c) (cap_quotaStates c) (cap_accountStates c) (cap_current c).
Definition with_cap_eventSequence (v : Z) (c : capacity) : capacity :=
  mk_capacity (cap_events c) (cap_eventCursor c) v (cap_active c) (cap_dispatchSequence c) (cap_sourceStates c) (cap_quotaStates c) (cap_accountStates c) (cap_current c).
Definition with_cap_active (v : Z) (c : capacity) : capacity :=
  mk_capacity (cap_events c) (cap_eventCursor c) (cap_eventSequence c) v (cap_dispatchSequence c) (cap_sourceStates c) (cap_quotaStates c) (cap_accountStates c) (cap_current c).
Definition with_cap_dispatchSequence (v : Z) (c : capacity) : capacity :=
  mk_capacity (cap_events c) (cap_eventCursor c) (cap_eventSequence c) (cap_active c) v (cap_sourceStates c) (cap_quotaStates c) (cap_accountStates c) (cap_current c).
Definition with_cap_sourceStates (v : gmap string loc) (c : capacity) : capacity :=
  mk_capacity (cap_events c) (cap_eventCursor c) (cap_eventSequence c) (cap_active c) (cap_dispatchSequence c) v (cap_quotaStates c) (cap_accountStates c) (cap_current c).
Definition with_cap_quotaStates (v : gmap string loc) (c : capacity) : capacity :=
  mk_capacity (cap_events c) (cap_eventCursor c) (cap_eventSequence c) (cap_active c) (cap_dispatchSequence c) (cap_sourceStates c) v (cap_accountStates c) (cap_current c).
Definition with_cap_accountStates (v : gmap string loc) (c : capacity) : capacity :=
  mk_capacity (cap_events c) (cap_eventCursor c) (cap_eventSequence c) (cap_active c) (cap_dispatchSequence c) (cap_sourceStates c) (cap_quotaStates c) v (cap_current c).
Definition with_cap_current (v : loc) (c : capacity) : capacity :=
  mk_capacity (cap_events c) (cap_eventCursor c) (cap_eventSequence c) (cap_active c) (cap_dispatchSequence c) (cap_sourceStates c) (cap_quotaStates c) (cap_accountStates c) v.

Record router := mk_router {
  r_capacity : loc;
  r_cfg : Config;
  r_targets : list Target;
  r_groups : gmap string compiledGroup;
  r_candidates : gmap string (list nat);
  r_state : list loc;
  r_quotas : list loc;
  r_accounts : list (option loc);
  r_parentEnabled : list bool;
  r_parentApproved : list bool;
  r_poolStrategies : list string;
  r_accountWeights : list float64;
  r_hasPools : bool;
  r_waiting : Z;
  r_retired : bool;
  r_cursor : Z;
  r_queue : list waiter }.

Definition zero_Config : Config :=
  {| c_BrowserProfiles := []; c_Providers := []; c_Accounts := []; c_SchemaVersion := 0;
     c_Listen := ""; c_APIKeyEnv := ""; c_AdminKeyEnv := "";
     c_Runtime := Build_Runtime 0 0 0 0 0 0 0 0 0;
     c_Browser := Build_Browser "" "" false "" "" 0 0 0 0 0;
     c_Device := Build_Device false "" "" "" "" "" 0; c_Sources := []; c_Groups := [] |}.
Definition zero_router : router :=
  mk_router 0 zero_Config [] ∅ ∅ [] [] [] [] [] [] [] false 0 false 0 [].
Definition with_r_capacity (v : loc) (r : router) : router :=
  mk_router v (r_cfg r) (r_targets r) (r_groups r) (r_candidates r) (r_state r) (r_quotas r) (r_accounts r) (r_parentEnabled r) (r_parentApproved r) (r_poolStrategies r) (r_accountWeights r) (r_hasPools r) (r_waiting r) (r_retired r) (r_cursor r) (r_queue r).
Definition with_r_state (v : list loc) (r : router) : router :=
  mk_router (r_capacity r) (r_cfg r) (r_targets r) (r_groups r) (r_candidates r) v (r_quotas r) (r_accounts r) (r_parentEnabled r) (r_parentApproved r) (r_poolStrategies r) (r_accountWeights r) (r_hasPools r) (r_waiting r) (r_retired r) (r_cursor r) (r_queue r).
Definition with_r_quotas (v : list loc) (r : router) : router :=
  mk_router (r_capacity r) (r_cfg r) (r_targets r) (r_groups r) (r_candidates r) (r_state r) v (r_accounts r) (r_parentEnabled r) (r_parentApproved r) (r_poolStrategies r) (r_accountWeights r) (r_hasPools r) (r_waiting r) (r_retired r) (r_cursor r) (r_queue r).
Definition with_r_accounts (v : list (option loc)) (r : router) : router :=
  mk_router (r_capacity r) (r_cfg r) (r_targets r) (r_groups r) (r_candidates r) (r_state r) (r_quotas r) v (r_parentEnabled r) (r_parentApproved r) (r_poolStrategies r) (r_accountWeights r) (r_hasPools r) (r_waiting r) (r_retired r) (r_cursor r) (r_queue r).
Definition with_r_waiting (v : Z) (r : router) : router :=
  mk_router (r_capacity r) (r_cfg r) (r_targets r) (r_groups r) (r_candidates r) (r_state r) (r_quotas r) (r_accounts r) (r_parentEnabled r) (r_parentApproved r) (r_poolStrategies r) (r_accountWeights r) (r_hasPools r) v (r_retired r) (r_cursor r) (r_queue r).
Definition with_r_retired (v : bool) (r : router) : router :=
  mk_router (r_capacity r) (r_cfg r) (r_targets r) (r_groups r) (r_candidates r) (r_state r) (r_quotas r) (r_accounts r) (r_parentEnabled r) (r_parentApproved r) (r_poolStrategies r) (r_accountWeights r) (r_hasPools r) (r_waiting r) v (r_cursor r) (r_queue r).
Definition with_r_cursor (v : Z) (r : router) : router :=
  mk_router (r_capacity r) (r_cfg r) (r_targets r) (r_groups r) (r_candidates r) (r_state r) (r_quotas r) (r_accounts r) (r_parentEnabled r) (r_parentApproved r) (r_poolStrategies r) (r_accountWeights r) (r_hasPools r) (r_waiting r) (r_retired r) v (r_queue r).
Definition with_r_queue (v : list waiter) (r : router) : router :=
  mk_router (r_capacity r) (r_cfg r) (r_targets r) (r_groups r) (r_candidates r) (r_state r) (r_quotas r) (r_accounts r) (r_parentEnabled r) (r_parentApproved r) (r_poolStrategies r) (r_accountWeights r) (r_hasPools r) (r_waiting r) (r_retired r) (r_cursor r) v.

Record lease := mk_lease {
  le_protocol : string;
  le_probe : bool;
  le_execution : option ExecutionResult;
  le_ttftMS : float64;
  le_firstOutput : bool;
  le_router : loc;
  le_Target : Target;
  le_once : bool;
  le_started : Z;
  le_state : loc;
  le_quota : loc;
  le_account : option loc }.

Definition zero_lease : lease :=
  mk_lease "" false None f0 false 0 zero_Target true 0 0 0 None.
Definition with_le_execution (v : option ExecutionResult) (l : lease) : lease :=
  mk_lease (le_protocol l) (le_probe l) v (le_ttftMS l) (le_firstOutput l) (le_router l) (le_Target l) (le_once l) (le_started l) (le_state l) (le_quota l) (le_account l).
Definition with_le_ttftMS (v : float64) (l : lease) : lease :=
  mk_lease (le_protocol l) (le_probe l) (le_execution l) v (le_firstOutput l) (le_router l) (le_Target l) (le_once l) (le_started l) (le_state l) (le_quota l) (le_account l).
Definition with_le_firstOutput (v : bool) (l : lease) : lease :=
  mk_lease (le_protocol l) (le_probe l) (le_execution l) (le_ttftMS l) v (le_router l) (le_Target l) (le_once l) (le_started l) (le_state l) (le_quota l) (le_account l).
Definition with_le_once (v : bool) (l : lease) : lease :=
  mk_lease (le_protocol l) (le_probe l) (le_execution l) (le_ttftMS l) (le_firstOutput l) (le_router l) (le_Target l) v (le_started l) (le_state l) (le_quota l) (le_account l).

(** ** The store *)

Record heap := mk_heap {
  h_next : loc;
  h_states : gmap loc state;
  h_quotas : gmap loc quota;
  h_caps : gmap loc capacity;
  h_routers : gmap loc router;
  h_leases : gmap loc lease;
  h_done : gset nat }.

Definition with_h_next (v : loc) (h : heap) : heap :=
  mk_heap v (h_states h) (h_quotas h) (h_caps h) (h_routers h) (h_leases h) (h_done h).
Definition with_h_states (v : gmap loc state) (h : heap) : heap :=
  mk_heap (h_next h) v (h_quotas h) (h_caps h) (h_routers h) (h_leases h) (h_done h).
Definition with_h_quotas (v : gmap loc quota) (h : heap) : heap :=
  mk_heap (h_next h) (h_states h) v (h_caps h) (h_routers h) (h_leases h) (h_done h).
Definition with_h_caps (v : gmap loc capacity) (h : heap) : heap :=
  mk_heap (h_next h) (h_states h) (h_quotas h) v (h_routers h) (h_leases h) (h_done h).
Definition with_h_routers (v : gmap loc router) (h : heap) : heap :=
  mk_heap (h_next h) (h_states h) (h_quotas h) (h_caps h) v (h_leases h) (h_done h).
Definition with_h_leases (v : gmap loc lease) (h : heap) : heap :=
  mk_heap (h_next h) (h_states h) (h_quotas h) (h_caps h) (h_routers h) v (h_done h).
Definition with_h_done (v : gset nat) (h : heap) : heap :=
  mk_heap (h_next h) (h_states h) (h_quotas h) (h_caps h) (h_routers h) (h_leases h) v.

Definition empty_heap : heap := mk_heap 0 ∅ ∅ ∅ ∅ ∅ ∅.

(** Dereference; the pointers a compiled router holds are proved valid in
    file RouterInv, so the defaults are never read there. *)
Definition st_at (h : heap) (l : loc) : state := default zero_state (h_states h !! l).
Definition q_at (h : heap) (l : loc) : quota := default zero_quota (h_quotas h !! l).
Definition cap_at (h : heap) (l : loc) : capacity := default zero_capacity (h_caps h !! l).
Definition router_at (h : heap) (l : loc) : router := default zero_router (h_routers h !! l).
Definition lease_at (h : heap) (l : loc) : lease := default zero_lease (h_leases h !! l).

(** Assignment through a pointer. *)
Definition upd_state (l : loc) (f : state → state) (h : heap) : heap :=
  with_h_states (<[l := f (st_at h l)]> (h_states h)) h.
Definition upd_quota (l : loc) (f : quota → quota) (h : heap) : heap :=
  with_h_quotas (<[l := f (q_at h l)]> (h_quotas h)) h.
Definition upd_cap (l : loc) (f : capacity → capacity) (h : heap) : heap :=
  with_h_caps (<[l := f (cap_at h l)]> (h_caps h)) h.
Definition upd_router (l : loc) (f : router → router) (h : heap) : heap :=
  with_h_routers (<[l := f (router_at h l)]> (h_routers h)) h.
Definition upd_lease (l : loc) (f : lease → lease) (h : heap) : heap :=
  with_h_leases (<[l := f (lease_at h l)]> (h_leases h)) h.
Definition upd_quota_opt (l : option loc) (f : quota → quota) (h : heap) : heap :=
  match l with Some a => upd_quota a f h | None => h end.

(** Allocation of a new struct ([&state{...}] and the like). *)
Definition alloc_state (st : state) (h : heap) : heap * loc :=
  (with_h_next (S (h_next h)) (with_h_states (<[h_next h := st]> (h_states h)) h), h_next h).
Definition alloc_quota (q : quota) (h : heap) : heap * loc :=
  (with_h_next (S (h_next h)) (with_h_quotas (<[h_next h := q]> (h_quotas h)) h), h_next h).
Definition alloc_cap (c : capacity) (h : heap) : heap * loc :=
  (with_h_next (S (h_next h)) (with_h_caps (<[h_next h := c]> (h_caps h)) h), h_next h).
Definition alloc_router (r : router) (h : heap) : heap * loc :=
  (with_h_next (S (h_next h)) (with_h_routers (<[h_next h := r]> (h_routers h)) h), h_next h).
Definition alloc_lease (l : lease) (h : heap) : heap * loc :=
  (with_h_next (S (h_next h)) (with_h_leases (<[h_next h := l]> (h_leases h)) h), h_next h).

(** Slice reads of a compiled router, by source index. *)
Definition src_at (r : router) (i : nat) : Source := default zero_Source (c_Sources (r_cfg r) !! i).
Definition target_at (r : router) (i : nat) : Target := default zero_Target (r_targets r !! i).
Definition state_loc (r : router) (i : nat) : loc := default 0%nat (r_state r !! i).
Definition quota_loc (r : router) (i : nat) : loc := default 0%nat (r_quotas r !! i).
Definition account_loc (r : router) (i : nat) : option loc := default None (r_accounts r !! i).
Definition parent_enabled (r : router) (i : nat) : bool := default false (r_parentEnabled r !! i).
Definition parent_approved (r : router) (i : nat) : bool := default false (r_parentApproved r !! i).
Definition pool_strategy (r : router) (i : nat) : string := default ""%string (r_poolStrategies r !! i).
Definition account_weight (r : router) (i : nat) : float64 := default f0 (r_accountWeights r !! i).
Definition rcap (h : heap) (r : router) : capacity := cap_at h (r_capacity r).
Definition group_at (r : router) (id : string) : compiledGroup :=
  default zero_compiledGroup (r_groups r !! id).

(** [s.ID + "/" + t.Model.ID] *)
Definition target_name (r : router) (t : Target) : string :=
  (s_ID (src_at r (t_Source t)) ++ "/" ++ m_ID (t_Model t))%string.
