(* ===== verification/RouterPolicy.v ===== *)
(** * Routing policy ([router.go] eligible/choose, [pools.go], [preferences.go])

    The read-only half of the router: which targets a query may use, which one
    is chosen, and how the control plane explains it. *)

From S2P Require Import Prelude GoFloat Sha256 ConfigData Execution RouterData.
Local Open Scope Z_scope.

(** [t.Before(u)] on instants *)
Definition before (t u : Z) : bool := t <? u.
Definition maxTime (a b : Z) : Z := if b <? a then a else b.

(** ** Costs *)

Definition estimatedRequestCost (model : Model) (q : Query) : float64 * bool :=
  match m_InputUSDPerMillion model, m_OutputUSDPerMillion model with
  | Some i, Some o =>
      if (qr_Bytes q <? 0) || (qr_OutputTokens q <=? 0) then (f0, false)
      else if negb (ValidPrice (Some i)) || negb (ValidPrice (Some o)) then (f0, false)
      else (fadd (fmul (fdiv (f_of_Z (qr_Bytes q)) f1e6) i)
                 (fmul (fdiv (f_of_Z (qr_OutputTokens q)) f1e6) o), true)
  | _, _ => (f0, false)
  end.

Definition EstimatedRequestCost (l : lease) (q : Query) : float64 * bool :=
  estimatedRequestCost (t_Model (le_Target l)) q.

(** ** Eligibility *)

Definition is_false (b : option bool) : bool :=
  match b with Some false => true | _ => false end.

(** [groupID] and [min] of [eligible]; [None] is the [invalid_tier] exit. *)
Definition group_query (model : string) : option (string * Z) :=
  if has_prefix model "auto/" then
    let min := Tier (trim_prefix model "auto/") in
    if min <? 0 then None else Some ("auto"%string, min)
  else Some (model, -1).

(** The body of [if g, ok := r.groups[groupID]; ok { ... }]: the empty string
    stands for [return true, ""]. *)
Definition group_reason (r : router) (t : Target) (q : Query) (cg : compiledGroup) (min : Z) : string :=
  let s := src_at r (t_Source t) in
  let m := t_Model t in
  let g := cg_Group cg in
  if is_false (m_AutoApproved m) then "model_not_approved"
  else if qr_Stateful q then "stateful_requires_explicit_source"
  else if negb (s_AutoApproved s) || negb (parent_approved r (t_Source t))
          || negb (bool_decide (is_Some (cg_members cg !! s_ID s))) then "not_approved"
  else if g_LocalOnly g && negb (LocalInference s) then "local_only"
  else if negb (BillingAllowed g s) then "paid_not_allowed"
  else if negb (Nat.eqb (length (g_AllowedSourceKinds g)) 0)
          && negb (contains (g_AllowedSourceKinds g) (s_SourceKind s)) then "source_kind"
  else if g_RequireTools g && negb (m_Tools m =? "native")%string then "native_tools_required"
  else if g_RequireVision g && negb (m_Vision m) then "vision_required"
  else
    let million :=
      match g_MaxUSDPerMillion g with
      | None => ""
      | Some bound =>
          let '(cost, known) := UnitCost m in
          if negb known then "cost_unknown"
          else if fltb bound cost then "cost_ceiling" else ""
      end%string in
    if negb (million =? "")%string then million
    else
      let request :=
        match g_MaxUSDPerRequest g with
        | None => ""
        | Some bound =>
            let '(cost, known) := estimatedRequestCost m q in
            if negb known then "request_cost_unknown"
            else if fltb (qr_SpentUSD q) f0 || fltb bound (fadd (qr_SpentUSD q) cost)
                 then "request_cost_budget" else ""
        end%string in
      if negb (request =? "")%string then request
      else if (g_Type g =? "select")%string
              && match g_Sources g with
                 | [] => true
                 | first :: _ => negb (first =? s_ID s)%string
                 end then "not_selected"
      else
        let min' := if min <? Tier (g_MinTier g) then Tier (g_MinTier g) else min in
        let tier := Tier (m_Tier m) in
        if ((tier <? 0) && negb (g_AllowUnrated g)) || ((0 <=? tier) && (tier <? min'))
        then "quality_floor" else "".

(** [eligible]'s second result; its first is [reason = ""]. *)
Definition eligible_reason (h : heap) (r : router) (t : Target) (q : Query) : string :=
  let s := src_at r (t_Source t) in
  let m := t_Model t in
  let st := st_at h (state_loc r (t_Source t)) in
  if qr_Probe q && negb (qr_Model q =? target_name r t)%string then "probe_requires_explicit_source"
  else if contains (qr_ExcludedSources q) (s_ID s) then "already_attempted"
  else if negb (qr_Probe q) && is_false (m_Enabled m) then "model_disabled"
  else if negb (qr_Probe q) && negb (st_enabled st) then "disabled"
  else if negb (qr_Probe q) && negb (parent_enabled r (t_Source t)) then "provider_or_account_disabled"
  else if negb (qr_Probe q) && st_blocked st then "authentication_or_policy_block"
  else if negb (contains (m_Protocols m) (qr_Protocol q)) then "protocol"
  else if m_MaxInputBytes m <? qr_Bytes q then "input_limit"
  else if qr_Tools q && negb (m_Tools m =? "native")%string then "native_tools_required"
  else if qr_Vision q && negb (m_Vision m) then "vision_required"
  else
    match group_query (qr_Model q) with
    | None => "invalid_tier"
    | Some (groupID, min) =>
        match r_groups r !! groupID with
        | Some cg => group_reason r t q cg min
        | None =>
            if (qr_Model q =? target_name r t)%string then ""
            else if negb (qr_Stateful q) && (qr_Model q =? m_ID m)%string then ""
            else "model"
        end
    end.

Definition eligible (h : heap) (r : router) (t : Target) (q : Query) : bool * string :=
  let reason := eligible_reason h r t q in ((reason =? "")%string, reason).

(** ** Preferences *)

Definition preferenceValue (h : heap) (r : router) (index : nat) (preference : string) : float64 :=
  let target := target_at r index in
  let source := src_at r (t_Source target) in
  let f1 := f_of_Z 1 in
  if (preference =? "lower_latency")%string then
    let latency := st_latency (st_at h (state_loc r (t_Source target))) in
    if fltb f0 latency then latency else finf
  else if (preference =? "lower_cost")%string then
    let '(cost, known) := UnitCost (t_Model target) in
    if known then cost else finf
  else if (preference =? "existing_subscription")%string then
    if (s_BillingMode source =? "subscription")%string then f0 else f1
  else if (preference =? "official_api")%string then
    if (s_SourceKind source =? "vendor_api")%string || (s_SourceKind source =? "cloud_api")%string
    then f0 else f1
  else if (preference =? "reverse_source")%string then
    if has_suffix (s_SourceKind source) "_reverse" then f0 else f1
  else f1.

Fixpoint compare_values (h : heap) (r : router) (candidate current : nat) (prefs : list string) : Z :=
  match prefs with
  | [] => 0
  | p :: prefs' =>
      let a := preferenceValue h r candidate p in
      let b := preferenceValue h r current p in
      if fltb a b then -1 else if fltb b a then 1
      else compare_values h r candidate current prefs'
  end.

(** [current] is [None] for the index [-1]. *)
Definition comparePreferences (h : heap) (r : router) (candidate : nat) (current : option nat)
    (prefs : list string) : Z :=
  match current with
  | None => -1
  | Some c => compare_values h r candidate c prefs
  end.

(** ** Account pools *)

Record preference := { pr_id : string; pr_score : float64; pr_last : Z }.

(** [float64(^uint64(0))] *)
Definition f_maxuint64 : float64 := f_of_Z (two64 - 1).

Definition sticky_score (affinity account : string) : float64 :=
  let digest := sha256 (bytes_of affinity ++ [0] ++ bytes_of account) in
  fdiv (f_of_Z (be_value (take 8 digest))) f_maxuint64.

Definition pool_score (h : heap) (r : router) (q : Query) (target : Target) (a : quota) : float64 :=
  let strategy := pool_strategy r (t_Source target) in
  if (strategy =? "weighted")%string then q_virtualFinish a
  else if (strategy =? "least-load")%string then fdiv (f_of_Z (q_active a)) (f_of_Z (q_limit a))
  else if (strategy =? "sticky")%string then
    if negb (qr_Affinity q =? "")%string
    then sticky_score (qr_Affinity q) (s_AccountID (src_at r (t_Source target))) else f0
  else f0.

(** The capacity and cooldown test both [choose] and [poolPreferences] make on
    a target's source and quota domain. *)
Definition source_busy (h : heap) (r : router) (i : nat) (now : Z) : bool :=
  let st := st_at h (state_loc r i) in
  let quota := q_at h (quota_loc r i) in
  (s_MaxInflight (src_at r i) <=? st_active st) || (q_limit quota <=? q_active quota)
  || before now (st_cooldown st) || before now (q_cooldown quota).

Definition pool_step (h : heap) (r : router) (q : Query) (now : Z)
    (best : gmap string preference) (index : nat) : gmap string preference :=
  let target := target_at r index in
  let source := src_at r (t_Source target) in
  match account_loc r (t_Source target) with
  | None => best
  | Some aloc =>
      let a := q_at h aloc in
      if negb (fst (eligible h r target q)) then best
      else if (q_limit a <=? q_active a) || source_busy h r (t_Source target) now then best
      else
        let score := pool_score h r q target a in
        let better :=
          match best !! s_Provider source with
          | None => true
          | Some old =>
              fltb score (pr_score old) || (feqb score (pr_score old) && (q_lastDispatch a <? pr_last old))
          end in
        if better
        then <[s_Provider source := {| pr_id := s_AccountID source; pr_score := score;
                                       pr_last := q_lastDispatch a |}]> best
        else best
  end.

Definition poolPreferences (h : heap) (r : router) (q : Query) (candidates : list nat) (now : Z)
    : gmap string string :=
  pr_id <$> fold_left (pool_step h r q now) candidates ∅.

(** ** Choice *)

Definition query_key (q : Query) : string :=
  if has_prefix (qr_Model q) "auto/" then "auto" else qr_Model q.

(** The strategy score of an available target. *)
Definition strategy_value (h : heap) (r : router) (g : compiledGroup) (i : nat) : float64 :=
  let st := st_at h (state_loc r i) in
  let source := src_at r i in
  let value := fdiv (f_of_Z (st_active st)) (f_of_Z (s_MaxInflight source)) in
  let ty := g_Type (cg_Group g) in
  if (ty =? "weighted")%string then st_virtualFinish st
  else if (ty =? "fallback")%string || (ty =? "select")%string then
    f_of_Z (default 0 (cg_members g !! s_ID source))
  else if (ty =? "latency")%string then st_latency st
  else if (ty =? "auto")%string then fadd value (fdiv (st_latency st) f1e6)
  else value.

(** The account filter: a source whose provider has a preferred account other
    than its own is passed over. *)
Definition not_preferred (r : router) (preferred : gmap string string) (i : nat) : bool :=
  let source := src_at r i in
  match preferred !! s_Provider source with
  | None => false
  | Some account => negb (s_AccountID source =? "")%string && negb (account =? s_AccountID source)%string
  end.

Definition account_busy (h : heap) (r : router) (i : nat) : bool :=
  match account_loc r i with
  | None => false
  | Some a => q_limit (q_at h a) <=? q_active (q_at h a)
  end.

Definition global_busy (h : heap) (r : router) : bool :=
  rt_MaxInflight (c_Runtime (r_cfg r)) <=? cap_active (rcap h r).

(** The loop of [choose], from [position], with [n] candidates left. *)
Fixpoint choose_loop (h : heap) (r : router) (q : Query) (now : Z) (g : compiledGroup)
    (preferred : gmap string string) (candidates : list nat)
    (n position : nat) (best : option nat) (score : float64) (elig : bool) : option nat * bool :=
  match n with
  | O => (best, elig)
  | S n' =>
      let idx := default 0%nat (candidates !! position) in
      let position' := if Nat.eqb (S position) (length candidates) then 0%nat else S position in
      let again := choose_loop h r q now g preferred candidates n' position' in
      let t := target_at r idx in
      let i := t_Source t in
      if negb (fst (eligible h r t q)) then again best score elig
      else if global_busy h r then (None, true)
      else if not_preferred r preferred i then again best score true
      else if account_busy h r i then again best score true
      else if global_busy h r || source_busy h r i now then again best score true
      else
        let value := strategy_value h r g i in
        let pref := comparePreferences h r idx best (g_Preferences (cg_Group g)) in
        if bool_decide (best = None) || (pref <? 0) || ((pref =? 0) && fltb value score) then
          if feqb value f0 && Nat.eqb (length (g_Preferences (cg_Group g))) 0
          then (Some idx, true)
          else again (Some idx) value true
        else again best score true
  end.

Definition uses_pools (r : router) (g : compiledGroup) : bool :=
  let ty := g_Type (cg_Group g) in
  r_hasPools r && negb (ty =? "fallback")%string && negb (ty =? "select")%string
  && negb (ty =? "weighted")%string.

Definition choose (h : heap) (r : router) (q : Query) (now : Z) : option nat * bool :=
  if r_retired r then (None, false)
  else
    let key := query_key q in
    let g := group_at r key in
    let candidates := default [] (r_candidates r !! key) in
    let preferred := if uses_pools r g then poolPreferences h r q candidates now else ∅ in
    let position :=
      match candidates with
      | [] => 0%nat
      | _ => Z.to_nat (r_cursor r mod Z.of_nat (length candidates))
      end in
    choose_loop h r q now g preferred candidates (length candidates) position None finf false.

(** ** Explanations *)

Definition explainReason (h : heap) (r : router) (t : Target) (q : Query) (now : Z) : string :=
  let reason := snd (eligible h r t q) in
  if negb (reason =? "")%string then reason
  else
    let i := t_Source t in
    let s := st_at h (state_loc r i) in
    let qt := q_at h (quota_loc r i) in
    if account_busy h r i then "account_capacity"
    else if before now (maxTime (st_cooldown s) (q_cooldown qt)) then "cooldown"
    else if (s_MaxInflight (src_at r i) <=? st_active s) || (q_limit qt <=? q_active qt) || global_busy h r
         then "capacity"
    else "eligible".

Definition Explain (h : heap) (r : router) (q : Query) (now : Z) : gmap string string :=
  fold_left (λ out t, <[target_name r t := explainReason h r t q now]> out) (r_targets r) ∅.

Record SimulationCandidate := {
  sc_ID : string; sc_Order : Z; sc_Reason : string; sc_Eligible : bool; sc_Selected : bool }.
Record Simulation := { sim_Selected : string; sim_Candidates : list SimulationCandidate }.

Definition simulate_candidate (h : heap) (r : router) (q : Query) (now : Z) (selected : option nat)
    (order idx : nat) : SimulationCandidate :=
  let t := target_at r idx in
  let reason := explainReason h r t q now in
  {| sc_ID := target_name r t; sc_Order := Z.of_nat order + 1; sc_Reason := reason;
     sc_Eligible := (reason =? "eligible")%string; sc_Selected := bool_decide (selected = Some idx) |}.

Definition Simulate (h : heap) (r : router) (q : Query) (now : Z) : Simulation :=
  let selected := fst (choose h r q now) in
  let indices :=
    match default [] (r_candidates r !! query_key q) with
    | [] => seq 0 (length (r_targets r))
    | l => l
    end in
  let candidates := imap (simulate_candidate h r q now selected) indices in
  {| sim_Selected := fold_left (λ acc c, if sc_Selected c then sc_ID c else acc) candidates "";
     sim_Candidates := candidates |}.
