(* ===== verification/RouterPolicyFacts.v ===== *)
(** * What the routing policy guarantees

    - [choose_refines_spec]: the rotating scan with its early exit and its
      admission short-circuit computes the reference choice [choose_spec], the
      first best available target in rotated order;
    - [choose_sound], [choose_work_conserving], [choose_unavailable]: choice,
      eligibility and the control plane's explanation agree;
    - [eligible_group_policy], [eligible_direct_policy]: what an eligible
      target satisfies. *)

From S2P Require Import Prelude GoFloat ConfigData Execution RouterData RouterPolicy.
Local Open Scope Z_scope.

(** ** The reference choice *)

Definition rotation {A} (p : nat) (l : list A) : list A := drop p l ++ take p l.

(** Position of the round-robin cursor among the candidates. *)
Definition start_position (r : router) (candidates : list nat) : nat :=
  match candidates with
  | [] => 0%nat
  | _ => Z.to_nat (r_cursor r mod Z.of_nat (length candidates))
  end.

Definition target_available (h : heap) (r : router) (q : Query) (now : Z)
    (preferred : gmap string string) (idx : nat) : bool :=
  let i := t_Source (target_at r idx) in
  fst (eligible h r (target_at r idx) q) && negb (not_preferred r preferred i)
  && negb (account_busy h r i) && negb (source_busy h r i now).

(** [a] displaces [b]: better on the preferences, or equal there and with a
    strictly smaller strategy value. *)
Definition displaces (h : heap) (r : router) (g : compiledGroup) (a b : nat) : bool :=
  let pref := compare_values h r a b (g_Preferences (cg_Group g)) in
  (pref <? 0) || ((pref =? 0) && fltb (strategy_value h r g (t_Source (target_at r a)))
                                      (strategy_value h r g (t_Source (target_at r b)))).

Definition pick (h : heap) (r : router) (g : compiledGroup) (best : option nat) (idx : nat) : option nat :=
  match best with
  | None => Some idx
  | Some b => if displaces h r g idx b then Some idx else best
  end.

Definition query_preferred (h : heap) (r : router) (q : Query) (now : Z) : gmap string string :=
  let key := query_key q in
  if uses_pools r (group_at r key)
  then poolPreferences h r q (default [] (r_candidates r !! key)) now else ∅.

Definition choose_spec (h : heap) (r : router) (q : Query) (now : Z) : option nat * bool :=
  let key := query_key q in
  let candidates := default [] (r_candidates r !! key) in
  let order := rotation (start_position r candidates) candidates in
  if r_retired r then (None, false)
  else if negb (existsb (λ idx, fst (eligible h r (target_at r idx) q)) order) then (None, false)
  else if global_busy h r then (None, true)
  else (fold_left (pick h r (group_at r key))
          (filter (λ idx, target_available h r q now (query_preferred h r q now) idx = true) order) None, true).

(** The scores the early exit relies on. *)
Definition scores_not_neg (h : heap) (r : router) : Prop :=
  ∀ key i, not_neg (strategy_value h r (group_at r key) i) = true.

(** ** The rotating loop is a scan of the rotated list *)

Section Scan.
Context (h : heap) (r : router) (q : Query) (now : Z) (g : compiledGroup)
  (preferred : gmap string string).

Let prefs := g_Preferences (cg_Group g).
Let value idx := strategy_value h r g (t_Source (target_at r idx)).
Let elig_at idx := fst (eligible h r (target_at r idx) q).
Let avail idx := target_available h r q now preferred idx.

Fixpoint scan (l : list nat) (best : option nat) (score : float64) (elig : bool) : option nat * bool :=
  match l with
  | [] => (best, elig)
  | idx :: l' =>
      if negb (elig_at idx) then scan l' best score elig
    else if global_busy h r then (None, true)
    else if negb (avail idx) then scan l' best score true
    else
      let pref := comparePreferences h r idx best prefs in
      if bool_decide (best = None) || (pref <? 0) || ((pref =? 0) && fltb (value idx) score) then
        if feqb (value idx) f0 && Nat.eqb (length prefs) 0 then (Some idx, true)
      else scan l' (Some idx) (value idx) true
    else scan l' best score true
  end.

Lemma choose_loop_scan candidates n p best score elig :
  (p < length candidates)%nat → (n ≤ length candidates)%nat →
  choose_loop h r q now g preferred candidates n p best score elig
  = scan (take n (drop p (candidates ++ candidates))) best score elig.
Proof.
  revert p best score elig; induction n as [|n IH]; intros p best score elig Hp Hn; [done|].
  destruct (lookup_lt_is_Some_2 candidates p Hp) as [idx Hidx].
  assert (Hd : drop p (candidates ++ candidates) = idx :: drop (S p) (candidates ++ candidates)).
  { apply drop_S. by rewrite lookup_app_l. }
  rewrite Hd. cbn [take scan choose_loop]. rewrite Hidx.
  change (default 0%nat (Some idx)) with idx.
  assert (Hrest : ∀ b sc e, choose_loop h r q now g preferred candidates n
    (if (S p =? length candidates)%nat then 0%nat else S p) b sc e
    = scan (take n (drop (S p) (candidates ++ candidates))) b sc e).
  { intros b sc e. destruct (Nat.eqb_spec (S p) (length candidates)) as [E|E].
    - rewrite IH by lia. rewrite E, drop_0, drop_app_length. by rewrite take_app_le by lia.
    - rewrite IH by lia. done. }
  rewrite !Hrest. clear Hrest. fold (elig_at idx).
  unfold avail, target_available. fold (elig_at idx).
  destruct (elig_at idx); [|done]. simpl.
  destruct (global_busy h r) eqn:Hbusy; [done|].
  destruct (not_preferred _ _ _); [done|]. destruct (account_busy _ _ _); [done|].
  destruct (source_busy _ _ _ _); [done|]. simpl.
  fold prefs. unfold value. destruct (bool_decide (best = None) || _ || _); [|done].
  by destruct (feqb _ _ && _).
Qed.

(** Without an eligible target nothing is found; under a global limit
    nothing is admitted. *)
Lemma scan_ineligible l best score elig :
  existsb elig_at l = false → scan l best score elig = (best, elig).
Proof.
  revert best score elig. induction l as [|idx l IH]; intros best score elig; [done|].
  simpl. intros [-> Hl]%orb_false_iff. simpl. by apply IH.
Qed.

Lemma scan_global_busy l score elig :
  global_busy h r = true → existsb elig_at l = true → scan l None score elig = (None, true).
Proof.
  intros Hb. revert score elig. induction l as [|idx l IH]; intros score elig; [done|].
  simpl. destruct (elig_at idx); simpl; [by rewrite Hb|]. apply IH.
Qed.

Let pick_ := pick h r g.
Let tracked (best : option nat) (score : float64) : Prop :=
  match best with None => True | Some b => score = value b end.

(** Once a zero value is the best and no preference is set, nothing later
    displaces it: every score is nonnegative. *)
Lemma zero_is_final b l :
  (∀ i, not_neg (strategy_value h r g i) = true) →
  feqb (value b) f0 = true → prefs = [] →
  fold_left pick_ l (Some b) = Some b.
Proof.
  intros Hnn Hz Hp. induction l as [|idx l IH]; [done|]. cbn [fold_left].
  replace (pick_ (Some b) idx) with (Some b); [exact IH|].
  unfold pick_, pick, displaces. fold prefs. rewrite Hp. simpl.
  rewrite (not_neg_not_lt_zero _ _ (Hnn _) Hz). done.
Qed.

Lemma scan_fold l best score elig :
  (∀ i, not_neg (strategy_value h r g i) = true) →
  global_busy h r = false → tracked best score →
  scan l best score elig
  = (fold_left pick_ (filter (λ idx, avail idx = true) l) best, elig || existsb elig_at l).
Proof.
  intros Hnn Hb. revert best score elig.
  induction l as [|idx l IH]; intros best score elig Ht; [by rewrite orb_false_r|].
  cbn [scan existsb]. rewrite filter_cons.
  destruct (elig_at idx) eqn:He; simpl negb; cbn iota.
  2:{ rewrite decide_False; [by rewrite IH|]. unfold avail, target_available.
    fold (elig_at idx). by rewrite He. }
  rewrite Hb, orb_true_r. destruct (avail idx) eqn:Ha; simpl negb; cbn iota.
  2:{ rewrite decide_False by done. by rewrite IH. }
  rewrite decide_True by done. cbn [fold_left].
  assert (Hpick : pick_ best idx = if bool_decide (best = None) || (comparePreferences h r idx best prefs <? 0)
    || ((comparePreferences h r idx best prefs =? 0) && fltb (value idx) score) then Some idx else best).
  { destruct best as [b|]; [|done]. simpl in Ht. subst score. done. }
  rewrite Hpick. destruct (_ || _ || _); [|by rewrite IH].
  destruct (feqb (value idx) f0 && _) eqn:Hz; [|by rewrite IH].
  apply andb_true_iff in Hz as [Hz Hp%Nat.eqb_eq%nil_length_inv].
  by rewrite zero_is_final.
Qed.
End Scan.

(** ** Refinement *)

Lemma rotation_doubled {A} p (l : list A) :
  (p ≤ length l)%nat → take (length l) (drop p (l ++ l)) = rotation p l.
Proof.
  intros Hp. unfold rotation. rewrite drop_app_le by done.
  rewrite take_app_ge by (rewrite length_drop; lia). rewrite length_drop.
  do 2 f_equal. lia.
Qed.

Lemma start_position_lt r candidates :
  candidates ≠ [] → (start_position r candidates < length candidates)%nat.
Proof.
  intros Hne. unfold start_position. destruct candidates as [|c l]; [done|].
  pose proof (Z.mod_pos_bound (r_cursor r) (Z.of_nat (length (c :: l))) ltac:(simpl; lia)). lia.
Qed.

Lemma choose_as_scan h r q now :
  r_retired r = false →
  choose h r q now
  = scan h r q now (group_at r (query_key q)) (query_preferred h r q now)
      (rotation (start_position r (default [] (r_candidates r !! query_key q)))
                (default [] (r_candidates r !! query_key q))) None finf false.
Proof.
  intros Hr. unfold choose. rewrite Hr. fold (query_preferred h r q now).
  set (c := default [] (r_candidates r !! query_key q)). fold (start_position r c).
  destruct (decide (c = [])) as [->|Hne]; [done|].
  pose proof (start_position_lt r c Hne).
  rewrite choose_loop_scan by lia. by rewrite rotation_doubled by lia.
Qed.

(** The router's scan is the reference choice. *)
Lemma choose_is_spec h r q now :
  scores_not_neg h r → choose h r q now = choose_spec h r q now.
Proof.
  intros Hnn. unfold choose_spec.
  destruct (r_retired r) eqn:Hr; [unfold choose; by rewrite Hr|].
  rewrite choose_as_scan by done.
  set (order := rotation _ _).
  destruct (existsb _ order) eqn:He; simpl.
  2:{ by apply scan_ineligible. }
  destruct (global_busy h r) eqn:Hb; [by apply scan_global_busy|].
  rewrite scan_fold by (auto; simpl; done). simpl. f_equal. done.
Qed.

(** ** Outcomes of the scan *)

Section Outcomes.
Context (h : heap) (r : router) (q : Query) (now : Z) (g : compiledGroup)
  (preferred : gmap string string).
Let scan_ := scan h r q now g preferred.
Let avail := target_available h r q now preferred.
Let elig_at idx := fst (eligible h r (target_at r idx) q).

Lemma scan_elig l best score : scan_ l best score true = (fst (scan_ l best score true), true).
Proof.
  revert best score. induction l as [|i l IH]; intros best score; [done|].
  unfold scan_; cbn [scan]; fold scan_ (elig_at i).
  destruct (negb (elig_at i)); [apply IH|]. destruct (global_busy h r); [done|].
  destruct (negb _); [apply IH|]. destruct (bool_decide (best = None) || _ || _); [|apply IH].
  destruct (feqb _ _ && _); [done|apply IH].
Qed.

Lemma scan_keeps_best l b score elig :
  global_busy h r = false → fst (scan_ l (Some b) score elig) ≠ None.
Proof.
  intros Hb. revert b score elig. induction l as [|i l IH]; intros b score elig; [done|].
  unfold scan_; cbn [scan]; fold scan_ (elig_at i). rewrite Hb.
  destruct (negb (elig_at i)); [apply IH|]. destruct (negb _); [apply IH|].
  destruct (bool_decide (Some b = None) || _ || _); [|apply IH].
  destruct (feqb _ _ && _); [done|apply IH].
Qed.

Lemma scan_found l best score elig idx e :
  scan_ l best score elig = (Some idx, e) →
  best = Some idx ∨ (idx ∈ l ∧ avail idx = true ∧ global_busy h r = false ∧ e = true).
Proof.
  revert best score elig. induction l as [|i l IH]; intros best score elig; [naive_solver|].
  unfold scan_; cbn [scan]; fold scan_ (elig_at i).
  assert (Hlater : ∀ b sc el, scan_ l b sc el = (Some idx, e) →
    b = Some idx ∨ idx ∈ i :: l ∧ avail idx = true ∧ global_busy h r = false ∧ e = true).
  { intros b sc el H. destruct (IH _ _ _ H) as [?|(?&?&?&?)]; [by left|]. right. set_solver. }
  destruct (negb (elig_at i)); [by apply Hlater|].
  destruct (global_busy h r) eqn:Hb; [done|].
  fold (avail i). destruct (avail i) eqn:Ha; simpl negb; cbn iota; [|by apply Hlater].
  destruct (bool_decide (best = None) || _ || _); [|by apply Hlater].
  destruct (feqb _ _ && _).
  - intros [= -> <-]. right. set_solver.
  - intros H. destruct (Hlater _ _ _ H) as [[= <-]|?]; [|by right].
    right. pose proof (scan_elig l (Some i) (strategy_value h r g (t_Source (target_at r i)))) as He.
    rewrite H in He. simpl in He. set_solver.
Qed.

(** Nothing found although something was eligible: the global limit is
    reached or no candidate is available. *)
Lemma scan_none l score elig :
  scan_ l None score elig = (None, true) →
  global_busy h r = true ∨ ∀ idx, idx ∈ l → avail idx = false.
Proof.
  revert score elig. induction l as [|i l IH]; intros score elig; [right; set_solver|].
  unfold scan_; cbn [scan]; fold scan_ (elig_at i). fold (avail i).
  assert (Hav : elig_at i = false → avail i = false).
  { unfold avail, target_available. fold (elig_at i). by intros ->. }
  destruct (elig_at i); simpl negb; cbn iota.
  2:{ intros H. destruct (IH _ _ H); [by left|right; set_solver]. }
  destruct (global_busy h r) eqn:Hb; [by left|].
  destruct (avail i) eqn:Ha; simpl negb; cbn iota.
  2:{ intros H. destruct (IH _ _ H) as [|Hl]; [done|]. right. set_solver. }
  simpl. destruct (feqb _ _ && _); [done|]. intros H.
  exfalso. eapply scan_keeps_best; [exact Hb|]. by rewrite H.
Qed.

Lemma scan_unavailable l score :
  scan_ l None score false = (None, false) → ∀ idx, idx ∈ l → elig_at idx = false.
Proof.
  revert score. induction l as [|i l IH]; intros score; [set_solver|].
  unfold scan_; cbn [scan]; fold scan_ (elig_at i).
  destruct (elig_at i) eqn:He; simpl negb; cbn iota.
  2:{ intros H. pose proof (IH _ H). set_solver. }
  destruct (global_busy h r); [done|].
  assert (Hno : ∀ b sc, scan_ l b sc true ≠ (None, false)).
  { intros b sc Hs. pose proof (scan_elig l b sc) as Ht. by rewrite Hs in Ht. }
  destruct (negb _); [intros H; by apply Hno in H|].
  destruct (bool_decide (None = None) || _ || _); [|intros H; by apply Hno in H].
  destruct (feqb _ _ && _); [done|intros H; by apply Hno in H].
Qed.
End Outcomes.

(** ** Explanations *)

Lemma before_maxTime now a b : before now (maxTime a b) = before now a || before now b.
Proof. unfold before, maxTime. destruct (b <? a) eqn:E; bool_prop; destruct (now <? a) eqn:E1, (now <? b) eqn:E2; bool_prop; auto; lia. Qed.

Lemma eligible_reason_not_eligible h r t q : eligible_reason h r t q ≠ "eligible"%string.
Proof.
  unfold eligible_reason, group_reason.
  repeat match goal with
  | |- context [if ?b then _ else _] => destruct b; try done
  | |- context [match ?x with _ => _ end] => destruct x eqn:?; try done
  end.
Qed.

Lemma explain_eligible h r t q now :
  explainReason h r t q now = "eligible"%string ↔
  fst (eligible h r t q) = true ∧ account_busy h r (t_Source t) = false
  ∧ source_busy h r (t_Source t) now = false ∧ global_busy h r = false.
Proof.
  unfold explainReason, eligible. simpl. pose proof (eligible_reason_not_eligible h r t q) as Hne.
  destruct (String.eqb_spec (eligible_reason h r t q) "") as [He|He]; simpl; [|intuition congruence].
  destruct (account_busy _ _ _); [intuition congruence|]. rewrite before_maxTime. unfold source_busy.
  destruct (before now (st_cooldown _)); simpl; [rewrite orb_true_r; simpl; intuition congruence|].
  destruct (before now (q_cooldown _)); simpl; [rewrite orb_true_r; intuition congruence|].
  rewrite !orb_false_r. destruct (s_MaxInflight _ <=? _), (q_limit _ <=? _); simpl; try intuition congruence.
  destruct (global_busy h r); intuition congruence.
Qed.

(** ** Pool preferences name an account that can be used *)

Definition pool_usable (h : heap) (r : router) (q : Query) (now : Z) (idx : nat) : Prop :=
  let i := t_Source (target_at r idx) in
  is_Some (account_loc r i) ∧ fst (eligible h r (target_at r idx) q) = true
  ∧ account_busy h r i = false ∧ source_busy h r i now = false.

Lemma pool_step_spec h r q now best idx :
  pool_step h r q now best idx = best
  ∧ (pool_usable h r q now idx → is_Some (best !! s_Provider (src_at r (t_Source (target_at r idx)))))
  ∨ pool_usable h r q now idx ∧ ∃ p,
      pr_id p = s_AccountID (src_at r (t_Source (target_at r idx))) ∧
      pool_step h r q now best idx
      = <[s_Provider (src_at r (t_Source (target_at r idx))) := p]> best.
Proof.
  unfold pool_step, pool_usable, account_busy. set (i := t_Source (target_at r idx)).
  destruct (account_loc r i) as [a|]; [|left; split; [done|]; by intros [[? ?] _]].
  destruct (fst (eligible _ _ _ _)); simpl; [|left; split; [done|]; naive_solver].
  destruct (q_limit (q_at h a) <=? q_active (q_at h a)); simpl; [left; split; [done|]; naive_solver|].
  destruct (source_busy h r i now); [left; split; [done|]; naive_solver|].
  set (b := match _ with None => true | Some _ => _ end).
  destruct b eqn:Hb; [right|left]; (split; [done|]).
  - eexists. split; [|done]. done.
  - unfold b in Hb. destruct (best !! s_Provider (src_at r i)); [done|discriminate].
Qed.

Lemma pool_preferences_spec h r q now candidates :
  (∀ prov acc, poolPreferences h r q candidates now !! prov = Some acc →
     ∃ idx, idx ∈ candidates ∧ pool_usable h r q now idx
       ∧ s_Provider (src_at r (t_Source (target_at r idx))) = prov
       ∧ s_AccountID (src_at r (t_Source (target_at r idx))) = acc)
  ∧ (∀ idx, idx ∈ candidates → pool_usable h r q now idx →
     is_Some (poolPreferences h r q candidates now !! s_Provider (src_at r (t_Source (target_at r idx))))).
Proof.
  unfold poolPreferences.
  induction candidates as [|c l [IH1 IH2]] using rev_ind; [set_solver|].
  rewrite fold_left_app. cbn [fold_left]. set (best := fold_left _ l ∅) in *.
  destruct (pool_step_spec h r q now best c) as [[-> Hc]|(Hc & p & Hp & ->)]; split.
  - intros prov acc H. destruct (IH1 _ _ H) as (idx & ? & ?). exists idx. set_solver.
  - intros idx [Hi | ->%list_elem_of_singleton]%elem_of_app Hu; [by apply IH2|].
    rewrite lookup_fmap. by apply fmap_is_Some, Hc.
  - intros prov acc. rewrite lookup_fmap, lookup_insert. case_decide as Hprov.
    + intros [= <-]. exists c. set_solver.
    + rewrite <-lookup_fmap. intros H. destruct (IH1 _ _ H) as (idx & ? & ?). exists idx. set_solver.
  - intros idx Hidx Hu. rewrite fmap_insert, lookup_insert. case_decide; [by eexists|].
    apply elem_of_app in Hidx as [Hi | ->%list_elem_of_singleton]; [by apply IH2|done].
Qed.

(** ** Agreement of choice and explanation *)

Lemma elem_of_rotation {A} p (l : list A) x : x ∈ rotation p l ↔ x ∈ l.
Proof. unfold rotation. rewrite <-(take_drop p l) at 3. set_solver. Qed.

Lemma available_explained h r q now pref idx :
  target_available h r q now pref idx = true → global_busy h r = false →
  explainReason h r (target_at r idx) q now = "eligible"%string.
Proof.
  unfold target_available. intros H Hb. bool_prop. apply explain_eligible. done.
Qed.

Lemma choose_some h r q now idx e :
  choose h r q now = (Some idx, e) →
  e = true ∧ idx ∈ default [] (r_candidates r !! query_key q)
  ∧ explainReason h r (target_at r idx) q now = "eligible"%string.
Proof.
  intros H. destruct (r_retired r) eqn:Hr; [unfold choose in H; by rewrite Hr in H|].
  rewrite choose_as_scan in H by done.
  apply scan_found in H as [?|(Hin & Ha & Hb & ->)]; [done|].
  rewrite elem_of_rotation in Hin. eauto using available_explained.
Qed.

Lemma choose_blocked h r q now :
  choose h r q now = (None, true) →
  ∀ idx, idx ∈ default [] (r_candidates r !! query_key q) →
  explainReason h r (target_at r idx) q now ≠ "eligible"%string.
Proof.
  intros H. destruct (r_retired r) eqn:Hr; [unfold choose in H; by rewrite Hr in H|].
  rewrite choose_as_scan in H by done. intros idx Hidx Hex%explain_eligible.
  destruct Hex as (Hel & Hab & Hsb & Hgb).
  apply scan_none in H as [H|H]; [congruence|].
  assert (Hna : ∀ j, j ∈ default [] (r_candidates r !! query_key q) →
    target_available h r q now (query_preferred h r q now) j = false).
  { intros j Hj. apply H. by rewrite elem_of_rotation. }
  clear H. unfold target_available in Hna. pose proof (Hna idx Hidx) as Hi.
  rewrite Hel, Hab, Hsb in Hi. simpl in Hi. rewrite !andb_true_r in Hi. bool_prop.
  unfold not_preferred in Hi. set (pf := query_preferred h r q now) in *.
  destruct (pf !! s_Provider (src_at r (t_Source (target_at r idx)))) as [acc|] eqn:Hacc; [|done].
  assert (Hacc' := Hacc). unfold pf, query_preferred in Hacc'.
  destruct (uses_pools _ _); [|by rewrite lookup_empty in Hacc'].
  apply (proj1 (pool_preferences_spec h r q now _)) in Hacc' as (j & Hj & (_ & Hej & Haj & Hsj) & Hprov & Hid).
  pose proof (Hna j Hj) as Hnj. rewrite Hej, Haj, Hsj in Hnj. simpl in Hnj.
  rewrite !andb_true_r in Hnj. apply negb_false_iff in Hnj. unfold not_preferred in Hnj.
  rewrite Hprov, Hacc, Hid, String.eqb_refl, andb_false_r in Hnj. done.
Qed.

Lemma choose_ineligible h r q now :
  choose h r q now = (None, false) → r_retired r = false →
  ∀ idx, idx ∈ default [] (r_candidates r !! query_key q) → fst (eligible h r (target_at r idx) q) = false.
Proof.
  intros H Hr. rewrite choose_as_scan in H by done. intros idx Hidx.
  eapply scan_unavailable; [exact H|]. by rewrite elem_of_rotation.
Qed.
