(* ===== verification/RouterOps.v ===== *)
(** * Router operations ([router.go], [events.go], [output.go],
    [reconfigure.go], [workload.go], [capacity_status.go])

    Every method that changes the shared state, as a function on the store.
    [Acquire] is a loop around an unlocked wait: [acquire_iter] is one pass of
    the loop under the mutex, and a waiting call is resumed by its [ready]
    channel, by its 250 ms timer or by its context ([wake_cause]). *)

From S2P Require Import Prelude GoFloat ConfigData Execution RouterData RouterPolicy.
Local Open Scope Z_scope.

(** ** Compilation of a configuration ([New]) *)

Definition provider_map (ps : list Provider) : gmap string Provider :=
  fold_left (λ m p, <[p_ID p := p]> m) ps ∅.
Definition account_map (l : list Account) : gmap string Account :=
  fold_left (λ m a, <[a_ID a := a]> m) l ∅.

(** The loop over [c.Accounts]: one quota per account. *)
Definition new_account (acc : heap * gmap string loc) (a : Account) : heap * gmap string loc :=
  let '(h, limits) := acc in
  let '(h', l) := alloc_quota (with_q_limit (a_MaxInflight a) zero_quota) h in
  (h', <[a_ID a := l]> limits).

(** What the loop over [c.Sources] builds. *)
Record building := mk_building {
  bd_parentEnabled : list bool; bd_parentApproved : list bool; bd_accounts : list (option loc);
  bd_poolStrategies : list string; bd_accountWeights : list float64; bd_hasPools : bool;
  bd_state : list loc; bd_sourceStates : gmap string loc; bd_qs : gmap string loc;
  bd_quotas : list loc; bd_targets : list Target }.

(** The quota domain of a source: shared with an earlier source, or new. *)
Definition domain_quota (s : Source) (b : building) (h : heap) : heap * gmap string loc * loc :=
  match bd_qs b !! s_QuotaDomain s with
  | Some l => (h, bd_qs b, l)
  | None =>
      let '(h2, l) := alloc_quota (with_q_limit (s_QuotaMaxInflight s) zero_quota) h in
      (h2, <[s_QuotaDomain s := l]> (bd_qs b), l)
  end.

Definition new_source (ps : gmap string Provider) (accts : gmap string Account)
    (limits : gmap string loc) (acc : heap * building) (s : Source) : heap * building :=
  let '(h, b) := acc in
  let i := length (bd_state b) in
  let '(e0, ap0) :=
    match ps !! s_Provider s with
    | Some p => (p_Enabled p, p_AutoApproved p)
    | None => (true, true)
    end in
  let '(enabled, approved) :=
    match accts !! s_AccountID s with
    | Some a => (e0 && a_Enabled a, ap0 && a_AutoApproved a)
    | None => (e0, ap0)
    end in
  let account := limits !! s_AccountID s in
  let '(h1, st) := alloc_state (with_st_enabled (s_Enabled s) zero_state) h in
  let '(h2, qs, ql) := domain_quota s b h1 in
  (h2, mk_building
    (bd_parentEnabled b ++ [enabled]) (bd_parentApproved b ++ [approved])
    (bd_accounts b ++ [account])
    (bd_poolStrategies b ++ [p_PoolStrategy (default zero_Provider (ps !! s_Provider s))])
    (bd_accountWeights b ++ [f_of_Z (Z.max 1 (a_Weight (default zero_Account (accts !! s_AccountID s))))])
    (bd_hasPools b || bool_decide (is_Some account))
    (bd_state b ++ [st]) (<[s_ID s := st]> (bd_sourceStates b)) qs (bd_quotas b ++ [ql])
    (bd_targets b ++ map (mk_Target i) (s_Models s))).

Definition compile_group (g : Group) : compiledGroup :=
  mk_compiledGroup g
    (fold_left (λ m '(i, id), <[id := Z.of_nat i]> m) (imap pair (g_Sources g)) ∅).

Definition compile_groups (gs : list Group) : gmap string compiledGroup :=
  fold_left (λ m g, <[g_ID g := compile_group g]> m) gs ∅.

(** [append(m[key], v...)] *)
Definition append_at (key : string) (v : list nat) (m : gmap string (list nat)) : gmap string (list nat) :=
  <[key := default [] (m !! key) ++ v]> m.

Definition name_candidates (c : Config) (targets : list Target) : gmap string (list nat) :=
  fold_left (λ m '(i, t),
      let s := default zero_Source (c_Sources c !! t_Source t) in
      append_at (m_ID (t_Model t)) [i]
        (append_at (s_ID s ++ "/" ++ m_ID (t_Model t)) [i] m))
    (imap pair targets) ∅.

(** A group's candidates in its declared source order. *)
Definition group_candidates (c : Config) (targets : list Target) (g : Group) : list nat :=
  mjoin (map (λ sourceID,
    omap (λ '(i, t),
        if (s_ID (default zero_Source (c_Sources c !! t_Source t)) =? sourceID)%string
        then Some i else None) (imap pair targets)) (g_Sources g)).

Definition compile_candidates (c : Config) (targets : list Target) (groups : gmap string compiledGroup)
    : gmap string (list nat) :=
  fold_left (λ m '(id, cg), append_at id (group_candidates c targets (cg_Group cg)) m)
    (map_to_list groups) (name_candidates c targets).

(** The two allocation loops of [New], over the accounts and the sources. *)
Definition compile_sources (c : Config) (h : heap) : heap * gmap string loc * building :=
  let '(h1, limits) := fold_left new_account (c_Accounts c) (h, ∅) in
  let '(h2, b) :=
    fold_left (new_source (provider_map (c_Providers c)) (account_map (c_Accounts c)) limits) (c_Sources c)
      (h1, mk_building [] [] [] [] [] false [] ∅ ∅ [] []) in
  (h2, limits, b).

Definition compiled_router (c : Config) (cl : loc) (b : building) : router :=
  let groups := compile_groups (c_Groups c) in
  mk_router cl c (bd_targets b) groups (compile_candidates c (bd_targets b) groups)
    (bd_state b) (bd_quotas b) (bd_accounts b) (bd_parentEnabled b) (bd_parentApproved b)
    (bd_poolStrategies b) (bd_accountWeights b) (bd_hasPools b) 0 false 0 [].

Definition New (c : Config) (h : heap) : heap * loc :=
  let '(h2, limits, b) := compile_sources c h in
  let '(h3, cl) :=
    alloc_cap (mk_capacity [] 0 0 0 0 (bd_sourceStates b) (bd_qs b) limits (S (h_next h2))) h2 in
  alloc_router (compiled_router c cl b) h3.

(** ** The waiting queue *)

Definition is_done (h : heap) (ctx : nat) : bool := bool_decide (ctx ∈ h_done h).

Definition runnable (h : heap) (r : router) (now : Z) (w : waiter) : bool :=
  let '(idx, eligible) := choose h r (w_query w) now in
  is_done h (w_ctx w) || bool_decide (is_Some idx) || negb eligible.

Definition set_ready (b : bool) (w : waiter) : waiter :=
  {| w_id := w_id w; w_query := w_query w; w_ctx := w_ctx w; w_ready := b |}.

Fixpoint mark_first (p : waiter → bool) (l : list waiter) : list waiter :=
  match l with
  | [] => []
  | w :: l' => if p w then set_ready true w :: l' else w :: mark_first p l'
  end.

Definition signal (rid : loc) (now : Z) (h : heap) : heap :=
  upd_router rid (λ r, with_r_queue (mark_first (runnable h r now) (r_queue r)) r) h.

(** [turn]: nobody ahead of [current] in the queue can run now. *)
Fixpoint turn_from (h : heap) (r : router) (now : Z) (current : option nat) (l : list waiter) : bool :=
  match l with
  | [] => true
  | w :: l' =>
      if bool_decide (current = Some (w_id w)) then true
      else if is_done h (w_ctx w) then turn_from h r now current l'
      else if bool_decide (is_Some (fst (choose h r (w_query w) now))) then false
      else turn_from h r now current l'
  end.

Definition turn (h : heap) (r : router) (now : Z) (current : option nat) : bool :=
  turn_from h r now current (r_queue r).

Fixpoint remove_first (id : nat) (l : list waiter) : list waiter :=
  match l with
  | [] => []
  | w :: l' => if Nat.eqb (w_id w) id then l' else w :: remove_first id l'
  end.

Definition removeWaiter (target : nat) (r : router) : router :=
  if existsb (λ w, Nat.eqb (w_id w) target) (r_queue r)
  then with_r_waiting (r_waiting r - 1) (with_r_queue (remove_first target (r_queue r)) r)
  else r.

(** ** Acquire *)

Inductive acquire_error := ErrContext | ErrUnavailable | ErrQueueFull.
Inductive acquire_result := Granted (lease : loc) | Failed (e : acquire_error) | Waiting (w : nat).

(** The deferred cleanup that runs when the call returns. *)
Definition acquire_defer (rid : loc) (queued : option nat) (now : Z) (h : heap) : heap :=
  match queued with
  | Some w => signal rid now (upd_router rid (removeWaiter w) h)
  | None => h
  end.

Definition f1 : float64 := f_of_Z 1.

Definition dispatch_account (aloc : loc) (weight : float64) (cl : loc) (h : heap) : heap :=
  let seq := u64 (cap_dispatchSequence (cap_at h cl) + 1) in
  upd_quota aloc (λ a, with_q_virtualFinish (fadd (q_virtualFinish a) (fdiv f1 weight))
                         (with_q_lastDispatch seq (with_q_active (q_active a + 1) a)))
    (upd_cap cl (with_cap_dispatchSequence seq) h).

Definition grant (rid : loc) (q : Query) (idx : nat) (now : Z) (h : heap) : heap * loc :=
  let r := router_at h rid in
  let t := target_at r idx in
  let i := t_Source t in
  let h1 := upd_cap (r_capacity r) (λ c, with_cap_active (cap_active c + 1) c) h in
  let h2 := upd_state (state_loc r i) (λ st,
      with_st_virtualFinish
        (fadd (st_virtualFinish st) (fdiv f1 (f_of_Z (Z.max 1 (s_Weight (src_at r i))))))
        (with_st_active (st_active st + 1) st)) h1 in
  let h3 := upd_quota (quota_loc r i) (λ qt, with_q_active (q_active qt + 1) qt) h2 in
  let h4 :=
    match account_loc r i with
    | Some a => dispatch_account a (account_weight r i) (r_capacity r) h3
    | None => h3
    end in
  let h5 := upd_router rid (λ r, with_r_cursor (u64 (r_cursor r + 1)) r) h4 in
  alloc_lease
    (mk_lease (qr_Protocol q) (qr_Probe q) None f0 false rid t false now
      (state_loc r i) (quota_loc r i) (account_loc r i)) h5.

Definition enqueue (rid : loc) (q : Query) (ctx : nat) (h : heap) : heap * nat :=
  let id := h_next h in
  (upd_router rid (λ r, with_r_waiting (r_waiting r + 1)
      (with_r_queue (r_queue r ++ [{| w_id := id; w_query := q; w_ctx := ctx; w_ready := false |}]) r))
    (with_h_next (S id) h), id).

(** One pass of [Acquire]'s loop; [queued] is the call's waiter, if it has one. *)
Definition acquire_iter (rid : loc) (q : Query) (ctx : nat) (queued : option nat) (now : Z) (h : heap)
    : heap * acquire_result :=
  let r := router_at h rid in
  let return_ (h : heap) (res : acquire_result) := (acquire_defer rid queued now h, res) in
  if is_done h ctx then return_ h (Failed ErrContext)
  else
    let '(idx, eligible) := choose h r q now in
    let wait :=
      if negb eligible then return_ h (Failed ErrUnavailable)
      else
        match queued with
        | Some w => (h, Waiting w)
        | None =>
            if rt_MaxQueued (c_Runtime (r_cfg r)) <=? r_waiting r
            then return_ h (Failed ErrQueueFull)
            else let '(h', w) := enqueue rid q ctx h in (h', Waiting w)
        end in
    match idx with
    | Some idx =>
        if turn h r now queued
        then let '(h', l) := grant rid q idx now h in return_ h' (Granted l)
        else wait
    | None => wait
    end.

Inductive wake_cause := WakeReady | WakeTimer | WakeContext.

Definition find_waiter (r : router) (id : nat) : option waiter :=
  list_find (λ w, w_id w = id) (r_queue r) ≫= λ p, Some (p.2).

(** The select of a waiting call: the ready token is consumed when it was the
    one received. *)
Definition clear_ready (id : nat) (r : router) : router :=
  with_r_queue (map (λ w, if Nat.eqb (w_id w) id then set_ready false w else w) (r_queue r)) r.

Definition acquire_resume (rid : loc) (id : nat) (cause : wake_cause) (now : Z) (h : heap)
    : heap * option acquire_result :=
  match find_waiter (router_at h rid) id with
  | None => (h, None)
  | Some w =>
      let h' := match cause with WakeReady => upd_router rid (clear_ready id) h | _ => h end in
      let enabled :=
        match cause with
        | WakeReady => w_ready w
        | WakeTimer => true
        | WakeContext => is_done h (w_ctx w)
        end in
      if enabled
      then let '(h2, res) := acquire_iter rid (w_query w) (w_ctx w) (Some id) now h' in (h2, Some res)
      else (h, None)
  end.

(** ** Release and the event ring *)

Definition MaxExecutionEvents : nat := 1000.

(** [d.Milliseconds()], [float64(d.Microseconds()) / 1000] *)
Definition milliseconds (d : Z) : float64 := f_of_Z (Z.quot d 1000000).
Definition micros_ms (d : Z) : float64 := fdiv (f_of_Z (Z.quot d 1000)) f1000.

Definition success_status (status : Z) : bool := (200 <=? status) && (status <? 300).

Definition event_outcome (status : Z) (execution : option ExecutionResult) : string :=
  let o1 := if success_status status then "succeeded" else "failed" in
  let o2 := if status =? 499 then "canceled" else o1 in
  match execution with
  | None => o2
  | Some e =>
      let copy := Redacted e in
      let o3 := if negb (Successful copy) then "failed" else o2 in
      if er_ClientCanceled copy then "canceled" else o3
  end.

Definition push_event (e : ExecutionEvent) (c : capacity) : capacity :=
  if (length (cap_events c) <? MaxExecutionEvents)%nat
  then with_cap_events (cap_events c ++ [e]) c
  else with_cap_eventCursor ((cap_eventCursor c + 1) mod MaxExecutionEvents)%nat
         (with_cap_events (<[cap_eventCursor c := e]> (cap_events c)) c).

(** The event [recordEvent] builds. *)
Definition new_event (h : heap) (l : lease) (status now seq : Z) : ExecutionEvent :=
  let r := router_at h (le_router l) in
  {| ev_Sequence := seq; ev_FinishedAt := now; ev_Source := s_ID (src_at r (t_Source (le_Target l)));
     ev_Model := m_ID (t_Model (le_Target l)); ev_Protocol := le_protocol l; ev_Validation := le_probe l;
     ev_Status := status; ev_Outcome := event_outcome status (le_execution l);
     ev_DurationMS := micros_ms (now - le_started l); ev_TTFTMS := le_ttftMS l;
     ev_Execution := Redacted <$> le_execution l |}.

Definition recordEvent (l : lease) (status now : Z) (h : heap) : heap :=
  let r := router_at h (le_router l) in
  let seq := u64 (cap_eventSequence (rcap h r) + 1) in
  upd_cap (r_capacity r) (λ c, push_event (new_event h l status now seq) (with_cap_eventSequence seq c)) h.

(** [ExecutionEvents]: oldest to newest. *)
Definition ExecutionEvents (c : capacity) : list ExecutionEvent :=
  let n := length (cap_events c) in
  omap (λ i, cap_events c !! ((cap_eventCursor c + i) mod n)%nat) (seq 0 n).

Definition second : Z := 1000000000.
Definition day : Z := 24 * 3600 * second.

(** The health update of [Release] on the lease's state. *)
Definition release_state (status : Z) (started now : Z) (st : state) : state :=
  let st1 := with_st_lastHTTPStatus status st in
  let st2 := if (status =? 401) || (status =? 403) then with_st_blocked true st1 else st1 in
  if success_status status then
    let st3 := with_st_completed (u64 (st_completed st2 + 1)) (with_st_lastSuccess now st2) in
    let ms := milliseconds (now - started) in
    with_st_latency
      (if feqb (st_latency st3) f0 then ms else fadd (fmul (st_latency st3) f08) (fmul ms f02)) st3
  else if negb (status =? 499) then
    let st3 := with_st_failures (u64 (st_failures st2 + 1)) (with_st_lastFailure now st2) in
    if (status =? 0) || (500 <=? status) then with_st_cooldown (now + 5 * second) st3 else st3
  else st2.

(** [quota.cooldown] after a 429 *)
Definition rate_limit_quota (status retryAfter now : Z) (qt : quota) : quota :=
  if status =? 429 then
    let ra := if retryAfter <=? 0 then 30 * second else retryAfter in
    with_q_cooldown (now + Z.min ra day) qt
  else qt.

Definition release_counters (l : lease) (h : heap) : heap :=
  let r := router_at h (le_router l) in
  let h1 := upd_cap (r_capacity r) (λ c, with_cap_active (cap_active c - 1) c) h in
  let h2 := upd_state (le_state l) (λ st, with_st_active (st_active st - 1) st) h1 in
  let h3 := upd_quota (le_quota l) (λ qt, with_q_active (q_active qt - 1) qt) h2 in
  upd_quota_opt (le_account l) (λ a, with_q_active (q_active a - 1) a) h3.

Definition signal_current (l : lease) (now : Z) (h : heap) : heap :=
  signal (cap_current (rcap h (router_at h (le_router l)))) now h.

Definition Release (lid : loc) (status retryAfter now : Z) (h : heap) : heap :=
  let l := lease_at h lid in
  if le_once l then h
  else
    let h1 := release_counters l (upd_lease lid (with_le_once true) h) in
    if status =? -1 then signal_current l now h1
    else
      let h2 := recordEvent l status now h1 in
      let h3 := upd_quota (le_quota l) (rate_limit_quota status retryAfter now) h2 in
      let h4 := upd_state (le_state l) (release_state status (le_started l) now) h3 in
      signal_current l now h4.

Definition ReleaseAdministrative (lid : loc) (now : Z) (h : heap) : heap := Release lid (-1) 0 now h.

(** ** Recording results ([output.go]) *)

Definition maxInt64 (v zero : Z) : Z := if v <? zero then zero else v.

(** The accounting of a lease's first recorded result. *)
Definition account_usage (m : Model) (result : ExecutionResult) (st : state) : state :=
  let input := maxInt64 (er_InputTokens result) 0 in
  let output := maxInt64 (er_OutputTokens result) 0 in
  let total0 := maxInt64 (er_TotalTokens result) 0 in
  let total :=
    if (total0 =? 0) && ((0 <? input) || (0 <? output)) then i64 (input + output) else total0 in
  let st1 :=
    with_st_executions (u64 (st_executions st + 1))
      (with_st_totalTokens (u64 (st_totalTokens st + u64 total))
         (with_st_outputTokens (u64 (st_outputTokens st + u64 output))
            (with_st_inputTokens (u64 (st_inputTokens st + u64 input)) st))) in
  let st2 :=
    match er_UsageKnown result, m_InputUSDPerMillion m, m_OutputUSDPerMillion m with
    | true, Some i, Some o =>
        with_st_estimatedCost
          (fadd (st_estimatedCost st1)
             (fadd (fmul (fdiv (f_of_Z input) f1e6) i) (fmul (fdiv (f_of_Z output) f1e6) o)))
          (with_st_pricedExecutions (u64 (st_pricedExecutions st1 + 1)) st1)
    | _, _, _ => st1
    end in
  with_st_costKnown ((0 <? st_executions st2) && (st_pricedExecutions st2 =? st_executions st2)) st2.

Definition RecordExecution (lid : loc) (result : ExecutionResult) (h : heap) : heap :=
  let result := Redacted result in
  let l := lease_at h lid in
  let h1 :=
    match le_execution l with
    | None => upd_state (le_state l) (account_usage (t_Model (le_Target l)) result) h
    | Some _ => h
    end in
  upd_lease lid (with_le_execution (Some result))
    (upd_state (le_state l) (with_st_lastExecution (Some result)) h1).

Definition FirstOutput (lid : loc) (now : Z) (h : heap) : heap :=
  let l := lease_at h lid in
  if le_firstOutput l then h
  else
    let ms := micros_ms (now - le_started l) in
    upd_state (le_state l) (λ st,
        with_st_ttftMS
          (if feqb (st_ttftMS st) f0 then ms else fadd (fmul (st_ttftMS st) f08) (fmul ms f02)) st)
      (upd_lease lid (λ l, with_le_firstOutput true (with_le_ttftMS ms l)) h).

(** ** Administration *)

Definition SetEnabled (rid : loc) (id : string) (on : bool) (now : Z) (h : heap) : heap * bool :=
  let r := router_at h rid in
  match list_find (λ s, s_ID s = id) (c_Sources (r_cfg r)) with
  | Some (i, _) =>
      (signal rid now
         (upd_state (state_loc r i) (λ st,
             let st1 := with_st_enabled on st in if on then with_st_blocked false st1 else st1) h), true)
  | None => (h, false)
  end.

Record WorkloadStatus := {
  ws_Active : Z; ws_ActiveLimit : Z; ws_Queued : Z; ws_QueueLimit : Z }.

Definition workloadStatus (h : heap) (r : router) : WorkloadStatus :=
  {| ws_Active := cap_active (rcap h r); ws_ActiveLimit := rt_MaxInflight (c_Runtime (r_cfg r));
     ws_Queued := r_waiting r; ws_QueueLimit := rt_MaxQueued (c_Runtime (r_cfg r)) |}.

(** [Status]: the health of source [i] (the switch of the loop). *)
Definition source_health (h : heap) (r : router) (i : nat) (now : Z) : string :=
  let s := st_at h (state_loc r i) in
  let qt := q_at h (quota_loc r i) in
  if negb (st_enabled s && parent_enabled r i) then "disabled"
  else if st_blocked s then "blocked"
  else if before now (maxTime (st_cooldown s) (q_cooldown qt)) then "cooldown"
  else if (s_MaxInflight (src_at r i) <=? st_active s) || (q_limit qt <=? q_active qt) then "exhausted"
  else if (0 <? st_failures s) && (st_completed s =? 0) then "broken"
  else if 0 <? st_failures s then "degraded"
  else if 0 <? st_completed s then "healthy"
  else "untested".

(** ** Hot reconfiguration ([Adopt]) *)

(** Source [i] of the new router takes over the live state, ... *)
Definition adopt_state (cl nrid : loc) (i : nat) (source : Source) (h : heap) : heap * loc :=
  let '(h1, st) :=
    match cap_sourceStates (cap_at h cl) !! s_ID source with
    | Some l => (h, l)
    | None =>
        let l := state_loc (router_at h nrid) i in
        (upd_cap cl (λ c, with_cap_sourceStates (<[s_ID source := l]> (cap_sourceStates c)) c) h, l)
    end in
  (upd_state st (λ s,
      with_st_enabled (s_Enabled source)
        (if negb (st_enabled s) && s_Enabled source then with_st_blocked false s else s)) h1, st).

(** ... the live quota domain, with the new limit, ... *)
Definition adopt_quota (cl nrid : loc) (i : nat) (source : Source) (h : heap) : heap * loc :=
  let '(h1, q) :=
    match cap_quotaStates (cap_at h cl) !! s_QuotaDomain source with
    | Some l => (h, l)
    | None =>
        let l := quota_loc (router_at h nrid) i in
        (upd_cap cl (λ c, with_cap_quotaStates (<[s_QuotaDomain source := l]> (cap_quotaStates c)) c) h, l)
    end in
  (upd_quota q (with_q_limit (s_QuotaMaxInflight source)) h1, q).

(** ... and the live account. *)
Definition adopt_account (cl nrid : loc) (i : nat) (source : Source) (h : heap) : heap * option loc :=
  let own := account_loc (router_at h nrid) i in
  if (s_AccountID source =? "")%string then (h, own)
  else
    let '(h1, a) :=
      match cap_accountStates (cap_at h cl) !! s_AccountID source with
      | Some l => (h, Some l)
      | None =>
          match own with
          | Some l =>
              (upd_cap cl (λ c, with_cap_accountStates
                  (<[s_AccountID source := l]> (cap_accountStates c)) c) h, Some l)
          | None => (h, None)
          end
      end in
    let limit := match own with Some l => q_limit (q_at h1 l) | None => 0 end in
    (upd_quota_opt a (with_q_limit limit) h1, a).

(** The loop over [next.cfg.Sources]. *)
Definition adopt_source (cl nrid : loc) (i : nat) (source : Source) (h : heap) : heap :=
  let '(h1, st) := adopt_state cl nrid i source h in
  let '(h2, q) := adopt_quota cl nrid i source h1 in
  let '(h3, account) := adopt_account cl nrid i source h2 in
  upd_router nrid (λ n,
      with_r_accounts (<[i := account]> (r_accounts n))
        (with_r_quotas (<[i := q]> (r_quotas n)) (with_r_state (<[i := st]> (r_state n)) n))) h3.

Fixpoint adopt_sources (cl nrid : loc) (i : nat) (l : list Source) (h : heap) : heap :=
  match l with
  | [] => h
  | s :: l' => adopt_sources cl nrid (S i) l' (adopt_source cl nrid i s h)
  end.

(** The three deletion loops: an identifier the new configuration does not
    name is forgotten unless a lease still holds its counter. *)
Definition prune_states (h : heap) (keep : list string) (m : gmap string loc) : gmap string loc :=
  filter (λ '(id, l), contains keep id || negb (st_active (st_at h l) =? 0) = true) m.
Definition prune_quotas (h : heap) (keep : list string) (m : gmap string loc) : gmap string loc :=
  filter (λ '(id, l), contains keep id || negb (q_active (q_at h l) =? 0) = true) m.

Definition Adopt (rid nrid : loc) (now : Z) (h : heap) : heap :=
  let cl := r_capacity (router_at h rid) in
  let h1 := upd_router nrid (with_r_capacity cl) h in
  let sources := c_Sources (r_cfg (router_at h1 nrid)) in
  let h2 := adopt_sources cl nrid 0 sources h1 in
  let h3 := upd_cap cl (λ c,
      with_cap_accountStates (prune_quotas h2 (map s_AccountID sources) (cap_accountStates c))
        (with_cap_quotaStates (prune_quotas h2 (map s_QuotaDomain sources) (cap_quotaStates c))
           (with_cap_sourceStates (prune_states h2 (map s_ID sources) (cap_sourceStates c)) c))) h2 in
  let h4 := upd_router rid (with_r_retired true) h3 in
  let h5 := upd_cap cl (with_cap_current nrid) h4 in
  let h6 := upd_router rid (λ r, with_r_queue (map (set_ready true) (r_queue r)) r) h5 in
  signal nrid now h6.
