(* ===== verification/RouterInv.v ===== *)
(** * Capacity accounting: the invariant of the router's shared state

    [exec] runs one operation; [reachable] are the stores a sequence of
    operations can produce from a freshly compiled router, whatever the order
    of acquisitions, wake-ups, cancellations, releases, records,
    administrative switches and hot reconfigurations.

    The invariant is stated on the [skeleton] of a store, the part capacity
    accounting depends on: an operation that leaves the skeleton unchanged
    preserves it for free. *)

From S2P Require Import Prelude GoFloat ConfigData Execution RouterData RouterPolicy RouterPolicyFacts RouterOps.
Local Open Scope Z_scope.

(** ** Operations and reachable stores *)

Inductive op :=
| OpCancel (ctx : nat)
| OpAcquire (rid : loc) (q : Query) (ctx : nat)
| OpResume (rid : loc) (waiter : nat) (cause : wake_cause)
| OpRelease (lease : loc) (status retryAfter : Z)
| OpRecord (lease : loc) (result : ExecutionResult)
| OpFirstOutput (lease : loc)
| OpSetEnabled (rid : loc) (id : string) (on : bool)
| OpReconfigure (rid : loc) (c : Config).

Definition live_router (h : heap) (rid : loc) : bool :=
  match h_routers h !! rid with Some r => negb (r_retired r) | None => false end.

(** Operations act on routers and leases that exist; a hot reconfiguration
    compiles the new configuration and adopts it from the active router. *)
Definition exec (o : op) (now : Z) (h : heap) : heap :=
  match o with
  | OpCancel ctx => with_h_done ({[ctx]} ∪ h_done h) h
  | OpAcquire rid q ctx =>
      if bool_decide (is_Some (h_routers h !! rid)) then fst (acquire_iter rid q ctx None now h) else h
  | OpResume rid w cause => fst (acquire_resume rid w cause now h)
  | OpRelease l status ra => if bool_decide (is_Some (h_leases h !! l)) then Release l status ra now h else h
  | OpRecord l result => if bool_decide (is_Some (h_leases h !! l)) then RecordExecution l result h else h
  | OpFirstOutput l => if bool_decide (is_Some (h_leases h !! l)) then FirstOutput l now h else h
  | OpSetEnabled rid id on =>
      if bool_decide (is_Some (h_routers h !! rid)) then fst (SetEnabled rid id on now h) else h
  | OpReconfigure rid c =>
      if live_router h rid then let '(h', nrid) := New c h in Adopt rid nrid now h' else h
  end.

(** Stores reachable at a time; the (monotonic) clock never runs backwards. *)
Inductive reachable : Z → heap → Prop :=
| reach_boot c now : reachable now (fst (New c empty_heap))
| reach_step h o t now : reachable t h → t ≤ now → reachable now (exec o now h).

(** ** Skeletons *)

Record rskel := mk_rskel {
  rs_capacity : loc; rs_state : list loc; rs_quotas : list loc; rs_accounts : list (option loc);
  rs_targets : list Target; rs_candidates : gmap string (list nat); rs_sources : nat }.
Record cskel := mk_cskel {
  cs_active : Z; cs_sourceStates : gmap string loc; cs_quotaStates : gmap string loc;
  cs_accountStates : gmap string loc; cs_current : loc }.
Record lskel := mk_lskel {
  ls_once : bool; ls_router : loc; ls_state : loc; ls_quota : loc; ls_account : option loc }.
Record skeleton := mk_skeleton {
  sk_next : loc; sk_states : gmap loc Z; sk_quotas : gmap loc Z; sk_caps : gmap loc cskel;
  sk_routers : gmap loc rskel; sk_leases : gmap loc lskel }.

Definition router_skel (r : router) : rskel :=
  mk_rskel (r_capacity r) (r_state r) (r_quotas r) (r_accounts r) (r_targets r) (r_candidates r)
    (length (c_Sources (r_cfg r))).
Definition cap_skel (c : capacity) : cskel :=
  mk_cskel (cap_active c) (cap_sourceStates c) (cap_quotaStates c) (cap_accountStates c) (cap_current c).
Definition lease_skel (l : lease) : lskel :=
  mk_lskel (le_once l) (le_router l) (le_state l) (le_quota l) (le_account l).
Definition skel (h : heap) : skeleton :=
  mk_skeleton (h_next h) (st_active <$> h_states h) (q_active <$> h_quotas h) (cap_skel <$> h_caps h)
    (router_skel <$> h_routers h) (lease_skel <$> h_leases h).

(** ** Counting held leases *)

Definition ind (b : bool) : Z := if b then 1 else 0.
Definition count (P : lskel → bool) (m : gmap loc lskel) : Z :=
  map_fold (λ _ l acc, ind (P l) + acc) 0 m.

Lemma count_empty P : count P ∅ = 0.
Proof. apply map_fold_empty. Qed.

Lemma count_insert P m k l : m !! k = None → count P (<[k:=l]> m) = ind (P l) + count P m.
Proof. intros H. unfold count. rewrite map_fold_insert_L; [done|lia|done]. Qed.

Lemma count_replace P m k l l' :
  m !! k = Some l → count P (<[k:=l']> m) = count P m - ind (P l) + ind (P l').
Proof.
  intros H. rewrite <-insert_delete_eq, count_insert by apply lookup_delete_eq.
  rewrite <-(insert_delete_id m k l H) at 2. rewrite count_insert by apply lookup_delete_eq. lia.
Qed.

Lemma count_ext P Q m : (∀ k l, m !! k = Some l → P l = Q l) → count P m = count Q m.
Proof.
  induction m as [|k l m Hk Hf IH] using map_first_key_ind; intros H; [by rewrite !count_empty|].
  rewrite !count_insert by done. rewrite (H k l) by apply lookup_insert_eq.
  rewrite IH; [done|]. intros k' l' Hl. apply (H k'). rewrite lookup_insert_ne; [done|]. congruence.
Qed.

Lemma count_zero P m : (∀ k l, m !! k = Some l → P l = false) → count P m = 0.
Proof.
  intros H. rewrite (count_ext P (λ _, false)) by done. clear H.
  induction m as [|k l m Hk Hf IH] using map_first_key_ind; [apply count_empty|].
  by rewrite count_insert.
Qed.

Lemma count_nonneg P m : 0 ≤ count P m.
Proof.
  induction m as [|k l m Hk Hf IH] using map_first_key_ind; [by rewrite count_empty|].
  rewrite count_insert by done. unfold ind. destruct (P l); lia.
Qed.

Lemma count_pos P m k l : m !! k = Some l → P l = true → 0 < count P m.
Proof.
  intros H HP. rewrite <-(insert_delete_id m k l H), count_insert by apply lookup_delete_eq.
  pose proof (count_nonneg P (delete k m)). rewrite HP. simpl. lia.
Qed.

(** Which counter a lease holds, until it is released. *)
Definition holds_state (k : loc) (l : lskel) : bool := negb (ls_once l) && Nat.eqb (ls_state l) k.
Definition holds_quota (k : loc) (l : lskel) : bool := negb (ls_once l) && Nat.eqb (ls_quota l) k.
Definition holds_account (k : loc) (l : lskel) : bool :=
  negb (ls_once l) && bool_decide (ls_account l = Some k).
Definition holds_cap (rs : gmap loc rskel) (k : loc) (l : lskel) : bool :=
  negb (ls_once l) && bool_decide (rs_capacity <$> rs !! ls_router l = Some k).

(** ** The invariant *)

Definition in_dom {A} (m : gmap loc A) (k : loc) : Prop := is_Some (m !! k).

Record router_ok (s : skeleton) (r : rskel) : Prop := {
  ro_cap : in_dom (sk_caps s) (rs_capacity r);
  ro_states : Forall (in_dom (sk_states s)) (rs_state r);
  ro_quotas : Forall (in_dom (sk_quotas s)) (rs_quotas r);
  ro_accounts : Forall (λ a, ∀ k, a = Some k → in_dom (sk_quotas s) k) (rs_accounts r);
  ro_state_len : length (rs_state r) = rs_sources r;
  ro_quota_len : length (rs_quotas r) = length (rs_state r);
  ro_account_len : length (rs_accounts r) = length (rs_state r);
  ro_candidates : ∀ key l idx, rs_candidates r !! key = Some l → idx ∈ l →
    ∃ t, rs_targets r !! idx = Some t ∧ (t_Source t < length (rs_state r))%nat }.

Record cap_ok (s : skeleton) (c : cskel) : Prop := {
  co_states : ∀ id k, cs_sourceStates c !! id = Some k → in_dom (sk_states s) k;
  co_quotas : ∀ id k, cs_quotaStates c !! id = Some k → in_dom (sk_quotas s) k;
  co_accounts : ∀ id k, cs_accountStates c !! id = Some k → in_dom (sk_quotas s) k }.

Record lease_ok (s : skeleton) (l : lskel) : Prop := {
  lo_router : in_dom (sk_routers s) (ls_router l);
  lo_state : in_dom (sk_states s) (ls_state l);
  lo_quota : in_dom (sk_quotas s) (ls_quota l);
  lo_account : ∀ k, ls_account l = Some k → in_dom (sk_quotas s) k }.

Record sinv (s : skeleton) : Prop := {
  si_next : ∀ k, (sk_next s ≤ k)%nat →
    sk_states s !! k = None ∧ sk_quotas s !! k = None ∧ sk_caps s !! k = None
    ∧ sk_routers s !! k = None ∧ sk_leases s !! k = None;
  si_states : ∀ k a, sk_states s !! k = Some a → a = count (holds_state k) (sk_leases s);
  si_quotas : ∀ k a, sk_quotas s !! k = Some a →
    a = count (holds_quota k) (sk_leases s) + count (holds_account k) (sk_leases s);
  si_caps : ∀ k c, sk_caps s !! k = Some c → cs_active c = count (holds_cap (sk_routers s) k) (sk_leases s);
  si_routers : ∀ k r, sk_routers s !! k = Some r → router_ok s r;
  si_capmaps : ∀ k c, sk_caps s !! k = Some c → cap_ok s c;
  si_leases : ∀ k l, sk_leases s !! k = Some l → lease_ok s l }.

Definition inv (h : heap) : Prop := sinv (skel h).

(** ** Skeletons of the primitive updates *)

Section Prims.
Context (h : heap).

Lemma skel_upd_state l f :
  is_Some (h_states h !! l) → (∀ st, st_active (f st) = st_active st) →
  skel (upd_state l f h) = skel h.
Proof.
  intros [st Hst] Hf. unfold skel, upd_state, st_at. simpl. f_equal.
  rewrite fmap_insert, Hst. simpl. rewrite Hf. apply insert_id. by rewrite lookup_fmap, Hst.
Qed.

Lemma skel_upd_quota l f :
  is_Some (h_quotas h !! l) → (∀ st, q_active (f st) = q_active st) →
  skel (upd_quota l f h) = skel h.
Proof.
  intros [st Hst] Hf. unfold skel, upd_quota, q_at. simpl. f_equal.
  rewrite fmap_insert, Hst. simpl. rewrite Hf. apply insert_id. by rewrite lookup_fmap, Hst.
Qed.

Lemma skel_upd_cap l f :
  is_Some (h_caps h !! l) → (∀ c, cap_skel (f c) = cap_skel c) → skel (upd_cap l f h) = skel h.
Proof.
  intros [c Hc] Hf. unfold skel, upd_cap, cap_at. simpl. f_equal.
  rewrite fmap_insert, Hc. change (default zero_capacity (Some c)) with c. rewrite Hf.
  apply insert_id. by rewrite lookup_fmap, Hc.
Qed.

Lemma skel_upd_router l f :
  is_Some (h_routers h !! l) → (∀ r, router_skel (f r) = router_skel r) → skel (upd_router l f h) = skel h.
Proof.
  intros [r Hr] Hf. unfold skel, upd_router, router_at. simpl. f_equal.
  rewrite fmap_insert, Hr. change (default zero_router (Some r)) with r. rewrite Hf.
  apply insert_id. by rewrite lookup_fmap, Hr.
Qed.

Lemma skel_upd_lease l f :
  is_Some (h_leases h !! l) → (∀ x, lease_skel (f x) = lease_skel x) → skel (upd_lease l f h) = skel h.
Proof.
  intros [x Hx] Hf. unfold skel, upd_lease, lease_at. simpl. f_equal.
  rewrite fmap_insert, Hx. change (default zero_lease (Some x)) with x. rewrite Hf.
  apply insert_id. by rewrite lookup_fmap, Hx.
Qed.
End Prims.

(** Changing the counters a lease holds by [d]. *)
Definition shift_cap (d : Z) (c : cskel) : cskel :=
  mk_cskel (cs_active c + d) (cs_sourceStates c) (cs_quotaStates c) (cs_accountStates c) (cs_current c).
Definition alter_opt {A} (f : A → A) (k : option loc) (m : gmap loc A) : gmap loc A :=
  match k with Some k => alter f k m | None => m end.
Definition shift (d : Z) (l : lskel) (s : skeleton) : skeleton :=
  mk_skeleton (sk_next s) (alter (Z.add d) (ls_state l) (sk_states s))
    (alter_opt (Z.add d) (ls_account l) (alter (Z.add d) (ls_quota l) (sk_quotas s)))
    (alter_opt (shift_cap d) (rs_capacity <$> sk_routers s !! ls_router l) (sk_caps s))
    (sk_routers s) (sk_leases s).
Definition set_leases (n : loc) (m : gmap loc lskel) (s : skeleton) : skeleton :=
  mk_skeleton n (sk_states s) (sk_quotas s) (sk_caps s) (sk_routers s) m.

Lemma insert_as_alter {A} (m : gmap loc A) k x g : m !! k = Some x → <[k := g x]> m = alter g k m.
Proof.
  intros H. apply map_eq. intros j. rewrite lookup_insert, lookup_alter.
  case_decide; [subst; by rewrite H|done].
Qed.

Lemma in_dom_alter {A} (m : gmap loc A) f k j : in_dom (alter f k m) j ↔ in_dom m j.
Proof. unfold in_dom. rewrite lookup_alter. case_decide; [subst; apply fmap_is_Some|done]. Qed.

Lemma in_dom_alter_opt {A} (m : gmap loc A) f k j : in_dom (alter_opt f k m) j ↔ in_dom m j.
Proof. destruct k; [apply in_dom_alter|done]. Qed.

(** Pointers stay valid when no map loses a key. *)
Definition same_dom (s s' : skeleton) : Prop :=
  (∀ k, in_dom (sk_states s) k → in_dom (sk_states s') k)
  ∧ (∀ k, in_dom (sk_quotas s) k → in_dom (sk_quotas s') k)
  ∧ (∀ k, in_dom (sk_caps s) k → in_dom (sk_caps s') k)
  ∧ (∀ k, in_dom (sk_routers s) k → in_dom (sk_routers s') k).

Lemma router_ok_mono s s' r : same_dom s s' → router_ok s r → router_ok s' r.
Proof.
  intros (Hs & Hq & Hc & _) []. constructor; auto.
  - eapply Forall_impl; eauto.
  - eapply Forall_impl; eauto.
  - eapply Forall_impl; [eauto|]. simpl. eauto.
Qed.

Lemma cap_ok_mono s s' c : same_dom s s' → cap_ok s c → cap_ok s' c.
Proof. intros (Hs & Hq & _) []. constructor; eauto. Qed.

Lemma lease_ok_mono s s' l : same_dom s s' → lease_ok s l → lease_ok s' l.
Proof. intros (Hs & Hq & _ & Hr) []. constructor; eauto. Qed.

Lemma shift_same_dom d l n m s : same_dom s (set_leases n m (shift d l s)).
Proof.
  unfold same_dom. simpl. repeat split; intros k Hk;
    rewrite ?in_dom_alter_opt, ?in_dom_alter, ?in_dom_alter_opt; auto.
Qed.

Lemma cap_ok_shift s d c : cap_ok s (shift_cap d c) ↔ cap_ok s c.
Proof. split; intros []; constructor; done. Qed.

(** Counter values after [shift]. *)
Lemma shift_state_lookup d l s k a :
  sk_states (shift d l s) !! k = Some a →
  ∃ a0, sk_states s !! k = Some a0 ∧ a = a0 + d * ind (Nat.eqb (ls_state l) k).
Proof.
  simpl. rewrite lookup_alter. case_decide as H.
  - subst k. rewrite Nat.eqb_refl. intros (a0 & -> & ->)%fmap_Some_1. exists a0. split; [done|simpl; lia].
  - apply Nat.eqb_neq in H. rewrite H. intros ->. exists a. split; [done|simpl; lia].
Qed.

Lemma shift_quota_lookup d l s k a :
  sk_quotas (shift d l s) !! k = Some a →
  ∃ a0, sk_quotas s !! k = Some a0
    ∧ a = a0 + d * ind (Nat.eqb (ls_quota l) k) + d * ind (bool_decide (ls_account l = Some k)).
Proof.
  assert (H1 : ∀ a1, alter (Z.add d) (ls_quota l) (sk_quotas s) !! k = Some a1 →
    ∃ a0, sk_quotas s !! k = Some a0 ∧ a1 = a0 + d * ind (Nat.eqb (ls_quota l) k)).
  { intros a1. rewrite lookup_alter. case_decide as H.
    - subst k. rewrite Nat.eqb_refl. intros (a0 & -> & ->)%fmap_Some_1. exists a0. split; [done|simpl; lia].
    - apply Nat.eqb_neq in H. rewrite H. intros ->. exists a1. split; [done|simpl; lia]. }
  simpl. unfold alter_opt. destruct (ls_account l) as [acc|].
  - rewrite lookup_alter. case_decide as H.
    + subst k. rewrite bool_decide_eq_true_2 by done.
      intros (a1 & (a0 & -> & ->)%H1 & ->)%fmap_Some_1. exists a0. split; [done|simpl; lia].
    + rewrite bool_decide_eq_false_2 by congruence. intros (a0 & -> & ->)%H1. exists a0. split; [done|simpl; lia].
  - intros (a0 & -> & ->)%H1. exists a0. split; [done|]. rewrite bool_decide_eq_false_2 by done. simpl; lia.
Qed.

Lemma shift_cap_lookup d l s k c :
  sk_caps (shift d l s) !! k = Some c →
  ∃ c0, sk_caps s !! k = Some c0 ∧ (c = c0 ∨ c = shift_cap d c0)
    ∧ cs_active c = cs_active c0
        + d * ind (bool_decide (rs_capacity <$> sk_routers s !! ls_router l = Some k)).
Proof.
  simpl. unfold alter_opt. destruct (rs_capacity <$> sk_routers s !! ls_router l) as [cl|].
  - rewrite lookup_alter. case_decide as H.
    + subst k. rewrite bool_decide_eq_true_2 by done. intros (c0 & -> & ->)%fmap_Some_1.
      exists c0. simpl. split; [done|]. split; [by right|lia].
    + rewrite bool_decide_eq_false_2 by congruence. intros ->. exists c. split; [done|]. split; [by left|simpl; lia].
  - rewrite bool_decide_eq_false_2 by done. intros ->. exists c. split; [done|]. split; [by left|simpl; lia].
Qed.

Lemma not_in_dom {A} (m : gmap loc A) k : m !! k = None ↔ ¬ in_dom m k.
Proof. apply eq_None_not_Some. Qed.

Lemma shift_fresh d l s k :
  sk_states s !! k = None ∧ sk_quotas s !! k = None ∧ sk_caps s !! k = None
  ∧ sk_routers s !! k = None ∧ sk_leases s !! k = None →
  sk_states (shift d l s) !! k = None ∧ sk_quotas (shift d l s) !! k = None
  ∧ sk_caps (shift d l s) !! k = None.
Proof.
  intros (E1 & E2 & E3 & _). simpl. rewrite !not_in_dom in *.
  by rewrite !in_dom_alter_opt, !in_dom_alter.
Qed.

(** A new lease, with its counters taken. *)
Lemma sinv_acquire s l :
  sinv s → lease_ok s l → ls_once l = false →
  sinv (set_leases (S (sk_next s)) (<[sk_next s := l]> (sk_leases s)) (shift 1 l s)).
Proof.
  intros [Hn Hst Hq Hc Hr Hm Hl] Hok Ho.
  pose proof (Hn (sk_next s) ltac:(lia)) as (_ & _ & _ & _ & Hfresh).
  pose proof (shift_same_dom 1 l (S (sk_next s)) (<[sk_next s := l]> (sk_leases s)) s) as Hdom.
  constructor; cbn [sk_next sk_states sk_quotas sk_caps sk_routers sk_leases set_leases].
  - intros k Hk. destruct (Hn k ltac:(lia)) as (_ & _ & _ & ? & ?).
    pose proof (shift_fresh 1 l s k (Hn k ltac:(lia))) as (? & ? & ?).
    rewrite lookup_insert_ne by lia. done.
  - intros k a (a0 & H0 & ->)%shift_state_lookup. rewrite count_insert by done.
    rewrite (Hst _ _ H0). unfold holds_state at 2. rewrite Ho. simpl. lia.
  - intros k a (a0 & H0 & ->)%shift_quota_lookup. rewrite !count_insert by done.
    rewrite (Hq _ _ H0). unfold holds_quota at 2, holds_account at 2. rewrite Ho. simpl. lia.
  - intros k c (c0 & H0 & _ & ->)%shift_cap_lookup. rewrite count_insert by done.
    rewrite (Hc _ _ H0). unfold holds_cap at 2. rewrite Ho. simpl. lia.
  - intros k r H0. eapply router_ok_mono; [exact Hdom|eauto].
  - intros k c (c0 & H0 & Hcc & _)%shift_cap_lookup. eapply cap_ok_mono; [exact Hdom|].
    destruct Hcc as [-> | ->]; [eauto|]. apply cap_ok_shift. eauto.
  - intros k l'. rewrite lookup_insert. intros H0. eapply lease_ok_mono; [exact Hdom|].
    case_decide; [by simplify_eq|eauto].
Qed.

Definition mark_once (l : lskel) : lskel :=
  mk_lskel true (ls_router l) (ls_state l) (ls_quota l) (ls_account l).

(** A lease returned, with its counters given back. *)
Lemma sinv_release s k l :
  sinv s → sk_leases s !! k = Some l → ls_once l = false →
  sinv (set_leases (sk_next s) (<[k := mark_once l]> (sk_leases s)) (shift (-1) l s)).
Proof.
  intros [Hn Hst Hq Hc Hr Hm Hl] Hk Ho.
  pose proof (shift_same_dom (-1) l (sk_next s) (<[k := mark_once l]> (sk_leases s)) s) as Hdom.
  constructor; cbn [sk_next sk_states sk_quotas sk_caps sk_routers sk_leases set_leases].
  - intros j Hj. destruct (Hn j ltac:(lia)) as (_ & _ & _ & ? & ?).
    pose proof (shift_fresh (-1) l s j (Hn j ltac:(lia))) as (? & ? & ?).
    rewrite lookup_insert_ne by congruence. done.
  - intros j a (a0 & H0 & ->)%shift_state_lookup. rewrite (count_replace _ _ _ _ _ Hk).
    rewrite (Hst _ _ H0). unfold holds_state at 3 4. rewrite Ho. simpl. lia.
  - intros j a (a0 & H0 & ->)%shift_quota_lookup. rewrite !(count_replace _ _ _ _ _ Hk).
    rewrite (Hq _ _ H0). unfold holds_quota at 3 4, holds_account at 3 4. rewrite Ho. simpl. lia.
  - intros j c (c0 & H0 & _ & ->)%shift_cap_lookup. rewrite (count_replace _ _ _ _ _ Hk).
    rewrite (Hc _ _ H0). unfold holds_cap at 3 4. rewrite Ho. simpl. lia.
  - intros j r H0. eapply router_ok_mono; [exact Hdom|eauto].
  - intros j c (c0 & H0 & Hcc & _)%shift_cap_lookup. eapply cap_ok_mono; [exact Hdom|].
    destruct Hcc as [-> | ->]; [eauto|]. apply cap_ok_shift. eauto.
  - intros j l'. rewrite lookup_insert. intros H0. eapply lease_ok_mono; [exact Hdom|].
    case_decide; [|eauto]. simplify_eq. destruct (Hl _ _ Hk). constructor; done.
Qed.

(** ** Skeletons of the counter updates *)

Definition set_states (m : gmap loc Z) (s : skeleton) : skeleton :=
  mk_skeleton (sk_next s) m (sk_quotas s) (sk_caps s) (sk_routers s) (sk_leases s).
Definition set_quotas (m : gmap loc Z) (s : skeleton) : skeleton :=
  mk_skeleton (sk_next s) (sk_states s) m (sk_caps s) (sk_routers s) (sk_leases s).
Definition set_caps (m : gmap loc cskel) (s : skeleton) : skeleton :=
  mk_skeleton (sk_next s) (sk_states s) (sk_quotas s) m (sk_routers s) (sk_leases s).
Definition set_routers (m : gmap loc rskel) (s : skeleton) : skeleton :=
  mk_skeleton (sk_next s) (sk_states s) (sk_quotas s) (sk_caps s) m (sk_leases s).

Lemma skel_bump_state h l f d :
  is_Some (h_states h !! l) → (∀ st, st_active (f st) = d + st_active st) →
  skel (upd_state l f h) = set_states (alter (Z.add d) l (sk_states (skel h))) (skel h).
Proof.
  intros [st Hst] Hf. unfold skel, upd_state, st_at, set_states. simpl. f_equal.
  rewrite fmap_insert, Hst. simpl. rewrite Hf.
  apply (insert_as_alter _ _ (st_active st)). by rewrite lookup_fmap, Hst.
Qed.

Lemma skel_bump_quota h l f d :
  is_Some (h_quotas h !! l) → (∀ x, q_active (f x) = d + q_active x) →
  skel (upd_quota l f h) = set_quotas (alter (Z.add d) l (sk_quotas (skel h))) (skel h).
Proof.
  intros [st Hst] Hf. unfold skel, upd_quota, q_at, set_quotas. simpl. f_equal.
  rewrite fmap_insert, Hst. simpl. rewrite Hf.
  apply (insert_as_alter _ _ (q_active st)). by rewrite lookup_fmap, Hst.
Qed.

Lemma skel_bump_cap h l f d :
  is_Some (h_caps h !! l) → (∀ x, cap_skel (f x) = shift_cap d (cap_skel x)) →
  skel (upd_cap l f h) = set_caps (alter (shift_cap d) l (sk_caps (skel h))) (skel h).
Proof.
  intros [c Hc] Hf. unfold skel, upd_cap, cap_at, set_caps. simpl. f_equal.
  rewrite fmap_insert, Hc. change (default zero_capacity (Some c)) with c. rewrite Hf.
  apply (insert_as_alter _ _ (cap_skel c)). by rewrite lookup_fmap, Hc.
Qed.

(** Validity of pointers, read off the skeleton. *)
Lemma in_states h k : in_dom (sk_states (skel h)) k ↔ is_Some (h_states h !! k).
Proof. unfold in_dom. simpl. rewrite lookup_fmap. apply fmap_is_Some. Qed.
Lemma in_quotas h k : in_dom (sk_quotas (skel h)) k ↔ is_Some (h_quotas h !! k).
Proof. unfold in_dom. simpl. rewrite lookup_fmap. apply fmap_is_Some. Qed.
Lemma in_caps h k : in_dom (sk_caps (skel h)) k ↔ is_Some (h_caps h !! k).
Proof. unfold in_dom. simpl. rewrite lookup_fmap. apply fmap_is_Some. Qed.
Lemma in_routers h k : in_dom (sk_routers (skel h)) k ↔ is_Some (h_routers h !! k).
Proof. unfold in_dom. simpl. rewrite lookup_fmap. apply fmap_is_Some. Qed.

Lemma dom_upd_quota h l f k : is_Some (h_quotas h !! k) → is_Some (h_quotas (upd_quota l f h) !! k).
Proof. intros H. simpl. rewrite lookup_insert. by case_decide. Qed.
Lemma dom_upd_cap h l f k : is_Some (h_caps h !! k) → is_Some (h_caps (upd_cap l f h) !! k).
Proof. intros H. simpl. rewrite lookup_insert. by case_decide. Qed.
Lemma dom_upd_state h l f k : is_Some (h_states h !! k) → is_Some (h_states (upd_state l f h) !! k).
Proof. intros H. simpl. rewrite lookup_insert. by case_decide. Qed.
Lemma dom_upd_router h l f k : is_Some (h_routers h !! k) → is_Some (h_routers (upd_router l f h) !! k).
Proof. intros H. simpl. rewrite lookup_insert. by case_decide. Qed.
Lemma dom_upd_lease h l f k : is_Some (h_leases h !! k) → is_Some (h_leases (upd_lease l f h) !! k).
Proof. intros H. simpl. rewrite lookup_insert. by case_decide. Qed.
#[export] Hint Resolve dom_upd_quota dom_upd_cap dom_upd_state dom_upd_router dom_upd_lease : heap_dom.

(** The pointers of source [i] of a router. *)
Record source_ptrs (h : heap) (r : router) (i : nat) : Prop := {
  sp_cap : is_Some (h_caps h !! r_capacity r);
  sp_state : is_Some (h_states h !! state_loc r i);
  sp_quota : is_Some (h_quotas h !! quota_loc r i);
  sp_account : ∀ a, account_loc r i = Some a → is_Some (h_quotas h !! a) }.

Lemma router_ptrs h rid r i :
  inv h → h_routers h !! rid = Some r → (i < length (r_state r))%nat → source_ptrs h r i.
Proof.
  intros Hinv Hr Hi. destruct (si_routers _ Hinv rid (router_skel r)) as [Hc Hs Hq Ha _ Hlq Hla _].
  { simpl. by rewrite lookup_fmap, Hr. }
  simpl in *. constructor.
  - by apply in_caps.
  - apply in_states. unfold state_loc. destruct (lookup_lt_is_Some_2 (r_state r) i Hi) as [l Hl].
    rewrite Hl. simpl. eapply (Forall_lookup_1 _ _ i l Hs Hl).
  - apply in_quotas. unfold quota_loc. destruct (lookup_lt_is_Some_2 (r_quotas r) i) as [l Hl]; [lia|].
    rewrite Hl. simpl. eapply (Forall_lookup_1 _ _ i l Hq Hl).
  - intros a. unfold account_loc. destruct (lookup_lt_is_Some_2 (r_accounts r) i) as [l Hl]; [lia|].
    rewrite Hl. simpl. intros ->. apply in_quotas. exact (Forall_lookup_1 _ _ i _ Ha Hl a eq_refl).
Qed.

Lemma chosen_ptrs h rid r q now idx e :
  inv h → h_routers h !! rid = Some r → choose h r q now = (Some idx, e) →
  source_ptrs h r (t_Source (target_at r idx)).
Proof.
  intros Hinv Hr (_ & Hidx & _)%choose_some. apply (router_ptrs h rid); [done..|].
  destruct (si_routers _ Hinv rid (router_skel r)) as [_ _ _ _ _ _ _ Hcand].
  { simpl. by rewrite lookup_fmap, Hr. }
  destruct (r_candidates r !! query_key q) as [l|] eqn:Hl; simpl in Hidx; [|set_solver].
  destruct (Hcand _ _ _ Hl Hidx) as (t & Ht & Hlt). unfold target_at. simpl in Ht. by rewrite Ht.
Qed.

Lemma router_at_lookup h rid r : h_routers h !! rid = Some r → router_at h rid = r.
Proof. unfold router_at. by intros ->. Qed.

(** ** Grant and release on skeletons *)

Definition granted_skel (rid : loc) (r : router) (i : nat) : lskel :=
  mk_lskel false rid (state_loc r i) (quota_loc r i) (account_loc r i).

Lemma skel_grant h rid r q idx now :
  h_routers h !! rid = Some r → source_ptrs h r (t_Source (target_at r idx)) →
  skel (fst (grant rid q idx now h))
  = set_leases (S (h_next h))
      (<[h_next h := granted_skel rid r (t_Source (target_at r idx))]> (sk_leases (skel h)))
      (shift 1 (granted_skel rid r (t_Source (target_at r idx))) (skel h)).
Proof.
  intros Hr [Hcap Hst Hq Ha]. unfold grant. rewrite (router_at_lookup _ _ _ Hr).
  set (i := t_Source (target_at r idx)) in *.
  set (h1 := upd_cap _ _ h). set (h2 := upd_state _ _ h1). set (h3 := upd_quota _ _ h2).
  set (h4 := match account_loc r i with Some a => _ | None => h3 end).
  set (h5 := upd_router rid _ h4).
  assert (E1 : skel h1 = set_caps (alter (shift_cap 1) (r_capacity r) (sk_caps (skel h))) (skel h)).
  { apply skel_bump_cap; [done|]. intros x. unfold cap_skel, shift_cap. simpl. f_equal; lia. }
  assert (E2 : skel h2 = set_states (alter (Z.add 1) (state_loc r i) (sk_states (skel h))) (skel h1)).
  { unfold h2. rewrite (skel_bump_state _ _ _ 1); [done|done|]. intros x. simpl. lia. }
  assert (E3 : skel h3 = set_quotas (alter (Z.add 1) (quota_loc r i) (sk_quotas (skel h))) (skel h2)).
  { unfold h3. rewrite (skel_bump_quota _ _ _ 1); [done|done|]. intros x. simpl. lia. }
  assert (E4 : skel h4 = set_quotas (alter_opt (Z.add 1) (account_loc r i)
                 (alter (Z.add 1) (quota_loc r i) (sk_quotas (skel h)))) (skel h3)).
  { unfold h4. destruct (account_loc r i) as [a|] eqn:Hacc; [|simpl; rewrite E3; done].
    unfold dispatch_account. rewrite (skel_bump_quota _ _ _ 1); [|apply dom_upd_quota; auto|simpl; intros; lia].
    rewrite skel_upd_cap; [|by apply dom_upd_cap|done]. by rewrite E3. }
  assert (E5 : skel h5 = skel h4).
  { apply skel_upd_router; [|done]. unfold h4. destruct (account_loc r i); simpl; eauto. }
  unfold alloc_lease. cbn [fst].
  assert (Hn : h_next h5 = h_next h). { unfold h5, h4. by destruct (account_loc r i). }
  assert (Hl : h_leases h5 = h_leases h). { unfold h5, h4. by destruct (account_loc r i). }
  clearbody h5 h4 h3 h2 h1.
  transitivity (set_leases (S (h_next h)) (<[h_next h := granted_skel rid r i]> (sk_leases (skel h))) (skel h5)).
  { unfold skel, set_leases. simpl. rewrite Hn, Hl. f_equal. by rewrite fmap_insert. }
  rewrite E5, E4, E3, E2, E1. unfold set_leases, shift. simpl. f_equal.
  rewrite lookup_fmap, Hr. done.
Qed.

Lemma skel_release h lid l :
  inv h → h_leases h !! lid = Some l → le_once l = false →
  skel (release_counters l (upd_lease lid (with_le_once true) h))
  = set_leases (h_next h) (<[lid := mark_once (lease_skel l)]> (sk_leases (skel h)))
      (shift (-1) (lease_skel l) (skel h)).
Proof.
  intros Hinv Hl Ho.
  destruct (si_leases _ Hinv lid (lease_skel l)) as [Hr Hs Hq Ha]. { simpl. by rewrite lookup_fmap, Hl. }
  cbn [ls_router ls_state ls_quota ls_account lease_skel] in *.
  apply in_routers in Hr as [r Hr]. apply in_states in Hs. apply in_quotas in Hq.
  destruct (si_routers _ Hinv (le_router l) (router_skel r)) as [Hcap _ _ _ _ _ _ _].
  { simpl. by rewrite lookup_fmap, Hr. }
  apply in_caps in Hcap. unfold release_counters.
  set (h0 := upd_lease lid _ h). change (router_at h0 (le_router l)) with (router_at h (le_router l)).
  rewrite (router_at_lookup _ _ _ Hr).
  set (h1 := upd_cap _ _ h0). set (h2 := upd_state _ _ h1). set (h3 := upd_quota _ _ h2).
  assert (E0 : skel h0 = set_leases (h_next h) (<[lid := mark_once (lease_skel l)]> (sk_leases (skel h))) (skel h)).
  { unfold skel, h0, upd_lease, lease_at, set_leases. simpl. f_equal. rewrite fmap_insert, Hl. done. }
  assert (E1 : skel h1 = set_caps (alter (shift_cap (-1)) (r_capacity r) (sk_caps (skel h))) (skel h0)).
  { unfold h1. rewrite (skel_bump_cap _ _ _ (-1)); [done|done|].
    intros x. unfold cap_skel, shift_cap. simpl. f_equal; lia. }
  assert (E2 : skel h2 = set_states (alter (Z.add (-1)) (le_state l) (sk_states (skel h))) (skel h1)).
  { unfold h2. rewrite (skel_bump_state _ _ _ (-1)); [done|done|]. intros x. simpl. lia. }
  assert (E3 : skel h3 = set_quotas (alter (Z.add (-1)) (le_quota l) (sk_quotas (skel h))) (skel h2)).
  { unfold h3. rewrite (skel_bump_quota _ _ _ (-1)); [done|done|]. intros x. simpl. lia. }
  assert (E4 : skel (upd_quota_opt (le_account l) (λ a, with_q_active (q_active a - 1) a) h3)
               = set_quotas (alter_opt (Z.add (-1)) (le_account l) (sk_quotas (skel h3))) (skel h3)).
  { unfold upd_quota_opt. destruct (le_account l) as [a|] eqn:Hacc; [|by destruct h3].
    rewrite (skel_bump_quota _ _ _ (-1)); [done| |simpl; intros; lia].
    apply dom_upd_quota, in_quotas, Ha. done. }
  rewrite E4, E3, E2, E1, E0. unfold set_leases, shift, alter_opt. simpl. f_equal.
  by rewrite lookup_fmap, Hr.
Qed.

(** ** Operations that leave the skeleton alone *)

Lemma skel_signal rid now h : is_Some (h_routers h !! rid) → skel (signal rid now h) = skel h.
Proof. intros H. by apply skel_upd_router. Qed.

Lemma skel_acquire_defer rid queued now h :
  is_Some (h_routers h !! rid) → skel (acquire_defer rid queued now h) = skel h.
Proof.
  intros H. destruct queued as [w|]; [|done]. simpl. rewrite skel_signal by auto using dom_upd_router.
  apply skel_upd_router; [done|]. intros r. unfold removeWaiter. by case_match.
Qed.

Lemma inv_skel h h' : skel h' = skel h → inv h → inv h'.
Proof. unfold inv. by intros ->. Qed.

(** Allocating an identifier moves only the allocation counter. *)
Lemma inv_enqueue rid q ctx h :
  is_Some (h_routers h !! rid) → inv h → inv (fst (enqueue rid q ctx h)).
Proof.
  intros Hr [Hn Hst Hq Hc Hro Hm Hl]. unfold enqueue. simpl.
  set (h0 := with_h_next (S (h_next h)) h).
  apply (inv_skel h0); [by apply skel_upd_router|]. constructor; simpl in *; auto.
  - intros k Hk. apply Hn. lia.
  - intros k r Hk. destruct (Hro k r Hk). constructor; done.
  - intros k r Hk. destruct (Hm k r Hk). constructor; done.
  - intros k r Hk. destruct (Hl k r Hk). constructor; done.
Qed.

Lemma inv_grant rid q idx now e h r :
  inv h → h_routers h !! rid = Some r → choose h r q now = (Some idx, e) →
  inv (fst (grant rid q idx now h)).
Proof.
  intros Hinv Hr Hch. pose proof (chosen_ptrs _ _ _ _ _ _ _ Hinv Hr Hch) as Hp.
  unfold inv. rewrite (skel_grant _ _ r) by done. apply (sinv_acquire (skel h)); [done| |done].
  destruct Hp as [_ ? ? Ha]. constructor; simpl.
  - apply in_routers. eauto.
  - by apply in_states.
  - by apply in_quotas.
  - intros k Hk. apply in_quotas. eauto.
Qed.

Lemma grant_routers rid q idx now h :
  is_Some (h_routers h !! rid) → is_Some (h_routers (fst (grant rid q idx now h)) !! rid).
Proof.
  intros H. unfold grant, alloc_lease. cbn [fst h_routers with_h_next with_h_leases].
  simpl. rewrite lookup_insert. by case_decide.
Qed.
