(* ===== verification/RouterReach.v ===== *)
(** * Every reachable router state satisfies the capacity invariant

    Preservation for releases, recording, administration, compilation and hot
    adoption, and the invariant of [reachable]. *)

From S2P Require Import Prelude GoFloat ConfigData Execution RouterData RouterPolicy RouterPolicyFacts RouterOps RouterInv.
Local Open Scope Z_scope.

(** ** Leases, states and quotas behind a lease are valid pointers *)

Record lease_ptrs (h : heap) (l : lease) : Prop := {
  lp_router : is_Some (h_routers h !! le_router l);
  lp_cap : is_Some (h_caps h !! r_capacity (router_at h (le_router l)));
  lp_state : is_Some (h_states h !! le_state l);
  lp_quota : is_Some (h_quotas h !! le_quota l) }.

Lemma inv_lease_ptrs h lid l : inv h → h_leases h !! lid = Some l → lease_ptrs h l.
Proof.
  intros Hinv Hl.
  destruct (si_leases _ Hinv lid (lease_skel l)) as [Hr Hs Hq _]. { simpl. by rewrite lookup_fmap, Hl. }
  cbn in Hr, Hs, Hq. pose proof Hr as [rk Hrk]. apply in_routers in Hr. apply in_states in Hs. apply in_quotas in Hq.
  constructor; [done| |done..]. destruct Hr as [r Hr].
  rewrite (router_at_lookup _ _ _ Hr). apply in_caps.
  destruct (si_routers _ Hinv (le_router l) (router_skel r)) as [Hcap _ _ _ _ _ _ _]; [|exact Hcap].
  simpl. by rewrite lookup_fmap, Hr.
Qed.

Lemma lease_at_lookup h lid l : h_leases h !! lid = Some l → lease_at h lid = l.
Proof. unfold lease_at. by intros ->. Qed.

(** A signal to a router that does not exist would create one; capacities only
    point at existing routers. *)
Definition current_ok (h : heap) : Prop :=
  ∀ k c, h_caps h !! k = Some c → is_Some (h_routers h !! cap_current c).

(** ** Neutral operations *)

Lemma skel_recordEvent l status now h :
  is_Some (h_caps h !! r_capacity (router_at h (le_router l))) → skel (recordEvent l status now h) = skel h.
Proof.
  intros H. apply skel_upd_cap; [done|]. intros c. unfold push_event. by case_match.
Qed.

Lemma release_state_active status started now st : st_active (release_state status started now st) = st_active st.
Proof.
  unfold release_state.
  destruct ((status =? 401) || (status =? 403)), (success_status status), (negb (status =? 499)),
    ((status =? 0) || (500 <=? status)); done.
Qed.

Lemma rate_limit_active status ra now qt : q_active (rate_limit_quota status ra now qt) = q_active qt.
Proof. unfold rate_limit_quota. by destruct (status =? 429). Qed.

Lemma account_usage_active m res st : st_active (account_usage m res st) = st_active st.
Proof.
  unfold account_usage. destruct (er_UsageKnown res), (m_InputUSDPerMillion m), (m_OutputUSDPerMillion m); done.
Qed.

Lemma skel_signal_current l now h :
  lease_ptrs h l → current_ok h → skel (signal_current l now h) = skel h.
Proof.
  intros [_ [c Hc] _ _] Hcur. apply skel_signal. unfold rcap, cap_at. rewrite Hc. simpl. eauto.
Qed.

(** [current_ok] is part of what the operations keep. *)
Record good (h : heap) : Prop := { good_inv : inv h; good_current : current_ok h }.

Lemma current_ok_mono h h' :
  (∀ k c', h_caps h' !! k = Some c' → ∃ c, h_caps h !! k = Some c ∧ cap_current c' = cap_current c) →
  (∀ k, is_Some (h_routers h !! k) → is_Some (h_routers h' !! k)) →
  current_ok h → current_ok h'.
Proof. intros Hc Hr Hok k c' (c & Hk & ->)%Hc. eauto. Qed.

(** A skeleton determines [current_ok]. *)
Lemma current_ok_skel h h' : skel h' = skel h → current_ok h → current_ok h'.
Proof.
  intros Hs. unfold skel in Hs. injection Hs as _ _ _ Hcaps Hrs _.
  apply current_ok_mono.
  - intros k c' Hk. assert (E : (cap_skel <$> h_caps h') !! k = Some (cap_skel c')) by by rewrite lookup_fmap, Hk.
    rewrite Hcaps, lookup_fmap in E. apply fmap_Some_1 in E as (c & Hc & He). exists c. split; [done|].
    unfold cap_skel in He. by injection He.
  - intros k Hk. rewrite <-(fmap_is_Some router_skel), <-lookup_fmap in *. by rewrite Hrs.
Qed.

Lemma good_skel h h' : skel h' = skel h → good h → good h'.
Proof. intros E [? ?]. split; [by apply (inv_skel h)|by apply (current_ok_skel h)]. Qed.

(** Operations change capacities only through their counters and logs, so the
    current router of each stays. *)
Lemma current_ok_shift h h' s d l n m :
  skel h = s → skel h' = set_leases n m (shift d l s) → current_ok h → current_ok h'.
Proof.
  intros Hs Hs' Hok k c' Hk.
  assert (Hc : sk_caps (shift d l s) !! k = Some (cap_skel c')).
  { change (sk_caps (shift d l s)) with (sk_caps (set_leases n m (shift d l s))). rewrite <-Hs'.
    simpl. by rewrite lookup_fmap, Hk. }
  apply shift_cap_lookup in Hc as (c0 & Hc0 & Hcc & _). rewrite <-Hs in Hc0. simpl in Hc0.
  rewrite lookup_fmap in Hc0. apply fmap_Some_1 in Hc0 as (c & Hc & ->).
  assert (Hcur : cap_current c' = cap_current c).
  { destruct Hcc as [E|E]; unfold cap_skel, shift_cap in E; by injection E. }
  rewrite Hcur. apply in_routers. rewrite Hs'. simpl. rewrite <-Hs. apply in_routers. eauto.
Qed.

Lemma good_release lid status ra now h :
  is_Some (h_leases h !! lid) → good h → good (Release lid status ra now h).
Proof.
  intros [l Hl] [Hinv Hcur]. unfold Release. rewrite (lease_at_lookup _ _ _ Hl).
  destruct (le_once l) eqn:Ho; [done|].
  pose proof (skel_release h lid l Hinv Hl Ho) as Hsk.
  set (h1 := release_counters l (upd_lease lid (with_le_once true) h)) in *.
  assert (Hg1 : good h1).
  { split.
    - unfold inv. rewrite Hsk. apply (sinv_release (skel h)); [done| |done]. simpl. by rewrite lookup_fmap, Hl.
    - exact (current_ok_shift h h1 _ _ _ _ _ eq_refl Hsk Hcur). }
  assert (Hl1 : h_leases h1 !! lid = Some (with_le_once true l)).
  { assert (E : h_leases h1 = <[lid := with_le_once true l]> (h_leases h)).
    { unfold h1, release_counters, upd_quota_opt. destruct (le_account l); simpl; by rewrite (lease_at_lookup _ _ _ Hl). }
    rewrite E. apply lookup_insert_eq. }
  clearbody h1.
  assert (Hp : ∀ h', skel h' = skel h1 → lease_ptrs h' l).
  { intros h' E. destruct (inv_lease_ptrs h1 lid _ (good_inv _ Hg1) Hl1) as [H1 H2 H3 H4]. simpl in *.
    rewrite <-in_states, <-E, in_states in H3. rewrite <-in_quotas, <-E, in_quotas in H4.
    rewrite <-in_routers, <-E, in_routers in H1.
    assert (Hcap : r_capacity (router_at h' (le_router l)) = r_capacity (router_at h1 (le_router l))).
    { destruct H1 as [r' Hr']. unfold skel in E. injection E as _ _ _ _ Hrs _.
      assert (E : (router_skel <$> h_routers h1) !! le_router l = Some (router_skel r')) by by rewrite <-Hrs, lookup_fmap, Hr'.
      rewrite lookup_fmap in E. apply fmap_Some_1 in E as (r & Hr & He).
      rewrite (router_at_lookup _ _ _ Hr), (router_at_lookup _ _ _ Hr').
      unfold router_skel in He. by injection He. }
    constructor; [done| |done..]. rewrite Hcap. by rewrite <-in_caps, E, in_caps. }
  destruct (status =? -1).
  { apply (good_skel h1); [|done]. apply skel_signal_current; [by apply Hp|apply Hg1]. }
  set (h2 := recordEvent l status now h1).
  assert (E2 : skel h2 = skel h1). { apply skel_recordEvent. by apply Hp. }
  set (h3 := upd_quota _ _ h2).
  assert (E3 : skel h3 = skel h1).
  { rewrite <-E2. apply skel_upd_quota; [|intros; apply rate_limit_active]. by apply Hp. }
  set (h4 := upd_state _ _ h3).
  assert (E4 : skel h4 = skel h1).
  { rewrite <-E3. apply skel_upd_state; [|intros; apply release_state_active]. by apply Hp. }
  clearbody h4. apply (good_skel h4).
  - apply skel_signal_current; [by apply Hp|]. by apply (current_ok_skel h1), Hg1.
  - by apply (good_skel h1).
Qed.

Lemma good_record lid result h :
  is_Some (h_leases h !! lid) → good h → good (RecordExecution lid result h).
Proof.
  intros [l Hl] Hg. destruct (inv_lease_ptrs h lid l (good_inv _ Hg) Hl) as [_ _ Hs _].
  apply (good_skel h); [|done]. unfold RecordExecution. rewrite (lease_at_lookup _ _ _ Hl).
  set (h1 := match le_execution l with None => _ | Some _ => h end).
  assert (E1 : skel h1 = skel h ∧ is_Some (h_states h1 !! le_state l) ∧ h_leases h1 = h_leases h).
  { unfold h1. destruct (le_execution l); [done|]. split_and!; [|by apply dom_upd_state|done].
    apply skel_upd_state; [done|]. intros; apply account_usage_active. }
  destruct E1 as (E1 & Hs1 & Hl1). clearbody h1.
  rewrite skel_upd_lease; [|simpl; rewrite Hl1; eauto|done]. by rewrite skel_upd_state.
Qed.

Lemma good_first_output lid now h :
  is_Some (h_leases h !! lid) → good h → good (FirstOutput lid now h).
Proof.
  intros [l Hl] Hg. destruct (inv_lease_ptrs h lid l (good_inv _ Hg) Hl) as [_ _ Hs _].
  unfold FirstOutput. rewrite (lease_at_lookup _ _ _ Hl). destruct (le_firstOutput l); [done|].
  apply (good_skel h); [|done]. rewrite skel_upd_state; [|done|done]. apply skel_upd_lease; [eauto|done].
Qed.

Lemma list_find_lt {A} (P : A → Prop) `{∀ x, Decision (P x)} (l : list A) i x :
  list_find P l = Some (i, x) → (i < length l)%nat.
Proof. intros (Hi & _)%list_find_Some. by eapply lookup_lt_Some. Qed.

Lemma good_set_enabled rid id on now h :
  is_Some (h_routers h !! rid) → good h → good (fst (SetEnabled rid id on now h)).
Proof.
  intros [r Hr] Hg. unfold SetEnabled. rewrite (router_at_lookup _ _ _ Hr).
  destruct (list_find _ _) as [[i s]|] eqn:Hf; [|done]. apply list_find_lt in Hf. cbn [fst].
  destruct (si_routers _ (good_inv _ Hg) rid (router_skel r)) as [_ _ _ _ Hlen _ _ _].
  { simpl. by rewrite lookup_fmap, Hr. }
  pose proof (router_ptrs h rid r i (good_inv _ Hg) Hr ltac:(simpl in Hlen; lia)) as [_ Hs _ _].
  apply (good_skel h); [|done]. rewrite skel_signal by eauto. apply skel_upd_state; [done|]. by destruct on.
Qed.

(** ** Compilation only allocates *)

(** [s'] extends [s] with fresh, unused counters. *)
Record ext (s s' : skeleton) : Prop := {
  ex_next : (sk_next s ≤ sk_next s')%nat;
  ex_caps : sk_caps s' = sk_caps s;
  ex_routers : sk_routers s' = sk_routers s;
  ex_leases : sk_leases s' = sk_leases s;
  ex_states : ∀ k a, sk_states s' !! k = Some a →
    sk_states s !! k = Some a ∨ a = 0 ∧ (sk_next s ≤ k < sk_next s')%nat;
  ex_quotas : ∀ k a, sk_quotas s' !! k = Some a →
    sk_quotas s !! k = Some a ∨ a = 0 ∧ (sk_next s ≤ k < sk_next s')%nat;
  ex_states_dom : ∀ k, in_dom (sk_states s) k → in_dom (sk_states s') k;
  ex_quotas_dom : ∀ k, in_dom (sk_quotas s) k → in_dom (sk_quotas s') k }.

Lemma ext_refl s : ext s s.
Proof. constructor; auto. Qed.

Lemma ext_trans s1 s2 s3 : ext s1 s2 → ext s2 s3 → ext s1 s3.
Proof.
  intros [] []. constructor; try congruence; try lia; auto.
  - intros k a [H|[-> ?]]%ex_states1; [apply ex_states0 in H as [?|[-> ?]]|]; auto with lia.
  - intros k a [H|[-> ?]]%ex_quotas1; [apply ex_quotas0 in H as [?|[-> ?]]|]; auto with lia.
Qed.

Lemma ext_same_dom s s' : ext s s' → same_dom s s'.
Proof. intros []. unfold same_dom. rewrite ex_caps0, ex_routers0. auto. Qed.

Lemma sinv_ext s s' : sinv s → ext s s' → sinv s'.
Proof.
  intros [Hn Hst Hq Hc Hr Hm Hl] Hext. pose proof (ext_same_dom _ _ Hext) as Hdom.
  destruct Hext as [Hle Ec Er El Es Eq _ _].
  constructor; rewrite ?Ec, ?Er, ?El; auto.
  - intros k Hk. destruct (Hn k ltac:(lia)) as (E1 & E2 & ? & ? & ?). split_and!; [..|done|done|done].
    + apply eq_None_not_Some. intros [a [Ha|[-> ?]]%Es]; [congruence|lia].
    + apply eq_None_not_Some. intros [a [Ha|[-> ?]]%Eq]; [congruence|lia].
  - intros k a [Ha|[-> ?]]%Es; [auto|]. symmetry. apply count_zero. intros j l Hj.
    unfold holds_state. destruct (Nat.eqb_spec (ls_state l) k) as [E|]; [|by rewrite andb_false_r].
    destruct (lo_state _ _ (Hl _ _ Hj)) as [? Hd]. destruct (Hn k ltac:(lia)) as (? & _). congruence.
  - intros k a [Ha|[-> ?]]%Eq; [auto|].
    assert (Hno : ∀ x : Prop, in_dom (sk_quotas s) k → x).
    { intros x [? Hd]. destruct (Hn k ltac:(lia)) as (_ & ? & _). congruence. }
    rewrite !count_zero; [done|..]; intros j l Hj; destruct (Hl _ _ Hj) as [_ _ Hlq Hla];
      unfold holds_quota, holds_account.
    + case_bool_decide as E; [by apply Hno, Hla|by rewrite andb_false_r].
    + destruct (Nat.eqb_spec (ls_quota l) k) as [E|]; [|by rewrite andb_false_r]. apply Hno. by rewrite <-E.
  - intros k r Hk. eapply router_ok_mono; eauto.
  - intros k c Hk. eapply cap_ok_mono; eauto.
  - intros k l Hk. eapply lease_ok_mono; eauto.
Qed.

Lemma ext_alloc_state st h :
  st_active st = 0 → ext (skel h) (skel (fst (alloc_state st h))).
Proof.
  intros H0. constructor; simpl; auto.
  - intros k a. rewrite fmap_insert, lookup_insert. case_decide; [|by left]. intros [= <-]. right. split; [done|lia].
  - intros k Hk. unfold in_dom. rewrite fmap_insert, lookup_insert. case_decide; [by eexists|done].
Qed.

Lemma ext_alloc_quota q h : q_active q = 0 → ext (skel h) (skel (fst (alloc_quota q h))).
Proof.
  intros H0. constructor; simpl; auto.
  - intros k a. rewrite fmap_insert, lookup_insert. case_decide; [|by left]. intros [= <-]. right. split; [done|lia].
  - intros k Hk. unfold in_dom. rewrite fmap_insert, lookup_insert. case_decide; [by eexists|done].
Qed.

(** The same on stores: nothing but counters is allocated. *)
Record hext (h h' : heap) : Prop := {
  hx_skel : ext (skel h) (skel h');
  hx_caps : h_caps h' = h_caps h;
  hx_routers : h_routers h' = h_routers h;
  hx_leases : h_leases h' = h_leases h }.

Lemma hext_refl h : hext h h.
Proof. constructor; auto using ext_refl. Qed.
Lemma hext_trans h1 h2 h3 : hext h1 h2 → hext h2 h3 → hext h1 h3.
Proof. intros [] []. constructor; [by eapply ext_trans|congruence..]. Qed.
Lemma hext_alloc_state st h : st_active st = 0 → hext h (fst (alloc_state st h)).
Proof. intros H. constructor; [by apply ext_alloc_state|done..]. Qed.
Lemma hext_alloc_quota q h : q_active q = 0 → hext h (fst (alloc_quota q h)).
Proof. intros H. constructor; [by apply ext_alloc_quota|done..]. Qed.

Section Compile.
Context (h0 : heap).

Definition accounts_built (acc : heap * gmap string loc) : Prop :=
  hext h0 (fst acc) ∧ ∀ id k, snd acc !! id = Some k → is_Some (h_quotas (fst acc) !! k).

Lemma new_account_built l :
  accounts_built (fold_left new_account l (h0, ∅)).
Proof.
  apply (fold_left_inv new_account (λ _, accounts_built)).
  - split; [apply hext_refl|]. intros id k. simpl. by rewrite lookup_empty.
  - intros _ [h limits] a _ [He Hl]. simpl in *. split.
    + eapply hext_trans; [exact He|]. by apply hext_alloc_quota.
    + intros id k. simpl. rewrite !lookup_insert. case_decide.
      * intros [= <-]. rewrite decide_True by done. eauto.
      * intros H'%Hl. by case_decide.
Qed.

(** What the source loop has built after [n] sources. *)
Record sources_built (n : nat) (acc : heap * building) : Prop := {
  sb_ext : hext h0 (fst acc);
  sb_state : Forall (λ k, is_Some (h_states (fst acc) !! k)) (bd_state (snd acc));
  sb_quotas : Forall (λ k, is_Some (h_quotas (fst acc) !! k)) (bd_quotas (snd acc));
  sb_accounts : Forall (λ a, ∀ k, a = Some k → is_Some (h_quotas (fst acc) !! k)) (bd_accounts (snd acc));
  sb_sourceStates : ∀ id k, bd_sourceStates (snd acc) !! id = Some k → is_Some (h_states (fst acc) !! k);
  sb_qs : ∀ id k, bd_qs (snd acc) !! id = Some k → is_Some (h_quotas (fst acc) !! k);
  sb_len : length (bd_state (snd acc)) = n ∧ length (bd_quotas (snd acc)) = n ∧ length (bd_accounts (snd acc)) = n;
  sb_targets : Forall (λ t, (t_Source t < n)%nat) (bd_targets (snd acc)) }.

Lemma dom_alloc_state st h k : is_Some (h_states h !! k) → is_Some (h_states (fst (alloc_state st h)) !! k).
Proof. intros H. simpl. rewrite lookup_insert. by case_decide. Qed.
Lemma dom_alloc_quota q h k : is_Some (h_quotas h !! k) → is_Some (h_quotas (fst (alloc_quota q h)) !! k).
Proof. intros H. simpl. rewrite lookup_insert. by case_decide. Qed.

Lemma domain_quota_spec s b h h2 qs ql :
  domain_quota s b h = (h2, qs, ql) →
  (∀ id k, bd_qs b !! id = Some k → is_Some (h_quotas h !! k)) →
  hext h h2 ∧ is_Some (h_quotas h2 !! ql) ∧ h_states h2 = h_states h
  ∧ (∀ k, is_Some (h_quotas h !! k) → is_Some (h_quotas h2 !! k))
  ∧ (∀ id k, qs !! id = Some k → is_Some (h_quotas h2 !! k)).
Proof.
  unfold domain_quota. destruct (bd_qs b !! s_QuotaDomain s) as [l|] eqn:Hq; intros [= <- <- <-] Hqs.
  - split_and!; eauto using hext_refl.
  - split_and!; [by apply hext_alloc_quota|simpl; rewrite lookup_insert_eq; eauto|done| |].
    + intros k Hk. by apply (dom_alloc_quota (with_q_limit (s_QuotaMaxInflight s) zero_quota) h k).
    + intros id k. rewrite lookup_insert. case_decide.
      * intros [= <-]. simpl. rewrite lookup_insert_eq. eauto.
      * intros Hk%Hqs. by apply (dom_alloc_quota (with_q_limit (s_QuotaMaxInflight s) zero_quota) h k).
Qed.

Lemma new_source_built ps accts limits n acc s :
  (∀ id k, limits !! id = Some k → is_Some (h_quotas (fst acc) !! k)) →
  sources_built n acc → sources_built (1 + n) (new_source ps accts limits acc s)
  ∧ ∀ k, is_Some (h_quotas (fst acc) !! k) → is_Some (h_quotas (fst (new_source ps accts limits acc s)) !! k).
Proof.
  destruct acc as [h b]. intros Hlim [He Hs Hq Ha Hss Hqs (Hl1 & Hl2 & Hl3) Ht]. cbn [fst snd] in *.
  unfold new_source.
  destruct (match ps !! s_Provider s with Some p => _ | None => _ end) as [e0 ap0].
  destruct (match accts !! s_AccountID s with Some a => _ | None => _ end) as [enabled approved].
  destruct (alloc_state (with_st_enabled (s_Enabled s) zero_state) h) as [h1 st] eqn:Hst.
  assert (E1 : h1 = fst (alloc_state (with_st_enabled (s_Enabled s) zero_state) h)) by by rewrite Hst.
  assert (Est : is_Some (h_states h1 !! st)). { injection Hst as <- <-. simpl. rewrite lookup_insert_eq. eauto. }
  assert (Eq1 : h_quotas h1 = h_quotas h) by by rewrite E1.
  assert (Hmono : ∀ k, is_Some (h_states h !! k) → is_Some (h_states h1 !! k)).
  { rewrite E1. apply dom_alloc_state. }
  destruct (domain_quota s b h1) as [[h2 qs] ql] eqn:Hdq.
  destruct (domain_quota_spec _ _ _ _ _ _ Hdq) as (He2 & Hql & Hst2 & Hmq & Hqs2); [by rewrite Eq1|].
  rewrite Eq1 in Hmq. cbn [fst snd]. split; [|exact Hmq]. constructor; simpl; rewrite ?Hst2.
  - eapply hext_trans; [exact He|]. eapply hext_trans; [|exact He2]. rewrite E1. by apply hext_alloc_state.
  - apply Forall_app. split; [eapply Forall_impl; eauto|by constructor].
  - apply Forall_app. split; [eapply Forall_impl; eauto|by constructor].
  - apply Forall_app. split; [eapply Forall_impl; [exact Ha|]; simpl; eauto|].
    constructor; [|done]. intros k Hk. eauto.
  - intros id k. rewrite lookup_insert. case_decide; [by intros [= <-]|eauto].
  - done.
  - rewrite !length_app. simpl. lia.
  - apply Forall_app. split; [eapply Forall_impl; [exact Ht|]; simpl; lia|].
    apply Forall_map, Forall_forall. simpl. intros. lia.
Qed.
End Compile.

(** ** The candidate lists name targets *)

Definition indices_below (n : nat) (m : gmap string (list nat)) : Prop :=
  ∀ key l idx, m !! key = Some l → idx ∈ l → (idx < n)%nat.

Lemma append_at_below n key v m :
  indices_below n m → (∀ i, i ∈ v → (i < n)%nat) → indices_below n (append_at key v m).
Proof.
  intros Hm Hv k l idx. unfold append_at. rewrite lookup_insert. case_decide; [|by apply Hm].
  intros [= <-] [Hi|Hi]%elem_of_app; [|by apply Hv].
  destruct (m !! key) as [l|] eqn:Hk; simpl in Hi; [by eapply Hm|set_solver].
Qed.

Lemma elem_of_enumerate {A} (l : list A) i x : (i, x) ∈ imap pair l → l !! i = Some x.
Proof.
  intros (j & y & Hj & Hy)%elem_of_lookup_imap. by simplify_eq.
Qed.

Lemma candidates_below c targets groups :
  indices_below (length targets) (compile_candidates c targets groups).
Proof.
  unfold compile_candidates.
  apply (fold_left_inv _ (λ _ m, indices_below (length targets) m)).
  - unfold name_candidates. apply (fold_left_inv _ (λ _ m, indices_below (length targets) m)).
    + intros key l idx. by rewrite lookup_empty.
    + intros _ m [i t] Hin Hm. apply elem_of_enumerate, lookup_lt_Some in Hin.
      do 2 (apply append_at_below; [|set_solver]). done.
  - intros _ m [id cg] _ Hm. apply append_at_below; [done|]. intros i.
    unfold group_candidates. intros (l & Hl & Hi)%list_elem_of_join.
    apply list_elem_of_fmap in Hi as (sid & -> & _).
    apply list_elem_of_omap in Hl as ([j t] & Hin & Hif). apply elem_of_enumerate, lookup_lt_Some in Hin.
    case_match; by simplify_eq.
Qed.

(** ** New objects on skeletons *)

Definition add_cap (c : cskel) (s : skeleton) : skeleton :=
  mk_skeleton (S (sk_next s)) (sk_states s) (sk_quotas s) (<[sk_next s := c]> (sk_caps s))
    (sk_routers s) (sk_leases s).
Definition add_router (r : rskel) (s : skeleton) : skeleton :=
  mk_skeleton (S (sk_next s)) (sk_states s) (sk_quotas s) (sk_caps s)
    (<[sk_next s := r]> (sk_routers s)) (sk_leases s).

Lemma in_dom_insert {A} (m : gmap loc A) i x k : in_dom m k → in_dom (<[i:=x]> m) k.
Proof. unfold in_dom. intros H. rewrite lookup_insert. by case_decide. Qed.

Lemma sinv_add_cap s c : sinv s → cap_ok s c → cs_active c = 0 → sinv (add_cap c s).
Proof.
  intros [Hn Hst Hq Hc Hr Hm Hl] Hok H0.
  assert (Hdom : same_dom s (add_cap c s)). { unfold same_dom. simpl. auto using in_dom_insert. }
  constructor; simpl; auto.
  - intros k Hk. destruct (Hn k ltac:(lia)) as (? & ? & ? & ? & ?). rewrite lookup_insert_ne by lia. done.
  - intros k c'. rewrite lookup_insert. case_decide as E; [|by apply Hc]. intros [= <-]. subst k. rewrite H0.
    symmetry. apply count_zero. intros k l Hk. unfold holds_cap. case_bool_decide as E; [|by rewrite andb_false_r].
    apply fmap_Some_1 in E as (r & Hrk & E). destruct (ro_cap _ _ (Hr _ _ Hrk)) as [? Hd]. rewrite <-E in Hd.
    destruct (Hn (sk_next s) ltac:(lia)) as (_ & _ & ? & _). congruence.
  - intros k r Hk. eapply router_ok_mono; eauto.
  - intros k c'. rewrite lookup_insert. case_decide; [intros [= <-]|intros Hk]; eapply cap_ok_mono; eauto.
  - intros k l Hk. eapply lease_ok_mono; eauto.
Qed.

Lemma sinv_add_router s r : sinv s → router_ok s r → sinv (add_router r s).
Proof.
  intros [Hn Hst Hq Hc Hr Hm Hl] Hok.
  assert (Hdom : same_dom s (add_router r s)). { unfold same_dom. simpl. auto using in_dom_insert. }
  constructor; simpl; auto.
  - intros k Hk. destruct (Hn k ltac:(lia)) as (? & ? & ? & ? & ?). rewrite lookup_insert_ne by lia. done.
  - intros k c Hk. rewrite (Hc _ _ Hk). apply count_ext. intros j l Hj. unfold holds_cap.
    rewrite lookup_insert_ne; [done|]. destruct (lo_router _ _ (Hl _ _ Hj)) as [? Hd]. intros E.
    destruct (Hn (sk_next s) ltac:(lia)) as (_ & _ & _ & ? & _). congruence.
  - intros k r'. rewrite lookup_insert. case_decide; [intros [= <-]|intros Hk]; eapply router_ok_mono; eauto.
  - intros k c Hk. eapply cap_ok_mono; eauto.
  - intros k l Hk. eapply lease_ok_mono; eauto.
Qed.

(** ** Compilation of a configuration *)

(** What [New] leaves: a fresh active router over the old store. *)
Record compiled (c : Config) (h h' : heap) (nrid : loc) : Prop := {
  cp_good : good h → good h';
  cp_next : (h_next h ≤ nrid < h_next h')%nat;
  cp_cfg : r_cfg (router_at h' nrid) = c;
  cp_router : is_Some (h_routers h' !! nrid);
  cp_active : r_retired (router_at h' nrid) = false;
  cp_queue : r_queue (router_at h' nrid) = [];
  cp_old : ∀ k, k ≠ nrid → h_routers h' !! k = h_routers h !! k;
  cp_leases : h_leases h' = h_leases h;
  cp_caps : ∀ k, (k < h_next h)%nat → h_caps h' !! k = h_caps h !! k }.

Lemma compile_sources_built c h :
  let '(h2, limits, b) := compile_sources c h in
  sources_built h (length (c_Sources c)) (h2, b)
  ∧ ∀ id k, limits !! id = Some k → is_Some (h_quotas h2 !! k).
Proof.
  unfold compile_sources.
  pose proof (new_account_built h (c_Accounts c)) as [Ea Hlim].
  destruct (fold_left new_account (c_Accounts c) (h, ∅)) as [h1 limits]. cbn [fst snd] in Ea, Hlim.
  set (f := new_source _ _ limits). set (b0 := mk_building [] [] [] [] [] false [] ∅ ∅ [] []).
  assert (Hb : sources_built h (length (c_Sources c)) (fold_left f (c_Sources c) (h1, b0))
    ∧ ∀ k, is_Some (h_quotas h1 !! k) → is_Some (h_quotas (fst (fold_left f (c_Sources c) (h1, b0))) !! k)).
  { apply (fold_left_inv f (λ n acc, sources_built h n acc ∧
      ∀ k, is_Some (h_quotas h1 !! k) → is_Some (h_quotas (fst acc) !! k))).
    - split; [|done]. constructor; simpl; auto; intros id k; by rewrite lookup_empty.
    - intros n acc s _ [Hn Hmono].
      destruct (new_source_built h (provider_map (c_Providers c)) (account_map (c_Accounts c)) limits n acc s)
        as [? ?]; eauto. }
  destruct (fold_left f (c_Sources c) (h1, b0)) as [h2 b]. destruct Hb as [Hb Hmono]. eauto.
Qed.

(** The skeleton of a compiled router is well formed over the store that holds
    its capacity. *)
Lemma compiled_router_ok c cl b h h2 s :
  sources_built h (length (c_Sources c)) (h2, b) →
  (∀ k, is_Some (h_states h2 !! k) → in_dom (sk_states s) k) →
  (∀ k, is_Some (h_quotas h2 !! k) → in_dom (sk_quotas s) k) →
  in_dom (sk_caps s) cl →
  router_ok s (router_skel (compiled_router c cl b)).
Proof.
  intros [_ Hs Hq Ha _ _ (Hl1 & Hl2 & Hl3) Ht] His Hiq Hcl. cbn [fst snd] in *. constructor; simpl; auto.
  - eapply Forall_impl; eauto.
  - eapply Forall_impl; eauto.
  - eapply Forall_impl; [exact Ha|]. simpl. eauto.
  - congruence.
  - congruence.
  - intros key l idx Hl Hi. pose proof (candidates_below _ _ _ _ _ _ Hl Hi) as Hlt.
    destruct (lookup_lt_is_Some_2 _ _ Hlt) as [t Htt]. exists t. split; [done|]. rewrite Hl1.
    exact (Forall_lookup_1 _ _ _ _ Ht Htt).
Qed.

Lemma New_compiled c h : compiled c h (fst (New c h)) (snd (New c h)).
Proof.
  unfold New. pose proof (compile_sources_built c h) as H.
  destruct (compile_sources c h) as [[h2 limits] b]. destruct H as [Hb Hlim].
  pose proof (sb_ext _ _ _ Hb) as [He Ec Er El]. cbn [fst snd] in *.
  set (cp := mk_capacity [] 0 0 0 0 _ _ _ _). set (h3 := fst (alloc_cap cp h2)).
  change (alloc_cap cp h2) with (h3, h_next h2). cbn iota.
  set (r := compiled_router c (h_next h2) b). set (h4 := fst (alloc_router r h3)).
  change (alloc_router r h3) with (h4, S (h_next h2)). cbn [fst snd].
  pose proof (ex_next _ _ He) as Hle. simpl in Hle.
  assert (Hr4 : h_routers h4 !! S (h_next h2) = Some r) by apply lookup_insert_eq.
  assert (Hsk : skel h4 = add_router (router_skel r) (add_cap (cap_skel cp) (skel h2))).
  { unfold skel, add_router, add_cap, h4. simpl. by rewrite !fmap_insert. }
  constructor.
  - intros [Hinv Hcur]. split.
    + unfold inv. rewrite Hsk. apply sinv_add_router.
      * apply sinv_add_cap; [by eapply sinv_ext| |done]. constructor; simpl; intros id k Hk.
        -- apply in_states. exact (sb_sourceStates _ _ _ Hb id k Hk).
        -- apply in_quotas. exact (sb_qs _ _ _ Hb id k Hk).
        -- apply in_quotas. eauto.
      * apply (compiled_router_ok _ _ _ _ _ _ Hb); simpl.
        -- intros k. apply in_states.
        -- intros k. apply in_quotas.
        -- unfold in_dom. rewrite lookup_insert_eq. eauto.
    + intros k c'. unfold h4. simpl. rewrite lookup_insert. case_decide.
      * intros [= <-]. simpl. rewrite lookup_insert_eq. eauto.
      * rewrite Ec, Er. intros Hk. rewrite lookup_insert. case_decide; [eauto|]. eapply Hcur; eauto.
  - simpl. lia.
  - unfold router_at. by rewrite Hr4.
  - by rewrite Hr4.
  - unfold router_at. by rewrite Hr4.
  - unfold router_at. by rewrite Hr4.
  - intros k Hk. unfold h4. simpl. rewrite lookup_insert_ne by done. by rewrite Er.
  - simpl. exact El.
  - intros k Hk. unfold h4. simpl. rewrite lookup_insert_ne by lia. by rewrite Ec.
Qed.

(** ** Adoption *)

Lemma sinv_set_router s k r :
  sinv s → in_dom (sk_routers s) k → (∀ j l, sk_leases s !! j = Some l → ls_router l ≠ k) →
  router_ok s r → sinv (set_routers (<[k := r]> (sk_routers s)) s).
Proof.
  intros [Hn Hst Hq Hc Hr Hm Hl] [r0 Hk] Hno Hok.
  assert (Hdom : same_dom s (set_routers (<[k := r]> (sk_routers s)) s)).
  { unfold same_dom. simpl. auto using in_dom_insert. }
  constructor; simpl; auto.
  - intros j Hj. destruct (Hn j Hj) as (? & ? & ? & ? & ?). rewrite lookup_insert_ne by congruence. done.
  - intros j c Hj. rewrite (Hc _ _ Hj). apply count_ext. intros x l Hx. unfold holds_cap.
    rewrite lookup_insert_ne; [done|]. intros ->. by eapply Hno.
  - intros j r'. rewrite lookup_insert. case_decide; [intros [= <-]|intros Hj]; eapply router_ok_mono; eauto.
  - intros j c Hj. eapply cap_ok_mono; eauto.
  - intros j l Hj. eapply lease_ok_mono; eauto.
Qed.

Lemma sinv_set_cap s k c0 c :
  sinv s → sk_caps s !! k = Some c0 → cs_active c = cs_active c0 → cap_ok s c →
  sinv (set_caps (<[k := c]> (sk_caps s)) s).
Proof.
  intros [Hn Hst Hq Hc Hr Hm Hl] Hk Ha Hok.
  assert (Hdom : same_dom s (set_caps (<[k := c]> (sk_caps s)) s)).
  { unfold same_dom. simpl. auto using in_dom_insert. }
  constructor; simpl; auto.
  - intros j Hj. destruct (Hn j Hj) as (? & ? & ? & ? & ?). rewrite lookup_insert_ne by congruence. done.
  - intros j c'. rewrite lookup_insert. case_decide; [intros [= <-]; subst; rewrite Ha|]; auto.
  - intros j r' Hj. eapply router_ok_mono; eauto.
  - intros j c'. rewrite lookup_insert. case_decide; [intros [= <-]|intros Hj]; eapply cap_ok_mono; eauto.
  - intros j l Hj. eapply lease_ok_mono; eauto.
Qed.

Lemma skel_set_cap h k f :
  skel (upd_cap k f h) = set_caps (<[k := cap_skel (f (cap_at h k))]> (sk_caps (skel h))) (skel h).
Proof. unfold skel, set_caps. simpl. by rewrite fmap_insert. Qed.

Lemma skel_set_router h k f :
  skel (upd_router k f h) = set_routers (<[k := router_skel (f (router_at h k))]> (sk_routers (skel h))) (skel h).
Proof. unfold skel, set_routers. simpl. by rewrite fmap_insert. Qed.

(** What holds throughout the adoption loop. *)
Record adopting (cl nrid : loc) (c : Config) (h : heap) : Prop := {
  ad_good : good h;
  ad_router : is_Some (h_routers h !! nrid);
  ad_cap : is_Some (h_caps h !! cl);
  ad_cfg : r_cfg (router_at h nrid) = c;
  ad_fresh : ∀ j l, h_leases h !! j = Some l → le_router l ≠ nrid }.

(** A change to capacity [cl] that only moves its identifier maps. *)
Lemma adopting_set_cap cl nrid c h f :
  adopting cl nrid c h →
  (∀ x, cap_active (f x) = cap_active x ∧ cap_current (f x) = cap_current x) →
  (∀ x, cap_ok (skel h) (cap_skel x) → cap_ok (skel h) (cap_skel (f x))) →
  adopting cl nrid c (upd_cap cl f h).
Proof.
  intros [[Hinv Hcur] Hr [x Hx] Hcfg Hno] Hf Hok.
  assert (Hat : cap_at h cl = x) by (unfold cap_at; by rewrite Hx).
  assert (Hsx : sk_caps (skel h) !! cl = Some (cap_skel x)) by (simpl; by rewrite lookup_fmap, Hx).
  destruct (Hf x) as [Hfa Hfc].
  constructor; [|done|by apply dom_upd_cap|done..]. split.
  - unfold inv. rewrite skel_set_cap, Hat. eapply sinv_set_cap; [done|done|simpl; done|].
    apply Hok. by apply (si_capmaps _ Hinv cl).
  - intros k c'. simpl. rewrite lookup_insert, Hat. case_decide; [|apply Hcur].
    intros [= <-]. rewrite Hfc. by eapply Hcur.
Qed.

Lemma adopting_skel cl nrid c h h' :
  adopting cl nrid c h → skel h' = skel h → h_routers h' = h_routers h → h_leases h' = h_leases h →
  adopting cl nrid c h'.
Proof.
  intros [Hg Hr Hc Hcfg Hno] Hs Er El. constructor; rewrite ?Er, ?El; auto.
  - by apply (good_skel h).
  - by rewrite <-in_caps, Hs, in_caps.
  - unfold router_at. by rewrite Er.
Qed.

Lemma adopting_ptrs cl nrid c h i source :
  adopting cl nrid c h → c_Sources c !! i = Some source → source_ptrs h (router_at h nrid) i.
Proof.
  intros [[Hinv _] [r Hr] _ Hcfg _] Hi. rewrite (router_at_lookup _ _ _ Hr) in *.
  apply (router_ptrs h nrid); [done..|].
  destruct (si_routers _ Hinv nrid (router_skel r)) as [_ _ _ _ Hlen _ _ _]. { simpl. by rewrite lookup_fmap, Hr. }
  simpl in Hlen. rewrite Hlen, Hcfg. by eapply lookup_lt_Some.
Qed.

Lemma adopt_state_ok cl nrid c h i source :
  adopting cl nrid c h → c_Sources c !! i = Some source →
  let '(h1, st) := adopt_state cl nrid i source h in
  adopting cl nrid c h1 ∧ is_Some (h_states h1 !! st).
Proof.
  intros Had Hi. destruct (adopting_ptrs _ _ _ _ _ _ Had Hi) as [_ Hst _ _].
  unfold adopt_state.
  assert (Hfin : ∀ h1 st, adopting cl nrid c h1 → is_Some (h_states h1 !! st) →
    ∀ f, (∀ s, st_active (f s) = st_active s) →
    adopting cl nrid c (upd_state st f h1) ∧ is_Some (h_states (upd_state st f h1) !! st)).
  { intros h1 st H1 Hs f Hf. split; [|by apply dom_upd_state].
    apply (adopting_skel _ _ _ h1); [done|by apply skel_upd_state|done..]. }
  destruct (cap_sourceStates (cap_at h cl) !! s_ID source) as [l|] eqn:Hl.
  - apply Hfin; [done| |intros s; by case_match].
    destruct (ad_cap _ _ _ _ Had) as [x Hx]. unfold cap_at in Hl. rewrite Hx in Hl. simpl in Hl.
    apply in_states. eapply (co_states _ (cap_skel x)); [|exact Hl].
    apply (si_capmaps _ (good_inv _ (ad_good _ _ _ _ Had)) cl). simpl. by rewrite lookup_fmap, Hx.
  - apply Hfin; [|done|intros s; by case_match].
    apply adopting_set_cap; [done|done|]. intros x [Hcs ? ?]. constructor; simpl; auto.
    intros id k. rewrite lookup_insert. case_decide; [intros [= <-]; by apply in_states|apply Hcs].
Qed.

Lemma cap_quota_in cl nrid c h k :
  adopting cl nrid c h →
  (∃ id, cap_quotaStates (cap_at h cl) !! id = Some k ∨ cap_accountStates (cap_at h cl) !! id = Some k) →
  is_Some (h_quotas h !! k).
Proof.
  intros Had [id Hid]. destruct (ad_cap _ _ _ _ Had) as [x Hx]. unfold cap_at in Hid. rewrite Hx in Hid.
  simpl in Hid. apply in_quotas.
  destruct (si_capmaps _ (good_inv _ (ad_good _ _ _ _ Had)) cl (cap_skel x)) as [_ Hcq Hca].
  { simpl. by rewrite lookup_fmap, Hx. }
  destruct Hid as [Hid|Hid]; [by eapply Hcq|by eapply Hca].
Qed.

Lemma adopting_upd_quota cl nrid c h q f :
  adopting cl nrid c h → is_Some (h_quotas h !! q) → (∀ x, q_active (f x) = q_active x) →
  adopting cl nrid c (upd_quota q f h) ∧ is_Some (h_quotas (upd_quota q f h) !! q).
Proof.
  intros H1 Hs Hf. split; [|by apply dom_upd_quota].
  apply (adopting_skel _ _ _ h); [done|by apply skel_upd_quota|done..].
Qed.

Lemma adopt_quota_ok cl nrid c h i source :
  adopting cl nrid c h → c_Sources c !! i = Some source →
  let '(h1, q) := adopt_quota cl nrid i source h in
  adopting cl nrid c h1 ∧ is_Some (h_quotas h1 !! q) ∧ h_states h1 = h_states h.
Proof.
  intros Had Hi. destruct (adopting_ptrs _ _ _ _ _ _ Had Hi) as [_ _ Hq _].
  unfold adopt_quota. destruct (cap_quotaStates (cap_at h cl) !! s_QuotaDomain source) as [l|] eqn:Hl.
  - assert (is_Some (h_quotas h !! l)) by (eapply cap_quota_in; eauto).
    destruct (adopting_upd_quota cl nrid c h l (with_q_limit (s_QuotaMaxInflight source))); done.
  - set (h1 := upd_cap cl _ h).
    assert (H1 : adopting cl nrid c h1).
    { apply adopting_set_cap; [done|done|]. intros x [? Hcq ?]. constructor; simpl; auto.
      intros id k. rewrite lookup_insert. case_decide; [intros [= <-]; by apply in_quotas|apply Hcq]. }
    destruct (adopting_upd_quota cl nrid c h1 (quota_loc (router_at h nrid) i)
      (with_q_limit (s_QuotaMaxInflight source))); done.
Qed.

Lemma adopt_account_ok cl nrid c h i source :
  adopting cl nrid c h → c_Sources c !! i = Some source →
  let '(h1, a) := adopt_account cl nrid i source h in
  adopting cl nrid c h1 ∧ (∀ k, a = Some k → is_Some (h_quotas h1 !! k)) ∧ h_states h1 = h_states h
  ∧ (∀ k, is_Some (h_quotas h !! k) → is_Some (h_quotas h1 !! k)).
Proof.
  intros Had Hi. destruct (adopting_ptrs _ _ _ _ _ _ Had Hi) as [_ _ _ Ha].
  unfold adopt_account. destruct (s_AccountID source =? "")%string; [done|].
  assert (Hfin : ∀ h1 a lim, adopting cl nrid c h1 → (∀ k, a = Some k → is_Some (h_quotas h1 !! k)) →
    adopting cl nrid c (upd_quota_opt a (with_q_limit lim) h1)
    ∧ (∀ k, a = Some k → is_Some (h_quotas (upd_quota_opt a (with_q_limit lim) h1) !! k))
    ∧ h_states (upd_quota_opt a (with_q_limit lim) h1) = h_states h1
    ∧ (∀ k, is_Some (h_quotas h1 !! k) → is_Some (h_quotas (upd_quota_opt a (with_q_limit lim) h1) !! k))).
  { intros h1 [a|] lim H1 Hk; [|done]. simpl upd_quota_opt.
    destruct (adopting_upd_quota cl nrid c h1 a (with_q_limit lim) H1 (Hk a eq_refl)); [done|].
    split_and!; [done|by intros k [= <-]|done|]. intros k. apply dom_upd_quota. }
  destruct (cap_accountStates (cap_at h cl) !! s_AccountID source) as [l|] eqn:Hl.
  - apply Hfin; [done|]. intros k [= <-]. eapply cap_quota_in; eauto.
  - destruct (account_loc (router_at h nrid) i) as [own|] eqn:Hown; [|by apply Hfin].
    set (h1 := upd_cap cl _ h). apply (Hfin h1 (Some own)); [|intros k [= <-]; by apply Ha].
    apply adopting_set_cap; [done|done|]. intros x [? ? Hca]. constructor; simpl; auto.
    intros id k. rewrite lookup_insert. case_decide; [intros [= <-]; by apply in_quotas, Ha|apply Hca].
Qed.

Lemma adopt_source_ok cl nrid c h i source :
  adopting cl nrid c h → c_Sources c !! i = Some source →
  adopting cl nrid c (adopt_source cl nrid i source h).
Proof.
  intros Had Hi. unfold adopt_source. pose proof (adopt_state_ok _ _ _ _ _ _ Had Hi) as H1.
  destruct (adopt_state cl nrid i source h) as [h1 st]. destruct H1 as [H1 Hst].
  pose proof (adopt_quota_ok _ _ _ _ _ _ H1 Hi) as H2.
  destruct (adopt_quota cl nrid i source h1) as [h2 q]. destruct H2 as (H2 & Hq & E2).
  pose proof (adopt_account_ok _ _ _ _ _ _ H2 Hi) as H3.
  destruct (adopt_account cl nrid i source h2) as [h3 a]. destruct H3 as (H3 & Ha & E3 & Hmono).
  rewrite <-E2, <-E3 in Hst. apply Hmono in Hq. clear Had H1 H2 E2 E3 Hmono.
  destruct H3 as [[Hinv Hcur] [r Hr] Hcap Hcfg Hno].
  rewrite (router_at_lookup _ _ _ Hr) in Hcfg.
  destruct (si_routers _ Hinv nrid (router_skel r)) as [R1 R2 R3 R4 R5 R6 R7 R8].
  { simpl. by rewrite lookup_fmap, Hr. }
  constructor; [split|by apply dom_upd_router|done| |done].
  - unfold inv. rewrite skel_set_router, (router_at_lookup _ _ _ Hr).
    apply sinv_set_router; [done|apply in_routers; eauto| |].
    { intros j l. simpl. rewrite lookup_fmap. intros (l0 & Hl0 & ->)%fmap_Some_1. simpl. eauto. }
    constructor; simpl in *; rewrite ?length_insert; auto.
    + apply Forall_insert; [done|]. by apply in_states.
    + apply Forall_insert; [done|]. by apply in_quotas.
    + apply Forall_insert; [done|]. intros k Hk. by apply in_quotas, Ha.
  - intros k c' Hk. apply dom_upd_router. by eapply Hcur.
  - unfold router_at. simpl. rewrite lookup_insert_eq. simpl. by rewrite (router_at_lookup _ _ _ Hr).
Qed.

Lemma adopt_sources_ok cl nrid c l i h :
  adopting cl nrid c h → drop i (c_Sources c) = l → adopting cl nrid c (adopt_sources cl nrid i l h).
Proof.
  revert i h. induction l as [|s l IH]; intros i h Had Hd; [done|]. simpl.
  assert (Hi : c_Sources c !! i = Some s).
  { rewrite <-(Nat.add_0_r i), <-lookup_drop, Hd. done. }
  apply IH; [by apply adopt_source_ok|]. by rewrite <-Nat.add_1_r, <-drop_drop, Hd.
Qed.

(** The loop touches no router but the new one, and no lease. *)
Lemma adopt_source_frame cl nrid i source h :
  h_leases (adopt_source cl nrid i source h) = h_leases h
  ∧ ∀ k, k ≠ nrid → h_routers (adopt_source cl nrid i source h) !! k = h_routers h !! k.
Proof.
  assert (Hs : ∀ h', let '(h1, _) := adopt_state cl nrid i source h' in
    h_leases h1 = h_leases h' ∧ h_routers h1 = h_routers h').
  { intros h'. unfold adopt_state. by destruct (cap_sourceStates _ !! _). }
  assert (Hq : ∀ h', let '(h1, _) := adopt_quota cl nrid i source h' in
    h_leases h1 = h_leases h' ∧ h_routers h1 = h_routers h').
  { intros h'. unfold adopt_quota. by destruct (cap_quotaStates _ !! _). }
  assert (Ha : ∀ h', let '(h1, _) := adopt_account cl nrid i source h' in
    h_leases h1 = h_leases h' ∧ h_routers h1 = h_routers h').
  { intros h'. unfold adopt_account. destruct (_ =? _)%string; [done|].
    destruct (cap_accountStates _ !! _); [done|]. by destruct (account_loc _ _). }
  unfold adopt_source. specialize (Hs h). destruct (adopt_state cl nrid i source h) as [h1 st].
  specialize (Hq h1). destruct (adopt_quota cl nrid i source h1) as [h2 q].
  specialize (Ha h2). destruct (adopt_account cl nrid i source h2) as [h3 a].
  destruct Hs as [L1 R1], Hq as [L2 R2], Ha as [L3 R3]. simpl. split; [congruence|].
  intros k Hk. rewrite lookup_insert_ne by done. congruence.
Qed.

Lemma adopt_sources_frame cl nrid l i h :
  h_leases (adopt_sources cl nrid i l h) = h_leases h
  ∧ ∀ k, k ≠ nrid → h_routers (adopt_sources cl nrid i l h) !! k = h_routers h !! k.
Proof.
  revert i h. induction l as [|s l IH]; intros i h; [done|]. simpl.
  destruct (IH (S i) (adopt_source cl nrid i s h)) as [E1 E2].
  destruct (adopt_source_frame cl nrid i s h) as [F1 F2]. split; [congruence|].
  intros k Hk. by rewrite E2, F2.
Qed.

Lemma good_set_current cl nrid h :
  good h → is_Some (h_caps h !! cl) → is_Some (h_routers h !! nrid) →
  good (upd_cap cl (with_cap_current nrid) h) ∧ h_routers (upd_cap cl (with_cap_current nrid) h) = h_routers h.
Proof.
  intros [Hinv Hcur] [c Hc] Hn. split; [|done].
  assert (Hat : cap_at h cl = c) by (unfold cap_at; by rewrite Hc). split.
  - unfold inv. rewrite skel_set_cap, Hat. eapply (sinv_set_cap _ _ (cap_skel c)); [done| |done|].
    + simpl. by rewrite lookup_fmap, Hc.
    + destruct (si_capmaps _ Hinv cl (cap_skel c)) as [H1 H2 H3]; [simpl; by rewrite lookup_fmap, Hc|].
      constructor; done.
  - intros k c'. simpl. rewrite lookup_insert, Hat. case_decide; [|apply Hcur]. by intros [= <-].
Qed.

Lemma good_adopt rid nrid now h :
  good h → is_Some (h_routers h !! rid) → is_Some (h_routers h !! nrid) →
  (∀ j l, h_leases h !! j = Some l → le_router l ≠ nrid) →
  good (Adopt rid nrid now h).
Proof.
  intros Hg [r Hr] [n Hn] Hno. unfold Adopt. rewrite (router_at_lookup _ _ _ Hr).
  set (cl := r_capacity r). set (h1 := upd_router nrid (with_r_capacity cl) h).
  destruct (si_routers _ (good_inv _ Hg) rid (router_skel r)) as [Rc _ _ _ _ _ _ _].
  { simpl. by rewrite lookup_fmap, Hr. }
  assert (Hat : router_at h1 nrid = with_r_capacity cl n).
  { unfold router_at. simpl. rewrite lookup_insert_eq. simpl. by rewrite (router_at_lookup _ _ _ Hn). }
  assert (Had : adopting cl nrid (r_cfg n) h1).
  { constructor; [split|by apply dom_upd_router; eauto|by apply in_caps| |done].
    - unfold inv. unfold h1. rewrite skel_set_router, (router_at_lookup _ _ _ Hn).
      apply sinv_set_router; [apply Hg|apply in_routers; eauto| |].
      { intros j l. simpl. rewrite lookup_fmap. intros (l0 & Hl0 & ->)%fmap_Some_1. simpl. eauto. }
      destruct (si_routers _ (good_inv _ Hg) nrid (router_skel n)) as [R1 R2 R3 R4 R5 R6 R7 R8].
      { simpl. by rewrite lookup_fmap, Hn. }
      constructor; done.
    - intros k c' Hk. apply dom_upd_router. by eapply (good_current _ Hg).
    - by rewrite Hat. }
  rewrite Hat. change (c_Sources (r_cfg (with_r_capacity cl n))) with (c_Sources (r_cfg n)).
  apply (adopt_sources_ok _ _ _ (c_Sources (r_cfg n)) 0) in Had; [|done].
  set (h2 := adopt_sources _ _ _ _ _) in *. set (sources := c_Sources (r_cfg n)) in *.
  set (prune := λ c, with_cap_accountStates _ _).
  assert (Hpr : adopting cl nrid (r_cfg n) (upd_cap cl prune h2)).
  { apply adopting_set_cap; [done|done|]. intros x [H1 H2 H3].
    constructor; simpl; intros id k [Hk _]%map_lookup_filter_Some; eauto. }
  assert (Hr3 : is_Some (h_routers (upd_cap cl prune h2) !! rid)).
  { simpl. destruct (decide (rid = nrid)) as [->|Hne]; [apply Had|].
    unfold h2. rewrite (proj2 (adopt_sources_frame _ _ _ _ _) rid Hne). unfold h1. simpl.
    rewrite lookup_insert_ne by done. eauto. }
  set (h3 := upd_cap cl prune h2) in *. clearbody h3. clear Had.
  destruct Hpr as [Hg3 Hn3 Hc3 _ _].
  set (h4 := upd_router rid (with_r_retired true) h3).
  assert (Hg4 : good h4) by (apply (good_skel h3); [by apply skel_upd_router|done]).
  assert (Hn4 : is_Some (h_routers h4 !! nrid)) by (by apply dom_upd_router).
  assert (Hr4 : is_Some (h_routers h4 !! rid)) by (by apply dom_upd_router).
  assert (Hc4 : is_Some (h_caps h4 !! cl)) by done. clearbody h4.
  destruct (good_set_current cl nrid h4) as [Hg5 E5]; [done..|].
  set (h5 := upd_cap cl (with_cap_current nrid) h4) in *.
  set (h6 := upd_router rid _ h5).
  assert (Hg6 : good h6).
  { apply (good_skel h5); [|done]. apply skel_upd_router; [by rewrite E5|done]. }
  apply (good_skel h6); [|done]. apply skel_signal. apply dom_upd_router. by rewrite E5.
Qed.

(** ** Reachable states *)

Lemma good_empty : good empty_heap.
Proof.
  split; [constructor; simpl|]; intros k; try (intros ?); rewrite ?fmap_empty, ?lookup_empty; try done.
Qed.

Lemma good_new c h : good h → good (fst (New c h)).
Proof. apply (cp_good _ _ _ _ (New_compiled c h)). Qed.

Lemma good_reconfigure rid c now h :
  is_Some (h_routers h !! rid) → good h → good (let '(h', nrid) := New c h in Adopt rid nrid now h').
Proof.
  intros [r Hr] Hg. pose proof (New_compiled c h) as [H1 H2 _ H4 _ _ H7 H8 _].
  destruct (New c h) as [h' nrid]. cbn [fst snd] in *.
  assert (Hlt : (rid < h_next h)%nat).
  { destruct (decide (h_next h ≤ rid)%nat); [|lia].
    destruct (si_next _ (good_inv _ Hg) rid l) as (_ & _ & _ & E & _). simpl in E.
    by rewrite lookup_fmap, Hr in E. }
  apply good_adopt; [by apply H1|rewrite H7 by lia; eauto|done|].
  intros j l. rewrite H8. intros Hl E.
  destruct (si_leases _ (good_inv _ Hg) j (lease_skel l)) as [Hlr _ _ _]. { simpl. by rewrite lookup_fmap, Hl. }
  destruct (si_next _ (good_inv _ Hg) nrid) as (_ & _ & _ & E4 & _); [simpl; lia|].
  cbn [lease_skel ls_router] in Hlr. rewrite E in Hlr. destruct Hlr as [x Hx]. congruence.
Qed.

Lemma good_enqueue rid q ctx h :
  is_Some (h_routers h !! rid) → good h → good (fst (enqueue rid q ctx h)).
Proof.
  intros Hr [Hinv Hcur]. split; [by apply inv_enqueue|].
  intros k c Hk. unfold enqueue. cbn [fst]. apply dom_upd_router. eapply Hcur. exact Hk.
Qed.

Lemma good_grant rid q idx now e h r :
  good h → h_routers h !! rid = Some r → choose h r q now = (Some idx, e) →
  good (fst (grant rid q idx now h)).
Proof.
  intros [Hinv Hcur] Hr Hch. split; [by eapply inv_grant|].
  pose proof (chosen_ptrs _ _ _ _ _ _ _ Hinv Hr Hch) as Hp.
  exact (current_ok_shift h _ _ _ _ _ _ eq_refl (skel_grant _ _ _ _ _ _ Hr Hp) Hcur).
Qed.

Lemma good_acquire_iter rid q ctx queued now h :
  is_Some (h_routers h !! rid) → good h → good (fst (acquire_iter rid q ctx queued now h)).
Proof.
  intros [r Hr] Hinv. unfold acquire_iter. rewrite (router_at_lookup _ _ _ Hr).
  assert (Hdef : ∀ qd, good (acquire_defer rid qd now h)).
  { intros qd. apply (good_skel h); [|done]. apply skel_acquire_defer. eauto. }
  destruct (is_done h ctx); [apply Hdef|].
  destruct (choose h r q now) as [idx eligible] eqn:Hch.
  set (wait := if negb eligible then _ else _).
  assert (Hwait : good (fst wait)).
  { unfold wait. destruct (negb eligible); [apply Hdef|]. destruct queued; [done|].
    destruct (_ <=? _); [apply (Hdef None)|]. apply good_enqueue; eauto. }
  destruct idx as [idx|]; [|done]. destruct (turn h r now queued); [|done].
  destruct (grant rid q idx now h) as [h' l] eqn:Hg.
  assert (Hh' : h' = fst (grant rid q idx now h)) by by rewrite Hg.
  simpl. apply (good_skel h').
  - apply skel_acquire_defer. rewrite Hh'. apply grant_routers. eauto.
  - rewrite Hh'. eapply good_grant; eauto.
Qed.

Lemma find_waiter_router h rid id w :
  find_waiter (router_at h rid) id = Some w → is_Some (h_routers h !! rid).
Proof. unfold router_at. destruct (h_routers h !! rid); [eauto|done]. Qed.

Lemma good_acquire_resume rid id cause now h : good h → good (fst (acquire_resume rid id cause now h)).
Proof.
  intros Hinv. unfold acquire_resume.
  destruct (find_waiter (router_at h rid) id) as [w|] eqn:Hw; [|done].
  pose proof (find_waiter_router _ _ _ _ Hw) as Hr.
  set (h' := match cause with WakeReady => _ | _ => h end).
  assert (Hr' : is_Some (h_routers h' !! rid)). { unfold h'. destruct cause; [by apply dom_upd_router|done..]. }
  assert (Hinv' : good h').
  { destruct cause; [|done..]. apply (good_skel h); [by apply skel_upd_router|done]. }
  match goal with |- context [if ?b then _ else _] => destruct b; [|done] end.
  destruct (acquire_iter rid (w_query w) (w_ctx w) (Some id) now h') as [h2 res] eqn:Hi.
  change (good h2). replace h2 with (fst (acquire_iter rid (w_query w) (w_ctx w) (Some id) now h')) by by rewrite Hi.
  by apply good_acquire_iter.
Qed.

Lemma good_exec o now h : good h → good (exec o now h).
Proof.
  intros Hg. destruct o; simpl; try case_bool_decide; try done.
  - apply (good_skel h); done.
  - by apply good_acquire_iter.
  - by apply good_acquire_resume.
  - by apply good_release.
  - by apply good_record.
  - by apply good_first_output.
  - by apply good_set_enabled.
  - unfold live_router. destruct (h_routers h !! rid) as [r|] eqn:Hr; [|done].
    destruct (negb (r_retired r)); [|done]. apply good_reconfigure; eauto.
Qed.

Lemma good_reachable t h : reachable t h → good h.
Proof. induction 1; [apply good_new, good_empty|by apply good_exec]. Qed.

(** ** A second kind of invariant: predicates of every router *)

Definition routers_all (P : router → Prop) (h : heap) : Prop :=
  ∀ k r, h_routers h !! k = Some r → P r.

(** The router updates the operations make, and what they keep. *)
Record router_closed (P : router → Prop) : Prop := {
  rc_zero : P zero_router;
  rc_signal : ∀ p r, P r → P (with_r_queue (mark_first p (r_queue r)) r);
  rc_wake : ∀ b (f : waiter → bool) r, P r → P (with_r_queue (map (λ w, if f w then set_ready b w else w) (r_queue r)) r);
  rc_remove : ∀ w r, P r → P (removeWaiter w r);
  rc_cursor : ∀ v r, P r → P (with_r_cursor v r);
  rc_enqueue : ∀ w r, P r → r_waiting r < rt_MaxQueued (c_Runtime (r_cfg r)) →
    P (with_r_waiting (r_waiting r + 1) (with_r_queue (r_queue r ++ [w]) r));
  rc_retired : ∀ b r, P r → P (with_r_retired b r);
  rc_capacity : ∀ v r, P r → P (with_r_capacity v r);
  rc_ptrs : ∀ x y z r, P r → P (with_r_accounts x (with_r_quotas y (with_r_state z r)));
  rc_compiled : ∀ c cl b, P (compiled_router c cl b) }.

Section RouterClosed.
Context (P : router → Prop) (HP : router_closed P).

Lemma routers_all_upd k f h :
  routers_all P h → (∀ r, P r → P (f r)) → routers_all P (upd_router k f h).
Proof.
  intros Hh Hf k' r. simpl. rewrite lookup_insert. case_decide; [|apply Hh].
  intros [= <-]. apply Hf. unfold router_at. destruct (h_routers h !! k) eqn:E; [by eapply Hh|apply (rc_zero P HP)].
Qed.

Lemma routers_all_at k h : routers_all P h → P (router_at h k).
Proof. intros Hh. unfold router_at. destruct (h_routers h !! k) eqn:E; [by eapply Hh|apply (rc_zero P HP)]. Qed.

Lemma routers_all_same h h' : h_routers h' = h_routers h → routers_all P h → routers_all P h'.
Proof. unfold routers_all. by intros ->. Qed.

Lemma routers_all_signal rid now h : routers_all P h → routers_all P (signal rid now h).
Proof. intros. apply routers_all_upd; [done|]. intros r Hr. by apply (rc_signal P HP). Qed.

Lemma routers_all_defer rid queued now h : routers_all P h → routers_all P (acquire_defer rid queued now h).
Proof.
  intros. destruct queued as [w|]; [|done]. apply routers_all_signal, routers_all_upd; [done|].
  intros r Hr. by apply (rc_remove P HP).
Qed.

Lemma routers_all_grant rid q idx now h : routers_all P h → routers_all P (fst (grant rid q idx now h)).
Proof.
  intros Hh. unfold grant, alloc_lease. cbn [fst].
  apply (routers_all_same (upd_router rid (λ r, with_r_cursor (u64 (r_cursor r + 1)) r)
    match account_loc (router_at h rid) (t_Source (target_at (router_at h rid) idx)) with
    | Some _ => h | None => h end)).
  - simpl. f_equal; [|by destruct (account_loc _ _)].
    unfold router_at. by destruct (account_loc _ _).
  - apply routers_all_upd; [by destruct (account_loc _ _)|]. intros r Hr. by apply (rc_cursor P HP).
Qed.

Lemma routers_all_iter rid q ctx queued now h :
  routers_all P h → routers_all P (fst (acquire_iter rid q ctx queued now h)).
Proof.
  intros Hh. unfold acquire_iter. pose proof (λ qd, routers_all_defer rid qd now h Hh) as Hdef.
  destruct (is_done h ctx); [apply Hdef|]. destruct (choose _ _ _ _) as [idx el].
  set (wait := if negb el then _ else _).
  assert (Hwait : routers_all P (fst wait)).
  { unfold wait. destruct (negb el); [apply Hdef|]. destruct queued; [done|].
    destruct (_ <=? _) eqn:Hlt; [apply (Hdef None)|]. bool_prop. simpl.
    intros k r. simpl. rewrite lookup_insert. case_decide; [|apply Hh]. intros [= <-].
    change (router_at (with_h_next _ h) rid) with (router_at h rid).
    apply (rc_enqueue P HP); [by apply routers_all_at|done]. }
  destruct idx as [idx|]; [|done]. destruct (turn _ _ _ _); [|done].
  pose proof (routers_all_grant rid q idx now h Hh) as Hg.
  destruct (grant rid q idx now h) as [h' l]. by apply routers_all_defer.
Qed.

Lemma routers_all_resume rid id cause now h :
  routers_all P h → routers_all P (fst (acquire_resume rid id cause now h)).
Proof.
  intros Hh. unfold acquire_resume. destruct (find_waiter _ _) as [w|]; [|done].
  set (h' := match cause with WakeReady => _ | _ => h end).
  assert (Hh' : routers_all P h').
  { unfold h'. destruct cause; [|done..]. apply routers_all_upd; [done|]. intros r Hr. by apply (rc_wake P HP). }
  match goal with |- context [if ?b then _ else _] => destruct b; [|done] end.
  pose proof (routers_all_iter rid (w_query w) (w_ctx w) (Some id) now h' Hh') as H2.
  by destruct (acquire_iter rid (w_query w) (w_ctx w) (Some id) now h').
Qed.

Lemma routers_all_release lid status ra now h : routers_all P h → routers_all P (Release lid status ra now h).
Proof.
  intros Hh. unfold Release. destruct (le_once _); [done|].
  assert (E : h_routers (release_counters (lease_at h lid) (upd_lease lid (with_le_once true) h)) = h_routers h).
  { unfold release_counters, upd_quota_opt. by destruct (le_account _). }
  destruct (_ =? _); apply routers_all_signal; by apply (routers_all_same h).
Qed.

Lemma routers_all_new c h : routers_all P h → routers_all P (fst (New c h)).
Proof.
  intros Hh. unfold New. pose proof (compile_sources_built c h) as H.
  destruct (compile_sources c h) as [[h2 limits] b]. destruct H as [Hb _].
  pose proof (sb_ext _ _ _ Hb) as [_ _ Er _]. cbn [fst snd] in Er.
  intros k r. simpl. rewrite lookup_insert. case_decide; [intros [= <-]; apply (rc_compiled P HP)|]. rewrite Er. apply Hh.
Qed.

Lemma routers_all_adopt rid nrid now h : routers_all P h → routers_all P (Adopt rid nrid now h).
Proof.
  intros Hh. unfold Adopt.
  assert (Hs : ∀ cl l i h', routers_all P h' → routers_all P (adopt_sources cl nrid i l h')).
  { intros cl l. induction l as [|s l IH]; intros i h' H'; [done|]. simpl. apply IH.
    destruct (adopt_source_frame cl nrid i s h') as [_ Hfr].
    intros k r. destruct (decide (k = nrid)) as [->|Hne]; [|rewrite Hfr by done; apply H'].
    unfold adopt_source. unfold adopt_state, adopt_quota, adopt_account.
    repeat case_match; simplify_eq; simpl; rewrite lookup_insert_eq; intros [= <-];
      apply (rc_ptrs P HP), routers_all_at, H'. }
  apply routers_all_signal, routers_all_upd.
  - apply (routers_all_same (upd_router rid (with_r_retired true)
      (adopt_sources (r_capacity (router_at h rid)) nrid 0
      (c_Sources (r_cfg (router_at (upd_router nrid (with_r_capacity (r_capacity (router_at h rid))) h) nrid)))
      (upd_router nrid (with_r_capacity (r_capacity (router_at h rid))) h)))); [done|].
    apply routers_all_upd; [|apply (rc_retired P HP)]. apply Hs, routers_all_upd; [done|apply (rc_capacity P HP)].
  - intros r Hr. exact (rc_wake P HP true (λ _, true) r Hr).
Qed.

Lemma routers_all_exec o now h : routers_all P h → routers_all P (exec o now h).
Proof.
  intros Hh. destruct o; simpl; try case_bool_decide; try done.
  - by apply routers_all_iter.
  - by apply routers_all_resume.
  - by apply routers_all_release.
  - unfold RecordExecution. by destruct (le_execution _).
  - unfold FirstOutput. by destruct (le_firstOutput _).
  - unfold SetEnabled. destruct (list_find _ _) as [[i s]|]; [|done]. by apply routers_all_signal.
  - destruct (live_router _ _); [|done]. pose proof (routers_all_new c h Hh) as Hn.
    destruct (New c h) as [h' nrid]. by apply routers_all_adopt.
Qed.

Lemma routers_all_reachable t h : reachable t h → routers_all P h.
Proof.
  induction 1; [|by apply routers_all_exec]. apply routers_all_new. intros k r. simpl. by rewrite lookup_empty.
Qed.
End RouterClosed.
