(* ===== verification/RouterScores.v ===== *)
(** * Scores stay nonnegative

    The early exit of [choose] relies on it ("Every policy's score is
    nonnegative").  Latencies and virtual finish times of every reachable
    state have a clear sign bit, group positions are indices, loads are
    quotients of counters. *)

From S2P Require Import Prelude GoFloat ConfigData Execution RouterData RouterPolicy RouterPolicyFacts RouterOps RouterInv RouterReach.
Local Open Scope Z_scope.

Definition state_fine (st : state) : Prop :=
  not_neg (st_latency st) = true ∧ not_neg (st_virtualFinish st) = true.

(** Every state is fine and no lease started in the future. *)
Record floats_ok (t : Z) (h : heap) : Prop := {
  fo_states : ∀ k st, h_states h !! k = Some st → state_fine st;
  fo_leases : ∀ k l, h_leases h !! k = Some l → le_started l ≤ t }.

Lemma state_fine_zero : state_fine zero_state.
Proof. done. Qed.

Section FloatsOk.
Context (t : Z).

Lemma floats_state_at h k : floats_ok t h → state_fine (st_at h k).
Proof. intros [Hs _]. unfold st_at. destruct (h_states h !! k) eqn:E; [by eapply Hs|apply state_fine_zero]. Qed.

Lemma floats_upd_state h k f :
  floats_ok t h → (∀ st, state_fine st → state_fine (f st)) → floats_ok t (upd_state k f h).
Proof.
  intros Hh Hf. pose proof (floats_state_at h k Hh) as Hk. destruct Hh as [Hs Hl]. constructor; [|done].
  intros k' st. simpl. rewrite lookup_insert. case_decide; [intros [= <-]; auto|apply Hs].
Qed.

Lemma floats_same h h' :
  h_states h' = h_states h → h_leases h' = h_leases h → floats_ok t h → floats_ok t h'.
Proof. intros Es El [Hs Hl]. constructor; rewrite ?Es, ?El; done. Qed.

Lemma floats_later h t' : t ≤ t' → floats_ok t h → floats_ok t' h.
Proof. intros Ht [Hs Hl]. constructor; [done|]. intros k l Hk. apply Hl in Hk. lia. Qed.

Lemma floats_upd_lease h k f l0 :
  h_leases h !! k = Some l0 → (∀ l, le_started (f l) = le_started l) → floats_ok t h →
  floats_ok t (upd_lease k f h).
Proof.
  intros Hk Hf [Hs Hl]. constructor; [done|]. intros k' l. simpl. rewrite lookup_insert. case_decide; [|apply Hl].
  intros [= <-]. rewrite Hf, (lease_at_lookup _ _ _ Hk). by eapply Hl.
Qed.

(** [1 / max(1, weight)] is not negative. *)
Lemma share_not_neg n : not_neg (fdiv RouterOps.f1 (f_of_Z (Z.max 1 n))) = true.
Proof. apply fdiv_counts_not_neg; lia. Qed.

Lemma floats_grant rid q idx now h : t ≤ now → floats_ok t h → floats_ok now (fst (grant rid q idx now h)).
Proof.
  intros Ht Hh. unfold grant. set (r := router_at h rid). set (i := t_Source (target_at r idx)).
  set (h2 := upd_state _ _ _).
  assert (H2 : floats_ok t h2).
  { apply floats_upd_state; [by apply (floats_same h)|]. intros st [H1 Hv]. split; [done|].
    simpl. apply fadd_not_neg; [done|apply share_not_neg]. }
  set (h3 := upd_quota _ _ h2). set (h4 := match account_loc r i with Some _ => _ | None => _ end).
  assert (H4 : floats_ok t h4).
  { apply (floats_same h2); [unfold h4; by destruct (account_loc r i)..|done]. }
  clearbody h4. destruct H4 as [Hs Hl]. constructor; simpl; [done|].
  intros k l. rewrite lookup_insert. case_decide; [intros [= <-]; simpl; lia|]. intros Hk. apply Hl in Hk. lia.
Qed.

Lemma floats_defer rid queued now h : floats_ok t h → floats_ok t (acquire_defer rid queued now h).
Proof. apply floats_same; by destruct queued. Qed.
End FloatsOk.

Lemma floats_iter t rid q ctx queued now h :
  t ≤ now → floats_ok t h → floats_ok now (fst (acquire_iter rid q ctx queued now h)).
Proof.
  intros Ht Hh. unfold acquire_iter.
  assert (Hdef : ∀ qd, floats_ok now (acquire_defer rid qd now h)).
  { intros qd. apply floats_defer, (floats_later t); done. }
  destruct (is_done h ctx); [apply Hdef|]. destruct (choose _ _ _ _) as [idx el].
  set (wait := if negb el then _ else _).
  assert (Hwait : floats_ok now (fst wait)).
  { unfold wait. destruct (negb el); [apply Hdef|]. destruct queued; [by apply (floats_later t)|].
    destruct (_ <=? _); [apply (Hdef None)|]. apply (floats_later t); [done|]. by apply (floats_same t h). }
  destruct idx as [idx|]; [|done]. destruct (turn _ _ _ _); [|done].
  pose proof (floats_grant t rid q idx now h Ht Hh) as Hg.
  destruct (grant rid q idx now h) as [h' l]. by apply floats_defer.
Qed.

Lemma release_state_fine status started now st :
  started ≤ now → state_fine st → state_fine (release_state status started now st).
Proof.
  intros Ht [Hl Hv].
  assert (Hms : not_neg (milliseconds (now - started)) = true).
  { apply f_of_Z_not_neg, Z.quot_pos; lia. }
  unfold release_state, state_fine.
  destruct ((status =? 401) || (status =? 403)), (success_status status); simpl.
  2, 4: destruct (negb (status =? 499)), ((status =? 0) || (500 <=? status)); done.
  all: split; [|done]; destruct (feqb _ _); [done|]; apply fadd_not_neg; by apply fmul_not_neg.
Qed.

Lemma floats_release t lid status ra now h :
  t ≤ now → is_Some (h_leases h !! lid) → floats_ok t h → floats_ok now (Release lid status ra now h).
Proof.
  intros Ht [l Hl] Hh. unfold Release. rewrite (lease_at_lookup _ _ _ Hl).
  destruct (le_once l); [by apply (floats_later t)|].
  set (h1 := release_counters l (upd_lease lid (with_le_once true) h)).
  assert (H1 : floats_ok now h1).
  { unfold h1, release_counters. apply (floats_later t); [done|].
    set (hs := upd_state (le_state l) _ _).
    assert (floats_ok t hs).
    { apply floats_upd_state; [|done].
      apply (floats_same t (upd_lease lid (with_le_once true) h)); [done..|]. by eapply floats_upd_lease. }
    apply (floats_same t hs); [by destruct (le_account l)..|done]. }
  clearbody h1. destruct (status =? -1); [by apply (floats_same now h1)|].
  set (h4 := upd_state _ _ _).
  assert (H4 : floats_ok now h4).
  { apply floats_upd_state; [by apply (floats_same now h1)|]. intros st. apply release_state_fine.
    destruct Hh as [_ Hlt]. apply Hlt in Hl. lia. }
  by apply (floats_same now h4).
Qed.

Lemma account_usage_fine m res st : state_fine st → state_fine (account_usage m res st).
Proof.
  unfold account_usage. destruct (er_UsageKnown res), (m_InputUSDPerMillion m), (m_OutputUSDPerMillion m); done.
Qed.

Lemma floats_record t lid res h :
  is_Some (h_leases h !! lid) → floats_ok t h → floats_ok t (RecordExecution lid res h).
Proof.
  intros [l Hl] Hh. unfold RecordExecution. rewrite (lease_at_lookup _ _ _ Hl).
  eapply floats_upd_lease; [simpl; destruct (le_execution l); exact Hl|done|].
  apply floats_upd_state; [|by intros st [? ?]].
  destruct (le_execution l); [done|]. apply floats_upd_state; [done|]. intros. by apply account_usage_fine.
Qed.

Lemma floats_first_output t lid now h :
  is_Some (h_leases h !! lid) → floats_ok t h → floats_ok t (FirstOutput lid now h).
Proof.
  intros [l Hl] Hh. unfold FirstOutput. destruct (le_firstOutput _); [done|].
  apply floats_upd_state; [|by intros st [? ?]]. eapply floats_upd_lease; done.
Qed.

(** ** Compilation and adoption *)

Lemma floats_new t c h : floats_ok t h → floats_ok t (fst (New c h)).
Proof.
  intros Hh. unfold New, compile_sources.
  set (ok := λ (h' : heap), floats_ok t h').
  assert (Ha : ok (fst (fold_left new_account (c_Accounts c) (h, ∅)))).
  { apply (fold_left_inv new_account (λ _ acc, ok (fst acc))); [done|].
    intros _ [h' lim] a _ H'. by apply (floats_same t h'). }
  destruct (fold_left new_account (c_Accounts c) (h, ∅)) as [h1 limits]. cbn [fst] in Ha.
  match goal with |- context [fold_left ?f (c_Sources c) ?a] =>
    assert (Hb : ok (fst (fold_left f (c_Sources c) a))) end.
  { apply (fold_left_inv _ (λ _ acc, ok (fst acc))); [done|].
    intros _ [h' b] s _ H'. cbn [fst] in H'. unfold new_source.
    destruct (match _ !! s_Provider s with Some p => _ | None => _ end) as [e0 ap0].
    destruct (match _ !! s_AccountID s with Some a => _ | None => _ end) as [e1 ap1].
    set (st := with_st_enabled (s_Enabled s) zero_state).
    assert (H1 : ok (fst (alloc_state st h'))).
    { destruct H' as [Hs Hl]. constructor; [|done]. intros k x. simpl. rewrite lookup_insert.
      case_decide; [by intros [= <-]|apply Hs]. }
    destruct (alloc_state st h') as [h1' l1]. cbn [fst] in H1.
    unfold domain_quota. destruct (bd_qs b !! s_QuotaDomain s); [done|]. by apply (floats_same t h1'). }
  match goal with |- context [fold_left ?f (c_Sources c) ?a] =>
    destruct (fold_left f (c_Sources c) a) as [h2 b] end.
  by apply (floats_same t h2).
Qed.

Lemma floats_adopt_source t cl nrid i source h : floats_ok t h → floats_ok t (adopt_source cl nrid i source h).
Proof.
  intros Hh. unfold adopt_source.
  assert (H1 : floats_ok t (fst (adopt_state cl nrid i source h))).
  { unfold adopt_state. destruct (cap_sourceStates _ !! _); (apply floats_upd_state;
      [first [done|by apply (floats_same t h)]|intros st' [? ?]; by repeat case_match]). }
  destruct (adopt_state cl nrid i source h) as [h1 st]. cbn [fst] in H1.
  assert (H2 : floats_ok t (fst (adopt_quota cl nrid i source h1))).
  { unfold adopt_quota. destruct (cap_quotaStates _ !! _); by apply (floats_same t h1). }
  destruct (adopt_quota cl nrid i source h1) as [h2 q]. cbn [fst] in H2.
  assert (H3 : floats_ok t (fst (adopt_account cl nrid i source h2))).
  { unfold adopt_account. destruct (_ =? _)%string; [done|].
    destruct (cap_accountStates _ !! _); [by apply (floats_same t h2)|].
    destruct (account_loc _ _); by apply (floats_same t h2). }
  destruct (adopt_account cl nrid i source h2) as [h3 a]. by apply (floats_same t h3).
Qed.

Lemma floats_adopt t rid nrid now h : floats_ok t h → floats_ok t (Adopt rid nrid now h).
Proof.
  intros Hh. unfold Adopt.
  assert (Hs : ∀ cl l i h', floats_ok t h' → floats_ok t (adopt_sources cl nrid i l h')).
  { intros cl l. induction l as [|s l IH]; intros i h' H'; [done|]. simpl. apply IH. by apply floats_adopt_source. }
  match goal with |- context [adopt_sources ?cl nrid 0 ?l ?h1] =>
    apply (floats_same t (adopt_sources cl nrid 0 l h1)); [done..|]; apply Hs end.
  by apply (floats_same t h).
Qed.

Lemma floats_exec o t now h : t ≤ now → floats_ok t h → floats_ok now (exec o now h).
Proof.
  intros Ht Hh. pose proof (floats_later t h now Ht Hh) as Hn. destruct o; simpl; try case_bool_decide; try done.
  - by apply (floats_same now h).
  - by eapply floats_iter.
  - unfold acquire_resume. destruct (find_waiter _ _) as [w|]; [|done].
    set (h' := match cause with WakeReady => _ | _ => h end).
    assert (Hh' : floats_ok t h'). { unfold h'. destruct cause; by apply (floats_same t h). }
    match goal with |- context [if ?b then _ else _] => destruct b; [|done] end.
    pose proof (floats_iter t rid (w_query w) (w_ctx w) (Some waiter) now h' Ht Hh') as H2.
    by destruct (acquire_iter rid (w_query w) (w_ctx w) (Some waiter) now h').
  - by eapply floats_release.
  - by apply floats_record.
  - by apply floats_first_output.
  - unfold SetEnabled. destruct (list_find _ _) as [[i s]|]; [|done].
    match goal with |- context [signal rid now ?h'] => apply (floats_same now h'); [done..|] end.
    apply floats_upd_state; [done|]. intros st [? ?]. by destruct on.
  - destruct (live_router _ _); [|done]. pose proof (floats_new now c h Hn) as H1.
    destruct (New c h) as [h' nrid]. by apply floats_adopt.
Qed.

Lemma floats_reachable t h : reachable t h → floats_ok t h.
Proof.
  induction 1 as [c now|h o t now _ IH Hle]; [|by eapply floats_exec]. apply floats_new.
  constructor; simpl; intros k ?; by rewrite lookup_empty.
Qed.

(** ** Group positions are indices *)

Lemma router_closed_groups : router_closed (λ r, r_groups r = compile_groups (c_Groups (r_cfg r))).
Proof. constructor; try done. intros w r Hr. unfold removeWaiter. by case_match. Qed.

Lemma compile_group_members g id n : cg_members (compile_group g) !! id = Some n → 0 ≤ n.
Proof.
  unfold compile_group. simpl.
  assert (H : ∀ id n, fold_left (λ m '(i, id), <[id := Z.of_nat i]> m) (imap pair (g_Sources g))
    (∅ : gmap string Z) !! id = Some n → 0 ≤ n); [|apply H].
  apply (fold_left_inv _ (λ _ m, ∀ id n, m !! id = Some n → 0 ≤ n)).
  - intros i m. by rewrite lookup_empty.
  - intros _ m [i s] _ Hm id' n'. rewrite lookup_insert. case_decide; [intros [= <-]; lia|apply Hm].
Qed.

Lemma compile_groups_lookup gs id cg :
  compile_groups gs !! id = Some cg → ∃ g, g ∈ gs ∧ g_ID g = id ∧ cg = compile_group g.
Proof.
  unfold compile_groups. revert id cg.
  apply (fold_left_inv _ (λ _ m, ∀ id cg, m !! id = Some cg → ∃ g, g ∈ gs ∧ g_ID g = id ∧ cg = compile_group g)).
  - intros id cg. by rewrite lookup_empty.
  - intros _ m g Hg Hm id cg. rewrite lookup_insert. case_decide; [|apply Hm]. intros [= <-]. eauto.
Qed.

Lemma members_nonneg t h rid r key id :
  reachable t h → h_routers h !! rid = Some r → 0 ≤ default 0 (cg_members (group_at r key) !! id).
Proof.
  intros Hre Hr. pose proof (routers_all_reachable _ router_closed_groups _ _ Hre _ _ Hr) as Hg.
  simpl in Hg. unfold group_at. rewrite Hg.
  destruct (compile_groups _ !! key) as [cg|] eqn:E; simpl; [|by rewrite lookup_empty].
  apply compile_groups_lookup in E as (g & _ & _ & ->).
  destruct (cg_members (compile_group g) !! id) eqn:E; simpl; [|lia]. by eapply compile_group_members.
Qed.

Lemma state_active_nonneg t h k : reachable t h → 0 ≤ st_active (st_at h k).
Proof.
  intros Hre. unfold st_at. destruct (h_states h !! k) as [st|] eqn:E; simpl; [|lia].
  rewrite (si_states _ (good_inv _ (good_reachable _ _ Hre)) k (st_active st)).
  - apply count_nonneg.
  - simpl. by rewrite lookup_fmap, E.
Qed.

(** The precondition of [choose_is_spec] for a router whose sources declare a
    capacity that is not negative (validation demands at least one). *)
Definition capacities_declared (c : Config) : Prop := Forall (λ s, 0 ≤ s_MaxInflight s) (c_Sources c).

Lemma reachable_scores t h rid r :
  reachable t h → h_routers h !! rid = Some r → capacities_declared (r_cfg r) → scores_not_neg h r.
Proof.
  intros Hre Hr Hcap key i. pose proof (floats_state_at _ h (state_loc r i) (floats_reachable _ _ Hre)) as [Hlat Hvf].
  assert (Hload : not_neg (fdiv (f_of_Z (st_active (st_at h (state_loc r i)))) (f_of_Z (s_MaxInflight (src_at r i)))) = true).
  { apply fdiv_counts_not_neg; [by eapply state_active_nonneg|]. unfold src_at.
    destruct (c_Sources (r_cfg r) !! i) as [s|] eqn:E; simpl; [|lia]. exact (Forall_lookup_1 _ _ _ _ Hcap E). }
  unfold strategy_value. destruct (_ =? "weighted")%string; [done|].
  destruct (_ || _); [apply f_of_Z_not_neg; by eapply members_nonneg|].
  destruct (_ =? "latency")%string; [done|]. destruct (_ =? "auto")%string; [|done].
  apply fadd_not_neg; [done|]. by apply fdiv_not_neg.
Qed.
