(* ===== verification/RouterFacts.v ===== *)
(** * Router lemmas behind the correctness theorems

    Counting held leases, the frame of [Release], the queue's wake-up order
    and length, the persistence of an authentication block and the event ring. *)

From S2P Require Import Prelude GoFloat ConfigData Execution RouterData RouterPolicy RouterPolicyFacts RouterOps RouterInv RouterReach.
Local Open Scope Z_scope.

(** ** Held leases *)

(** The leases not yet returned that satisfy [P]. *)
Definition held (P : lease → bool) (h : heap) : Z :=
  Z.of_nat (size (filter (λ kl, negb (le_once kl.2) && P kl.2 = true) (h_leases h))).

Lemma count_size P (m : gmap loc lease) :
  count P (lease_skel <$> m) = Z.of_nat (size (filter (λ kl, P (lease_skel kl.2) = true) m)).
Proof.
  induction m as [|k l m Hk Hf IH] using map_first_key_ind.
  { by rewrite fmap_empty, count_empty, map_filter_empty, map_size_empty. }
  rewrite fmap_insert, count_insert by by rewrite lookup_fmap, Hk.
  rewrite map_filter_insert. case_decide as Hd; simpl in Hd.
  - rewrite map_size_insert_None; [rewrite Hd, IH; unfold ind; lia|].
    apply map_lookup_filter_None. by left.
  - rewrite (delete_id m k) by done. rewrite IH. unfold ind. by destruct (P (lease_skel l)).
Qed.

Lemma held_count P h Q :
  (∀ l, Q (lease_skel l) = negb (le_once l) && P l) → held P h = count Q (lease_skel <$> h_leases h).
Proof.
  intros H. unfold held. rewrite count_size. f_equal. f_equal. apply map_filter_ext.
  intros k l _. simpl. by rewrite H.
Qed.

(** The capacity a lease is charged to. *)
Definition lease_cap (h : heap) (l : lease) : option loc := r_capacity <$> h_routers h !! le_router l.

Lemma held_state k h : held (λ l, Nat.eqb (le_state l) k) h = count (holds_state k) (sk_leases (skel h)).
Proof. by apply held_count. Qed.
Lemma held_quota k h : held (λ l, Nat.eqb (le_quota l) k) h = count (holds_quota k) (sk_leases (skel h)).
Proof. by apply held_count. Qed.
Lemma held_account k h :
  held (λ l, bool_decide (le_account l = Some k)) h = count (holds_account k) (sk_leases (skel h)).
Proof. by apply held_count. Qed.
Lemma held_cap k h :
  held (λ l, bool_decide (lease_cap h l = Some k)) h
  = count (holds_cap (sk_routers (skel h)) k) (sk_leases (skel h)).
Proof.
  apply held_count. intros l. unfold holds_cap, lease_cap. simpl. rewrite lookup_fmap.
  by destruct (h_routers h !! le_router l).
Qed.

Lemma held_nonneg P h : 0 ≤ held P h.
Proof. unfold held. lia. Qed.

(** ** Lookups after an update *)

Lemma upd_state_at h k j f : st_at (upd_state k f h) j = if decide (k = j) then f (st_at h k) else st_at h j.
Proof. unfold st_at, upd_state. simpl. rewrite lookup_insert. by case_decide. Qed.
Lemma upd_quota_at h k j f : q_at (upd_quota k f h) j = if decide (k = j) then f (q_at h k) else q_at h j.
Proof. unfold q_at, upd_quota. simpl. rewrite lookup_insert. by case_decide. Qed.
Lemma upd_lease_at h k j f :
  lease_at (upd_lease k f h) j = if decide (k = j) then f (lease_at h k) else lease_at h j.
Proof. unfold lease_at, upd_lease. simpl. rewrite lookup_insert. by case_decide. Qed.
Lemma upd_router_at h k j f :
  router_at (upd_router k f h) j = if decide (k = j) then f (router_at h k) else router_at h j.
Proof. unfold router_at, upd_router. simpl. rewrite lookup_insert. by case_decide. Qed.
Lemma upd_cap_at h k j f : cap_at (upd_cap k f h) j = if decide (k = j) then f (cap_at h k) else cap_at h j.
Proof. unfold cap_at, upd_cap. simpl. rewrite lookup_insert. by case_decide. Qed.

Definition z_ind (b : bool) : Z := if b then 1 else 0.

(** ** The frame of [Release] *)

Section ReleaseFrame.
Context (h : heap) (lid : loc) (status ra now : Z).
Let l := lease_at h lid.

Lemma release_counters_leases h' : h_leases (release_counters l h') = h_leases h'.
Proof. unfold release_counters. by destruct (le_account l). Qed.

Lemma release_leases :
  le_once l = false → h_leases (Release lid status ra now h) = h_leases (upd_lease lid (with_le_once true) h).
Proof.
  intros Ho. unfold Release. fold l. rewrite Ho.
  destruct (status =? -1); simpl; apply release_counters_leases.
Qed.

Lemma release_lease_once : le_once (lease_at (Release lid status ra now h) lid) = true.
Proof.
  destruct (le_once l) eqn:Ho.
  - unfold Release. fold l. rewrite Ho. exact Ho.
  - unfold lease_at. rewrite release_leases by done. change (h_leases (upd_lease lid (with_le_once true) h))
      with (<[lid := with_le_once true (lease_at h lid)]> (h_leases h)). by rewrite lookup_insert_eq.
Qed.

Lemma release_again : ∀ s ra' now', Release lid s ra' now' (Release lid status ra now h) = Release lid status ra now h.
Proof. intros s ra' now'. unfold Release at 1. by rewrite release_lease_once. Qed.

Lemma release_st_active k :
  le_once l = false →
  st_active (st_at (Release lid status ra now h) k)
  = st_active (st_at h k) - z_ind (Nat.eqb (le_state l) k).
Proof.
  intros Ho. unfold Release. fold l. rewrite Ho.
  set (h1 := release_counters l (upd_lease lid (with_le_once true) h)).
  assert (H1 : st_active (st_at h1 k) = st_active (st_at h k) - z_ind (Nat.eqb (le_state l) k)).
  { replace (st_at h1 k) with (st_at (upd_state (le_state l) (λ st, with_st_active (st_active st - 1) st) h) k)
      by (unfold h1, release_counters; by destruct (le_account l)).
    rewrite upd_state_at. case_decide as E; [subst; rewrite Nat.eqb_refl; simpl; lia|].
    apply Nat.eqb_neq in E. rewrite E. simpl. lia. }
  destruct (status =? -1); [exact H1|].
  change (st_active (st_at (upd_state (le_state l) (release_state status (le_started l) now) h1) k)
    = st_active (st_at h k) - z_ind (Nat.eqb (le_state l) k)).
  rewrite upd_state_at, <-H1. case_decide; [subst; apply release_state_active|done].
Qed.

Lemma release_q_active k :
  le_once l = false →
  q_active (q_at (Release lid status ra now h) k)
  = q_active (q_at h k) - z_ind (Nat.eqb (le_quota l) k) - z_ind (bool_decide (le_account l = Some k)).
Proof.
  intros Ho. unfold Release. fold l. rewrite Ho.
  set (h1 := release_counters l (upd_lease lid (with_le_once true) h)).
  assert (H1 : q_active (q_at h1 k)
    = q_active (q_at h k) - z_ind (Nat.eqb (le_quota l) k) - z_ind (bool_decide (le_account l = Some k))).
  { set (hq := upd_quota (le_quota l) (λ qt, with_q_active (q_active qt - 1) qt) h).
    assert (Hq : q_active (q_at hq k) = q_active (q_at h k) - z_ind (Nat.eqb (le_quota l) k)).
    { unfold hq. rewrite upd_quota_at. case_decide as E; [subst; rewrite Nat.eqb_refl; simpl; lia|].
      apply Nat.eqb_neq in E. rewrite E. simpl. lia. }
    replace (q_at h1 k) with (q_at (upd_quota_opt (le_account l) (λ a, with_q_active (q_active a - 1) a) hq) k)
      by (unfold h1, release_counters; by destruct (le_account l)).
    rewrite <-Hq. destruct (le_account l) as [a|]; simpl upd_quota_opt.
    - rewrite upd_quota_at. case_decide as E; case_bool_decide; simplify_eq; simpl; lia.
    - case_bool_decide; [done|]. simpl. lia. }
  destruct (status =? -1); [exact H1|].
  change (q_active (q_at (upd_quota (le_quota l) (rate_limit_quota status ra now) h1) k)
    = q_active (q_at h k) - z_ind (Nat.eqb (le_quota l) k) - z_ind (bool_decide (le_account l = Some k))).
  rewrite upd_quota_at, <-H1. destruct (decide (le_quota l = k)) as [<-|]; [apply rate_limit_active|done].
Qed.
End ReleaseFrame.

(** ** The queue *)

(** The waiters ahead of a call: all of them for a call that has not queued. *)
Fixpoint ahead (current : option nat) (l : list waiter) : list waiter :=
  match l with
  | [] => []
  | w :: l' => if bool_decide (current = Some (w_id w)) then [] else w :: ahead current l'
  end.

Lemma turn_spec h r now current :
  turn h r now current = true ↔
  ∀ w, w ∈ ahead current (r_queue r) → is_done h (w_ctx w) = true ∨ fst (choose h r (w_query w) now) = None.
Proof.
  unfold turn. induction (r_queue r) as [|w l IH]; simpl.
  { split; [|done]. intros _ w Hw. by apply elem_of_nil in Hw. }
  case_bool_decide as Hc; [split; [|done]; intros _ w' Hw; by apply elem_of_nil in Hw|].
  destruct (is_done h (w_ctx w)) eqn:Hd.
  { rewrite IH. split; intros H w' Hw; [|apply H; by right]. apply elem_of_cons in Hw as [->|Hw]; auto. }
  destruct (fst (choose h r (w_query w) now)) as [idx|] eqn:Hch; simpl.
  { split; [done|]. intros H. destruct (H w) as [?|?]; [by left|congruence..]. }
  rewrite IH. split; intros H w' Hw; [|apply H; by right]. apply elem_of_cons in Hw as [->|Hw]; auto.
Qed.

Lemma mark_first_spec p l w :
  w ∈ l → p w = true → ∃ l1 w' l2, l = l1 ++ w' :: l2 ∧ p w' = true ∧ (∀ x, x ∈ l1 → p x = false)
    ∧ mark_first p l = l1 ++ set_ready true w' :: l2.
Proof.
  induction l as [|x l IH]; intros Hw Hp; [by apply elem_of_nil in Hw|]. simpl.
  destruct (p x) eqn:Hx.
  { exists [], x, l. split_and!; [done|done| |done]. intros y Hy. by apply elem_of_nil in Hy. }
  apply elem_of_cons in Hw as [->|Hw]; [congruence|].
  destruct (IH Hw Hp) as (l1 & w' & l2 & -> & Hw' & Hl1 & ->).
  exists (x :: l1), w', l2. split_and!; [done|done| |done].
  intros y Hy. apply elem_of_cons in Hy as [->|Hy]; auto.
Qed.

Lemma mark_first_length p l : length (mark_first p l) = length l.
Proof. induction l as [|w l IH]; [done|]. simpl. destruct (p w); simpl; congruence. Qed.

Lemma remove_first_length id l :
  existsb (λ w, Nat.eqb (w_id w) id) l = true → S (length (remove_first id l)) = length l.
Proof.
  induction l as [|w l IH]; [done|]. simpl. destruct (Nat.eqb (w_id w) id); [done|]. simpl. intros H. by rewrite IH.
Qed.

(** The counter [waiting] is the length of the queue, and bounded. *)
Definition queue_bounded (r : router) : Prop :=
  r_waiting r = Z.of_nat (length (r_queue r))
  ∧ r_waiting r ≤ Z.max 0 (rt_MaxQueued (c_Runtime (r_cfg r))).

Lemma queue_closed : router_closed queue_bounded.
Proof.
  constructor; unfold queue_bounded; simpl; try done; try lia.
  - intros p r. by rewrite mark_first_length.
  - intros b f r. by rewrite length_map.
  - intros w r [Hw Hb]. unfold removeWaiter. destruct (existsb _ _) eqn:E; [|done]. simpl.
    apply remove_first_length in E. split; [lia|]. lia.
  - intros w r [Hw Hb] Hlt. rewrite length_app. simpl. split; lia.
Qed.

(** ** Steps that cannot clear an authentication block *)

Definition keeps_block (o : op) : bool :=
  match o with OpSetEnabled _ _ on => negb on | OpReconfigure _ _ => false | _ => true end.

(** Later stores, when every step in between satisfies [P]. *)
Inductive steps (P : op → bool) : Z → heap → Z → heap → Prop :=
| steps_refl t h : steps P t h t h
| steps_more t h t1 h1 o now : steps P t h t1 h1 → t1 ≤ now → P o = true → steps P t h now (exec o now h1).

Lemma steps_reachable P t h t' h' : reachable t h → steps P t h t' h' → reachable t' h'.
Proof. induction 2; [done|]. eapply reach_step; eauto. Qed.

Section Blocked.
Context (k : loc).
Definition blocked (h : heap) : Prop := st_blocked (st_at h k) = true.

Lemma blocked_upd j f h : (∀ st, st_blocked st = true → st_blocked (f st) = true) → blocked h → blocked (upd_state j f h).
Proof. unfold blocked. intros Hf Hh. rewrite upd_state_at. case_decide; [subst; auto|done]. Qed.

Lemma blocked_same h h' : h_states h' = h_states h → blocked h → blocked h'.
Proof. unfold blocked, st_at. by intros ->. Qed.

Lemma blocked_grant rid q idx now h : blocked h → blocked (fst (grant rid q idx now h)).
Proof.
  intros Hh. unfold grant. set (h2 := upd_state _ _ _).
  apply (blocked_same h2); [simpl; by destruct (account_loc _ _)|]. apply blocked_upd; done.
Qed.

Lemma blocked_iter rid q ctx queued now h : blocked h → blocked (fst (acquire_iter rid q ctx queued now h)).
Proof.
  intros Hh. unfold acquire_iter.
  assert (Hdef : ∀ qd h', blocked h' → blocked (acquire_defer rid qd now h')).
  { intros qd h'. apply blocked_same. by destruct qd. }
  destruct (is_done h ctx); [by apply Hdef|]. destruct (choose _ _ _ _) as [idx el].
  set (wait := if negb el then _ else _).
  assert (Hwait : blocked (fst wait)).
  { unfold wait. destruct (negb el); [by apply Hdef|]. destruct queued; [done|]. by destruct (_ <=? _). }
  destruct idx as [idx|]; [|done]. destruct (turn _ _ _ _); [|done].
  pose proof (blocked_grant rid q idx now h Hh). destruct (grant _ _ _ _ _). by apply Hdef.
Qed.

Lemma release_state_blocked status started now st :
  st_blocked st = true → st_blocked (release_state status started now st) = true.
Proof. unfold release_state. by repeat case_match. Qed.

Lemma blocked_release lid status ra now h : blocked h → blocked (Release lid status ra now h).
Proof.
  intros Hh. unfold Release. destruct (le_once _); [done|].
  set (h1 := release_counters _ _).
  assert (H1 : blocked h1).
  { unfold h1, release_counters. set (hs := upd_state _ _ _).
    apply (blocked_same hs); [by destruct (le_account _)|]. by apply blocked_upd. }
  destruct (status =? -1); [done|]. apply (blocked_same (upd_state (le_state (lease_at h lid))
    (release_state status (le_started (lease_at h lid)) now) h1)); [done|].
  apply blocked_upd; [|done]. intros st. apply release_state_blocked.
Qed.

Lemma blocked_exec o now h : keeps_block o = true → blocked h → blocked (exec o now h).
Proof.
  intros Ho Hh. destruct o; simpl in *; try case_bool_decide; try done.
  - by apply blocked_iter.
  - unfold acquire_resume. destruct (find_waiter _ _) as [w|]; [|done].
    set (h' := match cause with WakeReady => _ | _ => h end).
    assert (Hh' : blocked h') by (apply (blocked_same h); [by destruct cause|done]).
    match goal with |- context [if ?b then _ else _] => destruct b; [|done] end.
    pose proof (blocked_iter rid (w_query w) (w_ctx w) (Some waiter) now h' Hh').
    by destruct (acquire_iter _ _ _ _ _ _).
  - by apply blocked_release.
  - unfold RecordExecution. set (h1 := match le_execution _ with Some _ => _ | None => _ end).
    assert (H1 : blocked h1).
    { unfold h1. destruct (le_execution _); [done|]. apply blocked_upd; [|done].
      intros st. unfold account_usage. by repeat case_match. }
    apply (blocked_same (upd_state (le_state (lease_at h lease)) (with_st_lastExecution (Some (Redacted result))) h1));
      [done|]. by apply blocked_upd.
  - unfold FirstOutput. destruct (le_firstOutput _); [done|]. by apply blocked_upd.
  - unfold SetEnabled. destruct (list_find _ _) as [[i s]|]; [|done].
    set (h1 := upd_state _ _ _). apply (blocked_same h1); [done|].
    apply blocked_upd; [|done]. intros st Hb. by destruct on.
Qed.

Lemma blocked_steps t h t' h' : steps keeps_block t h t' h' → blocked h → blocked h'.
Proof. induction 1; intros Hh; [done|]. apply blocked_exec; auto. Qed.
End Blocked.

Lemma release_blocks h lid status ra now :
  le_once (lease_at h lid) = false → status = 401 ∨ status = 403 →
  blocked (le_state (lease_at h lid)) (Release lid status ra now h).
Proof.
  intros Ho Hs. unfold Release. rewrite Ho. set (h1 := release_counters _ _).
  assert (Hm : status =? -1 = false) by (destruct Hs; lia). rewrite Hm.
  apply (blocked_same _ (upd_state (le_state (lease_at h lid))
    (release_state status (le_started (lease_at h lid)) now) h1)); [done|].
  unfold blocked. rewrite upd_state_at, decide_True by done. unfold release_state.
  by destruct Hs as [-> | ->].
Qed.

Lemma blocked_not_eligible h r t q :
  st_blocked (st_at h (state_loc r (t_Source t))) = true → qr_Probe q = false → fst (eligible h r t q) = false.
Proof.
  intros Hb Hp. unfold eligible, eligible_reason. simpl. rewrite Hp, Hb. simpl.
  repeat (case_match; [done|]). done.
Qed.

(** ** What [grant] leaves *)

Section Grant.
Context (rid : loc) (q : Query) (idx : nat) (now : Z) (h : heap).
Let r := router_at h rid.
Let i := t_Source (target_at r idx).

Lemma grant_lease :
  snd (grant rid q idx now h) = h_next h
  ∧ lease_at (fst (grant rid q idx now h)) (h_next h)
  = mk_lease (qr_Protocol q) (qr_Probe q) None f0 false rid (target_at r idx) false now
  (state_loc r i) (quota_loc r i) (account_loc r i).
Proof.
  split; unfold grant, alloc_lease; cbn [fst snd]; [by destruct (account_loc _ _)|].
  unfold lease_at. fold r i. destruct (account_loc r i) as [a|]; simpl; by rewrite lookup_insert_eq.
Qed.

Lemma grant_state_active :
  st_active (st_at (fst (grant rid q idx now h)) (state_loc r i)) = st_active (st_at h (state_loc r i)) + 1.
Proof.
  unfold grant. fold r. fold i. set (h2 := upd_state _ _ _).
  replace (st_at _ (state_loc r i)) with (st_at h2 (state_loc r i)) by by destruct (account_loc r i).
  unfold h2. by rewrite upd_state_at, decide_True by done.
Qed.

Lemma cap_at_caps h1 h2 k : h_caps h1 = h_caps h2 → cap_at h1 k = cap_at h2 k.
Proof. unfold cap_at. by intros ->. Qed.

Lemma grant_cap_active :
  cap_active (cap_at (fst (grant rid q idx now h)) (r_capacity r)) = cap_active (cap_at h (r_capacity r)) + 1.
Proof.
  unfold grant. fold r. fold i. set (h1 := upd_cap (r_capacity r) _ h).
  assert (H1 : cap_active (cap_at h1 (r_capacity r)) = cap_active (cap_at h (r_capacity r)) + 1).
  { unfold h1. by rewrite upd_cap_at, decide_True by done. }
  rewrite <-H1. clearbody h1 r i. destruct (account_loc r i) as [a|].
  - set (hc := upd_cap (r_capacity r)
      (with_cap_dispatchSequence (u64 (cap_dispatchSequence (cap_at h1 (r_capacity r)) + 1))) h1).
    rewrite (cap_at_caps _ hc) by reflexivity. unfold hc. by rewrite upd_cap_at, decide_True by done.
  - by rewrite (cap_at_caps _ h1) by reflexivity.
Qed.
End Grant.

(** The two ways a pass of [Acquire] ends in a grant. *)
Lemma acquire_granted rid q ctx queued now h h' l :
  acquire_iter rid q ctx queued now h = (h', Granted l) →
  ∃ idx, choose h (router_at h rid) q now = (Some idx, true) ∧ is_done h ctx = false
    ∧ turn h (router_at h rid) now queued = true ∧ l = h_next h
    ∧ h' = acquire_defer rid queued now (fst (grant rid q idx now h)).
Proof.
  unfold acquire_iter. destruct (is_done h ctx) eqn:Hd; [intros [= _ ?]|].
  destruct (choose h _ q now) as [idx e] eqn:Hch. set (wait := if negb e then _ else _).
  assert (Hwait : ∀ h2 l2, wait ≠ (h2, Granted l2)).
  { intros h2 l2. unfold wait. destruct (negb e); [done|]. destruct queued; [done|].
    destruct (_ <=? _); [done|]. by destruct (enqueue rid q ctx h). }
  destruct idx as [idx|]; [|by intros []%Hwait].
  destruct (turn _ _ now queued) eqn:Ht; [|by intros []%Hwait].
  pose proof (proj1 (grant_lease rid q idx now h)) as Hsnd.
  destruct (grant rid q idx now h) as [h2 l2] eqn:Hg. intros [= <- <-]. cbn [fst snd] in *.
  pose proof (choose_some _ _ _ _ _ _ Hch) as [He _]. rewrite He in Hch. exists idx. split_and!; [by rewrite He|done..|by rewrite Hg].
Qed.

(** The deferred clean-up touches only a router's queue. *)
Lemma defer_st_at rid queued now h k : st_at (acquire_defer rid queued now h) k = st_at h k.
Proof. by destruct queued. Qed.
Lemma defer_cap_at rid queued now h k : cap_at (acquire_defer rid queued now h) k = cap_at h k.
Proof. by destruct queued. Qed.
Lemma defer_lease_at rid queued now h k : lease_at (acquire_defer rid queued now h) k = lease_at h k.
Proof. by destruct queued. Qed.

(** ** Usage accounting *)

Lemma maxInt64_max v : maxInt64 v 0 = Z.max 0 v.
Proof. unfold maxInt64. destruct (Z.ltb_spec v 0); lia. Qed.

(** The counters after a lease's first result, before the 64-bit bounds. *)
Lemma account_usage_counts m res st :
  let input := Z.max 0 (er_InputTokens res) in
  let output := Z.max 0 (er_OutputTokens res) in
  let total := if decide (0 < er_TotalTokens res) then er_TotalTokens res else input + output in
  st_inputTokens (account_usage m res st) = u64 (st_inputTokens st + u64 input)
  ∧ st_outputTokens (account_usage m res st) = u64 (st_outputTokens st + u64 output)
  ∧ st_totalTokens (account_usage m res st) = u64 (st_totalTokens st + u64 total)
  ∧ st_executions (account_usage m res st) = u64 (st_executions st + 1).
Proof.
  intros input output total. unfold account_usage. rewrite !maxInt64_max. fold input output.
  set (t0 := if (_ =? 0) && _ then _ else _).
  assert (Ht : u64 t0 = u64 total).
  { unfold t0, total. case_decide; [|destruct (_ && _) eqn:E; [apply u64_i64|]].
    - replace (Z.max 0 (er_TotalTokens res)) with (er_TotalTokens res) by lia.
      by assert (er_TotalTokens res =? 0 = false) as -> by lia.
    - apply andb_false_iff in E as [E|E]; [lia|]. bool_prop. f_equal. unfold input, output in *. lia. }
  rewrite Ht. by destruct (er_UsageKnown res), (m_InputUSDPerMillion m), (m_OutputUSDPerMillion m).
Qed.

Lemma redacted_input res : er_InputTokens (Redacted res) = er_InputTokens res.
Proof. unfold Redacted. by destruct (contains _ _). Qed.
Lemma redacted_output res : er_OutputTokens (Redacted res) = er_OutputTokens res.
Proof. unfold Redacted. by destruct (contains _ _). Qed.
Lemma redacted_total res : er_TotalTokens (Redacted res) = er_TotalTokens res.
Proof. unfold Redacted. by destruct (contains _ _). Qed.

(** ** Which counters a reconfigured router charges *)

Section AdoptPointers.
Context (cl nrid : loc).

(** The live tables of the capacity only gain entries. *)
Definition tables_grow (h h' : heap) : Prop :=
  (∀ id k, cap_sourceStates (cap_at h cl) !! id = Some k → cap_sourceStates (cap_at h' cl) !! id = Some k)
  ∧ (∀ id k, cap_quotaStates (cap_at h cl) !! id = Some k → cap_quotaStates (cap_at h' cl) !! id = Some k).

Lemma tables_grow_refl h h' : cap_at h' cl = cap_at h cl → tables_grow h h'.
Proof. intros E. unfold tables_grow. by rewrite E. Qed.

Lemma tables_grow_trans h1 h2 h3 : tables_grow h1 h2 → tables_grow h2 h3 → tables_grow h1 h3.
Proof. unfold tables_grow. intuition eauto. Qed.

Lemma adopt_state_step i s h :
  h_routers (fst (adopt_state cl nrid i s h)) = h_routers h
  ∧ tables_grow h (fst (adopt_state cl nrid i s h))
  ∧ ∀ k, cap_sourceStates (cap_at h cl) !! s_ID s = Some k → snd (adopt_state cl nrid i s h) = k.
Proof.
  unfold adopt_state. destruct (cap_sourceStates (cap_at h cl) !! s_ID s) as [l|] eqn:E; cbn [fst snd].
  - split_and!; [done|by apply tables_grow_refl|congruence].
  - split_and!; [done| |done]. set (h1 := upd_cap _ _ _).
    apply (tables_grow_trans _ h1); [|by apply tables_grow_refl].
    unfold tables_grow, h1. rewrite upd_cap_at, decide_True by done. simpl. split; [|done].
    intros id k Hk. rewrite lookup_insert_ne; [done|]. intros <-. congruence.
Qed.

Lemma adopt_quota_step i s h :
  h_routers (fst (adopt_quota cl nrid i s h)) = h_routers h
  ∧ tables_grow h (fst (adopt_quota cl nrid i s h))
  ∧ ∀ k, cap_quotaStates (cap_at h cl) !! s_QuotaDomain s = Some k → snd (adopt_quota cl nrid i s h) = k.
Proof.
  unfold adopt_quota. destruct (cap_quotaStates (cap_at h cl) !! s_QuotaDomain s) as [l|] eqn:E; cbn [fst snd].
  - split_and!; [done|by apply tables_grow_refl|congruence].
  - split_and!; [done| |done]. set (h1 := upd_cap _ _ _).
    apply (tables_grow_trans _ h1); [|by apply tables_grow_refl].
    unfold tables_grow, h1. rewrite upd_cap_at, decide_True by done. simpl. split; [done|].
    intros id k Hk. rewrite lookup_insert_ne; [done|]. intros <-. congruence.
Qed.

Lemma adopt_account_step i s h :
  h_routers (fst (adopt_account cl nrid i s h)) = h_routers h
  ∧ tables_grow h (fst (adopt_account cl nrid i s h)).
Proof.
  assert (Hu : ∀ a f x, tables_grow h x → tables_grow h (upd_quota_opt a f x)).
  { intros a f x Hx. apply (tables_grow_trans _ x); [done|]. apply tables_grow_refl. by destruct a. }
  unfold adopt_account. destruct (_ =? _)%string; [split; [done|by apply tables_grow_refl]|].
  destruct (cap_accountStates _ !! _); cbn [fst]; [split; [done|by apply Hu, tables_grow_refl]|].
  destruct (account_loc _ _); cbn [fst]; (split; [done|]); apply Hu; [|by apply tables_grow_refl].
  unfold tables_grow. rewrite upd_cap_at, decide_True by done. done.
Qed.

Lemma adopt_source_step i s h :
  ∃ a st q,
  router_at (adopt_source cl nrid i s h) nrid
  = with_r_accounts (<[i := a]> (r_accounts (router_at h nrid)))
  (with_r_quotas (<[i := q]> (r_quotas (router_at h nrid)))
    (with_r_state (<[i := st]> (r_state (router_at h nrid))) (router_at h nrid)))
  ∧ tables_grow h (adopt_source cl nrid i s h)
  ∧ (∀ k, cap_sourceStates (cap_at h cl) !! s_ID s = Some k → st = k)
  ∧ (∀ k, cap_quotaStates (cap_at h cl) !! s_QuotaDomain s = Some k → q = k).
Proof.
  unfold adopt_source. destruct (adopt_state_step i s h) as (R1 & T1 & K1).
  destruct (adopt_state cl nrid i s h) as [h1 st]. cbn [fst snd] in *.
  destruct (adopt_quota_step i s h1) as (R2 & T2 & K2).
  destruct (adopt_quota cl nrid i s h1) as [h2 q]. cbn [fst snd] in *.
  destruct (adopt_account_step i s h2) as (R3 & T3).
  destruct (adopt_account cl nrid i s h2) as [h3 a]. cbn [fst snd] in *.
  assert (Er : router_at h3 nrid = router_at h nrid) by (unfold router_at; congruence).
  exists a, st, q. split_and!.
  - by rewrite upd_router_at, decide_True, Er by done.
  - eapply tables_grow_trans; [exact T1|]. eapply tables_grow_trans; [exact T2|].
    eapply tables_grow_trans; [exact T3|]. by apply tables_grow_refl.
  - done.
  - intros k Hk. apply K2. by apply T1.
Qed.

Lemma adopt_sources_pointers l i h :
  let r := router_at h nrid in
  let r' := router_at (adopt_sources cl nrid i l h) nrid in
  (i + length l ≤ length (r_state r))%nat → (i + length l ≤ length (r_quotas r))%nat →
  (∀ j, (j < i)%nat → state_loc r' j = state_loc r j ∧ quota_loc r' j = quota_loc r j)
  ∧ ∀ j s, l !! j = Some s →
  (∀ k, cap_sourceStates (cap_at h cl) !! s_ID s = Some k → state_loc r' (i + j) = k)
  ∧ (∀ k, cap_quotaStates (cap_at h cl) !! s_QuotaDomain s = Some k → quota_loc r' (i + j) = k).
Proof.
  revert i h. induction l as [|s l IH]; intros i h r r' Hs Hq; [done|]. simpl in Hs, Hq.
  destruct (adopt_source_step i s h) as (a & st & q & Er & [Ts Tq] & Ks & Kq).
  specialize (IH (S i) (adopt_source cl nrid i s h)). cbv zeta in IH. rewrite Er in IH.
  cbn [r_state r_quotas with_r_accounts with_r_quotas with_r_state] in IH. fold r in IH.
  rewrite !length_insert in IH. destruct (IH ltac:(lia) ltac:(lia)) as [Hlow Hhigh]. clear IH.
  unfold r'. simpl adopt_sources. fold r. unfold state_loc, quota_loc in *. simpl in *. split.
  - intros j Hj. destruct (Hlow j ltac:(lia)) as [-> ->]. rewrite !list_lookup_insert_ne by lia. done.
  - intros [|j] x Hx; simpl in Hx.
    + injection Hx as <-. rewrite Nat.add_0_r. destruct (Hlow i ltac:(lia)) as [-> ->].
      rewrite !list_lookup_insert_eq by lia. simpl. eauto.
    + rewrite <-Nat.add_succ_comm. destruct (Hhigh j x Hx) as [H1 H2].
      split; intros k Hk; [by apply H1, Ts|by apply H2, Tq].
Qed.
End AdoptPointers.

(** What a hot reconfiguration leaves of the two routers. *)
Record reconfigured (h h' : heap) (rid nrid : loc) (c : Config) : Prop := {
  rec_leases : h_leases h' = h_leases h;
  rec_cfg : r_cfg (router_at h' nrid) = c;
  rec_capacity : r_capacity (router_at h' nrid) = r_capacity (router_at h rid);
  rec_current : cap_current (rcap h' (router_at h' nrid)) = nrid;
  rec_active : r_retired (router_at h' nrid) = false;
  rec_retired : r_retired (router_at h' rid) = true;
  rec_woken : ∀ w, w ∈ r_queue (router_at h' rid) → w_ready w = true;
  rec_queue : length (r_queue (router_at h' rid)) = length (r_queue (router_at h rid));
  rec_states : ∀ i s k, c_Sources c !! i = Some s →
    cap_sourceStates (rcap h (router_at h rid)) !! s_ID s = Some k → state_loc (router_at h' nrid) i = k;
  rec_quotas : ∀ i s k, c_Sources c !! i = Some s →
    cap_quotaStates (rcap h (router_at h rid)) !! s_QuotaDomain s = Some k → quota_loc (router_at h' nrid) i = k;
  rec_old : ∀ k, k ≠ rid → k ≠ nrid → h_routers h' !! k = h_routers h !! k }.

(** The fields the adoption loop leaves alone. *)
Lemma adopt_sources_router cl nrid l i h :
  let r := router_at h nrid in
  let r' := router_at (adopt_sources cl nrid i l h) nrid in
  r_cfg r' = r_cfg r ∧ r_capacity r' = r_capacity r ∧ r_retired r' = r_retired r ∧ r_queue r' = r_queue r.
Proof.
  revert i h. induction l as [|s l IH]; intros i h; [done|]. simpl.
  destruct (adopt_source_step cl nrid i s h) as (a & st & q & Er & _).
  destruct (IH (S i) (adopt_source cl nrid i s h)) as (-> & -> & -> & ->). by rewrite Er.
Qed.

Lemma reconfigure_spec c now h rid r :
  good h → h_routers h !! rid = Some r →
  reconfigured h (let '(h', nrid) := New c h in Adopt rid nrid now h') rid (snd (New c h)) c.
Proof.
  intros Hg Hr. pose proof (New_compiled c h) as [Hgood Hnext Hcfg Hrouter Hact Hqueue Hold Hleases Hcaps].
  pose proof (good_new c h Hg) as Hg'. destruct (New c h) as [h' nrid]. cbn [fst snd] in *.
  assert (Hlt : (rid < h_next h)%nat).
  { destruct (decide (h_next h ≤ rid)%nat) as [l|]; [|lia].
    destruct (si_next _ (good_inv _ Hg) rid l) as (_ & _ & _ & E & _). simpl in E. by rewrite lookup_fmap, Hr in E. }
  assert (Hne : rid ≠ nrid) by lia.
  assert (Hr' : router_at h' rid = r) by (unfold router_at; by rewrite Hold, Hr).
  unfold Adopt. rewrite Hr'. set (cl := r_capacity r).
  set (h1 := upd_router nrid (with_r_capacity cl) h').
  assert (Hn1 : router_at h1 nrid = with_r_capacity cl (router_at h' nrid)).
  { unfold h1. by rewrite upd_router_at, decide_True. }
  rewrite Hn1. cbn [r_cfg with_r_capacity]. rewrite Hcfg.
  set (h2 := adopt_sources cl nrid 0 (c_Sources c) h1).
  pose proof (adopt_sources_router cl nrid (c_Sources c) 0 h1) as (F1 & F2 & F3 & F4). fold h2 in F1, F2, F3, F4.
  rewrite Hn1 in F1, F2, F3, F4. cbn [r_cfg r_capacity r_retired r_queue with_r_capacity] in F1, F2, F3, F4.
  destruct (si_routers _ (good_inv _ Hg') nrid (router_skel (router_at h' nrid))) as [_ _ _ _ Ls Lq _ _].
  { destruct Hrouter as [n Hn]. simpl. by rewrite lookup_fmap, (router_at_lookup _ _ _ Hn), Hn. }
  simpl in Ls, Lq. rewrite Hcfg in Ls.
  destruct (adopt_sources_pointers cl nrid (c_Sources c) 0 h1) as [_ Hptr]; [rewrite Hn1; simpl; lia..|].
  fold h2 in Hptr. simpl in Hptr.
  assert (Hcl : cap_at h1 cl = cap_at h cl).
  { unfold h1, cap_at. simpl. rewrite Hcaps; [done|].
    destruct (si_routers _ (good_inv _ Hg) rid (router_skel r)) as [[x Hx] _ _ _ _ _ _ _].
    { simpl. by rewrite lookup_fmap, Hr. }
    destruct (decide (h_next h ≤ cl)%nat) as [l|]; [|lia].
    destruct (si_next _ (good_inv _ Hg) cl l) as (_ & _ & E & _). unfold cl in E. simpl in Hx, E. congruence. }
  destruct (adopt_sources_frame cl nrid (c_Sources c) 0 h1) as [Fl Fr]. fold h2 in Fl, Fr.
  set (h3 := upd_cap cl _ h2). set (h4 := upd_router rid (with_r_retired true) h3).
  set (h5 := upd_cap cl (with_cap_current nrid) h4). set (h6 := upd_router rid _ h5).
  assert (Hsame : ∀ k, router_at (signal nrid now h6) k
    = if decide (nrid = k) then with_r_queue (mark_first (runnable h6 (router_at h6 nrid) now) (r_queue (router_at h6 nrid))) (router_at h6 nrid)
      else router_at h6 k).
  { intros k. unfold signal. by rewrite upd_router_at. }
  assert (Hn6 : router_at h6 nrid = router_at h2 nrid).
  { unfold h6. rewrite upd_router_at, decide_False by done.
    change (router_at h5 nrid) with (router_at h4 nrid). unfold h4. by rewrite upd_router_at, decide_False. }
  assert (Hr2 : router_at h2 rid = r).
  { unfold router_at. rewrite Fr by done. unfold h1. simpl. rewrite lookup_insert_ne by done. by rewrite Hold, Hr. }
  assert (Hr6 : router_at h6 rid = with_r_queue (map (set_ready true) (r_queue r)) (with_r_retired true r)).
  { unfold h6. rewrite upd_router_at, decide_True by done. change (router_at h5 rid) with (router_at h4 rid).
    unfold h4. rewrite upd_router_at, decide_True by done. by rewrite <-Hr2. }
  pose proof (Hsame nrid) as Hsn. pose proof (Hsame rid) as Hsr. rewrite decide_True in Hsn by done.
  rewrite decide_False in Hsr by done. rewrite Hn6 in Hsn. rewrite Hr6 in Hsr.
  constructor; rewrite ?Hsn, ?Hsr, ?(router_at_lookup _ _ _ Hr).
  - change (h_leases h2 = h_leases h). rewrite Fl. exact Hleases.
  - simpl. congruence.
  - simpl. exact F2.
  - unfold rcap. cbn [r_capacity with_r_queue]. rewrite F2.
    change (cap_at (signal nrid now h6) cl) with (cap_at h5 cl). unfold h5. by rewrite upd_cap_at, decide_True.
  - simpl. by rewrite F3.
  - done.
  - simpl. intros w. rewrite list_elem_of_fmap. by intros (w0 & -> & _).
  - simpl. by rewrite length_map.
  - intros i s k Hs Hk. simpl. rewrite <-(proj1 (Hptr i s Hs) k); [done|]. by rewrite Hcl.
  - intros i s k Hs Hk. simpl. rewrite <-(proj2 (Hptr i s Hs) k); [done|]. by rewrite Hcl.
  - intros k K1 K2. unfold signal, h6, h5, h4, h3. simpl. rewrite !lookup_insert_ne by done.
    rewrite Fr by done. unfold h1. simpl. rewrite lookup_insert_ne by done. by apply Hold.
Qed.

Lemma state_active_count h k st :
  good h → h_states h !! k = Some st → st_active st = count (holds_state k) (lease_skel <$> h_leases h).
Proof. intros Hg Hk. apply (si_states _ (good_inv _ Hg) k). simpl. by rewrite lookup_fmap, Hk. Qed.
Lemma quota_active_count h k q :
  good h → h_quotas h !! k = Some q →
  q_active q = count (holds_quota k) (lease_skel <$> h_leases h) + count (holds_account k) (lease_skel <$> h_leases h).
Proof. intros Hg Hk. apply (si_quotas _ (good_inv _ Hg) k). simpl. by rewrite lookup_fmap, Hk. Qed.
