(* ===== verification/RouterLimits.v ===== *)
(** * Limits are never exceeded

    Without a reconfiguration (which may lower a limit under live leases), no
    sequence of operations takes a counter above its configured limit. *)

From S2P Require Import Prelude GoFloat ConfigData Execution RouterData RouterPolicy RouterPolicyFacts RouterOps RouterInv RouterReach RouterFacts.
Local Open Scope Z_scope.

(** What a router's queue operations leave alone. *)
Definition same_ptrs (r r' : router) : Prop :=
  r_cfg r' = r_cfg r ∧ r_capacity r' = r_capacity r ∧ r_state r' = r_state r
  ∧ r_quotas r' = r_quotas r ∧ r_accounts r' = r_accounts r ∧ r_targets r' = r_targets r.

Lemma same_ptrs_trans r1 r2 r3 : same_ptrs r1 r2 → same_ptrs r2 r3 → same_ptrs r1 r3.
Proof. unfold same_ptrs. intuition congruence. Qed.

(** A step that raises no counter and changes no limit. *)
Record calm (h h' : heap) : Prop := {
  ca_states : ∀ k, st_active (st_at h' k) <= st_active (st_at h k);
  ca_quotas : ∀ k, q_active (q_at h' k) <= q_active (q_at h k);
  ca_limits : ∀ k, q_limit (q_at h' k) = q_limit (q_at h k);
  ca_caps : ∀ k, cap_active (cap_at h' k) <= cap_active (cap_at h k);
  ca_routers : ∀ k r', h_routers h' !! k = Some r' → ∃ r, h_routers h !! k = Some r ∧ same_ptrs r r' }.

Lemma calm_refl h : calm h h.
Proof. constructor; try done. intros k r' Hr. exists r'. by repeat split. Qed.

Lemma calm_trans h1 h2 h3 : calm h1 h2 → calm h2 h3 → calm h1 h3.
Proof.
  intros H1 H2. constructor; try intros k.
  - pose proof (ca_states _ _ H1 k). pose proof (ca_states _ _ H2 k). lia.
  - pose proof (ca_quotas _ _ H1 k). pose proof (ca_quotas _ _ H2 k). lia.
  - by rewrite (ca_limits _ _ H2), (ca_limits _ _ H1).
  - pose proof (ca_caps _ _ H1 k). pose proof (ca_caps _ _ H2 k). lia.
  - intros r3 (r2 & Hr2 & E2)%(ca_routers _ _ H2). apply (ca_routers _ _ H1) in Hr2 as (r1 & Hr1 & E1).
    exists r1. split; [done|]. by eapply same_ptrs_trans.
Qed.

Lemma calm_same h h' :
  h_states h' = h_states h → h_quotas h' = h_quotas h → h_caps h' = h_caps h → h_routers h' = h_routers h →
  calm h h'.
Proof.
  intros E1 E2 E3 E4. constructor; unfold st_at, q_at, cap_at; rewrite ?E1, ?E2, ?E3, ?E4; try done.
  intros k r' Hr. exists r'. by repeat split.
Qed.

Lemma calm_upd_state h k f : (∀ st, st_active (f st) <= st_active st) → calm h (upd_state k f h).
Proof.
  intros Hf. constructor; try done.
  - intros j. rewrite upd_state_at. case_decide; [subst; apply Hf|done].
  - intros j r' Hr. exists r'. by repeat split.
Qed.

Lemma calm_upd_quota h k f :
  (∀ q, q_active (f q) <= q_active q) → (∀ q, q_limit (f q) = q_limit q) → calm h (upd_quota k f h).
Proof.
  intros Hf Hl. constructor; try done.
  - intros j. rewrite upd_quota_at. case_decide; [subst; apply Hf|done].
  - intros j. rewrite upd_quota_at. case_decide; [subst; apply Hl|done].
  - intros j r' Hr. exists r'. by repeat split.
Qed.

Lemma calm_upd_cap h k f : (∀ c, cap_active (f c) <= cap_active c) → calm h (upd_cap k f h).
Proof.
  intros Hf. constructor; try done.
  - intros j. rewrite upd_cap_at. case_decide; [subst; apply Hf|done].
  - intros j r' Hr. exists r'. by repeat split.
Qed.

Lemma calm_upd_router h k f :
  is_Some (h_routers h !! k) → (∀ r, same_ptrs r (f r)) → calm h (upd_router k f h).
Proof.
  intros [r0 Hk] Hf. constructor; try done.
  intros j r'. simpl. rewrite lookup_insert. case_decide as E.
  - intros [= <-]. subst j. exists r0. split; [done|]. rewrite (router_at_lookup _ _ _ Hk). apply Hf.
  - intros Hr. exists r'. by repeat split.
Qed.

Lemma calm_signal rid now h : is_Some (h_routers h !! rid) → calm h (signal rid now h).
Proof. intros H. apply calm_upd_router; [done|]. by repeat split. Qed.

Lemma calm_defer rid queued now h : is_Some (h_routers h !! rid) → calm h (acquire_defer rid queued now h).
Proof.
  intros H. destruct queued as [w|]; [|apply calm_refl]. simpl.
  apply (calm_trans _ (upd_router rid (removeWaiter w) h)).
  - apply calm_upd_router; [done|]. intros r. unfold removeWaiter. case_match; by repeat split.
  - apply calm_signal. by apply dom_upd_router.
Qed.

Lemma calm_release lid status ra now h :
  good h → is_Some (h_leases h !! lid) → calm h (Release lid status ra now h).
Proof.
  intros Hg [l Hl]. pose proof (good_inv _ Hg) as Hinv.
  unfold Release. rewrite (lease_at_lookup _ _ _ Hl). destruct (le_once l) eqn:Ho; [apply calm_refl|].
  destruct (inv_lease_ptrs h lid l Hinv Hl) as [Hr [c Hc] _ _].
  set (h0 := upd_lease lid (with_le_once true) h).
  assert (C0 : calm h h0) by by apply calm_same.
  assert (C1 : calm h (release_counters l h0)).
  { unfold release_counters. set (hc := upd_cap _ _ h0). set (hs := upd_state _ _ hc). set (hq := upd_quota _ _ hs).
    assert (calm h hq).
    { apply (calm_trans _ hs); [apply (calm_trans _ hc); [apply (calm_trans _ h0); [done|]|]|].
      - apply calm_upd_cap. intros. simpl. lia.
      - apply calm_upd_state. intros. simpl. lia.
      - apply calm_upd_quota; [intros; simpl; lia|done]. }
    destruct (le_account l); [|done]. apply (calm_trans _ hq); [done|].
    apply calm_upd_quota; [intros; simpl; lia|done]. }
  set (h1 := release_counters l h0) in *.
  assert (Er : h_routers h1 = h_routers h) by (unfold h1, release_counters; by destruct (le_account l)).
  assert (Hcur : ∀ h2, h_routers h2 = h_routers h1 →
    (∀ k, cap_current (cap_at h2 k) = cap_current (cap_at h k)) → calm h h2 → calm h (signal_current l now h2)).
  { intros h2 E2 E3 C2. apply (calm_trans _ h2); [done|]. apply calm_signal. rewrite E2, Er.
    assert (E4 : router_at h2 (le_router l) = router_at h (le_router l)) by (unfold router_at; congruence).
    unfold rcap. rewrite E3, E4. unfold cap_at. rewrite Hc. by eapply (good_current _ Hg). }
  assert (E1 : ∀ k, cap_current (cap_at h1 k) = cap_current (cap_at h k)).
  { intros k. replace (cap_at h1 k) with (cap_at (upd_cap (r_capacity (router_at h0 (le_router l)))
      (λ c, with_cap_active (cap_active c - 1) c) h0) k)
      by (unfold h1, release_counters; by destruct (le_account l)).
    rewrite upd_cap_at. case_decide; by subst. }
  destruct (status =? -1); [by apply Hcur|].
  set (h2 := recordEvent l status now h1).
  assert (C2 : calm h1 h2).
  { unfold h2, recordEvent. apply calm_upd_cap. intros x. unfold push_event. by case_match. }
  apply Hcur; [done| |].
  - intros k. change (cap_current (cap_at h2 k) = cap_current (cap_at h k)). rewrite <-E1.
    unfold h2, recordEvent. rewrite upd_cap_at. case_decide; [|done]. subst. unfold push_event. by case_match.
  - eapply calm_trans; [exact C1|]. eapply calm_trans; [exact C2|].
    eapply calm_trans; [apply calm_upd_quota|apply calm_upd_state].
    + intros q. by rewrite rate_limit_active.
    + intros q. unfold rate_limit_quota. by case_match.
    + intros st. by rewrite release_state_active.
Qed.

Lemma calm_record lid result h : calm h (RecordExecution lid result h).
Proof.
  unfold RecordExecution. set (h1 := match le_execution _ with Some _ => _ | None => _ end).
  assert (C1 : calm h h1).
  { unfold h1. destruct (le_execution _); [apply calm_refl|]. apply calm_upd_state.
    intros. by rewrite account_usage_active. }
  eapply calm_trans; [exact C1|].
  set (h2 := upd_state _ _ h1). apply (calm_trans _ h2); [by apply calm_upd_state|by apply calm_same].
Qed.

Lemma calm_first_output lid now h : calm h (FirstOutput lid now h).
Proof.
  unfold FirstOutput. destruct (le_firstOutput _); [apply calm_refl|].
  set (h1 := upd_lease _ _ h). apply (calm_trans _ h1); [by apply calm_same|]. by apply calm_upd_state.
Qed.

(** ** The locations a compiled router uses are distinct *)

Record distinct (r : router) : Prop := {
  di_states : NoDup (r_state r);
  di_accounts : ∀ i j a k, r_accounts r !! i = Some (Some a) → r_quotas r !! j = Some k → a ≠ k }.

(** During compilation: accounts are allocated below [n1], quota domains above. *)
Record fresh_built (n1 : nat) (acc : heap * building) : Prop := {
  fb_next : (n1 ≤ h_next (fst acc))%nat;
  fb_nodup : NoDup (bd_state (snd acc));
  fb_state : Forall (λ k, (k < h_next (fst acc))%nat) (bd_state (snd acc));
  fb_quotas : Forall (λ k, (n1 ≤ k)%nat) (bd_quotas (snd acc));
  fb_qs : ∀ id k, bd_qs (snd acc) !! id = Some k → (n1 ≤ k)%nat;
  fb_accounts : Forall (λ x, ∀ a, x = Some a → (a < n1)%nat) (bd_accounts (snd acc)) }.

Lemma accounts_below l h :
  let acc := fold_left new_account l (h, ∅) in
  ∀ id k, snd acc !! id = Some k → (k < h_next (fst acc))%nat.
Proof.
  apply (fold_left_inv new_account (λ _ acc, ∀ id k, snd acc !! id = Some k → (k < h_next (fst acc))%nat)).
  - intros id k. simpl. by rewrite lookup_empty.
  - intros _ [h' m] a _ IH id k. simpl in *. rewrite lookup_insert. case_decide; [intros [= <-]; lia|].
    intros Hk%IH. lia.
Qed.

Lemma new_source_fresh ps accts limits n1 acc s :
  (∀ id k, limits !! id = Some k → (k < n1)%nat) →
  fresh_built n1 acc → fresh_built n1 (new_source ps accts limits acc s).
Proof.
  destruct acc as [h b]. intros Hlim [Hn Hnd Hs Hq Hqs Ha]. cbn [fst snd] in *. unfold new_source.
  destruct (match ps !! s_Provider s with Some p => _ | None => _ end) as [e0 ap0].
  destruct (match accts !! s_AccountID s with Some a => _ | None => _ end) as [enabled approved].
  unfold alloc_state. set (h1 := with_h_next _ _).
  assert (E1 : h_next h1 = S (h_next h)) by done.
  assert (Hd : let '(h2, qs, ql) := domain_quota s b h1 in
    (h_next h1 ≤ h_next h2)%nat ∧ (n1 ≤ ql)%nat ∧ ∀ id k, qs !! id = Some k → (n1 ≤ k)%nat).
  { unfold domain_quota. destruct (bd_qs b !! s_QuotaDomain s) as [l|] eqn:E; [by eauto|].
    unfold alloc_quota. cbn [h_next with_h_next]. split_and!; [lia|lia|]. intros id k.
    rewrite lookup_insert. case_decide; [intros [= <-]; lia|apply Hqs]. }
  destruct (domain_quota s b h1) as [[h2 qs] ql]. destruct Hd as (Hle & Hql & Hqs2).
  constructor; cbn [fst snd bd_state bd_quotas bd_qs bd_accounts]; [lia| | | |done|].
  - apply NoDup_app. split_and!; [done| |apply NoDup_singleton].
    intros x Hx ->%list_elem_of_singleton. rewrite Forall_forall in Hs. apply Hs in Hx. lia.
  - apply Forall_app. split; [|constructor; [lia|done]]. eapply Forall_impl; [exact Hs|]. simpl. lia.
  - apply Forall_app. split; [done|by constructor].
  - apply Forall_app. split; [done|]. constructor; [|done]. intros a Hk. eauto.
Qed.

Lemma compile_fresh c h : ∃ n1, fresh_built n1 (fst (fst (compile_sources c h)), snd (compile_sources c h)).
Proof.
  unfold compile_sources. pose proof (accounts_below (c_Accounts c) h) as Hl.
  destruct (fold_left new_account (c_Accounts c) (h, ∅)) as [h1 limits]. cbn [fst snd] in Hl. exists (h_next h1).
  match goal with |- context [fold_left ?f (c_Sources c) ?a] =>
    assert (Hf : fresh_built (h_next h1) (fold_left f (c_Sources c) a)) end.
  { apply (fold_left_inv _ (λ _, fresh_built (h_next h1))).
    - constructor; simpl; auto using NoDup_nil_2. intros id k. by rewrite lookup_empty.
    - intros _ acc s _ IH. by apply new_source_fresh. }
  destruct (fold_left _ (c_Sources c) _). exact Hf.
Qed.

Lemma compiled_distinct c h : distinct (router_at (fst (New c h)) (snd (New c h))).
Proof.
  unfold New. destruct (compile_fresh c h) as [n1 Hf].
  destruct (compile_sources c h) as [[h2 limits] b]. cbn [fst snd] in *.
  destruct Hf as [_ Hnd _ Hq _ Ha]. cbn [fst snd] in *.
  unfold alloc_router, alloc_cap, router_at. simpl. rewrite lookup_insert_eq. simpl. constructor; simpl; [done|].
  intros i j a k Hi Hj ->. pose proof (Forall_lookup_1 _ _ _ _ Hq Hj). pose proof (Forall_lookup_1 _ _ _ _ Ha Hi _ eq_refl). simpl in *. lia.
Qed.

(** ** The bounds *)

Definition no_reconfigure (o : op) : bool := match o with OpReconfigure _ _ => false | _ => true end.

(** Every counter router [r0] charges is within its limit (a negative limit
    admits nothing). *)
Record within_limits (r0 : router) (h : heap) : Prop := {
  wl_global : cap_active (cap_at h (r_capacity r0)) <= Z.max 0 (rt_MaxInflight (c_Runtime (r_cfg r0)));
  wl_sources : ∀ i k, r_state r0 !! i = Some k → st_active (st_at h k) <= Z.max 0 (s_MaxInflight (src_at r0 i));
  wl_quotas : ∀ k, q_active (q_at h k) <= Z.max 0 (q_limit (q_at h k)) }.

(** The only router keeps its pointers. *)
Definition only_router (r0 : router) (h : heap) : Prop :=
  ∀ k r, h_routers h !! k = Some r → same_ptrs r0 r.

Lemma within_calm r0 h h' : calm h h' → within_limits r0 h → within_limits r0 h'.
Proof.
  intros Hc [H1 H2 H3]. constructor.
  - pose proof (ca_caps _ _ Hc (r_capacity r0)). lia.
  - intros i k Hk. pose proof (ca_states _ _ Hc k). pose proof (H2 i k Hk). lia.
  - intros k. rewrite (ca_limits _ _ Hc). pose proof (ca_quotas _ _ Hc k). pose proof (H3 k). lia.
Qed.

Lemma only_calm r0 h h' : calm h h' → only_router r0 h → only_router r0 h'.
Proof.
  intros Hc Ho k r' (r & Hr & E)%(ca_routers _ _ Hc). eapply same_ptrs_trans; [by eapply Ho|done].
Qed.

Section GrantFrame.
Context (rid : loc) (q : Query) (idx : nat) (now : Z) (h : heap).
Let r := router_at h rid.
Let i := t_Source (target_at r idx).
Let h' := fst (grant rid q idx now h).

Lemma grant_states : h_states h' = h_states (upd_state (state_loc r i) (λ st,
      with_st_virtualFinish (fadd (st_virtualFinish st) (fdiv f1 (f_of_Z (Z.max 1 (s_Weight (src_at r i))))))
      (with_st_active (st_active st + 1) st)) h).
Proof. unfold h', grant. fold r. fold i. by destruct (account_loc r i). Qed.

Lemma grant_quota_at k :
  q_active (q_at h' k) = q_active (q_at h k) + z_ind (Nat.eqb (quota_loc r i) k)
  + z_ind (bool_decide (account_loc r i = Some k))
  ∧ q_limit (q_at h' k) = q_limit (q_at h k).
Proof.
  set (hq := upd_quota (quota_loc r i) (λ qt, with_q_active (q_active qt + 1) qt) h).
  assert (Hq : ∀ j, q_active (q_at hq j) = q_active (q_at h j) + z_ind (Nat.eqb (quota_loc r i) j)
    ∧ q_limit (q_at hq j) = q_limit (q_at h j)).
  { intros j. unfold hq. rewrite upd_quota_at. case_decide as E; [subst; rewrite Nat.eqb_refl; simpl; lia|].
    apply Nat.eqb_neq in E. rewrite E. simpl. lia. }
  destruct (Hq k) as [Hk Hl].
  assert (E : ∃ f, (∀ a, q_active (f a) = q_active a + 1 ∧ q_limit (f a) = q_limit a)
    ∧ h_quotas h' = h_quotas (upd_quota_opt (account_loc r i) f hq)).
  { unfold h', grant. fold r. fold i. destruct (account_loc r i) as [a|]; [|by exists (λ a, with_q_active (q_active a + 1) a)].
    unfold dispatch_account. cbn [fst alloc_lease].
    set (hc := upd_quota (quota_loc r i) _ _). eexists. split; [|reflexivity]. done. }
  destruct E as (f & Hf & E). unfold q_at at 1 3. rewrite E. fold (q_at (upd_quota_opt (account_loc r i) f hq) k).
  destruct (account_loc r i) as [a|]; simpl upd_quota_opt.
  - rewrite upd_quota_at. case_decide as Ea; case_bool_decide; simplify_eq; simpl.
    + destruct (Hf (q_at hq k)). lia.
    + lia.
  - case_bool_decide; [done|]. simpl. lia.
Qed.
End GrantFrame.

Lemma src_at_same r r0 i : same_ptrs r0 r → src_at r i = src_at r0 i.
Proof. intros (E & _). unfold src_at. by rewrite E. Qed.

(** A grant stays within the limits, since [choose] saw a free slot of each. *)
Lemma within_grant rid q idx now h r0 e :
  distinct r0 → good h → only_router r0 h → is_Some (h_routers h !! rid) →
  choose h (router_at h rid) q now = (Some idx, e) →
  within_limits r0 h → within_limits r0 (fst (grant rid q idx now h)).
Proof.
  intros Hd Hg Ho [r Hr] Hch [H1 H2 H3]. pose proof (Ho _ _ Hr) as Hs.
  rewrite (router_at_lookup _ _ _ Hr) in Hch.
  destruct (choose_some _ _ _ _ _ _ Hch) as (_ & Hidx & Hex).
  apply explain_eligible in Hex as (_ & Hab & Hsb & Hgb).
  pose proof (chosen_ptrs _ _ _ _ _ _ _ (good_inv _ Hg) Hr Hch) as _.
  set (i := t_Source (target_at r idx)) in *.
  destruct (si_routers _ (good_inv _ Hg) rid (router_skel r)) as [_ _ _ _ _ Lq La Hcand].
  { simpl. by rewrite lookup_fmap, Hr. }
  simpl in Lq, La, Hcand.
  assert (Hi : (i < length (r_state r))%nat).
  { destruct (r_candidates r !! query_key q) as [l|] eqn:E; [|by apply elem_of_nil in Hidx].
    destruct (Hcand _ _ _ E Hidx) as (t & Ht & Hlt). unfold i, target_at. by rewrite Ht. }
  unfold source_busy, global_busy, rcap in Hsb, Hgb. bool_prop.
  pose proof (grant_cap_active rid q idx now h) as Gc. pose proof (grant_states rid q idx now h) as Gs.
  pose proof (grant_quota_at rid q idx now h) as Gq. rewrite (router_at_lookup _ _ _ Hr) in Gc, Gs, Gq.
  fold i in Gs, Gq. destruct Hs as (E1 & E2 & E3 & E4 & E5 & E6).
  constructor.
  - rewrite <-E2, Gc, E1 in *. lia.
  - intros j k Hk. unfold st_at. rewrite Gs.
    fold (st_at (upd_state (state_loc r i) (λ st, with_st_virtualFinish
        (fadd (st_virtualFinish st) (fdiv f1 (f_of_Z (Z.max 1 (s_Weight (src_at r i))))))
        (with_st_active (st_active st + 1) st)) h) k).
    rewrite upd_state_at. case_decide as Ek; [|by eapply H2].
    assert (j = i) as ->.
    { eapply (NoDup_lookup (r_state r0)); [apply Hd|exact Hk|]. rewrite <-E3.
      destruct (lookup_lt_is_Some_2 _ _ Hi) as [x Hx]. rewrite Hx. f_equal. rewrite <-Ek.
      unfold state_loc. by rewrite Hx. }
    subst k. simpl. unfold src_at in *. rewrite <-E1. lia.
  - intros k. destruct (Gq k) as [-> ->]. unfold account_busy in Hab.
    assert (Hno : account_loc r i = Some k → quota_loc r i ≠ k).
    { intros Ha Hq. unfold account_loc in Ha. unfold quota_loc in Hq.
      destruct (lookup_lt_is_Some_2 (r_quotas r) i ltac:(lia)) as [x Hx]. rewrite Hx in Hq. simpl in Hq. subst x.
      destruct (r_accounts r !! i) as [[a|]|] eqn:Ea; simpl in Ha; try discriminate. injection Ha as ->.
      rewrite E5 in Ea. rewrite E4 in Hx. by apply (di_accounts _ Hd i i k k Ea Hx). }
    destruct (Nat.eqb_spec (quota_loc r i) k) as [Eq|Nq]; case_bool_decide as Ea; simpl.
    + by destruct (Hno Ea).
    + subst k. lia.
    + rewrite Ea in Hab. bool_prop. lia.
    + specialize (H3 k). lia.
Qed.

Lemma calm_enqueue rid q ctx h : is_Some (h_routers h !! rid) → calm h (fst (enqueue rid q ctx h)).
Proof.
  intros Hr. unfold enqueue. cbn [fst]. set (h1 := with_h_next _ h).
  apply (calm_trans _ h1); [by apply calm_same|]. apply calm_upd_router; [done|]. by repeat split.
Qed.

(** A pass of [Acquire] that grants nothing raises nothing. *)
Lemma calm_acquire rid q ctx queued now h :
  is_Some (h_routers h !! rid) → (∀ l, snd (acquire_iter rid q ctx queued now h) ≠ Granted l) →
  calm h (fst (acquire_iter rid q ctx queued now h)).
Proof.
  intros Hr. unfold acquire_iter. pose proof (calm_defer rid queued now h Hr) as Hdef.
  destruct (is_done h ctx); [done|]. destruct (choose h _ q now) as [idx e].
  set (wait := if negb e then _ else _).
  assert (Hw : calm h (fst wait)).
  { unfold wait. destruct (negb e); [done|]. destruct queued as [w|]; [apply calm_refl|].
    destruct (_ <=? _); [done|]. by apply calm_enqueue. }
  destruct idx as [idx|]; [|done]. destruct (turn _ _ now queued); [|done].
  destruct (grant rid q idx now h) as [h1 l]. intros Hn. by destruct (Hn l).
Qed.

Record static_ok (r0 : router) (limits : loc → Z) (h : heap) : Prop := {
  so_good : good h; so_only : only_router r0 h; so_within : within_limits r0 h;
  so_limits : ∀ k, q_limit (q_at h k) = limits k }.

Lemma static_calm r0 f h h' : good h' → calm h h' → static_ok r0 f h → static_ok r0 f h'.
Proof.
  intros Hg Hc [_ Ho Hw Hl]. constructor; [done|by eapply only_calm|by eapply within_calm|].
  intros k. rewrite (ca_limits _ _ Hc). apply Hl.
Qed.

Lemma static_iter r0 f rid q ctx queued now h :
  distinct r0 → is_Some (h_routers h !! rid) → static_ok r0 f h →
  static_ok r0 f (fst (acquire_iter rid q ctx queued now h)).
Proof.
  intros Hd Hr Hs. pose proof (good_acquire_iter rid q ctx queued now h Hr (so_good _ _ _ Hs)) as Hg'.
  destruct (acquire_iter rid q ctx queued now h) as [h' res] eqn:E. cbn [fst] in *.
  assert (Hcalm : (∀ l, res ≠ Granted l) → static_ok r0 f h').
  { intros Hn. apply (static_calm r0 f h); [done| |done].
    pose proof (calm_acquire rid q ctx queued now h Hr) as Hc. rewrite E in Hc. by apply Hc. }
  destruct res as [l| |]; [|by apply Hcalm..]. clear Hcalm.
  destruct (acquire_granted _ _ _ _ _ _ _ _ E) as (idx & Hch & _ & _ & _ & ->).
  assert (Hg : static_ok r0 f (fst (grant rid q idx now h))).
  { destruct Hs as [Hgood Ho Hw Hl]. constructor.
    - destruct Hr as [r Hr]. eapply good_grant; [done|done|]. by rewrite (router_at_lookup _ _ _ Hr) in Hch.
    - intros k r'. unfold grant, alloc_lease. cbn [fst]. intros Hk.
      assert (Hk' : (<[rid := with_r_cursor (u64 (r_cursor (router_at h rid) + 1)) (router_at h rid)]> (h_routers h)) !! k = Some r').
      { rewrite <-Hk. by destruct (account_loc _ _). }
      revert Hk'. rewrite lookup_insert. case_decide; [|apply Ho]. intros [= <-].
      destruct Hr as [r Hr]. rewrite (router_at_lookup _ _ _ Hr).
      eapply same_ptrs_trans; [by eapply Ho|by repeat split].
    - by eapply within_grant.
    - intros k. rewrite <-Hl. by apply grant_quota_at. }
  apply (static_calm r0 f (fst (grant rid q idx now h))); [done| |done].
  apply calm_defer. by apply grant_routers.
Qed.

Lemma static_exec r0 f o now h :
  distinct r0 → no_reconfigure o = true → static_ok r0 f h → static_ok r0 f (exec o now h).
Proof.
  intros Hd Ho Hs. pose proof (good_exec o now h (so_good _ _ _ Hs)) as Hg'.
  destruct o; simpl in Ho; try discriminate; simpl in *; try (case_bool_decide as Hex; [|done]).
  - apply (static_calm r0 f h); [done|by apply calm_same|done].
  - by apply static_iter.
  - unfold acquire_resume in *. destruct (find_waiter _ _) as [w|] eqn:Hw; [|done].
    pose proof (find_waiter_router _ _ _ _ Hw) as Hr.
    set (h1 := match cause with WakeReady => _ | _ => h end) in *.
    assert (H1 : calm h h1 ∧ is_Some (h_routers h1 !! rid) ∧ good h1).
    { unfold h1. destruct cause; try by (split_and!; [apply calm_refl|done|apply Hs]). split_and!.
      - apply calm_upd_router; [done|]. by repeat split.
      - by apply dom_upd_router.
      - apply (good_skel h); [by apply skel_upd_router|apply Hs]. }
    destruct H1 as (Hc1 & Hr1 & Hg1). match goal with |- context [if ?b then _ else _] => destruct b; [|done] end.
    pose proof (static_iter r0 f rid (w_query w) (w_ctx w) (Some waiter) now h1 Hd Hr1 (static_calm _ _ _ _ Hg1 Hc1 Hs)).
    by destruct (acquire_iter _ _ _ _ _ _).
  - apply (static_calm r0 f h); [done| |done]. apply calm_release; [apply Hs|done].
  - apply (static_calm r0 f h); [done|apply calm_record|done].
  - apply (static_calm r0 f h); [done|apply calm_first_output|done].
  - apply (static_calm r0 f h); [done| |done]. unfold SetEnabled.
    destruct (list_find _ _) as [[i s]|]; [|apply calm_refl]. cbn [fst].
    set (h1 := upd_state _ _ h). apply (calm_trans _ h1); [apply calm_upd_state; by destruct on|].
    by apply calm_signal.
Qed.

Lemma static_boot c :
  let h0 := fst (New c empty_heap) in
  static_ok (router_at h0 (snd (New c empty_heap))) (λ k, q_limit (q_at h0 k)) h0.
Proof.
  pose proof (New_compiled c empty_heap) as [Hg _ _ [r0 Hr] _ _ Hold Hl _].
  specialize (Hg good_empty). destruct (New c empty_heap) as [h rid]. cbn [fst snd] in *.
  rewrite (router_at_lookup _ _ _ Hr). simpl in Hl. constructor; [done| |constructor|done].
  - intros k r Hk. destruct (decide (k = rid)) as [->|Hne].
    + rewrite Hr in Hk. injection Hk as <-. by repeat split.
    + rewrite Hold in Hk by done. simpl in Hk. by rewrite lookup_empty in Hk.
  - unfold cap_at. destruct (h_caps h !! r_capacity r0) as [x|] eqn:E; simpl; [|lia].
    assert (Ec : cap_active x = 0); [|lia].
    change (cap_active x) with (cs_active (cap_skel x)).
    rewrite (si_caps _ (good_inv _ Hg) (r_capacity r0) (cap_skel x)).
    + simpl. by rewrite Hl, fmap_empty, count_empty.
    + simpl. by rewrite lookup_fmap, E.
  - intros i k _. unfold st_at. destruct (h_states h !! k) as [x|] eqn:E; simpl; [|lia].
    rewrite (state_active_count h k x), Hl, fmap_empty, count_empty by done. lia.
  - intros k. unfold q_at. destruct (h_quotas h !! k) as [x|] eqn:E; simpl; [|lia].
    rewrite (quota_active_count h k x), Hl, fmap_empty, !count_empty by done. lia.
Qed.

Lemma static_steps r0 f t h t' h' :
  distinct r0 → static_ok r0 f h → steps no_reconfigure t h t' h' → static_ok r0 f h'.
Proof. intros Hd Hs. induction 1; [done|]. apply static_exec; auto. Qed.
