(* ===== verification/RouterStatus.v ===== *)
(** * What the control plane reads ([Status], [CapacityStatus])

    Read-only snapshots of the router, taken under its mutex.  Go iterates its
    maps in an unspecified order and then sorts; the model lists a map and
    sorts it, which gives the same result because identifiers are unique. *)

From S2P Require Import Prelude GoFloat ConfigData Execution RouterData RouterPolicy RouterOps RouterInv RouterReach RouterFacts.
From stdpp Require Import sorting.
Local Open Scope Z_scope.

(** ** [Status] *)

Record Status := {
  sta_Health : string; sta_ID : string; sta_Enabled : bool; sta_Active : Z; sta_Completed : Z;
  sta_Failures : Z; sta_Blocked : bool; sta_Cooldown : Z; sta_LatencyMS : float64; sta_TTFTMS : float64;
  sta_LastSuccess : Z; sta_LastFailure : Z; sta_LastHTTPStatus : Z;
  sta_LastExecution : option ExecutionResult; sta_InputTokens : Z; sta_OutputTokens : Z;
  sta_TotalTokens : Z; sta_EstimatedCostUSD : float64; sta_CostKnown : bool }.

(** The body of the loop over [r.state], for source [i] whose state is [k]. *)
Definition source_status (h : heap) (r : router) (now : Z) (i : nat) (k : loc) : Status :=
  let s := st_at h k in
  {| sta_Health := source_health h r i now; sta_ID := s_ID (src_at r i);
     sta_Enabled := st_enabled s && parent_enabled r i; sta_Active := st_active s;
     sta_Completed := st_completed s; sta_Failures := st_failures s; sta_Blocked := st_blocked s;
     sta_Cooldown := maxTime (st_cooldown s) (q_cooldown (q_at h (quota_loc r i)));
     sta_LatencyMS := st_latency s; sta_TTFTMS := st_ttftMS s; sta_LastSuccess := st_lastSuccess s;
     sta_LastFailure := st_lastFailure s; sta_LastHTTPStatus := st_lastHTTPStatus s;
     sta_LastExecution := st_lastExecution s; sta_InputTokens := st_inputTokens s;
     sta_OutputTokens := st_outputTokens s; sta_TotalTokens := st_totalTokens s;
     sta_EstimatedCostUSD := if st_costKnown s then st_estimatedCost s else f0;
     sta_CostKnown := st_costKnown s |}.

Definition router_Status (h : heap) (r : router) (now : Z) : list Status :=
  imap (source_status h r now) (r_state r).

(** ** [CapacityStatus] *)

Record CapacityStatus := {
  cs_ID : string; cs_Active : Z; cs_Limit : Z; cs_Sources : list string; cs_Retired : bool }.

Definition string_le (a b : string) : Prop := String.leb a b = true.
#[global] Instance string_le_dec a b : Decision (string_le a b).
Proof. unfold string_le. apply _. Defined.
Definition id_le (a b : CapacityStatus) : Prop := string_le (cs_ID a) (cs_ID b).
#[global] Instance id_le_dec a b : Decision (id_le a b).
Proof. unfold id_le. apply _. Defined.

(** [m[key] = append(m[key], v)] *)
Definition append_member (key v : string) (m : gmap string (list string)) : gmap string (list string) :=
  <[key := default [] (m !! key) ++ [v]]> m.

Definition account_members (c : Config) : gmap string (list string) :=
  fold_left (λ m s, if (s_AccountID s =? "")%string then m else append_member (s_AccountID s) (s_ID s) m)
    (c_Sources c) ∅.
Definition domain_members (c : Config) : gmap string (list string) :=
  fold_left (λ m s, append_member (s_QuotaDomain s) (s_ID s) m) (c_Sources c) ∅.
Definition account_limits (c : Config) : gmap string Z :=
  fold_left (λ m a, <[a_ID a := a_MaxInflight a]> m) (c_Accounts c) ∅.

Definition router_CapacityStatus (h : heap) (r : router) : list CapacityStatus * list CapacityStatus :=
  let c := r_cfg r in
  let cap := rcap h r in
  let limits := account_limits c in
  let configured :=
    map (λ '(id, limit),
        {| cs_ID := id;
           cs_Active := match cap_accountStates cap !! id with Some k => q_active (q_at h k) | None => 0 end;
           cs_Limit := limit; cs_Sources := merge_sort string_le (default [] (account_members c !! id));
           cs_Retired := false |}) (map_to_list limits) in
  let retired :=
    omap (λ '(id, k),
        if bool_decide (limits !! id = None) && (0 <? q_active (q_at h k))
        then Some {| cs_ID := id; cs_Active := q_active (q_at h k); cs_Limit := q_limit (q_at h k);
                     cs_Sources := []; cs_Retired := true |}
        else None) (map_to_list (cap_accountStates cap)) in
  let domains :=
    omap (λ '(id, k),
        let members := domain_members c !! id in
        if bool_decide (members = None) && (q_active (q_at h k) =? 0) then None
        else Some {| cs_ID := id; cs_Active := q_active (q_at h k); cs_Limit := q_limit (q_at h k);
                     cs_Sources := merge_sort string_le (default [] members);
                     cs_Retired := bool_decide (members = None) |})
      (map_to_list (cap_quotaStates cap)) in
  (merge_sort id_le (configured ++ retired), merge_sort id_le domains).

(** ** What the snapshots say *)

#[global] Instance string_le_total : Total string_le.
Proof. intros a b. unfold string_le. destruct (String.leb_total a b); auto. Qed.
#[global] Instance id_le_total : Total id_le.
Proof. intros a b. apply (total string_le). Qed.

(** Every domain with held leases is reported, with exactly its held leases. *)
Lemma capacity_status_complete h r id k :
  good h → cap_quotaStates (rcap h r) !! id = Some k → is_Some (h_quotas h !! k) → q_active (q_at h k) ≠ 0 →
  ∃ cs, cs ∈ snd (router_CapacityStatus h r) ∧ cs_ID cs = id
    ∧ cs_Active cs = held (λ l, Nat.eqb (le_quota l) k) h + held (λ l, bool_decide (le_account l = Some k)) h.
Proof.
  intros Hg Hk [qt Hq] Ha. unfold router_CapacityStatus. cbn [snd].
  set (f := λ '(id, k), _ : option CapacityStatus).
  destruct (f (id, k)) as [cs|] eqn:E.
  - exists cs. unfold f in E. case_match; [discriminate|]. injection E as <-. cbn [cs_ID cs_Active]. split_and!; [|done|].
    + rewrite (merge_sort_Permutation id_le). apply list_elem_of_omap. exists (id, k). split; [by apply elem_of_map_to_list|].
      unfold f. case_match; [|done]. congruence.
    + rewrite held_quota, held_account. unfold q_at. rewrite Hq. by apply quota_active_count.
  - unfold f in E. case_match eqn:Eb; [|discriminate]. bool_prop. lia.
Qed.
