(* ===== verification/RouterEvents.v ===== *)
(** * The event ring of the capacity ([events.go])

    [recordEvent] overwrites the oldest of [MaxExecutionEvents] entries once
    the ring is full; [ExecutionEvents] reads it oldest first.  The ring
    refines the list of the most recent events. *)

From S2P Require Import Prelude GoFloat ConfigData Execution RouterData RouterPolicy RouterPolicyFacts RouterOps RouterInv RouterReach.
Local Open Scope Z_scope.

(** The last [n] elements of a list. *)
Definition lastn {A} (n : nat) (l : list A) : list A := drop (length l - n) l.

Record ring_wf (c : capacity) : Prop := {
  rw_length : (length (cap_events c) ≤ MaxExecutionEvents)%nat;
  rw_cursor : (cap_eventCursor c < MaxExecutionEvents)%nat;
  rw_filling : (length (cap_events c) < MaxExecutionEvents)%nat → cap_eventCursor c = 0%nat }.

(** Reading every index of a list gives the list back. *)
Lemma omap_seq {A} (f : nat → option A) (l : list A) j :
  (∀ i, (i < length l)%nat → f (j + i)%nat = l !! i) → omap f (seq j (length l)) = l.
Proof.
  revert j. induction l as [|x l IH]; intros j H; [done|]. simpl.
  rewrite <-(Nat.add_0_r j) at 1. rewrite (H 0%nat) by (simpl; lia). simpl. f_equal. apply IH. intros i Hi.
  replace (S j + i)%nat with (j + S i)%nat by lia. apply H. simpl. lia.
Qed.

Lemma length_rotation {A} k (l : list A) : length (rotation k l) = length l.
Proof. unfold rotation. rewrite length_app, length_drop, length_take. lia. Qed.

(** The shifted reads of [ExecutionEvents] are a rotation of the ring. *)
Lemma rotated_read {A} (l : list A) k :
  (k < length l)%nat →
  omap (λ i, l !! ((k + i) mod length l)%nat) (seq 0 (length l)) = rotation k l.
Proof.
  intros Hk. transitivity (omap (λ i, l !! ((k + i) mod length l)%nat) (seq 0 (length (rotation k l)))).
  { by rewrite length_rotation. }
  apply omap_seq. rewrite length_rotation. intros i Hi. simpl (0 + i)%nat.
  unfold rotation. destruct (decide (i < length l - k)%nat).
  - rewrite lookup_app_l by (rewrite length_drop; lia). rewrite lookup_drop, Nat.mod_small by lia. done.
  - rewrite lookup_app_r by (rewrite length_drop; lia). rewrite length_drop, lookup_take_lt by lia.
    replace (k + i)%nat with (i - (length l - k) + 1 * length l)%nat by lia.
    by rewrite Nat.Div0.mod_add, Nat.mod_small by lia.
Qed.

Lemma execution_events_rotation c : ring_wf c → ExecutionEvents c = rotation (cap_eventCursor c) (cap_events c).
Proof.
  intros [Hl Hc Hf]. unfold ExecutionEvents. destruct (cap_events c) as [|e l] eqn:E.
  - simpl. unfold rotation. by rewrite drop_nil, take_nil.
  - apply rotated_read. destruct (decide (length (e :: l) < MaxExecutionEvents)%nat) as [Hlt|];
      [rewrite Hf by done; simpl; lia|lia].
Qed.

Lemma push_event_wf e c : ring_wf c → ring_wf (push_event e c).
Proof.
  intros [Hl Hc Hf]. unfold push_event.
  destruct (Nat.ltb_spec (length (cap_events c)) MaxExecutionEvents) as [Hlt|Hge]; constructor;
    cbn [cap_events cap_eventCursor with_cap_events with_cap_eventCursor];
    rewrite ?length_app, ?length_insert; cbn [length].
  - lia.
  - done.
  - intros _. by apply Hf.
  - lia.
  - by apply Nat.mod_upper_bound.
  - lia.
Qed.

(** The refinement: recording an event appends it and forgets all but the
    last [MaxExecutionEvents]. *)
Lemma push_event_events e c :
  ring_wf c → ExecutionEvents (push_event e c) = lastn MaxExecutionEvents (ExecutionEvents c ++ [e]).
Proof.
  intros Hwf. rewrite !execution_events_rotation by auto using push_event_wf. destruct Hwf as [Hl Hc Hf].
  unfold push_event, lastn. rewrite length_app, length_rotation. cbn [length].
  destruct (Nat.ltb_spec (length (cap_events c)) MaxExecutionEvents) as [Hlt|Hge]; 
    cbn [cap_events cap_eventCursor with_cap_events with_cap_eventCursor].
  - rewrite Hf by done. unfold rotation. rewrite !drop_0, !take_0, !app_nil_r.
    by replace (_ + 1 - _)%nat with 0%nat by lia.
  - set (k := cap_eventCursor c) in *. set (l := cap_events c) in *.
    assert (Hlen : length l = MaxExecutionEvents) by lia.
    replace (length l + 1 - MaxExecutionEvents)%nat with 1%nat by lia.
    destruct (lookup_lt_is_Some_2 l k ltac:(lia)) as [x Hx].
    unfold rotation. rewrite (drop_S l x k Hx). cbn [app drop].
    assert (Htake : take (S k) (<[k:=e]> l) = take k l ++ [e]).
    { rewrite (take_S_r _ _ e) by (by rewrite list_lookup_insert_eq; [|lia]). by rewrite take_insert_ge by lia. }
    destruct (decide (S k = MaxExecutionEvents)) as [E|E].
    + replace ((k + 1) mod MaxExecutionEvents)%nat with 0%nat
        by (rewrite Nat.add_1_r, E; symmetry; by apply Nat.Div0.mod_same).
      rewrite drop_0, take_0, app_nil_r. rewrite <-(take_drop (S k) (<[k:=e]> l)), Htake.
      rewrite drop_insert_lt, (drop_ge l (S k)) by lia. by rewrite app_nil_r.
    + rewrite Nat.mod_small by lia. rewrite Nat.add_1_r, Htake, drop_insert_lt by lia.
      by rewrite <-app_assoc.
Qed.

(** ** Invariants of every capacity *)

(** The part of a capacity the event log lives in. *)
Definition ring (c : capacity) : list ExecutionEvent * nat * Z :=
  (cap_events c, cap_eventCursor c, cap_eventSequence c).

Definition caps_all (P : capacity → Prop) (h : heap) : Prop := ∀ k c, h_caps h !! k = Some c → P c.

(** What [recordEvent] does to the ring: the event carries the next number. *)
Definition log_event (e : ExecutionEvent) (c : capacity) : capacity :=
  push_event e (with_cap_eventSequence (ev_Sequence e) c).

(** Predicates of the ring that hold when it is empty and survive an event. *)
Record ring_closed (P : capacity → Prop) : Prop := {
  rg_ring : ∀ c c', ring c' = ring c → P c → P c';
  rg_empty : ∀ c, ring c = ([], 0%nat, 0) → P c;
  rg_push : ∀ c e, P c → ev_Sequence e = u64 (cap_eventSequence c + 1) → P (log_event e c) }.

Section CapsAll.
Context (P : capacity → Prop) (HP : ring_closed P).

Lemma caps_all_upd k f h : caps_all P h → (∀ c, P c → P (f c)) → caps_all P (upd_cap k f h).
Proof.
  intros Hh Hf k' c. simpl. rewrite lookup_insert. case_decide; [|apply Hh].
  intros [= <-]. apply Hf. unfold cap_at. destruct (h_caps h !! k) eqn:E; [by eapply Hh|by apply (rg_empty P HP)].
Qed.

Lemma caps_all_quiet k f h : caps_all P h → (∀ c, ring (f c) = ring c) → caps_all P (upd_cap k f h).
Proof. intros Hh Hf. apply caps_all_upd; [done|]. intros c. by apply (rg_ring P HP). Qed.

Lemma caps_all_same h h' : h_caps h' = h_caps h → caps_all P h → caps_all P h'.
Proof. unfold caps_all. by intros ->. Qed.

Lemma caps_all_defer rid queued now h : caps_all P h → caps_all P (acquire_defer rid queued now h).
Proof. apply caps_all_same. by destruct queued. Qed.

Lemma caps_all_grant rid q idx now h : caps_all P h → caps_all P (fst (grant rid q idx now h)).
Proof.
  intros Hh. unfold grant, alloc_lease. cbn [fst].
  set (r := router_at h rid). set (i := t_Source (target_at r idx)).
  set (h1 := upd_cap (r_capacity r) (λ c, with_cap_active (cap_active c + 1) c) h).
  assert (H1 : caps_all P h1) by by apply caps_all_quiet.
  set (h2 := upd_quota (quota_loc r i) _ _).
  assert (H2 : caps_all P h2) by by apply (caps_all_same h1).
  set (h4 := match account_loc r i with Some _ => _ | None => _ end).
  assert (H4 : caps_all P h4); [|by apply (caps_all_same h4)].
  unfold h4. destruct (account_loc r i) as [a|]; [|done]. unfold dispatch_account.
  set (h3 := upd_cap _ _ h2). apply (caps_all_same h3); [done|]. by apply caps_all_quiet.
Qed.

Lemma caps_all_iter rid q ctx queued now h :
  caps_all P h → caps_all P (fst (acquire_iter rid q ctx queued now h)).
Proof.
  intros Hh. unfold acquire_iter. pose proof (λ qd, caps_all_defer rid qd now h Hh) as Hdef.
  destruct (is_done h ctx); [apply Hdef|]. destruct (choose _ _ _ _) as [idx el].
  set (wait := if negb el then _ else _).
  assert (Hwait : caps_all P (fst wait)).
  { unfold wait. destruct (negb el); [apply Hdef|]. destruct queued; [done|]. by destruct (_ <=? _). }
  destruct idx as [idx|]; [|done]. destruct (turn _ _ _ _); [|done].
  pose proof (caps_all_grant rid q idx now h Hh). destruct (grant _ _ _ _ _). by apply caps_all_defer.
Qed.

Lemma caps_all_record l status now h : caps_all P h → caps_all P (recordEvent l status now h).
Proof.
  intros Hh k c. unfold recordEvent. simpl. rewrite lookup_insert. case_decide as E; [|apply Hh].
  intros [= <-]. unfold rcap. apply (rg_push P HP); [|done]. unfold cap_at.
  destruct (h_caps h !! r_capacity (router_at h (le_router l))) eqn:E'; [by eapply Hh|by apply (rg_empty P HP)].
Qed.

Lemma caps_all_release lid status ra now h : caps_all P h → caps_all P (Release lid status ra now h).
Proof.
  intros Hh. unfold Release. destruct (le_once _); [done|]. set (l := lease_at h lid).
  set (h1 := release_counters _ _).
  assert (H1 : caps_all P h1).
  { unfold h1, release_counters.
    set (hc := upd_cap _ _ (upd_lease lid (with_le_once true) h)).
    apply (caps_all_same hc); [simpl; by destruct (le_account l)|]. by apply caps_all_quiet. }
  destruct (status =? -1); [done|].
  apply (caps_all_same (recordEvent l status now h1)); [done|]. by apply caps_all_record.
Qed.

Lemma caps_all_new c h : caps_all P h → caps_all P (fst (New c h)).
Proof.
  intros Hh. unfold New. pose proof (compile_sources_built c h) as H.
  destruct (compile_sources c h) as [[h2 limits] b]. destruct H as [Hb _].
  pose proof (sb_ext _ _ _ Hb) as [_ Ec _ _]. cbn [fst snd] in Ec.
  intros k x. simpl. rewrite lookup_insert, Ec. case_decide; [|apply Hh].
  intros [= <-]. by apply (rg_empty P HP).
Qed.

Lemma caps_all_adopt_source cl nrid i s h : caps_all P h → caps_all P (adopt_source cl nrid i s h).
Proof.
  intros Hh. unfold adopt_source.
  assert (H1 : caps_all P (fst (adopt_state cl nrid i s h))).
  { unfold adopt_state. destruct (cap_sourceStates _ !! _); [done|]. by apply caps_all_quiet. }
  destruct (adopt_state cl nrid i s h) as [h1 st]. cbn [fst] in H1.
  assert (H2 : caps_all P (fst (adopt_quota cl nrid i s h1))).
  { unfold adopt_quota. destruct (cap_quotaStates _ !! _); [done|]. by apply caps_all_quiet. }
  destruct (adopt_quota cl nrid i s h1) as [h2 q]. cbn [fst] in H2.
  assert (H3 : caps_all P (fst (adopt_account cl nrid i s h2))).
  { unfold adopt_account. destruct (_ =? _)%string; [done|].
    destruct (cap_accountStates _ !! _); [done|]. destruct (account_loc _ _); [|done]. by apply caps_all_quiet. }
  by destruct (adopt_account cl nrid i s h2) as [h3 a].
Qed.

Lemma caps_all_adopt rid nrid now h : caps_all P h → caps_all P (Adopt rid nrid now h).
Proof.
  intros Hh. unfold Adopt.
  assert (Hs : ∀ cl l i h', caps_all P h' → caps_all P (adopt_sources cl nrid i l h')).
  { intros cl l. induction l as [|s l IH]; intros i h' H'; [done|]. simpl. apply IH. by apply caps_all_adopt_source. }
  match goal with |- context [adopt_sources ?cl nrid 0 ?l ?h1] => set (h2 := adopt_sources cl nrid 0 l h1) end.
  assert (H2 : caps_all P h2) by by apply Hs.
  match goal with |- context [upd_router rid (with_r_retired true) ?h3] => set (h3' := h3) end.
  assert (H3 : caps_all P h3') by by apply caps_all_quiet.
  match goal with |- caps_all P (signal nrid now (upd_router _ _ ?h5)) => set (h5' := h5) end.
  apply (caps_all_same h5'); [done|]. by apply caps_all_quiet.
Qed.

Lemma caps_all_exec o now h : caps_all P h → caps_all P (exec o now h).
Proof.
  intros Hh. destruct o; simpl; try case_bool_decide; try done.
  - by apply caps_all_iter.
  - unfold acquire_resume. destruct (find_waiter _ _) as [w|]; [|done].
    set (h' := match cause with WakeReady => _ | _ => h end).
    assert (Hh' : caps_all P h') by (apply (caps_all_same h); [by destruct cause|done]).
    match goal with |- context [if ?b then _ else _] => destruct b; [|done] end.
    pose proof (caps_all_iter rid (w_query w) (w_ctx w) (Some waiter) now h' Hh').
    by destruct (acquire_iter _ _ _ _ _ _).
  - by apply caps_all_release.
  - unfold RecordExecution. by destruct (le_execution _).
  - unfold FirstOutput. by destruct (le_firstOutput _).
  - unfold SetEnabled. by destruct (list_find _ _) as [[i s]|].
  - destruct (live_router _ _); [|done]. pose proof (caps_all_new c h Hh).
    destruct (New c h) as [h' nrid]. by apply caps_all_adopt.
Qed.

Lemma caps_all_reachable t h : reachable t h → caps_all P h.
Proof. induction 1; [|by apply caps_all_exec]. apply caps_all_new. intros k x. simpl. by rewrite lookup_empty. Qed.
End CapsAll.

(** The events are numbered consecutively, modulo 2^64, up to the last number
    given out. *)
Definition numbered (c : capacity) : Prop :=
  ∀ i e, ExecutionEvents c !! i = Some e →
    ev_Sequence e = u64 (cap_eventSequence c - Z.of_nat (length (ExecutionEvents c)) + 1 + Z.of_nat i).

Definition ring_ok (c : capacity) : Prop := ring_wf c ∧ numbered c.

Lemma ring_events c c' : ring c' = ring c → ExecutionEvents c' = ExecutionEvents c.
Proof. intros [= E1 E2 _]. unfold ExecutionEvents. by rewrite E1, E2. Qed.

Lemma execution_events_length c : ring_wf c → length (ExecutionEvents c) = length (cap_events c).
Proof. intros H. by rewrite execution_events_rotation, length_rotation. Qed.

Lemma log_event_events e c :
  ring_wf c → ExecutionEvents (log_event e c) = lastn MaxExecutionEvents (ExecutionEvents c ++ [e]).
Proof.
  intros H. unfold log_event. rewrite push_event_events by by destruct H; constructor.
  done.
Qed.

Lemma log_event_sequence e c : cap_eventSequence (log_event e c) = ev_Sequence e.
Proof. unfold log_event, push_event. by destruct (_ <? _)%nat. Qed.

Lemma u64_add_small a b d : a = u64 b + d → u64 a = u64 (b + d).
Proof. intros ->. unfold u64. apply Zplus_mod_idemp_l. Qed.

Lemma ring_ok_closed : ring_closed ring_ok.
Proof.
  constructor.
  - intros c c' Hr [[H1 H2 H3] Hn]. pose proof (ring_events _ _ Hr) as He.
    injection Hr as E1 E2 E3. split; [constructor; rewrite ?E1, ?E2; done|]. unfold numbered. by rewrite He, E3.
  - intros c [= E1 E2 E3]. split.
    + constructor; rewrite ?E1, ?E2; [simpl; lia|unfold MaxExecutionEvents; lia|done].
    + intros i e. unfold ExecutionEvents. by rewrite E1.
  - intros c e [Hw Hn] Hseq.
    assert (Hw' : ring_wf (with_cap_eventSequence (ev_Sequence e) c)) by by destruct Hw; constructor.
    split; [by apply push_event_wf|]. unfold numbered. rewrite log_event_sequence, log_event_events by done.
    set (l := ExecutionEvents c) in *. unfold lastn. rewrite length_drop, length_app. cbn [length].
    set (n := (length l + 1 - MaxExecutionEvents)%nat).
    intros i x. rewrite lookup_drop. intros Hx. destruct (decide (n + i < length l)%nat) as [Hlt|Hge].
    + rewrite lookup_app_l in Hx by done. rewrite (Hn _ _ Hx), Hseq. fold l.
      symmetry. etransitivity.
      { apply (u64_add_small _ (cap_eventSequence c + 1) (1 + Z.of_nat i - Z.of_nat (length l + 1 - n))). lia. }
      f_equal. unfold n. lia.
    + assert (Ei : (n + i = length l)%nat).
      { apply lookup_lt_Some in Hx. rewrite length_app in Hx. simpl in Hx. lia. }
      rewrite Ei, lookup_app_r, Nat.sub_diag in Hx by lia. simpl in Hx. injection Hx as <-. rewrite Hseq.
      symmetry. etransitivity.
      { apply (u64_add_small _ (cap_eventSequence c + 1) (1 + Z.of_nat i - Z.of_nat (length l + 1 - n))). lia. }
      f_equal. lia.
Qed.
