(* ===== verification/RouterDemo.v ===== *)
(** * A small configuration the router theorems are exercised on

    Two sources of one provider, one of them pooled in an account, behind a
    fallback group; the stores are obtained by running the operations. *)

From S2P Require Import Prelude GoFloat ConfigData Execution RouterData RouterPolicy RouterPolicyFacts RouterOps RouterInv RouterReach.
Local Open Scope Z_scope.

Definition demo_model : Model :=
  {| m_InputUSDPerMillion := Some (f_of_Z 2); m_OutputUSDPerMillion := Some (f_of_Z 8);
     m_Enabled := None; m_AutoApproved := None; m_DeclaredModel := ""; m_CanonicalModel := "";
     m_ID := "chat"; m_Upstream := "up-chat"; m_Protocols := ["openai"]; m_Tier := "gold";
     m_RatingBasis := "manual"; m_Tools := "native"; m_Vision := false; m_MaxInputBytes := 1000 |}.

Definition demo_source (id account : string) : Source :=
  {| s_Weight := 1; s_AccountID := account; s_CredentialRef := ""; s_CredentialTypeOverride := false;
     s_SourceKind := "vendor_api"; s_ExecutionLocation := "remote"; s_InferenceLocation := "remote";
     s_BillingMode := "metered"; s_CredentialMode := "api_key"; s_ID := id; s_Provider := "prov";
     s_Adapter := "openai"; s_BaseURL := "https://api.example.com"; s_KeyEnv := "";
     s_AccountIDEnv := ""; s_Organization := ""; s_Project := ""; s_Enabled := true;
     s_AutoApproved := true; s_Local := false; s_Anonymous := false; s_Paid := true;
     s_MaxInflight := 1; s_QuotaDomain := id; s_QuotaMaxInflight := 1; s_Models := [demo_model] |}.

Definition demo_account : Account :=
  {| a_VerificationState := ""; a_VerificationVersion := 0; a_VerificationBinding := "";
     a_VerificationAt := None; a_ID := "acct"; a_ProviderID := "prov"; a_DisplayName := "Account";
     a_Enabled := true; a_AutoApproved := true; a_CredentialRef := ""; a_LoginCredentialRef := "";
     a_ExpectedIdentity := ""; a_CredentialTypeOverride := false; a_BrowserProfileID := "";
     a_BaseURL := ""; a_Organization := ""; a_Project := ""; a_QuotaDomain := "";
     a_MaxInflight := 1; a_Weight := 1; a_CreatedAt := 0 |}.

Definition demo_group : Group :=
  {| g_RequireVision := false; g_MaxUSDPerMillion := None; g_MaxUSDPerRequest := None;
     g_Preferences := []; g_MaxAttempts := 2; g_AllowMetered := Some true; g_AllowSubscription := None;
     g_AllowUnknownCost := None; g_AllowedSourceKinds := []; g_ID := "grp"; g_Type := "fallback";
     g_Sources := ["a"; "b"]; g_MinTier := "silver"; g_AllowUnrated := false; g_AllowPaid := false;
     g_LocalOnly := false; g_RequireTools := true |}.

Definition demo_config : Config :=
  {| c_BrowserProfiles := [];
     c_Providers := [{| p_ID := "prov"; p_Enabled := true; p_AutoApproved := true; p_PoolStrategy := "" |}];
     c_Accounts := [demo_account]; c_SchemaVersion := 1; c_Listen := ""; c_APIKeyEnv := "";
     c_AdminKeyEnv := ""; c_Runtime := Build_Runtime 2 1 0 0 0 0 0 0 0;
     c_Browser := Build_Browser "" "" false "" "" 0 0 0 0 0;
     c_Device := Build_Device false "" "" "" "" "" 0;
     c_Sources := [demo_source "a" "acct"; demo_source "b" ""]; c_Groups := [demo_group] |}.

Definition demo_query : Query :=
  {| qr_Probe := false; qr_Detail := false; qr_ExcludedSources := []; qr_Affinity := "";
     qr_Model := "grp"; qr_Protocol := "openai"; qr_Tools := true; qr_Bytes := 100;
     qr_OutputTokens := 10; qr_SpentUSD := f0; qr_Stateful := false; qr_Vision := false |}.

(** The booted store and its router. *)
Definition demo_boot : heap := fst (New demo_config empty_heap).
Definition demo_rid : loc := snd (New demo_config empty_heap).

(** One granted lease; two granted leases and a queued call. *)
Definition demo_one : heap := exec (OpAcquire demo_rid demo_query 0) 1 demo_boot.
Definition demo_two : heap := exec (OpAcquire demo_rid demo_query 0) 2 demo_one.
Definition demo_wait : heap := exec (OpAcquire demo_rid demo_query 1) 3 demo_two.
Definition demo_lease : loc := h_next demo_boot.

Lemma demo_boot_reachable : reachable 0 demo_boot.
Proof. apply reach_boot. Qed.
Lemma demo_one_reachable : reachable 1 demo_one.
Proof. apply (reach_step _ _ 0); [apply demo_boot_reachable|lia]. Qed.
Lemma demo_two_reachable : reachable 2 demo_two.
Proof. apply (reach_step _ _ 1); [apply demo_one_reachable|lia]. Qed.
Lemma demo_wait_reachable : reachable 3 demo_wait.
Proof. apply (reach_step _ _ 2); [apply demo_two_reachable|lia]. Qed.

Example demo_one_lease : le_Target (lease_at demo_one demo_lease) = mk_Target 0 demo_model.
Proof. vm_compute. reflexivity. Qed.
Example demo_two_active : cap_active (rcap demo_two (router_at demo_two demo_rid)) = 2.
Proof. vm_compute. reflexivity. Qed.
Example demo_wait_queue : r_waiting (router_at demo_wait demo_rid) = 1.
Proof. vm_compute. reflexivity. Qed.
