(* ===== verification/RouterTheorems.v ===== *)
(** * What the router guarantees

    The correctness theorems of [internal/routing], each with a witness on the
    stores of file RouterDemo where it has hypotheses. *)

From S2P Require Import Prelude GoFloat ConfigData Execution RouterData RouterPolicy RouterPolicyFacts RouterOps RouterInv RouterReach RouterScores RouterFacts RouterLimits RouterEvents RouterDemo.
Local Open Scope Z_scope.

(** ** Capacity accounting *)

(** C1: capacity accounting is exact.  In every reachable store the active
    counter of a source is the number of leases granted on it and not yet
    returned; the counter of a quota domain or account is the number of
    unreturned leases charged to it; the shared global counter is the number
    of unreturned leases of the routers of that capacity.  So no counter is
    ever negative, and none leaks, whatever was acquired, canceled, released
    twice or reconfigured. *)
Theorem capacity_accounting t h :
  reachable t h →
  (∀ k st, h_states h !! k = Some st → st_active st = held (λ l, Nat.eqb (le_state l) k) h)
  ∧ (∀ k qt, h_quotas h !! k = Some qt →
      q_active qt = held (λ l, Nat.eqb (le_quota l) k) h + held (λ l, bool_decide (le_account l = Some k)) h)
  ∧ (∀ k c, h_caps h !! k = Some c →
      cap_active c = held (λ l, bool_decide (lease_cap h l = Some k)) h).
Proof.
  intros Hr. destruct (good_inv _ (good_reachable _ _ Hr)) as [_ Hs Hq Hc _ _ _].
  split_and!; intros k x Hk.
  - rewrite held_state. apply Hs. simpl. by rewrite lookup_fmap, Hk.
  - rewrite held_quota, held_account. apply Hq. simpl. by rewrite lookup_fmap, Hk.
  - rewrite held_cap. apply (Hc k (cap_skel x)). simpl. by rewrite lookup_fmap, Hk.
Qed.

Lemma capacity_accounting_witness :
  reachable 2 demo_two
  ∧ cap_active (rcap demo_two (router_at demo_two demo_rid))
    = held (λ l, bool_decide (lease_cap demo_two l = Some (r_capacity (router_at demo_two demo_rid)))) demo_two.
Proof.
  split; [apply demo_two_reachable|].
  apply (proj2 (proj2 (capacity_accounting 2 demo_two demo_two_reachable))). vm_compute. reflexivity.
Defined.

(** ** Choice *)

(** C2: the round-robin scan with early exits implements its specification.
    For a router of a reachable store whose sources declare a capacity that is
    not negative, [choose] returns what [choose_spec] defines without any
    early exit: the retired router offers nothing; without an eligible
    candidate the query is unavailable; with the global bound reached it must
    wait; otherwise, of the available candidates in rotation order from the
    cursor, the first that no later one displaces by preference and then by
    strategy score. *)
Theorem choose_implements_spec t h rid r q now :
  reachable t h → h_routers h !! rid = Some r → capacities_declared (r_cfg r) →
  choose h r q now = choose_spec h r q now.
Proof. intros Hre Hr Hcap. apply choose_is_spec. by eapply reachable_scores. Qed.

Lemma choose_implements_spec_witness :
  choose_spec demo_one (router_at demo_one demo_rid) demo_query 2 = (Some 1%nat, true).
Proof.
  rewrite <-(choose_implements_spec 1 demo_one demo_rid (router_at demo_one demo_rid) demo_query 2).
  - vm_compute. reflexivity.
  - apply demo_one_reachable.
  - vm_compute. reflexivity.
  - repeat constructor; simpl; lia.
Defined.

(** C3: [choose] is sound and work-conserving.  A chosen target is a candidate
    of the query's key that the control plane explains as "eligible"; a query
    told to wait has no candidate so explained; and a query told it is
    unavailable on an active router has no candidate that its policy admits. *)
Theorem choose_sound_and_work_conserving h r q now :
  match choose h r q now with
  | (Some idx, e) =>
      e = true ∧ idx ∈ default [] (r_candidates r !! query_key q)
      ∧ explainReason h r (target_at r idx) q now = "eligible"%string
  | (None, true) =>
      ∀ idx, idx ∈ default [] (r_candidates r !! query_key q) →
        explainReason h r (target_at r idx) q now ≠ "eligible"%string
  | (None, false) =>
      r_retired r = true ∨
      ∀ idx, idx ∈ default [] (r_candidates r !! query_key q) → fst (eligible h r (target_at r idx) q) = false
  end.
Proof.
  destruct (choose h r q now) as [[idx|] []] eqn:Hc.
  - by apply choose_some.
  - destruct (choose_some _ _ _ _ _ _ Hc) as [? _]. done.
  - by apply choose_blocked.
  - destruct (r_retired r) eqn:Hr; [by left|right]. by apply choose_ineligible with now.
Qed.

(** ** Admission *)

(** C4: admission control.  When [Acquire] grants a lease of a reachable
    store, the router is not retired, the lease is new, held and bound to a
    candidate target explained as "eligible" at that instant: its account,
    quota domain, source and the global capacity all had a free slot and were
    not cooling down, and the source's and global counters after the grant
    are within their limits. *)
Theorem acquire_admits t h rid r q ctx queued now h' l :
  reachable t h → h_routers h !! rid = Some r →
  acquire_iter rid q ctx queued now h = (h', Granted l) →
  ∃ idx,
    r_retired r = false ∧ is_done h ctx = false
    ∧ idx ∈ default [] (r_candidates r !! query_key q)
    ∧ explainReason h r (target_at r idx) q now = "eligible"%string
    ∧ h_leases h !! l = None
    ∧ (let le := lease_at h' l in
       le_once le = false ∧ le_Target le = target_at r idx ∧ le_router le = rid ∧ le_started le = now
       ∧ le_state le = state_loc r (t_Source (target_at r idx))
       ∧ le_quota le = quota_loc r (t_Source (target_at r idx))
       ∧ le_account le = account_loc r (t_Source (target_at r idx)))
    ∧ st_active (st_at h' (state_loc r (t_Source (target_at r idx))))
      <= s_MaxInflight (src_at r (t_Source (target_at r idx)))
    ∧ cap_active (rcap h' r) <= rt_MaxInflight (c_Runtime (r_cfg r)).
Proof.
  intros Hre Hr Hacq. destruct (acquire_granted _ _ _ _ _ _ _ _ Hacq) as (idx & Hch & Hd & _ & -> & ->).
  rewrite (router_at_lookup _ _ _ Hr) in Hch. destruct (choose_some _ _ _ _ _ _ Hch) as (_ & Hidx & Hex).
  pose proof (proj1 (explain_eligible _ _ _ _ _) Hex) as (_ & _ & Hsb & Hgb).
  set (h2 := fst (grant rid q idx now h)). exists idx. unfold rcap. rewrite defer_st_at, defer_cap_at, defer_lease_at.
  pose proof (proj2 (grant_lease rid q idx now h)) as Hle. pose proof (grant_state_active rid q idx now h) as Hst.
  pose proof (grant_cap_active rid q idx now h) as Hcap. rewrite (router_at_lookup _ _ _ Hr) in Hle, Hst, Hcap.
  fold h2 in Hle, Hst, Hcap.
  assert (Hfresh : h_leases h !! h_next h = None).
  { destruct (si_next _ (good_inv _ (good_reachable _ _ Hre)) (h_next h)) as (_ & _ & _ & _ & Hl); [done|].
    simpl in Hl. rewrite lookup_fmap in Hl. by apply fmap_None in Hl. }
  unfold source_busy, global_busy, rcap in Hsb, Hgb. bool_prop. rewrite Hle, Hst, Hcap.
  split_and!; [|done..| |]; [|lia|lia].
  destruct (r_retired r) eqn:E; [|done]. unfold choose in Hch. by rewrite E in Hch.
Qed.

Lemma acquire_admits_witness :
  ∃ idx, explainReason demo_one (router_at demo_one demo_rid) (target_at (router_at demo_one demo_rid) idx)
           demo_query 2 = "eligible"%string
    ∧ cap_active (rcap demo_two (router_at demo_one demo_rid)) <= 2.
Proof.
  destruct (acquire_admits 1 demo_one demo_rid (router_at demo_one demo_rid) demo_query 0 None 2
    demo_two (h_next demo_one)) as (idx & _ & _ & _ & He & _ & _ & _ & Hc).
  - apply demo_one_reachable.
  - vm_compute. reflexivity.
  - vm_compute. reflexivity.
  - exists idx. split; [exact He|exact Hc].
Defined.

(** ** Release *)


(** C6: a rejected credential blocks its source.  When a held lease returns
    with 401 or 403, then in the store it leaves, and in every later one until
    the source is switched on again by an administrator or the configuration
    is replaced, no router admits a query to the source, whatever the query
    names, except a probe. *)
Theorem authentication_block_holds h lid status ra now t' h' rid q idx at' :
  le_once (lease_at h lid) = false →
  status = 401 ∨ status = 403 →
  steps keeps_block now (Release lid status ra now h) t' h' →
  qr_Probe q = false →
  fst (choose h' (router_at h' rid) q at') = Some idx →
  state_loc (router_at h' rid) (t_Source (target_at (router_at h' rid) idx)) ≠ le_state (lease_at h lid).
Proof.
  intros Ho Hs Hsteps Hp Hch Heq.
  assert (Hb : blocked (le_state (lease_at h lid)) (Release lid status ra now h)) by by apply release_blocks.
  apply (blocked_steps _ _ _ _ _ Hsteps) in Hb.
  destruct (choose h' (router_at h' rid) q at') as [i e] eqn:E. simpl in Hch. subst i.
  destruct (choose_some _ _ _ _ _ _ E) as (_ & _ & (He & _)%explain_eligible).
  rewrite (blocked_not_eligible h') in He; [done|by rewrite Heq|done].
Qed.

(** The second lease of the demonstration runs on source "b"; its source is
    blocked, and a later query goes to "a" once that is free. *)
Lemma authentication_block_holds_witness :
  let h := Release (h_next demo_one) 401 0 3 demo_two in
  let h' := exec (OpRelease demo_lease 200 0) 4 h in
  fst (choose h' (router_at h' demo_rid) demo_query 5) = Some 0%nat
  ∧ state_loc (router_at h' demo_rid) (t_Source (target_at (router_at h' demo_rid) 0))
    ≠ le_state (lease_at demo_two (h_next demo_one)).
Proof.
  intros h h'. split; [vm_compute; reflexivity|].
  apply (authentication_block_holds demo_two (h_next demo_one) 401 0 3 4 h' demo_rid demo_query 0%nat 5).
  - vm_compute. reflexivity.
  - left. reflexivity.
  - apply (steps_more _ _ _ 3 h); [apply steps_refl|lia|reflexivity].
  - reflexivity.
  - vm_compute. reflexivity.
Defined.

(** C7: rate limiting is honoured.  When a held lease returns with 429, its
    quota domain cools down for the upstream's Retry-After, 30 seconds when
    that is missing or not positive, and at most one day; until then no
    router chooses a target of that quota domain. *)
Theorem rate_limit_cools_quota h lid ra now rid q idx e at' :
  le_once (lease_at h lid) = false →
  let h' := Release lid 429 ra now h in
  let until := now + Z.min (if ra <=? 0 then 30 * second else ra) day in
  q_cooldown (q_at h' (le_quota (lease_at h lid))) = until
  ∧ (at' < until → choose h' (router_at h' rid) q at' = (Some idx, e) →
     quota_loc (router_at h' rid) (t_Source (target_at (router_at h' rid) idx)) ≠ le_quota (lease_at h lid)).
Proof.
  intros Ho h' until.
  assert (Hc : q_cooldown (q_at h' (le_quota (lease_at h lid))) = until).
  { unfold h', Release. rewrite Ho. set (h1 := release_counters _ _). cbn [Z.eqb].
    change (q_cooldown (q_at (upd_quota (le_quota (lease_at h lid)) (rate_limit_quota 429 ra now) h1)
      (le_quota (lease_at h lid))) = until). by rewrite upd_quota_at, decide_True by done. }
  split; [done|]. intros Hat Hch Heq. destruct (choose_some _ _ _ _ _ _ Hch) as (_ & _ & Hex).
  apply explain_eligible in Hex as (_ & _ & Hsb & _). unfold source_busy in Hsb. rewrite Heq, Hc in Hsb.
  unfold before in Hsb. bool_prop. lia.
Qed.

Lemma rate_limit_cools_quota_witness :
  le_once (lease_at demo_two demo_lease) = false
  ∧ q_cooldown (q_at (Release demo_lease 429 0 7 demo_two) (le_quota (lease_at demo_two demo_lease)))
    = 7 + 30 * second.
Proof.
  split; [vm_compute; reflexivity|].
  apply (rate_limit_cools_quota demo_two demo_lease 0 7 demo_rid demo_query 0%nat true 8). vm_compute. reflexivity.
Defined.

(** ** The queue *)

(** C8: first come, first served.  A grant never overtakes: when a call is
    granted a lease, every waiter ahead of it in the router's queue (all of
    them, for a call that has not queued) is canceled or cannot be served at
    that instant by any target. *)
Theorem grant_is_fifo rid q ctx queued now h h' l w :
  acquire_iter rid q ctx queued now h = (h', Granted l) →
  w ∈ ahead queued (r_queue (router_at h rid)) →
  is_done h (w_ctx w) = true ∨ fst (choose h (router_at h rid) (w_query w) now) = None.
Proof.
  intros Hacq. destruct (acquire_granted _ _ _ _ _ _ _ _ Hacq) as (_ & _ & _ & Ht & _ & _).
  by apply turn_spec.
Qed.

(** Both leases are back but the queued call (context 1) was canceled, so the
    newcomer may pass it. *)
Definition demo_canceled : heap :=
  exec (OpCancel 1) 6 (exec (OpRelease demo_lease 200 0) 5 demo_wait).

Lemma grant_is_fifo_witness :
  is_done demo_canceled 1 = true
  ∨ fst (choose demo_canceled (router_at demo_canceled demo_rid) demo_query 7) = None.
Proof.
  destruct (r_queue (router_at demo_canceled demo_rid)) as [|w l] eqn:E; [vm_compute in E; discriminate|].
  assert (Hw : w_ctx w = 1%nat ∧ w_query w = demo_query) by (vm_compute in E; injection E as <- _; split; reflexivity).
  destruct Hw as [<- <-].
  apply (grant_is_fifo demo_rid demo_query 0 None 7 demo_canceled
    (fst (acquire_iter demo_rid demo_query 0 None 7 demo_canceled)) (h_next demo_canceled)).
  - vm_compute. reflexivity.
  - rewrite E. left.
Defined.



(** The queue is bounded.  In every reachable store the [waiting] counter
    of each router is the number of queued calls, and never exceeds the
    configured [max_queued] (zero when that is negative). *)
Theorem queue_is_bounded t h rid r :
  reachable t h → h_routers h !! rid = Some r →
  r_waiting r = Z.of_nat (length (r_queue r))
  ∧ 0 ≤ r_waiting r ≤ Z.max 0 (rt_MaxQueued (c_Runtime (r_cfg r))).
Proof.
  intros Hre Hr. destruct (routers_all_reachable _ queue_closed _ _ Hre _ _ Hr) as [Hw Hb]. lia.
Qed.

Lemma queue_is_bounded_witness :
  r_waiting (router_at demo_wait demo_rid) = Z.of_nat (length (r_queue (router_at demo_wait demo_rid))).
Proof.
  apply (queue_is_bounded 3 demo_wait demo_rid); [apply demo_wait_reachable|vm_compute; reflexivity].
Defined.

(** ** Policy *)

(** What a routing group demands of a target, clause by clause. *)
Record group_admits (r : router) (t : Target) (q : Query) (cg : compiledGroup) (min : Z) : Prop := {
  ga_model : m_AutoApproved (t_Model t) ≠ Some false;
  ga_stateless : qr_Stateful q = false;
  ga_source : s_AutoApproved (src_at r (t_Source t)) = true;
  ga_parents : parent_approved r (t_Source t) = true;
  ga_member : is_Some (cg_members cg !! s_ID (src_at r (t_Source t)));
  ga_local : g_LocalOnly (cg_Group cg) = true → LocalInference (src_at r (t_Source t)) = true;
  ga_billing : BillingAllowed (cg_Group cg) (src_at r (t_Source t)) = true;
  ga_kind : g_AllowedSourceKinds (cg_Group cg) = [] ∨
    s_SourceKind (src_at r (t_Source t)) ∈ g_AllowedSourceKinds (cg_Group cg);
  ga_tools : g_RequireTools (cg_Group cg) = true → m_Tools (t_Model t) = "native"%string;
  ga_vision : g_RequireVision (cg_Group cg) = true → m_Vision (t_Model t) = true;
  ga_price : ∀ bound, g_MaxUSDPerMillion (cg_Group cg) = Some bound →
    snd (UnitCost (t_Model t)) = true ∧ fltb bound (fst (UnitCost (t_Model t))) = false;
  ga_budget : ∀ bound, g_MaxUSDPerRequest (cg_Group cg) = Some bound →
    snd (estimatedRequestCost (t_Model t) q) = true ∧ fltb (qr_SpentUSD q) f0 = false
    ∧ fltb bound (fadd (qr_SpentUSD q) (fst (estimatedRequestCost (t_Model t) q))) = false;
  ga_select : g_Type (cg_Group cg) = "select"%string →
    ∃ rest, g_Sources (cg_Group cg) = s_ID (src_at r (t_Source t)) :: rest;
  ga_tier : if decide (Tier (m_Tier (t_Model t)) = -1)
    then g_AllowUnrated (cg_Group cg) = true
    else Z.max min (Tier (g_MinTier (cg_Group cg))) <= Tier (m_Tier (t_Model t)) }.

(** The quality test of [eligible]. *)
Lemma tier_test (min floor tier : Z) (unrated : bool) :
  -1 <= tier →
  ((tier <? 0) && negb unrated) || ((0 <=? tier) && (tier <? (if min <? floor then floor else min))) = false ↔
  if decide (tier = -1) then unrated = true else Z.max min floor <= tier.
Proof.
  intros Ht. case_decide as E.
  - subst. destruct unrated; simpl; done.
  - assert (tier <? 0 = false) as -> by lia. assert (0 <=? tier = true) as -> by lia. simpl.
    destruct (Z.ltb_spec min floor); rewrite Z.ltb_ge; lia.
Qed.

Lemma guarded (a b : bool) : a && negb b = false → a = true → b = true.
Proof. by intros H ->; destruct b. Qed.

Lemma group_reason_admits r t q cg min :
  group_reason r t q cg min = ""%string → group_admits r t q cg min.
Proof.
  unfold group_reason. intros H.
  repeat match type of H with (if ?b then _ else _) = _ => destruct b eqn:?; [discriminate|] end.
  cbv zeta in H.
  match type of H with (if negb (?x =? "")%string then _ else _) = _ =>
    destruct (String.eqb_spec x "") as [Hmillion|?]; cbn [negb] in H; [|congruence] end.
  match type of H with (if negb (?x =? "")%string then _ else _) = _ =>
    destruct (String.eqb_spec x "") as [Hrequest|?]; cbn [negb] in H; [|congruence] end.
  destruct (_ && _) eqn:Hsel in H; [discriminate|].
  destruct (_ || _) eqn:Htier in H; [discriminate|]. clear H.
  apply tier_test in Htier; [|apply Tier_range]. bool_prop.
  constructor; try done.
  - by intros E; rewrite E in *.
  - by eapply bool_decide_eq_true_1.
  - by apply guarded.
  - match goal with H : negb (Nat.eqb _ 0) && _ = false |- _ => apply andb_false_iff in H as [H|H] end; bool_prop.
    + left. apply nil_length_inv. by apply Nat.eqb_eq.
    + right. by apply contains_spec.
  - intros E. apply String.eqb_eq. by eapply guarded.
  - by apply guarded.
  - intros bound E. rewrite E in Hmillion. destruct (UnitCost (t_Model t)) as [cost []]; [|done].
    simpl in *. by destruct (fltb bound cost).
  - intros bound E. rewrite E in Hrequest. destruct (estimatedRequestCost (t_Model t) q) as [cost []]; [|done].
    simpl in *. by destruct (fltb (qr_SpentUSD q) f0), (fltb bound (fadd (qr_SpentUSD q) cost)).
  - intros E. rewrite E in Hsel. destruct (g_Sources (cg_Group cg)) as [|x l]; [done|]. simpl in Hsel.
    bool_prop. subst. by exists l.
Qed.

(** A routing group admits exactly the targets its policy allows: every
    approval (model, source, provider and account), membership, local
    inference, billing, source kind, capabilities, price ceiling, request
    budget including what was already spent, a selector's one source, and the
    quality floor, where a query [auto/<tier>] can raise the group's floor but
    not lower it, and an unrated model needs an explicit opt-in. *)
Theorem group_policy_exact r t q cg min :
  group_reason r t q cg min = ""%string ↔ group_admits r t q cg min.
Proof.
  split; [apply group_reason_admits|]. intros [H1 H2 H3 H4 H5 H6 H7 H8 H9 H10 H11 H12 H13 H14].
  unfold group_reason.
  assert (E1 : is_false (m_AutoApproved (t_Model t)) = false) by by destruct (m_AutoApproved _) as [[]|].
  rewrite E1, H2, H3, H4, H7, bool_decide_true by done. simpl negb. cbn [orb].
  assert (E6 : g_LocalOnly (cg_Group cg) && negb (LocalInference (src_at r (t_Source t))) = false).
  { destruct (g_LocalOnly _); [|done]. by rewrite H6. }
  assert (E8 : negb (Nat.eqb (length (g_AllowedSourceKinds (cg_Group cg))) 0)
     && negb (contains (g_AllowedSourceKinds (cg_Group cg)) (s_SourceKind (src_at r (t_Source t)))) = false).
  { destruct H8 as [->|H8%contains_spec]; [done|]. rewrite H8. by rewrite andb_false_r. }
  assert (E9 : g_RequireTools (cg_Group cg) && negb (m_Tools (t_Model t) =? "native")%string = false).
  { destruct (g_RequireTools _); [|done]. by rewrite H9. }
  assert (E10 : g_RequireVision (cg_Group cg) && negb (m_Vision (t_Model t)) = false).
  { destruct (g_RequireVision _); [|done]. by rewrite H10. }
  rewrite E6, E8, E9, E10. cbv zeta.
  assert (E11 : match g_MaxUSDPerMillion (cg_Group cg) with
      | None => ""%string
      | Some bound => let '(cost, known) := UnitCost (t_Model t) in
          if negb known then "cost_unknown"%string else if fltb bound cost then "cost_ceiling"%string else ""%string
      end = ""%string).
  { destruct (g_MaxUSDPerMillion _) as [bound|]; [|done]. destruct (H11 bound eq_refl) as [K1 K2].
    destruct (UnitCost _). simpl in *. by rewrite K1, K2. }
  rewrite E11. cbn [String.eqb negb].
  assert (E12 : match g_MaxUSDPerRequest (cg_Group cg) with
      | None => ""%string
      | Some bound => let '(cost, known) := estimatedRequestCost (t_Model t) q in
          if negb known then "request_cost_unknown"%string
          else if fltb (qr_SpentUSD q) f0 || fltb bound (fadd (qr_SpentUSD q) cost)
               then "request_cost_budget"%string else ""%string
      end = ""%string).
  { destruct (g_MaxUSDPerRequest _) as [bound|]; [|done]. destruct (H12 bound eq_refl) as (K1 & K2 & K3).
    destruct (estimatedRequestCost _ _). simpl in *. by rewrite K1, K2, K3. }
  rewrite E12. cbn [String.eqb negb].
  assert (E13 : (g_Type (cg_Group cg) =? "select")%string && match g_Sources (cg_Group cg) with
      | [] => true | first :: _ => negb (first =? s_ID (src_at r (t_Source t)))%string end = false).
  { destruct (String.eqb_spec (g_Type (cg_Group cg)) "select") as [E|]; [|done].
    destruct (H13 E) as [rest ->]. by rewrite String.eqb_refl. }
  rewrite E13. by rewrite (proj2 (tier_test _ _ _ _ (proj1 (Tier_range _))) H14).
Qed.

(** A stateful query never leaves its explicit source, and a probe only
    reaches the target it names.  A probe is admitted by exactly the target
    "source/model" it asks for; a query that carries conversation state is
    admitted only by the target it names in full, and only when that name is
    not a routing group's. *)
Theorem explicit_source_only h r t q :
  fst (eligible h r t q) = true →
  (qr_Probe q = true → qr_Model q = target_name r t)
  ∧ (qr_Stateful q = true →
      qr_Model q = target_name r t
      ∧ ∃ key min, group_query (qr_Model q) = Some (key, min) ∧ r_groups r !! key = None).
Proof.
  unfold eligible. simpl. intros H%String.eqb_eq. unfold eligible_reason in H.
  repeat match type of H with (if ?b then _ else _) = _ => destruct b eqn:?; [discriminate|] end.
  split.
  - intros Hp. rewrite Hp in *. simpl in *. by bool_prop.
  - intros Hst. destruct (group_query (qr_Model q)) as [[key min]|] eqn:Hg; [|discriminate].
    destruct (r_groups r !! key) as [cg|] eqn:Hcg.
    { apply group_reason_admits in H as []. congruence. }
    rewrite Hst in H. simpl in H. destruct (String.eqb_spec (qr_Model q) (target_name r t)); [|discriminate].
    eauto.
Qed.

Definition demo_stateful : Query :=
  {| qr_Probe := true; qr_Detail := false; qr_ExcludedSources := []; qr_Affinity := "";
     qr_Model := "b/chat"; qr_Protocol := "openai"; qr_Tools := false; qr_Bytes := 1;
     qr_OutputTokens := 0; qr_SpentUSD := f0; qr_Stateful := true; qr_Vision := false |}.

Lemma explicit_source_only_witness :
  fst (eligible demo_boot (router_at demo_boot demo_rid) (mk_Target 1 demo_model) demo_stateful) = true
  ∧ "b/chat"%string = target_name (router_at demo_boot demo_rid) (mk_Target 1 demo_model).
Proof.
  assert (H : fst (eligible demo_boot (router_at demo_boot demo_rid) (mk_Target 1 demo_model) demo_stateful) = true).
  { vm_compute. reflexivity. }
  split; [exact H|]. exact (proj1 (explicit_source_only _ _ _ _ H) eq_refl).
Defined.

(** ** Events and results *)

(** C10: the event log is a bounded ring in order.  In every reachable store
    the log of each capacity holds at most 1000 events, numbered consecutively
    (modulo 2^64) up to the last number given out, oldest first; and recording
    a result appends its event with the next number and forgets the oldest
    once there are more than 1000. *)
Theorem event_log_is_a_ring t h k c :
  reachable t h → h_caps h !! k = Some c →
  (length (ExecutionEvents c) <= MaxExecutionEvents)%nat
  ∧ (∀ i e, ExecutionEvents c !! i = Some e →
      ev_Sequence e = u64 (cap_eventSequence c - Z.of_nat (length (ExecutionEvents c)) + 1 + Z.of_nat i))
  ∧ (∀ l status now, r_capacity (router_at h (le_router l)) = k →
      ExecutionEvents (cap_at (recordEvent l status now h) k)
      = lastn MaxExecutionEvents
          (ExecutionEvents c ++ [new_event h l status now (u64 (cap_eventSequence c + 1))])).
Proof.
  intros Hre Hc. destruct (caps_all_reachable _ ring_ok_closed _ _ Hre _ _ Hc) as [Hwf Hn].
  split_and!; [rewrite execution_events_length by done; apply Hwf|exact Hn|].
  intros l status now Hk. unfold recordEvent, rcap. rewrite Hk, upd_cap_at, decide_True by done.
  unfold cap_at. rewrite Hc. cbn [default].
  exact (log_event_events (new_event h l status now (u64 (cap_eventSequence c + 1))) c Hwf).
Qed.

Lemma event_log_is_a_ring_witness :
  let h := Release demo_lease 200 0 9 demo_two in
  map ev_Outcome (ExecutionEvents (rcap h (router_at h demo_rid))) = ["succeeded"%string]
  ∧ (length (ExecutionEvents (rcap demo_two (router_at demo_two demo_rid))) <= MaxExecutionEvents)%nat.
Proof.
  intros h. split; [vm_compute; reflexivity|].
  apply (event_log_is_a_ring 2 demo_two (r_capacity (router_at demo_two demo_rid))); [apply demo_two_reachable|].
  vm_compute. reflexivity.
Defined.

(** Usage is accounted once per lease.  The first result recorded on a
    lease adds its input, output and total tokens (the total falls back to
    input plus output) to the source's counters, negative counts taken as
    zero, exactly as long as the 64-bit counters do not overflow; later
    results of the same lease only replace the last result.  What is stored is
    always redacted. *)
Theorem usage_accounted_once lid res h :
  let l := lease_at h lid in
  let h' := RecordExecution lid res h in
  let s := st_at h (le_state l) in
  let s' := st_at h' (le_state l) in
  let input := Z.max 0 (er_InputTokens res) in
  let output := Z.max 0 (er_OutputTokens res) in
  let total := if decide (0 < er_TotalTokens res) then er_TotalTokens res else input + output in
  le_execution (lease_at h' lid) = Some (Redacted res)
  ∧ st_lastExecution s' = Some (Redacted res)
  ∧ (is_Some (le_execution l) →
      st_inputTokens s' = st_inputTokens s ∧ st_outputTokens s' = st_outputTokens s
      ∧ st_totalTokens s' = st_totalTokens s ∧ st_executions s' = st_executions s)
  ∧ (le_execution l = None →
      is_u64 (st_inputTokens s + input) → is_u64 (st_outputTokens s + output) →
      is_u64 (st_totalTokens s + total) → is_u64 (st_executions s + 1) →
      0 <= st_inputTokens s → 0 <= st_outputTokens s → 0 <= st_totalTokens s →
      st_inputTokens s' = st_inputTokens s + input ∧ st_outputTokens s' = st_outputTokens s + output
      ∧ st_totalTokens s' = st_totalTokens s + total ∧ st_executions s' = st_executions s + 1).
Proof.
  intros l h' s s' input output total. unfold h', RecordExecution. fold l.
  assert (Hs' : s' = with_st_lastExecution (Some (Redacted res))
    (match le_execution l with
     | None => account_usage (t_Model (le_Target l)) (Redacted res) s
     | Some _ => s end)).
  { unfold s', h', RecordExecution. fold l. set (h1 := match le_execution l with Some _ => h | None => _ end).
    change (st_at (upd_state (le_state l) (with_st_lastExecution (Some (Redacted res))) h1) (le_state l)
      = with_st_lastExecution (Some (Redacted res)) (match le_execution l with
     | None => account_usage (t_Model (le_Target l)) (Redacted res) s | Some _ => s end)).
    rewrite upd_state_at, decide_True by done. f_equal. unfold h1. destruct (le_execution l); [done|].
    by rewrite upd_state_at, decide_True. }
  rewrite upd_lease_at, decide_True by done. rewrite Hs'. split_and!; [done|done|by intros [? ->]|].
  intros -> H1 H2 H3 H4 P1 P2 P3.
  destruct (account_usage_counts (t_Model (le_Target l)) (Redacted res) s) as (E1 & E2 & E3 & E4).
  cbn [with_st_lastExecution st_inputTokens st_outputTokens st_totalTokens st_executions].
  rewrite E1, E2, E3, E4, redacted_input, redacted_output, redacted_total.
  fold input output. rewrite (u64_small (st_executions s + 1)) by done.
  assert (T : u64 (if decide (0 < er_TotalTokens res) then er_TotalTokens res else input + output) = total).
  { apply u64_small. fold total. unfold is_u64 in *. unfold total. case_decide; unfold total in H3;
      case_decide; unfold input, output in *; lia. }
  rewrite T, (u64_small input), (u64_small output) by (unfold is_u64, input, output in *; lia).
  by rewrite !u64_small.
Qed.

Lemma usage_accounted_once_witness :
  let res := {| er_InputTokens := 70; er_OutputTokens := 30; er_TotalTokens := 0; er_UsageKnown := true;
                er_UpstreamStatus := 200; er_TransportOK := true; er_ProtocolComplete := true;
                er_UpstreamError := ""; er_ClientCanceled := false |} in
  let h' := RecordExecution demo_lease res demo_two in
  le_execution (lease_at demo_two demo_lease) = None
  ∧ st_totalTokens (st_at h' (le_state (lease_at demo_two demo_lease)))
    = st_totalTokens (st_at demo_two (le_state (lease_at demo_two demo_lease))) + 100.
Proof.
  intros res h'. assert (Hn : le_execution (lease_at demo_two demo_lease) = None) by (vm_compute; reflexivity).
  split; [exact Hn|].
  destruct (usage_accounted_once demo_lease res demo_two) as (_ & _ & _ & H).
  refine (proj1 (proj2 (proj2 (H Hn _ _ _ _ _ _ _)))); vm_compute; try (split; [|reflexivity]); discriminate.
Defined.


(** ** Hot reconfiguration *)

(** C11: a hot reconfiguration loses neither leases nor counters.  From a
    reachable store, compiling a configuration and adopting it from the active
    router keeps every lease; the new router shares the capacity, serves the
    new configuration and is the one woken by later releases; the old router
    is retired with every waiter woken; each source and quota domain the
    capacity knows by name keeps its live counter, and every counter alive
    before has the same value. *)
Theorem reconfiguration_preserves_capacity t h rid c now :
  reachable t h → live_router h rid = true → t <= now →
  let nrid := snd (New c h) in
  let h' := exec (OpReconfigure rid c) now h in
  reconfigured h h' rid nrid c
  ∧ (∀ k st st', h_states h !! k = Some st → h_states h' !! k = Some st' → st_active st' = st_active st)
  ∧ (∀ k q q', h_quotas h !! k = Some q → h_quotas h' !! k = Some q' → q_active q' = q_active q).
Proof.
  intros Hre Hlive Ht nrid h'. pose proof (good_reachable _ _ Hre) as Hg.
  assert (Hre' : reachable now h') by (eapply reach_step; eauto).
  assert (Hspec : reconfigured h h' rid nrid c).
  { unfold h'. simpl. rewrite Hlive. unfold live_router in Hlive.
    destruct (h_routers h !! rid) as [r|] eqn:Hr; [|done]. by apply reconfigure_spec with r. }
  split_and!; [done|..].
  - intros k st st' H1 H2.
    rewrite (state_active_count h k st), (state_active_count h' k st') by eauto using good_reachable.
    by rewrite (rec_leases _ _ _ _ _ Hspec).
  - intros k q q' H1 H2. rewrite (quota_active_count h k q), (quota_active_count h' k q') by eauto using good_reachable.
    by rewrite (rec_leases _ _ _ _ _ Hspec).
Qed.

Lemma reconfiguration_preserves_capacity_witness :
  let nrid := snd (New demo_config demo_wait) in
  let h' := exec (OpReconfigure demo_rid demo_config) 4 demo_wait in
  live_router demo_wait demo_rid = true
  ∧ r_retired (router_at h' demo_rid) = true
  ∧ cap_current (rcap h' (router_at h' nrid)) = nrid
  ∧ cap_active (rcap h' (router_at h' nrid)) = 2.
Proof.
  intros nrid h'. assert (Hl : live_router demo_wait demo_rid = true) by (vm_compute; reflexivity).
  destruct (reconfiguration_preserves_capacity 3 demo_wait demo_rid demo_config 4) as ([_ _ _ Hc _ Hr _ _ _ _ _] & _ & _);
    [apply demo_wait_reachable|exact Hl|lia|].
  split_and!; [exact Hl|exact Hr|exact Hc|vm_compute; reflexivity].
Defined.

(** A retired router admits nothing.  A call on a retired router returns
    an error at once (its context's, when that is done, otherwise
    unavailable): it is neither granted a lease nor left waiting. *)
Theorem retired_router_refuses rid q ctx queued now h :
  r_retired (router_at h rid) = true →
  snd (acquire_iter rid q ctx queued now h) = Failed (if is_done h ctx then ErrContext else ErrUnavailable).
Proof. intros Hr. unfold acquire_iter, choose. rewrite Hr. by destruct (is_done h ctx). Qed.

Lemma retired_router_refuses_witness :
  let h := exec (OpReconfigure demo_rid demo_config) 4 demo_wait in
  r_retired (router_at h demo_rid) = true
  ∧ snd (acquire_iter demo_rid demo_query 2 None 5 h) = Failed ErrUnavailable.
Proof.
  intros h. assert (H : r_retired (router_at h demo_rid) = true) by (vm_compute; reflexivity).
  split; [exact H|].
  etransitivity; [exact (retired_router_refuses demo_rid demo_query 2 None 5 h H)|vm_compute; reflexivity].
Defined.

(** C12: no overcommitment.  In every run without a reconfiguration, from
    boot on, the global counter stays within [max_inflight], the counter of
    each source within the source's [max_inflight], and the counter of each
    quota domain and account within its limit (a negative limit admits
    nothing). *)
Theorem limits_never_exceeded c now t h :
  let h0 := fst (New c empty_heap) in
  let r0 := router_at h0 (snd (New c empty_heap)) in
  steps no_reconfigure now h0 t h → within_limits r0 h.
Proof.
  intros h0 r0 Hs. eapply so_within, static_steps; [apply compiled_distinct|apply static_boot|exact Hs].
Qed.

Lemma limits_never_exceeded_witness :
  cap_active (cap_at demo_wait (r_capacity (router_at demo_boot demo_rid))) <= 2.
Proof.
  refine (wl_global _ _ (limits_never_exceeded demo_config 0 3 demo_wait _)).
  apply (steps_more _ _ _ 2 demo_two (OpAcquire demo_rid demo_query 1)); [|lia|reflexivity].
  apply (steps_more _ _ _ 1 demo_one (OpAcquire demo_rid demo_query 0)); [|lia|reflexivity].
  apply (steps_more _ _ _ 0 demo_boot (OpAcquire demo_rid demo_query 0)); [|lia|reflexivity].
  apply steps_refl.
Defined.

(** ** Explanations and redaction *)

Lemma fold_selected l n acc :
  (∀ c, c ∈ l → sc_Selected c = true → sc_ID c = n) →
  fold_left (λ acc c, if sc_Selected c then sc_ID c else acc) l acc = if existsb sc_Selected l then n else acc.
Proof.
  revert acc. induction l as [|c l IH]; intros acc H; [done|]. simpl.
  rewrite IH by (intros c' Hc'; apply H; by right).
  destruct (sc_Selected c) eqn:E; simpl; [|done]. rewrite (H c) by (done || by left). by destruct (existsb _ _).
Qed.

(** The simulation reports the router's own choice.  [Simulate] names as
    selected the target [choose] would grant (nothing when it grants none),
    and each candidate it marks selected it also marks eligible. *)
Theorem simulation_agrees_with_choose h r q now :
  sim_Selected (Simulate h r q now)
  = match fst (choose h r q now) with Some idx => target_name r (target_at r idx) | None => ""%string end
  ∧ ∀ sc, sc ∈ sim_Candidates (Simulate h r q now) → sc_Selected sc = true → sc_Eligible sc = true.
Proof.
  unfold Simulate. cbn [sim_Selected sim_Candidates].
  set (indices := match default [] _ with [] => _ | _ => _ end).
  set (cands := imap _ indices).
  assert (Hc : ∀ sc, sc ∈ cands → ∃ j idx, j ∈ indices ∧ sc = simulate_candidate h r q now (fst (choose h r q now)) idx j).
  { intros sc (i & j & -> & Hj)%elem_of_lookup_imap. exists j, i. split; [by eapply list_elem_of_lookup_2|done]. }
  destruct (choose h r q now) as [[idx|] e] eqn:Hch; cbn [fst] in *.
  - destruct (choose_some _ _ _ _ _ _ Hch) as (_ & Hidx & Hex).
    assert (Hin : idx ∈ indices). { unfold indices. by destruct (default [] _); [apply elem_of_nil in Hidx|]. }
    split.
    + rewrite (fold_selected cands (target_name r (target_at r idx))).
      * replace (existsb sc_Selected cands) with true; [done|]. symmetry. apply existsb_exists.
        apply list_elem_of_lookup_1 in Hin as [i Hi]. exists (simulate_candidate h r q now (Some idx) i idx).
        split; [|simpl; by apply bool_decide_eq_true]. apply list_elem_of_In. apply elem_of_lookup_imap. eauto.
      * intros sc (j & i & _ & ->)%Hc. simpl. by intros [= ->]%bool_decide_eq_true_1.
    + intros sc (j & i & _ & ->)%Hc. simpl. intros [= ->]%bool_decide_eq_true_1. by rewrite Hex.
  - split.
    + rewrite (fold_selected cands ""%string); [by destruct (existsb _ _)|].
      intros sc (j & i & _ & ->)%Hc. done.
    + intros sc (j & i & _ & ->)%Hc. done.
Qed.

(** Stored results carry no upstream text.  Redaction leaves only the
    gateway's own error categories, keeps every other field, never turns a
    failure into a success or the reverse, and is idempotent. *)
Theorem redaction_is_safe r :
  er_UpstreamError (Redacted r) ∈ error_categories
  ∧ er_set_error (Redacted r) (er_UpstreamError r) = r
  ∧ Successful (Redacted r) = Successful r
  ∧ Redacted (Redacted r) = Redacted r.
Proof.
  split_and!; [apply redacted_category| |apply redacted_successful|apply redacted_idem].
  unfold Redacted. by destruct (contains _ _), r.
Qed.
