(* ===== verification/RouterLeases.v ===== *)
(** * Outstanding leases

    The leases granted and not yet returned, and what each operation of the
    router does to them: a grant adds a fresh one, a release removes the one
    it names, nothing else changes them.  Routers, once built, stay. *)

From S2P Require Import Prelude GoFloat ConfigData Execution RouterData RouterPolicy RouterPolicyFacts RouterOps RouterInv RouterReach RouterFacts.
Local Open Scope Z_scope.

Definition outstanding (h : heap) : gset loc := dom (filter (λ kl : loc * lease, le_once kl.2 = false) (h_leases h)).

Lemma elem_of_outstanding h l : l ∈ outstanding h ↔ ∃ x, h_leases h !! l = Some x ∧ le_once x = false.
Proof.
  unfold outstanding. rewrite elem_of_dom. unfold is_Some. setoid_rewrite map_lookup_filter_Some. simpl. done.
Qed.

Lemma outstanding_same h h' : h_leases h' = h_leases h → outstanding h' = outstanding h.
Proof. unfold outstanding. by intros ->. Qed.

(** An update of a lease that does not return it. *)
Lemma outstanding_upd_lease k f h :
  is_Some (h_leases h !! k) → (∀ x, le_once (f x) = le_once x) → outstanding (upd_lease k f h) = outstanding h.
Proof.
  intros [x Hx] Hf. apply set_eq. intros l. rewrite !elem_of_outstanding. unfold upd_lease. cbn [h_leases with_h_leases].
  rewrite (lease_at_lookup _ _ _ Hx). destruct (decide (k = l)) as [<-|Hne].
  - rewrite lookup_insert_eq, Hx. naive_solver congruence.
  - by rewrite lookup_insert_ne.
Qed.

(** Routers stay. *)
Definition routers_stay (h h' : heap) : Prop := ∀ k, is_Some (h_routers h !! k) → is_Some (h_routers h' !! k).

Lemma routers_stay_same h h' : h_routers h' = h_routers h → routers_stay h h'.
Proof. intros E k. by rewrite E. Qed.
Lemma routers_stay_trans h1 h2 h3 : routers_stay h1 h2 → routers_stay h2 h3 → routers_stay h1 h3.
Proof. intros H1 H2 k Hk. by apply H2, H1. Qed.
Lemma routers_stay_upd rid f h : routers_stay h (upd_router rid f h).
Proof. intros k. apply dom_upd_router. Qed.
Lemma routers_stay_signal rid now h : routers_stay h (signal rid now h).
Proof. apply routers_stay_upd. Qed.
Lemma routers_stay_defer rid queued now h : routers_stay h (acquire_defer rid queued now h).
Proof.
  destruct queued as [w|]; [|by apply routers_stay_same]. simpl.
  eapply routers_stay_trans; [apply routers_stay_upd|apply routers_stay_signal].
Qed.
Lemma defer_leases rid queued now h : h_leases (acquire_defer rid queued now h) = h_leases h.
Proof. by destruct queued. Qed.

Lemma grant_stays rid q idx now h : routers_stay h (fst (grant rid q idx now h)).
Proof. intros k Hk. unfold grant, alloc_lease. cbn [fst]. simpl. rewrite lookup_insert. case_decide; [done|]. by destruct (account_loc _ _). Qed.

Lemma grant_leases rid q idx now h :
  ∃ x, le_once x = false ∧ h_leases (fst (grant rid q idx now h)) = <[h_next h := x]> (h_leases h).
Proof.
  destruct (grant_lease rid q idx now h) as [_ E]. exists (lease_at (fst (grant rid q idx now h)) (h_next h)).
  split; [by rewrite E|]. unfold lease_at. rewrite <-(insert_id (h_leases (fst (grant rid q idx now h))) (h_next h)
    (lease_at (fst (grant rid q idx now h)) (h_next h))) at 1.
  - unfold grant, alloc_lease. cbn [fst]. destruct (account_loc _ _); simpl; by rewrite insert_insert_eq.
  - unfold lease_at, grant, alloc_lease. cbn [fst]. destruct (account_loc _ _); simpl; by rewrite lookup_insert_eq.
Qed.

(** A pass of [Acquire]. *)
Lemma acquire_iter_leases rid q ctx queued now h h' out :
  good h → acquire_iter rid q ctx queued now h = (h', out) →
  routers_stay h h' ∧
  match out with
  | Granted l => l ∉ outstanding h ∧ outstanding h' = outstanding h ∪ {[l]}
  | _ => outstanding h' = outstanding h
  end.
Proof.
  intros Hg Hit. destruct out as [l|e|w].
  - apply acquire_granted in Hit as (idx & _ & _ & _ & -> & ->). split.
    { eapply routers_stay_trans; [apply grant_stays|apply routers_stay_defer]. }
    assert (Hnew : h_leases h !! h_next h = None).
    { destruct (si_next _ (good_inv _ Hg) (h_next h)) as (_ & _ & _ & _ & E); [done|]. simpl in E. rewrite lookup_fmap in E.
      by destruct (h_leases h !! h_next h). }
    split; [rewrite elem_of_outstanding, Hnew; naive_solver|].
    rewrite (outstanding_same _ _ (defer_leases rid queued now (fst (grant rid q idx now h)))).
    destruct (grant_leases rid q idx now h) as (x & Hx & E). apply set_eq. intros l.
    rewrite elem_of_union, elem_of_singleton, !elem_of_outstanding, E. destruct (decide (l = h_next h)) as [->|Hne].
    + rewrite lookup_insert_eq. naive_solver.
    + rewrite lookup_insert_ne by done. naive_solver.
  - revert Hit. unfold acquire_iter.
    assert (Hd : routers_stay h (acquire_defer rid queued now h) ∧ outstanding (acquire_defer rid queued now h) = outstanding h).
    { split; [apply routers_stay_defer|apply outstanding_same, defer_leases]. }
    destruct (is_done h ctx); [by intros [= <- _]|]. destruct (choose h _ q now) as [idx ok].
    set (wait := if negb ok then _ else _).
    assert (Hw : ∀ h2 e2, wait = (h2, Failed e2) → routers_stay h h2 ∧ outstanding h2 = outstanding h).
    { intros h2 e2. unfold wait. destruct (negb ok); [by intros [= <- _]|]. destruct queued; [done|].
      destruct (_ <=? _); [by intros [= <- _]|]. by destruct (enqueue rid q ctx h). }
    destruct idx as [idx|]; [|apply Hw]. destruct (turn _ _ now queued); [|apply Hw]. by destruct (grant rid q idx now h).
  - revert Hit. unfold acquire_iter. destruct (is_done h ctx); [done|]. destruct (choose h _ q now) as [idx ok].
    set (wait := if negb ok then _ else _).
    assert (Hw : ∀ h2 w2, wait = (h2, Waiting w2) → routers_stay h h2 ∧ outstanding h2 = outstanding h).
    { intros h2 w2. unfold wait. destruct (negb ok); [done|]. destruct queued; [intros [= <- _]; split; [by apply routers_stay_same|done]|].
      destruct (_ <=? _); [done|]. unfold enqueue. intros [= <- _]. split; [apply (routers_stay_trans _ (with_h_next (S (h_next h)) h));
        [by apply routers_stay_same|apply routers_stay_upd]|by apply outstanding_same]. }
    destruct idx as [idx|]; [|apply Hw]. destruct (turn _ _ now queued); [|apply Hw]. by destruct (grant rid q idx now h).
Qed.

Lemma acquire_resume_leases rid w cause now h h' out :
  good h → acquire_resume rid w cause now h = (h', Some out) →
  routers_stay h h' ∧
  match out with
  | Granted l => l ∉ outstanding h ∧ outstanding h' = outstanding h ∪ {[l]}
  | _ => outstanding h' = outstanding h
  end.
Proof.
  intros Hg. unfold acquire_resume. destruct (find_waiter _ w) as [x|] eqn:Hx; [|done].
  set (h1 := match cause with WakeReady => _ | _ => h end).
  assert (H1 : good h1 ∧ routers_stay h h1 ∧ outstanding h1 = outstanding h).
  { unfold h1. destruct cause; try by (split_and!; [done|by apply routers_stay_same|done]). split_and!.
    - apply (good_skel h); [|done]. apply skel_upd_router; [by eapply find_waiter_router|done].
    - apply routers_stay_upd.
    - by apply outstanding_same. }
  destruct H1 as (Hg1 & Hr1 & E1). match goal with |- context [if ?b then _ else _] => destruct b; [|done] end.
  destruct (acquire_iter _ _ _ _ _ _) as [h2 out2] eqn:Hit. intros [= -> ->].
  apply acquire_iter_leases in Hit as [Hr2 Hout]; [|done]. rewrite E1 in Hout. split; [by eapply routers_stay_trans|done].
Qed.

(** [Release] returns the lease it names. *)
Lemma release_stays lid status ra now h : routers_stay h (Release lid status ra now h).
Proof.
  unfold Release. destruct (le_once _); [by apply routers_stay_same|].
  assert (Hs : ∀ h1, h_routers h1 = h_routers h → routers_stay h (signal_current (lease_at h lid) now h1)).
  { intros h1 E. eapply routers_stay_trans; [by apply routers_stay_same|apply routers_stay_signal]. }
  assert (Hc : ∀ h1, h_routers (release_counters (lease_at h lid) h1) = h_routers h1).
  { intros h1. unfold release_counters. by destruct (le_account _). }
  destruct (status =? -1); apply Hs; [by rewrite Hc|]. change (h_routers (release_counters (lease_at h lid) (upd_lease lid (with_le_once true) h)) = h_routers h).
  by rewrite Hc.
Qed.

Lemma release_returns lid status ra now h :
  is_Some (h_leases h !! lid) → outstanding (Release lid status ra now h) = outstanding h ∖ {[lid]}.
Proof.
  intros [x Hx]. apply set_eq. intros l. rewrite elem_of_difference, elem_of_singleton, !elem_of_outstanding.
  destruct (le_once (lease_at h lid)) eqn:Ho.
  - assert (Hsame : Release lid status ra now h = h) by (unfold Release; by rewrite Ho). rewrite Hsame.
    rewrite (lease_at_lookup _ _ _ Hx) in Ho. split; [|naive_solver]. intros H. split; [done|]. intros ->. destruct H as (y & Hy & ?). congruence.
  - rewrite release_leases by done. unfold upd_lease. cbn [h_leases with_h_leases]. rewrite (lease_at_lookup _ _ _ Hx).
    destruct (decide (lid = l)) as [->|Hne]; [rewrite lookup_insert_eq|rewrite lookup_insert_ne by done]; naive_solver.
Qed.

(** The other operations on a lease, and the administration. *)
Lemma record_leases lid result h :
  is_Some (h_leases h !! lid) → routers_stay h (RecordExecution lid result h) ∧ outstanding (RecordExecution lid result h) = outstanding h.
Proof.
  intros Hl. unfold RecordExecution. set (h1 := match le_execution _ with Some _ => h | None => _ end).
  assert (E : h_leases h1 = h_leases h ∧ h_routers h1 = h_routers h) by (unfold h1; by destruct (le_execution _)). destruct E as [El Er].
  split; [by apply routers_stay_same|]. rewrite outstanding_upd_lease; [by apply outstanding_same|simpl; by rewrite El|done].
Qed.

Lemma first_output_leases lid now h :
  is_Some (h_leases h !! lid) → routers_stay h (FirstOutput lid now h) ∧ outstanding (FirstOutput lid now h) = outstanding h.
Proof.
  intros Hl. unfold FirstOutput. destruct (le_firstOutput _); [split; [by apply routers_stay_same|done]|].
  split; [by apply routers_stay_same|].
  erewrite (outstanding_same (upd_lease lid (λ l, with_le_firstOutput true (with_le_ttftMS (micros_ms (now - le_started (lease_at h lid))) l)) h)) by reflexivity.
  by apply outstanding_upd_lease.
Qed.

Lemma set_enabled_leases rid id on now h :
  routers_stay h (fst (SetEnabled rid id on now h)) ∧ outstanding (fst (SetEnabled rid id on now h)) = outstanding h.
Proof.
  unfold SetEnabled. destruct (list_find _ _) as [[i s]|]; [|split; [by apply routers_stay_same|done]]. cbn [fst].
  split; [|by apply outstanding_same]. set (h1 := upd_state _ _ h). apply (routers_stay_trans _ h1); [by apply routers_stay_same|apply routers_stay_signal].
Qed.

Lemma reconfigure_leases rid c now h :
  good h → is_Some (h_routers h !! rid) →
  let h' := let '(h', nrid) := New c h in Adopt rid nrid now h' in routers_stay h h' ∧ outstanding h' = outstanding h.
Proof.
  intros Hg [r Hr] h'. pose proof (reconfigure_spec c now h rid r Hg Hr) as [El _ _ _ Hact Hret _ _ _ _ Hold].
  pose proof (New_compiled c h) as [_ [Hnext _] _ _ _ _ _ _ _]. fold h' in El, Hact, Hret, Hold.
  split; [|by apply outstanding_same]. intros k Hk. destruct (decide (k = rid)) as [->|H1].
  - destruct (h_routers h' !! rid) eqn:E; [eauto|]. unfold router_at in Hret. by rewrite E in Hret.
  - rewrite Hold; [done|done|]. intros ->. destruct Hk as [x Hx].
    destruct (si_next _ (good_inv _ Hg) (snd (New c h))) as (_ & _ & _ & E & _); [simpl; lia|]. simpl in E. by rewrite lookup_fmap, Hx in E.
Qed.
