(* ===== verification/Json.v ===== *)
(** * JSON as Go's [encoding/json] reads it

    The part of the standard library the gateway's protocol code relies on:
    [json.Valid] as a recursive-descent parser with the library's nesting
    limit, and [json.Unmarshal] into strings, booleans, integers, raw messages,
    maps and structs (case-insensitive field names, later duplicates win, a
    mismatched type is an error, [null] leaves the target unchanged). *)

From S2P Require Import Prelude.
Local Open Scope Z_scope.

Abbreviation bytes := (list ascii).
Definition lit (s : string) : bytes := list_ascii_of_string s.
Definition str (b : bytes) : string := string_of_list_ascii b.

Definition quote : ascii := ascii_of_nat 34.
Definition backslash : ascii := "\"%char.
Definition code (c : ascii) : Z := Z.of_nat (nat_of_ascii c).

Definition is_ws (c : ascii) : bool :=
  (code c =? 32) || (code c =? 13) || (code c =? 10) || (code c =? 9).
Definition is_digit (c : ascii) : bool := (48 <=? code c) && (code c <=? 57).
Definition is_hex (c : ascii) : bool :=
  is_digit c || ((97 <=? code c) && (code c <=? 102)) || ((65 <=? code c) && (code c <=? 70)).
Definition is_escape (c : ascii) : bool := ascii_in c "bfnrt\/" || Ascii.eqb c quote.

Fixpoint skip_ws (l : bytes) : bytes :=
  match l with
  | c :: l' => if is_ws c then skip_ws l' else l
  | [] => []
  end.

(** ** Syntax *)

(** A parsed value; strings and numbers keep their spelling (a string without
    its quotes), an object its members in order. *)
Inductive json :=
| JNull
| JBool (b : bool)
| JNum (raw : bytes)
| JStr (raw : bytes)
| JArr (l : list json)
| JObj (l : list (bytes * json)).

(** The rest of a string, after its opening quote. *)
Fixpoint parse_string (l : bytes) : option (bytes * bytes) :=
  match l with
  | [] => None
  | c :: l1 =>
      if Ascii.eqb c quote then Some ([], l1)
      else if Ascii.eqb c backslash then
        match l1 with
        | [] => None
        | e :: l2 =>
            if Ascii.eqb e "u" then
              match l2 with
              | h1 :: h2 :: h3 :: h4 :: l3 =>
                  if is_hex h1 && is_hex h2 && is_hex h3 && is_hex h4
                  then '(raw, rest) ← parse_string l3; Some (c :: e :: h1 :: h2 :: h3 :: h4 :: raw, rest)
                  else None
              | _ => None
              end
            else if is_escape e then '(raw, rest) ← parse_string l2; Some (c :: e :: raw, rest)
            else None
        end
      else if code c <? 32 then None
      else '(raw, rest) ← parse_string l1; Some (c :: raw, rest)
  end.

Fixpoint span_digits (l : bytes) : bytes * bytes :=
  match l with
  | c :: l' => if is_digit c then let '(d, r) := span_digits l' in (c :: d, r) else ([], l)
  | [] => ([], [])
  end.

(** One of a number's optional parts: a leading byte, then [parse]. *)
Definition parse_int (l : bytes) : option (bytes * bytes) :=
  match l with
  | c :: l' =>
      if Ascii.eqb c "0" then Some ([c], l')
      else if is_digit c then let '(d, r) := span_digits l' in Some (c :: d, r) else None
  | [] => None
  end.

Definition parse_digits1 (l : bytes) : option (bytes * bytes) :=
  match span_digits l with ([], _) => None | (d, r) => Some (d, r) end.

Definition parse_frac (l : bytes) : option (bytes * bytes) :=
  match l with
  | c :: l' => if Ascii.eqb c "." then '(d, r) ← parse_digits1 l'; Some (c :: d, r) else Some ([], l)
  | [] => Some ([], [])
  end.

Definition parse_exp (l : bytes) : option (bytes * bytes) :=
  match l with
  | c :: l' =>
      if Ascii.eqb c "e" || Ascii.eqb c "E" then
        match l' with
        | s :: l2 =>
            if Ascii.eqb s "+" || Ascii.eqb s "-"
            then '(d, r) ← parse_digits1 l2; Some (c :: s :: d, r)
            else '(d, r) ← parse_digits1 l'; Some (c :: d, r)
        | [] => None
        end
      else Some ([], l)
  | [] => Some ([], [])
  end.

Definition parse_number (l : bytes) : option (bytes * bytes) :=
  let '(sign, l1) := match l with c :: l' => if Ascii.eqb c "-" then ([c], l') else ([], l) | [] => ([], l) end in
  '(i, l2) ← parse_int l1;
  '(f, l3) ← parse_frac l2;
  '(e, l4) ← parse_exp l3;
  Some (sign ++ i ++ f ++ e, l4).

Fixpoint strip (p l : bytes) : option bytes :=
  match p, l with
  | [], _ => Some l
  | a :: p', b :: l' => if Ascii.eqb a b then strip p' l' else None
  | _ :: _, [] => None
  end.

(** The scanner's nesting limit. *)
Definition max_nesting : Z := 10000.

(** After an opening bracket: nothing but its closing one, or [items]. *)
Definition parse_container {A} (close : ascii) (mk : list A → json)
    (items : bytes → option (list A * bytes)) (depth : Z) (l : bytes) : option (json * bytes) :=
  if max_nesting <=? depth then None
  else
    match skip_ws l with
    | [] => None
    | d :: r =>
        if Ascii.eqb d close then Some (mk [], r)
        else '(m, r') ← items (d :: r); Some (mk m, r')
    end.

Definition parse_literal (p : bytes) (v : json) (l : bytes) : option (json * bytes) :=
  r ← strip p l; Some (v, r).

(** A value at the start of [l] (no leading white space). *)
Fixpoint parse_value (fuel : nat) (depth : Z) (l : bytes) : option (json * bytes) :=
  match fuel, l with
  | O, _ | _, [] => None
  | S fuel, c :: l' =>
      if Ascii.eqb c quote then '(raw, r) ← parse_string l'; Some (JStr raw, r)
      else if Ascii.eqb c "{" then parse_container "}" JObj (parse_members fuel (depth + 1)) depth l'
      else if Ascii.eqb c "[" then parse_container "]" JArr (parse_elements fuel (depth + 1)) depth l'
      else if Ascii.eqb c "t" then parse_literal (lit "rue") (JBool true) l'
      else if Ascii.eqb c "f" then parse_literal (lit "alse") (JBool false) l'
      else if Ascii.eqb c "n" then parse_literal (lit "ull") JNull l'
      else '(raw, r) ← parse_number l; Some (JNum raw, r)
  end
with parse_members (fuel : nat) (depth : Z) (l : bytes) : option (list (bytes * json) * bytes) :=
  match fuel, l with
  | O, _ | _, [] => None
  | S fuel, c :: l' =>
      if negb (Ascii.eqb c quote) then None
      else
        '(key, r1) ← parse_string l';
        match skip_ws r1 with
        | [] => None
        | d :: r2 =>
            if negb (Ascii.eqb d ":") then None
            else
              '(v, r3) ← parse_value fuel depth (skip_ws r2);
              match skip_ws r3 with
              | [] => None
              | e :: r4 =>
                  if Ascii.eqb e "}" then Some ([(key, v)], r4)
                  else if Ascii.eqb e ","
                  then '(m, r) ← parse_members fuel depth (skip_ws r4); Some ((key, v) :: m, r)
                  else None
              end
        end
  end
with parse_elements (fuel : nat) (depth : Z) (l : bytes) : option (list json * bytes) :=
  match fuel with
  | O => None
  | S fuel =>
      '(v, r1) ← parse_value fuel depth l;
      match skip_ws r1 with
      | [] => None
      | e :: r2 =>
          if Ascii.eqb e "]" then Some ([v], r2)
          else if Ascii.eqb e ","
          then '(m, r) ← parse_elements fuel depth (skip_ws r2); Some (v :: m, r)
          else None
      end
  end.

(** Twice the length is enough: between two calls that read nothing there is
    one that does. *)
Definition json_fuel (l : bytes) : nat := 2 * length l + 2.

Definition parse_json (l : bytes) : option json :=
  '(v, r) ← parse_value (json_fuel l) 0 (skip_ws l);
  match skip_ws r with [] => Some v | _ => None end.

(** [json.Valid] *)
Definition Valid (l : bytes) : bool := bool_decide (is_Some (parse_json l)).

(** ** Strings *)

Definition byte_of (z : Z) : ascii := ascii_of_nat (Z.to_nat z).
Definition rune_error : Z := 65533.

(** [utf8.AppendRune] of a valid code point *)
Definition encode_rune (r : Z) : bytes :=
  if r <? 128 then [byte_of r]
  else if r <? 2048 then [byte_of (192 + r / 64); byte_of (128 + r mod 64)]
  else if r <? 65536 then [byte_of (224 + r / 4096); byte_of (128 + (r / 64) mod 64); byte_of (128 + r mod 64)]
  else [byte_of (240 + r / 262144); byte_of (128 + (r / 4096) mod 64); byte_of (128 + (r / 64) mod 64);
        byte_of (128 + r mod 64)].

Definition is_cont (lo hi : Z) (c : ascii) : bool := (lo <=? code c) && (code c <=? hi).

(** [utf8.DecodeRune] on a non-empty slice: the rune and its width. *)
Definition decode_rune (l : bytes) : Z * nat :=
  match l with
  | [] => (rune_error, 0%nat)
  | c0 :: t =>
      let x0 := code c0 in
      let three (lo hi : Z) :=
        match t with
        | c1 :: c2 :: _ =>
            if is_cont lo hi c1 && is_cont 128 191 c2
            then ((x0 mod 16) * 4096 + (code c1 mod 64) * 64 + code c2 mod 64, 3%nat)
            else (rune_error, 1%nat)
        | _ => (rune_error, 1%nat)
        end in
      let four (lo hi : Z) :=
        match t with
        | c1 :: c2 :: c3 :: _ =>
            if is_cont lo hi c1 && is_cont 128 191 c2 && is_cont 128 191 c3
            then ((x0 mod 8) * 262144 + (code c1 mod 64) * 4096 + (code c2 mod 64) * 64 + code c3 mod 64, 4%nat)
            else (rune_error, 1%nat)
        | _ => (rune_error, 1%nat)
        end in
      if x0 <? 128 then (x0, 1%nat)
      else if (194 <=? x0) && (x0 <=? 223) then
        match t with
        | c1 :: _ => if is_cont 128 191 c1 then ((x0 mod 32) * 64 + code c1 mod 64, 2%nat) else (rune_error, 1%nat)
        | [] => (rune_error, 1%nat)
        end
      else if x0 =? 224 then three 160 191
      else if x0 =? 237 then three 128 159
      else if (225 <=? x0) && (x0 <=? 239) then three 128 191
      else if x0 =? 240 then four 144 191
      else if (241 <=? x0) && (x0 <=? 243) then four 128 191
      else if x0 =? 244 then four 128 143
      else (rune_error, 1%nat)
  end.

Definition hex_digit (c : ascii) : Z :=
  let x := code c in
  if x <=? 57 then x - 48 else if x <=? 70 then x - 55 else x - 87.
Definition hex4 (h1 h2 h3 h4 : ascii) : Z :=
  hex_digit h1 * 4096 + hex_digit h2 * 256 + hex_digit h3 * 16 + hex_digit h4.

(** [utf16.DecodeRune] of a surrogate pair *)
Definition decode_surrogates (r1 r2 : Z) : option Z :=
  if (55296 <=? r1) && (r1 <? 56320) && (56320 <=? r2) && (r2 <? 57344)
  then Some ((r1 - 55296) * 1024 + (r2 - 56320) + 65536) else None.

Definition is_surrogate (r : Z) : bool := (55296 <=? r) && (r <? 57344).

Definition simple_escape (e : ascii) : ascii :=
  if Ascii.eqb e "b" then byte_of 8 else if Ascii.eqb e "f" then byte_of 12
  else if Ascii.eqb e "n" then byte_of 10 else if Ascii.eqb e "r" then byte_of 13
  else if Ascii.eqb e "t" then byte_of 9 else e.

(** The text a string literal denotes. *)
Fixpoint unquote_fuel (fuel : nat) (l : bytes) : bytes :=
  match fuel, l with
  | O, _ | _, [] => []
  | S fuel, c :: l1 =>
      if Ascii.eqb c backslash then
        match l1 with
        | [] => []
        | e :: l2 =>
            if Ascii.eqb e "u" then
              match l2 with
              | h1 :: h2 :: h3 :: h4 :: l3 =>
                  let r1 := hex4 h1 h2 h3 h4 in
                  if is_surrogate r1 then
                    match l3 with
                    | b :: u :: g1 :: g2 :: g3 :: g4 :: l4 =>
                        if Ascii.eqb b backslash && Ascii.eqb u "u"
                           && is_hex g1 && is_hex g2 && is_hex g3 && is_hex g4 then
                          match decode_surrogates r1 (hex4 g1 g2 g3 g4) with
                          | Some r => encode_rune r ++ unquote_fuel fuel l4
                          | None => encode_rune rune_error ++ unquote_fuel fuel l3
                          end
                        else encode_rune rune_error ++ unquote_fuel fuel l3
                    | _ => encode_rune rune_error ++ unquote_fuel fuel l3
                    end
                  else encode_rune r1 ++ unquote_fuel fuel l3
              | _ => []
              end
            else simple_escape e :: unquote_fuel fuel l2
        end
      else if code c <? 128 then c :: unquote_fuel fuel l1
      else let '(r, n) := decode_rune l in encode_rune r ++ unquote_fuel fuel (drop n l)
  end.

Definition unquote (raw : bytes) : string := str (unquote_fuel (length raw) raw).

(** ** Numbers ([strconv.ParseInt] of the literal, base 10, 64 bits) *)

Definition digits_value (l : bytes) : Z := fold_left (λ n c, 10 * n + (code c - 48)) l 0.

Definition parse_i64 (raw : bytes) : option Z :=
  let '(neg, d) := match raw with c :: d => if Ascii.eqb c "-" then (true, d) else (false, raw) | [] => (false, []) end in
  if bool_decide (d = []) || negb (forallb is_digit d) then None
  else
    let v := if neg then - digits_value d else digits_value d in
    if (- two63 <=? v) && (v <? two63) then Some v else None.

(** ** [json.Unmarshal] into Go values

    Each decoder takes the target's present value; [None] is an error. *)

Definition decode_string (v : json) (old : string) : option string :=
  match v with JNull => Some old | JStr raw => Some (unquote raw) | _ => None end.
Definition decode_bool (v : json) (old : bool) : option bool :=
  match v with JNull => Some old | JBool b => Some b | _ => None end.
Definition decode_int64 (v : json) (old : Z) : option Z :=
  match v with JNull => Some old | JNum raw => parse_i64 raw | _ => None end.

(** [map[string]json.RawMessage]: a [null] gives the nil map. *)
Definition decode_map (v : json) : option (gmap string json) :=
  match v with
  | JNull => Some ∅
  | JObj m => Some (fold_left (λ acc '(k, x), <[unquote k := x]> acc) m ∅)
  | _ => None
  end.

(** A key folded the way struct fields are matched: ASCII letters upper-cased,
    and the two other runes whose case folding is an ASCII letter. *)
Definition upper (c : ascii) : ascii :=
  if (97 <=? code c) && (code c <=? 122) then byte_of (code c - 32) else c.
Fixpoint fold_key (l : bytes) : bytes :=
  match l with
  | [] => []
  | c :: l1 =>
      match l1 with
      | d :: l2 =>
          if (code c =? 197) && (code d =? 191) then "S"%char :: fold_key l2
          else
            match l2 with
            | e :: l3 =>
                if (code c =? 226) && (code d =? 132) && (code e =? 170) then "K"%char :: fold_key l3
                else upper c :: fold_key l1
            | [] => upper c :: fold_key l1
            end
      | [] => upper c :: fold_key l1
      end
  end.

(** Does an object key select the struct field tagged [name], among the
    fields tagged [names]?  An exact match wins over a folded one. *)
Definition selects (names : list string) (key : bytes) : option string :=
  let k := unquote key in
  if contains names k then Some k
  else
    match list_find (λ n, fold_key (lit n) = fold_key (lit k)) names with
    | Some (_, n) => Some n
    | None => None
    end.

(** Decode an object into a struct: [step] stores a member in the field its
    key selects, in the order of the members. *)
Definition decode_struct {A} (names : list string) (step : A → string → json → option A) (v : json) (old : A)
    : option A :=
  match v with
  | JNull => Some old
  | JObj m =>
      fold_left (λ acc '(k, x),
          a ← acc; match selects names k with Some n => step a n x | None => Some a end) m (Some old)
  | _ => None
  end.

(** A Go slice: its elements, and what the capacity beyond them still holds. *)
Record slice_of (A : Type) := mk_slice { sl_elems : list A; sl_spare : list A }.
Arguments mk_slice {A} _ _.
Arguments sl_elems {A} _.
Arguments sl_spare {A} _.
Definition nil_slice {A} : slice_of A := mk_slice [] [].

(** An array into a slice: element [i] is decoded over what the slice's array
    holds there, or over a zero value. *)
Definition decode_slice {A} (zero : A) (dec : json → A → option A) (v : json) (old : slice_of A) : option (slice_of A) :=
  match v with
  | JNull => Some nil_slice
  | JArr [] => Some nil_slice
  | JArr l =>
      let held := sl_elems old ++ sl_spare old in
      a ← mapM id (imap (λ i x, dec x (default zero (held !! i))) l);
      Some (mk_slice a (drop (length l) held))
  | _ => None
  end.

(** Single quotes for double quotes, to write JSON texts in examples. *)
Definition js (s : string) : bytes := map (λ c, if Ascii.eqb c "'" then quote else c) (lit s).

Example valid_object : Valid (js "{'a': [1, -2.5e3, true, null], 'b' : {}} ") = true.
Proof. vm_compute. reflexivity. Qed.
Example invalid_comma : Valid (js "{'a': 1,}") = false.
Proof. vm_compute. reflexivity. Qed.
Example invalid_zero : Valid (js "01") = false.
Proof. vm_compute. reflexivity. Qed.
Example unquote_escapes : unquote (js "a\u00e9\n\ud83d\ude00") = str (lit "a" ++ map byte_of [195; 169; 10; 240; 159; 152; 128]).
Proof. vm_compute. reflexivity. Qed.
Example int_overflow : parse_i64 (lit "9223372036854775808") = None.
Proof. vm_compute. reflexivity. Qed.
Example selects_folded : selects ["index"; "finish_reason"]%string (js "INDEX") = Some "index"%string.
Proof. vm_compute. reflexivity. Qed.
