(* ===== verification/JsonFacts.v ===== *)
(** * Facts about the JSON parser

    What the parser consumes, that its fuel is enough and immaterial, and that
    a parse depends on the text after a value only through its first byte. *)

From S2P Require Import Prelude Json.
Local Open Scope Z_scope.
#[local] Arguments Ascii.eqb : simpl never.
#[local] Arguments is_digit : simpl never.
#[local] Arguments is_ws : simpl never.

(** ** Tokens *)

Lemma skip_ws_suffix l : ∃ w, l = w ++ skip_ws l ∧ Forall (λ c, is_ws c = true) w.
Proof.
  induction l as [|c l (w & E & H)]; [by exists []|]. simpl. destruct (is_ws c) eqn:Hc; [|by exists []].
  exists (c :: w). split; [by rewrite E at 1|by constructor].
Qed.

Lemma skip_ws_head l c t : skip_ws l = c :: t → is_ws c = false.
Proof. induction l as [|d l IH]; [done|]. simpl. destruct (is_ws d) eqn:Hd; [done|]. congruence. Qed.

Lemma skip_ws_app w l : Forall (λ c, is_ws c = true) w → skip_ws (w ++ l) = skip_ws l.
Proof. induction 1 as [|c w Hc _ IH]; [done|]. simpl. by rewrite Hc. Qed.

Lemma skip_ws_id c t : is_ws c = false → skip_ws (c :: t) = c :: t.
Proof. simpl. by intros ->. Qed.

Lemma parse_string_app l raw r : parse_string l = Some (raw, r) → l = raw ++ quote :: r.
Proof.
  revert raw r. induction l as [l IH] using (induction_ltof1 _ (@length ascii)); unfold ltof in IH.
  destruct l as [|c l1]; [done|]. intros raw r. simpl.
  destruct (Ascii.eqb_spec c quote) as [->|Hq]; [by intros [= <- <-]|].
  destruct (Ascii.eqb c backslash).
  - destruct l1 as [|e l2]; [done|]. destruct (Ascii.eqb e "u").
    + destruct l2 as [|h1 [|h2 [|h3 [|h4 l3]]]]; try done. destruct (_ && _); [|done].
      destruct (parse_string l3) as [[raw' r']|] eqn:E; [|done]. intros [= <- <-].
      rewrite (IH l3 ltac:(simpl; lia) _ _ E). done.
    + destruct (is_escape e); [|done]. destruct (parse_string l2) as [[raw' r']|] eqn:E; [|done]. intros [= <- <-].
      rewrite (IH l2 ltac:(simpl; lia) _ _ E). done.
  - destruct (code c <? 32); [done|]. destruct (parse_string l1) as [[raw' r']|] eqn:E; [|done]. intros [= <- <-].
    rewrite (IH l1 ltac:(simpl; lia) _ _ E). done.
Qed.

Lemma parse_string_rest l raw r r' : parse_string l = Some (raw, r) → parse_string (raw ++ quote :: r') = Some (raw, r').
Proof.
  revert raw r. induction l as [l IH] using (induction_ltof1 _ (@length ascii)); unfold ltof in IH.
  destruct l as [|c l1]; [done|]. intros raw r. simpl.
  destruct (Ascii.eqb_spec c quote) as [->|Hq]; [by intros [= <- <-]|].
  destruct (Ascii.eqb c backslash) eqn:Hb.
  - destruct l1 as [|e l2]; [done|]. destruct (Ascii.eqb e "u") eqn:He.
    + destruct l2 as [|h1 [|h2 [|h3 [|h4 l3]]]]; try done. destruct (_ && _) eqn:Hh; [|done].
      destruct (parse_string l3) as [[raw' r1]|] eqn:E; [|done]. intros [= <- <-]. simpl.
      apply Ascii.eqb_neq in Hq. rewrite Hq, Hb, He, Hh. by rewrite (IH l3 ltac:(simpl; lia) _ _ E).
    + destruct (is_escape e) eqn:Hs; [|done]. destruct (parse_string l2) as [[raw' r1]|] eqn:E; [|done].
      intros [= <- <-]. simpl. apply Ascii.eqb_neq in Hq. rewrite Hq, Hb, He, Hs.
      by rewrite (IH l2 ltac:(simpl; lia) _ _ E).
  - destruct (code c <? 32) eqn:Hc; [done|]. destruct (parse_string l1) as [[raw' r1]|] eqn:E; [|done].
    intros [= <- <-]. simpl. apply Ascii.eqb_neq in Hq. rewrite Hq, Hb, Hc.
    by rewrite (IH l1 ltac:(simpl; lia) _ _ E).
Qed.

(** ** Numbers *)

(** The bytes of a number. *)
Definition num_byte (c : ascii) : bool := is_digit c || ascii_in c "+-.eE".

#[local] Arguments num_byte : simpl never.

Definition head_is (P : ascii → bool) (l : bytes) : bool := match l with c :: _ => P c | [] => false end.

Lemma span_digits_app l d r : span_digits l = (d, r) →
  l = d ++ r ∧ forallb is_digit d = true ∧ head_is is_digit r = false.
Proof.
  revert d r. induction l as [|c l IH]; intros d r; simpl; [by intros [= <- <-]|].
  destruct (is_digit c) eqn:Hc; [|intros [= <- <-]; by simpl; rewrite Hc].
  destruct (span_digits l) as [d' r'] eqn:E. intros [= <- <-].
  destruct (IH _ _ eq_refl) as (-> & H1 & H2). simpl. by rewrite Hc, H1.
Qed.

Lemma span_digits_rest d r : forallb is_digit d = true → head_is is_digit r = false → span_digits (d ++ r) = (d, r).
Proof.
  induction d as [|c d IH]; intros Hd Hr; simpl in *.
  - destruct r as [|c r]; [done|]. simpl in *. by rewrite Hr.
  - apply andb_true_iff in Hd as [-> Hd]. by rewrite IH.
Qed.

Lemma digit_num c : is_digit c = true → num_byte c = true.
Proof. unfold num_byte. by intros ->. Qed.

Lemma digits_num d : forallb is_digit d = true → forallb num_byte d = true.
Proof. induction d as [|c d IH]; [done|]. simpl. intros [H1 H2]%andb_true_iff. by rewrite digit_num, IH. Qed.

(** Heads a number part may be followed by. *)
Definition not_digit (r : bytes) : Prop := head_is is_digit r = false.
Definition not_num (r : bytes) : Prop := head_is num_byte r = false.

Lemma not_num_digit r : not_num r → not_digit r.
Proof.
  destruct r as [|c r]; [done|]. unfold not_num, not_digit, num_byte. simpl. intros [H _]%orb_false_iff. done.
Qed.

Lemma not_num_char r c : not_num r → num_byte c = true → head_is (Ascii.eqb c) r = false.
Proof.
  destruct r as [|x r]; [done|]. unfold not_num. simpl. intros H Hc.
  destruct (Ascii.eqb_spec c x); [congruence|done].
Qed.

Lemma parse_int_spec l raw r : parse_int l = Some (raw, r) →
  l = raw ++ r ∧ raw ≠ [] ∧ forallb num_byte raw = true ∧ (∀ r', not_digit r' → parse_int (raw ++ r') = Some (raw, r')).
Proof.
  destruct l as [|c l]; [done|]. simpl. destruct (Ascii.eqb_spec c "0") as [->|Hc].
  - intros [= <- <-]. done.
  - destruct (is_digit c) eqn:Hd; [|done]. destruct (span_digits l) as [d r1] eqn:E. intros [= <- <-].
    apply span_digits_app in E as (-> & Hall & _). split_and!; [done|done|by simpl; rewrite digit_num, digits_num|].
    intros r' Hr. simpl. apply Ascii.eqb_neq in Hc. by rewrite Hc, Hd, span_digits_rest.
Qed.

Lemma parse_digits1_spec l raw r : parse_digits1 l = Some (raw, r) →
  l = raw ++ r ∧ forallb num_byte raw = true ∧ (∀ r', not_digit r' → parse_digits1 (raw ++ r') = Some (raw, r')).
Proof.
  unfold parse_digits1. destruct (span_digits l) as [[|c d] r1] eqn:E; [done|]. intros [= <- <-].
  apply span_digits_app in E as (-> & Hall & _). split_and!; [done|by apply digits_num|].
  intros r' Hr. by rewrite span_digits_rest.
Qed.

Lemma parse_frac_spec l raw r : parse_frac l = Some (raw, r) →
  l = raw ++ r ∧ forallb num_byte raw = true ∧ (raw = [] ∨ head_is (Ascii.eqb ".") raw = true)
  ∧ (∀ r', not_digit r' → head_is (Ascii.eqb ".") r' = false → parse_frac (raw ++ r') = Some (raw, r')).
Proof.
  destruct l as [|c l]; simpl.
  { intros [= <- <-]. split_and!; [done|done|by left|]. intros [|c r'] _ H; [done|]. simpl in *.
    by rewrite Ascii.eqb_sym, H. }
  destruct (Ascii.eqb_spec c ".") as [->|Hc].
  - destruct (parse_digits1 l) as [[d r1]|] eqn:E; [|done]. intros [= <- <-].
    apply parse_digits1_spec in E as (-> & H1 & H2). split_and!; [done|done|by right|]. intros r' Hr _. simpl. by rewrite H2.
  - intros [= <- <-]. split_and!; [done|done|by left|]. intros [|x r'] _ H; [done|]. simpl in *.
    by rewrite Ascii.eqb_sym, H.
Qed.

Definition is_exp (c : ascii) : bool := Ascii.eqb c "e" || Ascii.eqb c "E".

Lemma parse_exp_spec l raw r : parse_exp l = Some (raw, r) →
  l = raw ++ r ∧ forallb num_byte raw = true ∧ (raw = [] ∨ head_is is_exp raw = true)
  ∧ (∀ r', not_digit r' → head_is is_exp r' = false → parse_exp (raw ++ r') = Some (raw, r')).
Proof.
  destruct l as [|c l]; simpl.
  { intros [= <- <-]. split_and!; [done|done|by left|]. intros [|c r'] _ H; [done|]. simpl in *. unfold is_exp in H. by rewrite H. }
  destruct (Ascii.eqb c "e" || Ascii.eqb c "E") eqn:Hc.
  - assert (Hn : num_byte c = true). { unfold num_byte. apply orb_true_iff in Hc as [->%Ascii.eqb_eq| ->%Ascii.eqb_eq]; done. }
    destruct l as [|s l2]; [done|]. destruct (Ascii.eqb s "+" || Ascii.eqb s "-") eqn:Hs.
    + assert (Hn' : num_byte s = true). { unfold num_byte. apply orb_true_iff in Hs as [->%Ascii.eqb_eq| ->%Ascii.eqb_eq]; done. }
      destruct (parse_digits1 l2) as [[d r1]|] eqn:E; [|done]. intros [= <- <-].
      apply parse_digits1_spec in E as (-> & H1 & H2). split_and!; [done|simpl; by rewrite Hn, Hn', H1|right; exact Hc|].
      intros r' Hr _. simpl. by rewrite Hc, Hs, H2.
    + destruct (parse_digits1 (s :: l2)) as [[d r1]|] eqn:E; [|done]. intros [= <- <-].
      assert (Hd : ∃ d', d = s :: d').
      { unfold parse_digits1 in E. simpl in E. destruct (is_digit s); [|done]. destruct (span_digits l2). injection E as <- <-. eauto. }
      destruct Hd as [d' ->]. apply parse_digits1_spec in E as (E & H1 & H2). simpl in E. injection E as ->.
      split_and!; [done|simpl in *; by rewrite Hn, H1|right; exact Hc|].
      intros r' Hr _. simpl. rewrite Hc, Hs. change (s :: d' ++ r') with ((s :: d') ++ r'). by rewrite H2.
  - intros [= <- <-]. split_and!; [done|done|by left|]. intros [|x r'] _ H; [done|]. simpl in *. unfold is_exp in H. by rewrite H.
Qed.

Lemma parse_number_spec l raw r : parse_number l = Some (raw, r) →
  l = raw ++ r ∧ raw ≠ [] ∧ forallb num_byte raw = true
  ∧ (∀ r', not_num r' → parse_number (raw ++ r') = Some (raw, r')).
Proof.
  unfold parse_number. set (p := match l with c :: l' => _ | [] => _ end).
  assert (Hp : ∃ sign l1, p = (sign, l1) ∧ l = sign ++ l1 ∧ forallb num_byte sign = true
    ∧ (sign = [] ∨ sign = ["-"%char])).
  { unfold p. destruct l as [|c l']; [by exists [], []; eauto|]. destruct (Ascii.eqb_spec c "-") as [->|].
    - exists ["-"%char], l'. eauto.
    - exists [], (c :: l'). eauto. }
  destruct Hp as (sign & l1 & -> & -> & Hsign & Hs).
  destruct (parse_int l1) as [[i l2]|] eqn:Ei; [|done]. simpl.
  destruct (parse_frac l2) as [[f l3]|] eqn:Ef; [|done]. simpl.
  destruct (parse_exp l3) as [[e l4]|] eqn:Ee; [|done]. simpl. intros [= <- <-].
  apply parse_int_spec in Ei as (-> & Hne & Hi & Ri). apply parse_frac_spec in Ef as (-> & Hf & Hdot & Rf).
  apply parse_exp_spec in Ee as (-> & He & Hexp & Re). split_and!.
  - by rewrite <-!app_assoc.
  - by destruct sign, i.
  - by rewrite !forallb_app, Hsign, Hi, Hf, He.
  - intros r' Hr. assert (Hd := not_num_digit _ Hr).
    assert (Hx : head_is is_exp r' = false).
    { destruct r' as [|x r']; [done|]. unfold not_num in Hr. simpl in *. unfold is_exp.
      destruct (Ascii.eqb_spec x "e") as [->|]; [done|]. destruct (Ascii.eqb_spec x "E") as [->|]; done. }
    assert (Hse : not_digit (e ++ r') ∧ head_is (Ascii.eqb ".") (e ++ r') = false).
    { destruct Hexp as [->|Hexp]; [split; [done|by apply not_num_char]|]. destruct e as [|x e]; [done|].
      unfold not_digit. simpl in *. unfold is_exp in Hexp. apply orb_true_iff in Hexp as [->%Ascii.eqb_eq| ->%Ascii.eqb_eq]; done. }
    destruct Hse as [Hse1 Hse2].
    assert (Hsf : not_digit (f ++ e ++ r')).
    { destruct Hdot as [->|Hdot]; [done|]. destruct f as [|x f]; [done|]. unfold not_digit. simpl in *.
      apply Ascii.eqb_eq in Hdot as <-. done. }
    assert (Eq : ∀ x, match ((sign ++ i ++ f ++ e) ++ r') with
       | [] => x | c :: l' => if Ascii.eqb c "-" then ([c], l') else ([], (sign ++ i ++ f ++ e) ++ r') end
       = (sign, i ++ f ++ e ++ r')).
    { intros x. rewrite <-!app_assoc. destruct Hs as [->| ->]; [|done]. simpl. destruct i as [|c i]; [done|]. simpl.
      assert (Hc : Ascii.eqb c "-" = false).
      { pose proof (Ri [] eq_refl) as H. simpl in H. destruct (Ascii.eqb_spec c "-") as [->|]; [|done]. done. }
      by rewrite Hc. }
    rewrite Eq. rewrite Ri by done. simpl. rewrite Rf by done. simpl. rewrite Re by done. done.
Qed.

Lemma strip_spec p l r : strip p l = Some r → l = p ++ r ∧ ∀ r', strip p (p ++ r') = Some r'.
Proof.
  assert (Hr : ∀ r', strip p (p ++ r') = Some r').
  { induction p as [|a p IH]; intros r'; [done|]. simpl. by rewrite Ascii.eqb_refl. }
  intros H. split; [|done]. clear Hr. revert l H. induction p as [|a p IH]; intros l H; simpl in *; [by injection H as ->|].
  destruct l as [|b l]; [done|]. destruct (Ascii.eqb_spec a b) as [<-|]; [|done]. by rewrite (IH _ H) at 1.
Qed.

(** ** Values *)

(** [p] consumed the text [w]; it would with any fuel from [2 |w|] on and
    whatever follows, if that satisfies [ok]. *)
Definition consumed {A} (p : nat → bytes → option (A * bytes)) (ok : bytes → Prop) (l : bytes) (a : A) (r : bytes) (w : bytes) : Prop :=
  l = w ++ r ∧ w ≠ [] ∧ ∀ f r', (2 * length w ≤ f)%nat → ok r' → p f (w ++ r') = Some (a, r').

(** White space split off, with what is left over. *)
Lemma skip_ws_split l : ∃ w, l = w ++ skip_ws l ∧ ∀ c t, is_ws c = false → skip_ws (w ++ c :: t) = c :: t.
Proof.
  destruct (skip_ws_suffix l) as (w & E & H). exists w. split; [done|]. intros c t Hc.
  by rewrite skip_ws_app, skip_ws_id.
Qed.

Lemma ws_byte_not_num c : is_ws c = true → num_byte c = false.
Proof. destruct c as [[] [] [] [] [] [] [] []]; by vm_compute. Qed.

(** After a value come white space and a delimiter. *)
Lemma not_num_ws w c t : Forall (λ c, is_ws c = true) w → num_byte c = false → not_num (w ++ c :: t).
Proof. intros [|x w' Hx _] Hc; [exact Hc|]. by apply ws_byte_not_num. Qed.

Definition value_spec (fuel : nat) : Prop := ∀ d l v r,
  parse_value fuel d l = Some (v, r) → ∃ w, consumed (λ f, parse_value f d) not_num l v r w.
Definition members_spec (fuel : nat) : Prop := ∀ d l m r,
  parse_members fuel d l = Some (m, r) → ∃ w, consumed (λ f, parse_members f d) (λ _, True) l m r w.
Definition elements_spec (fuel : nat) : Prop := ∀ d l m r,
  parse_elements fuel d l = Some (m, r) → ∃ w, consumed (λ f, parse_elements f d) (λ _, True) l m r w.

Lemma container_text l' d r : skip_ws l' = d :: r → ∃ ws, l' = ws ++ d :: r ∧ ∀ t, skip_ws (ws ++ d :: t) = d :: t.
Proof.
  intros H. destruct (skip_ws_split l') as (ws & E & Hw). exists ws. split; [congruence|].
  intros t. apply Hw. by eapply skip_ws_head.
Qed.

(** What a value read after its first byte consumed. *)
Definition tail_consumed (p : nat → bytes → option (json * bytes)) (l' : bytes) (v : json) (r w : bytes) : Prop :=
  l' = w ++ r ∧ ∀ f r', (2 * S (length w) ≤ S f)%nat → not_num r' → p f (w ++ r') = Some (v, r').

Lemma string_tail l' v r :
  ('(raw, r) ← parse_string l'; Some (JStr raw, r)) = Some (v, r) →
  ∃ w, tail_consumed (λ _ l, '(raw, r) ← parse_string l; Some (JStr raw, r)) l' v r w.
Proof.
  destruct (parse_string l') as [[raw r1]|] eqn:E; [|done]. cbn [mbind option_bind]. intros [= <- <-].
  exists (raw ++ [quote]). split; [rewrite <-app_assoc; by apply parse_string_app|].
  intros f r' _ _. rewrite <-app_assoc. cbn [app]. by rewrite (parse_string_rest _ _ _ r' E).
Qed.

Lemma literal_tail p v0 l' v r :
  parse_literal p v0 l' = Some (v, r) → ∃ w, tail_consumed (λ _, parse_literal p v0) l' v r w.
Proof.
  unfold parse_literal. destruct (strip p l') as [r1|] eqn:E; [|done]. cbn [mbind option_bind]. intros [= <- <-].
  apply strip_spec in E as [-> Hs]. exists p. split; [done|]. intros f r' _ _. by rewrite Hs.
Qed.

Lemma container_tail {A} close (mk : list A → json) (items : nat → bytes → option (list A * bytes)) fuel d l' v r :
  (∀ l m r, items fuel l = Some (m, r) → ∃ w, consumed items (λ _, True) l m r w) →
  parse_container close mk (items fuel) d l' = Some (v, r) →
  ∃ w, tail_consumed (λ f, parse_container close mk (items f) d) l' v r w.
Proof.
  intros IH. unfold parse_container. destruct (max_nesting <=? d) eqn:Hd; [done|].
  destruct (skip_ws l') as [|x t] eqn:Ews; [done|].
  destruct (container_text _ _ _ Ews) as (ws & -> & Hws). destruct (Ascii.eqb x close) eqn:Hx.
  - intros [= <- <-]. exists (ws ++ [x]). split; [by rewrite <-app_assoc|].
    intros f r' _ _. rewrite <-app_assoc. cbn [app]. by rewrite Hws, Hx.
  - destruct (items fuel (x :: t)) as [[m r1]|] eqn:E; [|done]. cbn [mbind option_bind]. intros [= <- <-].
    destruct (IH _ _ _ E) as ([|y w] & Ew & Hne & Hw); [done|]. simpl in Ew. injection Ew as -> ->.
    exists (ws ++ y :: w). split; [by rewrite <-app_assoc|].
    intros f r' Hf _. rewrite <-app_assoc. cbn [app]. rewrite Hws, Hx.
    change (y :: w ++ r') with ((y :: w) ++ r'). rewrite Hw; [done| |done].
    rewrite length_app in Hf. simpl in *. lia.
Qed.

Lemma number_tail l v r :
  ('(raw, r) ← parse_number l; Some (JNum raw, r)) = Some (v, r) →
  ∃ w, consumed (λ _ l, '(raw, r) ← parse_number l; Some (JNum raw, r)) not_num l v r w.
Proof.
  destruct (parse_number l) as [[raw r1]|] eqn:E; [|done]. cbn [mbind option_bind]. intros [= <- <-].
  apply parse_number_spec in E as (-> & Hne & _ & Hr). exists raw. split_and!; [done|done|].
  intros f r' _ Hr'. by rewrite Hr.
Qed.

Lemma value_step fuel : members_spec fuel → elements_spec fuel → value_spec (S fuel).
Proof.
  intros IHm IHe d l v r. destruct l as [|c l']; [done|]. cbn [parse_value].
  assert (Hcons : ∀ p : nat → bytes → option (json * bytes),
    (∀ f l, parse_value (S f) d (c :: l) = p f l) → (∃ w, tail_consumed p l' v r w) →
    ∃ w, consumed (λ f, parse_value f d) not_num (c :: l') v r w).
  { intros p Hp (w & -> & Hw). exists (c :: w). split_and!; [done|done|].
    intros [|f] r' Hf Hr'; [simpl in Hf; lia|]. cbn [app]. rewrite Hp. by apply Hw. }
  destruct (Ascii.eqb c quote) eqn:Hq.
  { intros H%string_tail. apply (Hcons _ ltac:(intros f l; cbn [parse_value]; by rewrite Hq) H). }
  destruct (Ascii.eqb c "{") eqn:Hb.
  { intros H%(container_tail _ _ (λ f, parse_members f (d + 1))); [|intros; by eapply IHm].
    apply (Hcons _ ltac:(intros f l; cbn [parse_value]; by rewrite Hq, Hb) H). }
  destruct (Ascii.eqb c "[") eqn:Hk.
  { intros H%(container_tail _ _ (λ f, parse_elements f (d + 1))); [|intros; by eapply IHe].
    apply (Hcons _ ltac:(intros f l; cbn [parse_value]; by rewrite Hq, Hb, Hk) H). }
  destruct (Ascii.eqb c "t") eqn:Ht.
  { intros H%literal_tail. apply (Hcons _ ltac:(intros f l; cbn [parse_value]; by rewrite Hq, Hb, Hk, Ht) H). }
  destruct (Ascii.eqb c "f") eqn:Hf.
  { intros H%literal_tail. apply (Hcons _ ltac:(intros f l; cbn [parse_value]; by rewrite Hq, Hb, Hk, Ht, Hf) H). }
  destruct (Ascii.eqb c "n") eqn:Hn.
  { intros H%literal_tail. apply (Hcons _ ltac:(intros f l; cbn [parse_value]; by rewrite Hq, Hb, Hk, Ht, Hf, Hn) H). }
  intros ([|y w] & Ew & Hne & Hw)%number_tail; [done|]. simpl in Ew. injection Ew as <- ->.
  exists (c :: w). split_and!; [done|done|]. intros [|f] r' Hl Hr'; [simpl in Hl; lia|].
  cbn [app parse_value]. rewrite Hq, Hb, Hk, Ht, Hf, Hn. by apply (Hw (S f)).
Qed.

Lemma delimiter_not_num ws c t : (∀ t, skip_ws (ws ++ c :: t) = c :: t) → num_byte c = false → not_num (ws ++ c :: t).
Proof.
  intros H Hc. destruct ws as [|x ws]; [exact Hc|]. unfold not_num. simpl.
  destruct (is_ws x) eqn:Hx; [by apply ws_byte_not_num|].
  specialize (H []). simpl in H. rewrite Hx in H. by injection H as -> _.
Qed.

(** A value, then white space and the delimiter [c]. *)
Lemma value_then fuel d l v r c t :
  value_spec fuel → parse_value fuel d l = Some (v, r) → skip_ws r = c :: t → num_byte c = false →
  ∃ w ws, l = w ++ ws ++ c :: t ∧ w ≠ [] ∧
    ∀ f t', (2 * length w ≤ f)%nat →
      parse_value f d (w ++ ws ++ c :: t') = Some (v, ws ++ c :: t') ∧ skip_ws (ws ++ c :: t') = c :: t'.
Proof.
  intros IH (w & -> & Hne & Hw)%IH Hr Hc. destruct (container_text _ _ _ Hr) as (ws & -> & Hws).
  exists w, ws. split_and!; [done|done|]. intros f t' Hf. split; [|apply Hws].
  apply Hw; [done|]. by apply delimiter_not_num.
Qed.

Lemma elements_step fuel : value_spec fuel → elements_spec fuel → elements_spec (S fuel).
Proof.
  intros IHv IHe d l m r. cbn [parse_elements].
  destruct (parse_value fuel d l) as [[v r1]|] eqn:Ev; [|done]. cbn [mbind option_bind].
  destruct (skip_ws r1) as [|e r2] eqn:Es; [done|]. destruct (Ascii.eqb_spec e "]") as [->|Hb].
  - intros [= <- <-]. destruct (value_then _ _ _ _ _ _ _ IHv Ev Es) as (w & ws & -> & Hne & Hw); [done|].
    exists (w ++ ws ++ ["]"%char]). split_and!; [by rewrite <-!app_assoc|by destruct w|].
    intros [|f] r' Hf _; [rewrite !length_app in Hf; simpl in Hf; lia|]. cbn [parse_elements].
    rewrite <-!app_assoc. cbn [app]. destruct (Hw f r') as [E1 E2]; [rewrite !length_app in Hf; simpl in Hf; lia|].
    rewrite E1. cbn [mbind option_bind]. by rewrite E2.
  - destruct (Ascii.eqb_spec e ",") as [->|]; [|done].
    destruct (parse_elements fuel d (skip_ws r2)) as [[m' r3]|] eqn:Em; [|done]. cbn [mbind option_bind]. intros [= <- <-].
    destruct (value_then _ _ _ _ _ _ _ IHv Ev Es) as (w & ws & -> & Hne & Hw); [done|].
    destruct (IHe _ _ _ _ Em) as (w2 & Ew2 & Hne2 & Hw2). destruct w2 as [|y w2]; [done|]. simpl in Ew2.
    destruct (container_text _ _ _ Ew2) as (ws2 & -> & Hws2).
    exists (w ++ ws ++ ","%char :: ws2 ++ y :: w2). split_and!.
    + rewrite <-!app_assoc. cbn [app]. by rewrite <-!app_assoc.
    + by destruct w.
    + intros [|f] r' Hf _; [rewrite !length_app in Hf; simpl in Hf; lia|]. cbn [parse_elements].
      rewrite !length_app in Hf. cbn [length] in Hf. rewrite length_app in Hf. cbn [length] in Hf.
      rewrite <-!app_assoc. cbn [app]. rewrite <-app_assoc. cbn [app].
      destruct (Hw f (ws2 ++ y :: w2 ++ r')) as [E1 E2]; [lia|].
      rewrite E1. cbn [mbind option_bind]. rewrite E2. cbn [Ascii.eqb]. rewrite Hws2.
      change (y :: w2 ++ r') with ((y :: w2) ++ r').
      assert (E3 : parse_elements f d ((y :: w2) ++ r') = Some (m', r')) by (apply Hw2; [simpl; lia|done]).
      by rewrite E3.
Qed.

Lemma members_step fuel : value_spec fuel → members_spec fuel → members_spec (S fuel).
Proof.
  intros IHv IHm d l m r. destruct l as [|c l']; [done|]. cbn [parse_members].
  destruct (Ascii.eqb_spec c quote) as [->|]; [|done]. cbn [negb].
  destruct (parse_string l') as [[key r1]|] eqn:Ek; [|done]. cbn [mbind option_bind].
  destruct (skip_ws r1) as [|x r2] eqn:Es1; [done|]. destruct (Ascii.eqb_spec x ":") as [->|]; [|done]. cbn [negb].
  destruct (parse_value fuel d (skip_ws r2)) as [[v r3]|] eqn:Ev; [|done]. cbn [mbind option_bind].
  destruct (skip_ws r3) as [|e r4] eqn:Es; [done|].
  rewrite (parse_string_app _ _ _ Ek). destruct (container_text _ _ _ Es1) as (ws1 & -> & Hws1).
  destruct (skip_ws_split r2) as (ws2 & Eq2 & Hws2).
  assert (Hhead : ∀ t, skip_ws r2 = [] ∨ (∀ w, skip_ws r2 = w ++ t → w ≠ [] → ∀ t', skip_ws (ws2 ++ w ++ t') = w ++ t')).
  { intros t. destruct (skip_ws r2) as [|y t0] eqn:E0; [by left|right]. intros [|z w] Ew Hw t'; [done|].
    simpl in Ew. injection Ew as <- _. apply Hws2. by eapply skip_ws_head. }
  destruct (Ascii.eqb_spec e "}") as [->|Hb].
  - intros [= <- <-]. destruct (value_then _ _ _ _ _ _ _ IHv Ev Es) as (w & ws & Ew & Hne & Hw); [done|].
    destruct (Hhead (ws ++ "}"%char :: r4)) as [E|Hsk]; [rewrite E in Ew; by destruct w|].
    exists (quote :: key ++ quote :: ws1 ++ ":"%char :: ws2 ++ w ++ ws ++ ["}"%char]). split_and!; [|done|].
    + rewrite Eq2, Ew. repeat progress (cbn [app]; rewrite <-?app_assoc). done.
    + intros [|f] r' Hf _; [simpl in Hf; lia|].
      cbn [length] in Hf. rewrite length_app in Hf. cbn [length] in Hf. rewrite length_app in Hf. cbn [length] in Hf.
      rewrite !length_app in Hf. repeat progress (cbn [app]; rewrite <-?app_assoc). cbn [parse_members].
      rewrite Ascii.eqb_refl. cbn [negb]. rewrite (parse_string_rest _ _ _ _ Ek). cbn [mbind option_bind].
      rewrite Hws1. cbn [negb]. rewrite Ascii.eqb_refl. cbn [negb]. rewrite (Hsk w Ew Hne).
      destruct (Hw f r') as [E1 E2]; [lia|]. rewrite E1. cbn [mbind option_bind]. by rewrite E2.
  - destruct (Ascii.eqb_spec e ",") as [->|]; [|done].
    destruct (parse_members fuel d (skip_ws r4)) as [[m' r5]|] eqn:Em; [|done]. cbn [mbind option_bind]. intros [= <- <-].
    destruct (value_then _ _ _ _ _ _ _ IHv Ev Es) as (w & ws & Ew & Hne & Hw); [done|].
    destruct (Hhead (ws ++ ","%char :: r4)) as [E|Hsk]; [rewrite E in Ew; by destruct w|].
    destruct (IHm _ _ _ _ Em) as ([|y w2] & Ew2 & Hne2 & Hw2); [done|]. simpl in Ew2.
    destruct (container_text _ _ _ Ew2) as (ws4 & -> & Hws4).
    exists (quote :: key ++ quote :: ws1 ++ ":"%char :: ws2 ++ w ++ ws ++ ","%char :: ws4 ++ y :: w2). split_and!; [|done|].
    + rewrite Eq2, Ew. repeat progress (cbn [app]; rewrite <-?app_assoc). done.
    + intros [|f] r' Hf _; [simpl in Hf; lia|].
      cbn [length] in Hf. rewrite length_app in Hf. cbn [length] in Hf. rewrite length_app in Hf. cbn [length] in Hf.
      rewrite !length_app in Hf. cbn [length] in Hf. rewrite length_app in Hf. cbn [length] in Hf.
      repeat progress (cbn [app]; rewrite <-?app_assoc). cbn [parse_members].
      rewrite Ascii.eqb_refl. cbn [negb]. rewrite (parse_string_rest _ _ _ _ Ek). cbn [mbind option_bind].
      rewrite Hws1, Ascii.eqb_refl. cbn [negb]. rewrite (Hsk w Ew Hne).
      destruct (Hw f (ws4 ++ y :: w2 ++ r')) as [E1 E2]; [lia|]. rewrite E1. cbn [mbind option_bind]. rewrite E2, Hws4.
      change (y :: w2 ++ r') with ((y :: w2) ++ r').
      assert (E3 : parse_members f d ((y :: w2) ++ r') = Some (m', r')) by (apply Hw2; [simpl; lia|done]).
      by rewrite E3.
Qed.

Theorem parse_consumed fuel : value_spec fuel ∧ members_spec fuel ∧ elements_spec fuel.
Proof.
  induction fuel as [|fuel (Hv & Hm & He)]; [split_and!; intros d [|c l] m r H; discriminate H|].
  split_and!; [by apply value_step|by apply members_step|by apply elements_step].
Qed.

(** A text valid inside a container is valid further out. *)
Lemma container_depth {A} close (mk : list A → json) (items : Z → bytes → option (list A * bytes)) d d' l x :
  d' <= d → (∀ l y, items d l = Some y → items d' l = Some y) →
  parse_container close mk (items d) d l = Some x → parse_container close mk (items d') d' l = Some x.
Proof.
  intros Hd Hi. unfold parse_container. destruct (Z.leb_spec max_nesting d); [done|].
  destruct (Z.leb_spec max_nesting d'); [lia|]. destruct (skip_ws l) as [|y t]; [done|].
  destruct (Ascii.eqb y close); [done|]. destruct (items d (y :: t)) as [p|] eqn:E; [|done]. by rewrite (Hi _ _ E).
Qed.

Lemma parse_depth fuel :
  (∀ d d' l x, d' <= d → parse_value fuel d l = Some x → parse_value fuel d' l = Some x)
  ∧ (∀ d d' l x, d' <= d → parse_members fuel d l = Some x → parse_members fuel d' l = Some x)
  ∧ (∀ d d' l x, d' <= d → parse_elements fuel d l = Some x → parse_elements fuel d' l = Some x).
Proof.
  induction fuel as [|fuel (Hv & Hm & He)]; [split_and!; intros d d' [|c l] x _ H; discriminate H|].
  split_and!; intros d d' l x Hd.
  - destruct l as [|c t]; [done|]. cbn [parse_value].
    destruct (Ascii.eqb c quote); [done|]. destruct (Ascii.eqb c "{").
    { apply (container_depth "}" JObj (λ d, parse_members fuel (d + 1))); [done|]. intros ? ?. apply Hm. lia. }
    destruct (Ascii.eqb c "["); [|done].
    apply (container_depth "]" JArr (λ d, parse_elements fuel (d + 1))); [done|]. intros ? ?. apply He. lia.
  - destruct l as [|c t]; [done|]. cbn [parse_members]. destruct (negb _); [done|].
    destruct (parse_string t) as [[key r1]|]; [|done]. cbn [mbind option_bind].
    destruct (skip_ws r1) as [|y r2]; [done|]. destruct (negb _); [done|].
    destruct (parse_value fuel d (skip_ws r2)) as [[v r3]|] eqn:Ev; [|done]. rewrite (Hv _ _ _ _ Hd Ev).
    cbn [mbind option_bind]. destruct (skip_ws r3) as [|e r4]; [done|]. destruct (Ascii.eqb e "}"); [done|].
    destruct (Ascii.eqb e ","); [|done]. destruct (parse_members fuel d (skip_ws r4)) as [p|] eqn:Em; [|done].
    by rewrite (Hm _ _ _ _ Hd Em).
  - cbn [parse_elements]. destruct (parse_value fuel d l) as [[v r1]|] eqn:Ev; [|done]. rewrite (Hv _ _ _ _ Hd Ev).
    cbn [mbind option_bind]. destruct (skip_ws r1) as [|e r2]; [done|]. destruct (Ascii.eqb e "]"); [done|].
    destruct (Ascii.eqb e ","); [|done]. destruct (parse_elements fuel d (skip_ws r2)) as [p|] eqn:Em; [|done].
    by rewrite (He _ _ _ _ Hd Em).
Qed.

(** A value's own text, with white space after it, parses to the value. *)
Lemma parse_own_text fuel d l v r w :
  parse_value fuel d (skip_ws l) = Some (v, r) → 0 <= d → skip_ws w = [] → head_is num_byte w = false →
  ∃ t, skip_ws l = t ++ r ∧ parse_json (t ++ w) = Some v.
Proof.
  intros Hp Hd Hw Hn. destruct (proj1 (parse_consumed fuel) _ _ _ _ Hp) as ([|c t] & E & Hne & Ht); [done|].
  exists (c :: t). split; [done|]. unfold parse_json. cbn [app].
  assert (Hc : is_ws c = false) by (rewrite E in *; by eapply skip_ws_head).
  rewrite skip_ws_id by done. change (c :: t ++ w) with ((c :: t) ++ w).
  assert (Hv : parse_value (json_fuel ((c :: t) ++ w)) 0 ((c :: t) ++ w) = Some (v, w)).
  { apply (proj1 (parse_depth _) d); [done|]. apply Ht; [|exact Hn]. unfold json_fuel. rewrite length_app. lia. }
  rewrite Hv. cbn [mbind option_bind]. by rewrite Hw.
Qed.

(** ** Decoded keys *)

Definition index_byte_free (c : ascii) (l : bytes) : Prop := Forall (λ x, x ≠ c) l.

Lemma decode_rune_range c t : 128 <= code c → 128 <= fst (decode_rune (c :: t)) < 2097152.
Proof.
  intros Hc.
  unfold decode_rune, rune_error, is_cont. set (x := code c) in *.
  repeat (case_match; simpl; try lia); bool_prop;
    repeat match goal with H : (_ <=? _) && _ = true |- _ => apply andb_true_iff in H as [? ?]; bool_prop end;
    Z.to_euclidean_division_equations; lia.
Qed.

Lemma code_byte_of z : 0 <= z < 256 → code (byte_of z) = z.
Proof. intros H. unfold code, byte_of. rewrite nat_ascii_embedding by lia. lia. Qed.

Lemma encode_rune_head r : 128 <= r < 2097152 → ∃ c t, encode_rune r = c :: t ∧ 128 <= code c.
Proof.
  intros H. unfold encode_rune. destruct (Z.ltb_spec r 128); [lia|].
  destruct (Z.ltb_spec r 2048); [|destruct (Z.ltb_spec r 65536)]; eexists _, _; (split; [reflexivity|]);
    rewrite code_byte_of; Z.to_euclidean_division_equations; lia.
Qed.

(** A key spelled without escapes denotes an ASCII name only if it spells it. *)
Lemma unquote_plain fuel key name :
  (length key ≤ fuel)%nat → index_byte_free backslash key → forallb (λ c, code c <? 128) name = true →
  unquote_fuel fuel key = name ↔ key = name.
Proof.
  revert key name. induction fuel as [|fuel IH]; intros key name Hl Hb Hn.
  { destruct key; [done|simpl in Hl; lia]. }
  destruct key as [|c t]; [done|]. inversion_clear Hb as [|? ? Hc Ht]. cbn [unquote_fuel].
  apply Ascii.eqb_neq in Hc. rewrite Hc. simpl in Hl. destruct (Z.ltb_spec (code c) 128) as [Hlt|Hge].
  - destruct name as [|x name]; [done|]. simpl in Hn. apply andb_true_iff in Hn as [_ Hn].
    split; intros [= -> E]; f_equal; by apply (IH t name ltac:(lia) Ht Hn).
  - pose proof (decode_rune_range c t Hge) as Hr. destruct (decode_rune (c :: t)) as [r n]. simpl in Hr.
    destruct (encode_rune_head r Hr) as (y & u & -> & Hy). cbn [app].
    destruct name as [|x name]; [done|]. simpl in Hn. apply andb_true_iff in Hn as [Hx _].
    split; intros [= -> _]; lia.
Qed.
