(* ===== verification/Request.v ===== *)
(** * Request inspection and rewriting ([internal/protocol/request.go])

    The gateway routes on a few top-level fields and scans the request's bytes
    for them instead of building a JSON tree.  Slices are lists of bytes,
    indices natural numbers; a read out of range, which panics in Go, is the
    error [OutOfRange].  Fuel is the length of the input: every iteration of
    each loop advances the index (exhaustion is the error [OutOfFuel]). *)

From S2P Require Import Prelude Json.
Local Open Scope Z_scope.

Record Request := {
  rq_Model : string; rq_Stream : bool; rq_Tools : bool; rq_Stateful : bool; rq_Vision : bool;
  rq_MaxOutputTokens : Z; rq_ModelStart : Z; rq_ModelEnd : Z }.

Definition new_Request : Request :=
  {| rq_Model := ""; rq_Stream := false; rq_Tools := false; rq_Stateful := false; rq_Vision := false;
     rq_MaxOutputTokens := 0; rq_ModelStart := -1; rq_ModelEnd := 0 |}.

Inductive inspect_error :=
| InvalidJSON | NotObject | DuplicateModel | ModelNotString | DuplicateStream | StreamNotBool
| OutOfRange | OutOfFuel.

Definition byte_at (b : bytes) (i : nat) : res inspect_error ascii :=
  match b !! i with Some c => Ok c | None => Err OutOfRange end.

(** [b[i:j]] *)
Definition slice (b : bytes) (i j : nat) : bytes := take (j - i) (drop i b).

(** ** The scanner *)

Fixpoint ws_run (l : bytes) : nat :=
  match l with c :: l' => if is_ws c then S (ws_run l') else 0%nat | [] => 0%nat end.

Definition space (b : bytes) (i : nat) : nat := (i + ws_run (drop i b))%nat.

(** [bytes.IndexByte(l, c)] *)
Fixpoint index_byte (l : bytes) (c : ascii) : option nat :=
  match l with [] => None | x :: l' => if Ascii.eqb x c then Some 0%nat else S <$> index_byte l' c end.

(** The count of backslashes that end a segment. *)
Fixpoint leading_backslashes (l : bytes) : nat :=
  match l with c :: l' => if Ascii.eqb c backslash then S (leading_backslashes l') else 0%nat | [] => 0%nat end.
Definition trailing_backslashes (l : bytes) : nat := leading_backslashes (rev l).

Fixpoint string_end_loop (fuel : nat) (b : bytes) (i : nat) : nat :=
  match fuel with
  | O => i
  | S fuel =>
      if (i <? length b)%nat then
        match index_byte (drop i b) quote with
        | None => length b
        | Some q =>
            if Nat.even (trailing_backslashes (take q (drop i b))) then (i + q + 1)%nat
            else string_end_loop fuel b (i + q + 1)
        end
      else i
  end.

Definition stringEnd (b : bytes) (i : nat) : nat := string_end_loop (S (length b)) b (i + 1).

Fixpoint value_end_loop (fuel : nat) (b : bytes) (i depth : nat) : nat :=
  match fuel with
  | O => i
  | S fuel =>
      match b !! i with
      | None => i
      | Some c =>
          if Ascii.eqb c quote then value_end_loop fuel b (stringEnd b i) depth
          else if Ascii.eqb c "[" || Ascii.eqb c "{" then value_end_loop fuel b (S i) (S depth)
          else if Ascii.eqb c "]" || Ascii.eqb c "}" then
            match depth with
            | O => i
            | S O => S i
            | S d => value_end_loop fuel b (S i) d
            end
          else if Ascii.eqb c "," && Nat.eqb depth 0 then i
          else value_end_loop fuel b (S i) depth
      end
  end.

Definition valueEnd (b : bytes) (i : nat) : res inspect_error nat :=
  let? c := byte_at b i in
  if Ascii.eqb c quote then Ok (stringEnd b i) else Ok (value_end_loop (S (length b)) b i 0).

(** ** Recognised spellings *)

(** A literal with its quotes, as it is spelled. *)
Definition quoted (s : string) : bytes := quote :: lit s ++ [quote].

(** The case labels of [routingKey] and of [imageMarker]. *)
Definition routing_keys : list string :=
  ["model"; "stream"; "tools"; "functions"; "previous_response_id"; "conversation"; "messages";
   "contents"; "input"; "max_tokens"; "max_completion_tokens"; "max_output_tokens";
   "generationConfig"; "generation_config"].
Definition image_markers : list string :=
  ["type"; "image"; "input_image"; "image_url"; "inlineData"; "inline_data"].

(** [json.Unmarshal(raw, &s)] of a slice, into a fresh string. *)
Definition unmarshal_string (raw : bytes) : option string :=
  v ← parse_json raw; decode_string v ""%string.

(** The switch both functions share: a literal spelling, else a decoded one. *)
Definition spelled (keys : list string) (raw : bytes) : string :=
  match list_find (λ k, raw = quoted k) keys with
  | Some (_, k) => k
  | None => if bool_decide (is_Some (index_byte raw backslash)) then default ""%string (unmarshal_string raw) else ""%string
  end.

Definition routingKey (raw : bytes) : string := spelled routing_keys raw.
Definition imageMarker (raw : bytes) : string := spelled image_markers raw.

(** [bytes.Contains] *)
Fixpoint contains_bytes (l p : bytes) : bool :=
  bool_decide (is_Some (strip p l)) || match l with [] => false | _ :: l' => contains_bytes l' p end.

Fixpoint has_image_loop (fuel : nat) (b : bytes) (i : nat) : bool :=
  match fuel with
  | O => false
  | S fuel =>
      match b !! i with
      | None => false
      | Some c =>
          if negb (Ascii.eqb c quote) then has_image_loop fuel b (S i)
          else
            let end_ := stringEnd b i in
            let next := space b end_ in
            let found :=
              match b !! next with
              | Some n =>
                  if Ascii.eqb n ":" then
                    let key := imageMarker (slice b i end_) in
                    if contains ["image_url"; "inlineData"; "inline_data"]%string key then true
                    else if (key =? "type")%string then
                      let value := space b (next + 1) in
                      match b !! value with
                      | Some q =>
                          Ascii.eqb q quote
                          && contains ["image"; "image_url"; "input_image"]%string
                               (imageMarker (slice b value (stringEnd b value)))
                      | None => false
                      end
                    else false
                  else false
              | None => false
              end in
            if found then true else has_image_loop fuel b end_
      end
  end.

Definition hasImage (b : bytes) : bool :=
  (contains_bytes b (lit "image") || contains_bytes b (lit "inlineData")
   || contains_bytes b (lit "inline_data") || contains_bytes b (lit "\u"))
  && has_image_loop (length b) b 0.

Definition positiveInt (raw : bytes) : option Z :=
  match v ← parse_json raw; decode_int64 v 0 with
  | Some value => if value <=? 0 then None else Some value
  | None => None
  end.

(** [generationOutputLimit]'s local struct. *)
Record output_limits := { ol_camel : Z; ol_snake : Z }.
Definition limit_fields : list string := ["maxOutputTokens"; "max_output_tokens"].
Definition decode_limits (v : json) : option output_limits :=
  decode_struct limit_fields (λ o n x,
      if (n =? "maxOutputTokens")%string
      then z ← decode_int64 x (ol_camel o); Some {| ol_camel := z; ol_snake := ol_snake o |}
      else z ← decode_int64 x (ol_snake o); Some {| ol_camel := ol_camel o; ol_snake := z |})
    v {| ol_camel := 0; ol_snake := 0 |}.

Definition generationOutputLimit (raw : bytes) : option Z :=
  match v ← parse_json raw; decode_limits v with
  | Some o =>
      let m := if ol_camel o <? ol_snake o then ol_snake o else ol_camel o in
      if m <=? 0 then None else Some m
  | None => None
  end.

(** ** [Inspect] *)

Definition with_rq_Model (m : string) (s e : Z) (r : Request) : Request :=
  {| rq_Model := m; rq_Stream := rq_Stream r; rq_Tools := rq_Tools r; rq_Stateful := rq_Stateful r;
     rq_Vision := rq_Vision r; rq_MaxOutputTokens := rq_MaxOutputTokens r; rq_ModelStart := s; rq_ModelEnd := e |}.
Definition with_rq_flags (stream tools stateful vision : bool) (r : Request) : Request :=
  {| rq_Model := rq_Model r; rq_Stream := stream; rq_Tools := tools; rq_Stateful := stateful;
     rq_Vision := vision; rq_MaxOutputTokens := rq_MaxOutputTokens r; rq_ModelStart := rq_ModelStart r;
     rq_ModelEnd := rq_ModelEnd r |}.
Definition with_rq_limit (n : Z) (r : Request) : Request :=
  {| rq_Model := rq_Model r; rq_Stream := rq_Stream r; rq_Tools := rq_Tools r; rq_Stateful := rq_Stateful r;
     rq_Vision := rq_Vision r; rq_MaxOutputTokens := n; rq_ModelStart := rq_ModelStart r;
     rq_ModelEnd := rq_ModelEnd r |}.

(** [if value, ok := ...; ok { if value > r.MaxOutputTokens { ... } }] *)
Definition raise_limit (value : option Z) (r : Request) : Request :=
  match value with
  | Some v => if rq_MaxOutputTokens r <? v then with_rq_limit v r else r
  | None => r
  end.

(** The switch on the key, for the value [b[start:i]]; the flag is
    [seenStream]. *)
Definition inspect_member (key : string) (raw : bytes) (start i : nat) (acc : Request * bool)
    : res inspect_error (Request * bool) :=
  let '(r, seenStream) := acc in
  if (key =? "model")%string then
    reject 0 <=? rq_ModelStart r with DuplicateModel ;;
    match v ← parse_json raw; decode_string v (rq_Model r) with
    | None => Err ModelNotString
    | Some m => Ok (with_rq_Model m (Z.of_nat start) (Z.of_nat i) r, seenStream)
    end
  else if (key =? "stream")%string then
    reject seenStream with DuplicateStream ;;
    match v ← parse_json raw; decode_bool v (rq_Stream r) with
    | None => Err StreamNotBool
    | Some s => Ok (with_rq_flags s (rq_Tools r) (rq_Stateful r) (rq_Vision r) r, true)
    end
  else if contains ["tools"; "functions"]%string key then
    if bool_decide (raw = lit "[]") || bool_decide (raw = lit "null") then Ok acc
    else Ok (with_rq_flags (rq_Stream r) true (rq_Stateful r) (rq_Vision r) r, seenStream)
  else if contains ["previous_response_id"; "conversation"]%string key then
    if bool_decide (raw = lit "null") then Ok acc
    else Ok (with_rq_flags (rq_Stream r) (rq_Tools r) true (rq_Vision r) r, seenStream)
  else if contains ["messages"; "contents"; "input"]%string key then
    Ok (with_rq_flags (rq_Stream r) (rq_Tools r) (rq_Stateful r) (rq_Vision r || hasImage raw) r, seenStream)
  else if contains ["max_tokens"; "max_completion_tokens"; "max_output_tokens"]%string key then
    Ok (raise_limit (positiveInt raw) r, seenStream)
  else if contains ["generationConfig"; "generation_config"]%string key then
    Ok (raise_limit (generationOutputLimit raw) r, seenStream)
  else Ok acc.

Fixpoint inspect_loop (fuel : nat) (b : bytes) (i : nat) (acc : Request * bool) : res inspect_error Request :=
  match fuel with
  | O => Err OutOfFuel
  | S fuel =>
      let i := space b i in
      let? c := byte_at b i in
      if Ascii.eqb c "}" then Ok (fst acc)
      else
        let start := i in
        let i := stringEnd b i in
        let key := routingKey (slice b start i) in
        let i := space b i in
        let i := space b (i + 1) in
        let start := i in
        let? i := valueEnd b i in
        let? acc := inspect_member key (slice b start i) start i acc in
        let i := space b i in
        let? d := byte_at b i in
        inspect_loop fuel b (if Ascii.eqb d "," then (i + 1)%nat else i) acc
  end.

Definition Inspect (b : bytes) : res inspect_error Request :=
  reject negb (Valid b) with InvalidJSON ;;
  let i := space b 0 in
  match b !! i with
  | Some c =>
      if Ascii.eqb c "{" then inspect_loop (S (length b)) b (i + 1) (new_Request, false) else Err NotObject
  | None => Err NotObject
  end.

(** ** [Rewrite] *)

Definition hex_lower (n : Z) : ascii := byte_of (if n <? 10 then 48 + n else 87 + n).

(** [strconv.AppendQuote] of one byte below 128, or of an invalid byte. *)
Definition quote_byte (c : ascii) : bytes :=
  let x := code c in
  if Ascii.eqb c quote || Ascii.eqb c backslash then [backslash; c]
  else if (32 <=? x) && (x <? 127) then [c]
  else if x =? 7 then lit "\a" else if x =? 8 then lit "\b" else if x =? 12 then lit "\f"
  else if x =? 10 then lit "\n" else if x =? 13 then lit "\r" else if x =? 9 then lit "\t"
  else if x =? 11 then lit "\v"
  else lit "\x" ++ [hex_lower (x / 16); hex_lower (x mod 16)].

(** Whether [strconv.IsPrint] keeps a rune above 127 as it is: a table of the
    standard library, left to the caller. *)
Section Quote.
Context (is_print : Z → bool).

Definition hex_n (n : nat) (r : Z) : bytes :=
  map (λ i, hex_lower ((r / 16 ^ Z.of_nat i) mod 16)) (rev (seq 0 n)).

Fixpoint append_quoted (fuel : nat) (l : bytes) : bytes :=
  match fuel, l with
  | O, _ | _, [] => []
  | S fuel, c :: l1 =>
      if code c <? 128 then quote_byte c ++ append_quoted fuel l1
    else
      let '(r, n) := decode_rune l in
      if Nat.eqb n 1 && (r =? rune_error) then quote_byte c ++ append_quoted fuel l1
    else if is_print r then take n l ++ append_quoted fuel (drop n l)
    else if r <? 65536 then lit "\u" ++ hex_n 4 r ++ append_quoted fuel (drop n l)
    else lit "\U" ++ hex_n 8 r ++ append_quoted fuel (drop n l)
  end.

(** [strconv.AppendQuote(nil, model)] *)
Definition go_quote (model : string) : bytes :=
  quote :: append_quoted (String.length model) (lit model) ++ [quote].

Definition Rewrite (b : bytes) (r : Request) (model : string) : bytes :=
  if (rq_ModelStart r <? 0) || (rq_Model r =? model)%string then b
  else
    take (Z.to_nat (rq_ModelStart r)) b ++ go_quote model ++ drop (Z.to_nat (rq_ModelEnd r)) b.

End Quote.

Definition ex1 : bytes :=
  js "{'model' : 'gpt', 'stream':true, 'tools':[{}], 'messages':[{'content':[{'type':'image_url'}]}], 'max_tokens': 5 }".
Example inspect_ex1 :
  Inspect ex1 = Ok {| rq_Model := "gpt"; rq_Stream := true; rq_Tools := true; rq_Stateful := false;
    rq_Vision := true; rq_MaxOutputTokens := 5; rq_ModelStart := 11; rq_ModelEnd := 16 |}.
Proof. vm_compute. reflexivity. Qed.
(** White space after a scalar is part of the slice the scanner returns. *)
Example inspect_null_space :
  rq_Stateful <$> match Inspect (js "{'model':'m','conversation':null }") with Ok r => Some r | Err _ => None end
  = Some true.
Proof. vm_compute. reflexivity. Qed.
Example rewrite_ex1 :
  Rewrite (λ _, true) ex1 (with_rq_Model "gpt" 11 16 new_Request) "up-1"
  = js "{'model' : 'up-1', 'stream':true, 'tools':[{}], 'messages':[{'content':[{'type':'image_url'}]}], 'max_tokens': 5 }".
Proof. vm_compute. reflexivity. Qed.
