(* ===== verification/RequestFacts.v ===== *)
(** * The byte scanner agrees with the JSON grammar

    [stringEnd], [valueEnd] and [space] work on indices; each is shown to move
    from one suffix of the input to another, and those moves to follow the
    parse of a valid text. *)

From S2P Require Import Prelude Json JsonFacts Request.
Local Open Scope Z_scope.
#[local] Arguments Ascii.eqb : simpl never.
#[local] Arguments is_ws : simpl never.

(** ** Positions as suffixes *)

(** The index of the suffix [s] of [b]. *)
Definition pos (b s : bytes) : nat := (length b - length s)%nat.
Definition suffix (s b : bytes) : Prop := ∃ p, b = p ++ s.

Lemma suffix_refl b : suffix b b.
Proof. by exists []. Qed.
Lemma suffix_trans a b c : suffix a b → suffix b c → suffix a c.
Proof. intros [p ->] [q ->]. exists (q ++ p). by rewrite app_assoc. Qed.
Lemma suffix_cons x s b : suffix (x :: s) b → suffix s b.
Proof. intros [p ->]. exists (p ++ [x]). by rewrite <-app_assoc. Qed.
Lemma suffix_drop i b : suffix (drop i b) b.
Proof. exists (take i b). by rewrite take_drop. Qed.
#[local] Hint Resolve suffix_refl suffix_drop : core.

Lemma drop_pos s b : suffix s b → drop (pos b s) b = s.
Proof. intros [p ->]. unfold pos. rewrite length_app. replace (_ - _)%nat with (length p) by lia. apply drop_app_length. Qed.

Lemma pos_drop i b : (i ≤ length b)%nat → pos b (drop i b) = i.
Proof. intros H. unfold pos. rewrite length_drop. lia. Qed.

Lemma pos_cons c s b : suffix (c :: s) b → pos b s = S (pos b (c :: s)).
Proof. intros [p ->]. unfold pos. rewrite !length_app. simpl. lia. Qed.

Lemma suffix_length s b : suffix s b → (length s ≤ length b)%nat.
Proof. intros [p ->]. rewrite length_app. lia. Qed.

Lemma pos_le s b : (pos b s ≤ length b)%nat.
Proof. unfold pos. lia. Qed.

Lemma lookup_pos s b : suffix s b → b !! pos b s = head s.
Proof.
  intros H. rewrite <-(Nat.add_0_r (pos b s)), <-lookup_drop, drop_pos by done. by destruct s.
Qed.

(** ** White space *)

Lemma skip_ws_drop l : skip_ws l = drop (ws_run l) l.
Proof. induction l as [|c l IH]; [done|]. simpl. by destruct (is_ws c). Qed.

Lemma ws_run_le l : (ws_run l ≤ length l)%nat.
Proof. induction l as [|c l IH]; [done|]. simpl. destruct (is_ws c); lia. Qed.

Lemma skip_ws_is_suffix l : suffix (skip_ws l) l.
Proof. rewrite skip_ws_drop. apply suffix_drop. Qed.

Lemma space_pos b s : suffix s b → space b (pos b s) = pos b (skip_ws s).
Proof.
  intros H. unfold space. rewrite drop_pos by done. rewrite skip_ws_drop. unfold pos. rewrite length_drop.
  pose proof (ws_run_le s). pose proof (suffix_length _ _ H). lia.
Qed.

(** ** Strings *)

(** What follows the closing quote; [esc]: the byte is escaped. *)
Fixpoint str_rest (esc : bool) (l : bytes) : bytes :=
  match l with
  | [] => []
  | c :: l' =>
      if esc then str_rest false l'
      else if Ascii.eqb c quote then l' else str_rest (Ascii.eqb c backslash) l'
  end.

(** Whether the byte after [p] is escaped. *)
Fixpoint escaped (esc : bool) (p : bytes) : bool :=
  match p with [] => esc | c :: p' => escaped (if esc then false else Ascii.eqb c backslash) p' end.

Lemma escaped_snoc esc p c : escaped esc (p ++ [c]) = if escaped esc p then false else Ascii.eqb c backslash.
Proof. revert esc. induction p as [|x p IH]; intros esc; [done|]. simpl. apply IH. Qed.

Lemma trailing_snoc p c :
  trailing_backslashes (p ++ [c]) = if Ascii.eqb c backslash then S (trailing_backslashes p) else 0%nat.
Proof. unfold trailing_backslashes. by rewrite rev_app_distr. Qed.

(** The parity test of [stringEnd] decides whether a quote is escaped. *)
Lemma escaped_parity p : escaped false p = Nat.odd (trailing_backslashes p).
Proof.
  induction p as [|c p IH] using rev_ind; [done|]. rewrite escaped_snoc, trailing_snoc, IH.
  destruct (Ascii.eqb c backslash); [|by destruct (Nat.odd _)].
  rewrite Nat.odd_succ, <-Nat.negb_odd. by destruct (Nat.odd _).
Qed.

Lemma str_rest_app esc p t : Forall (λ c, c ≠ quote) p → str_rest esc (p ++ t) = str_rest (escaped esc p) t.
Proof.
  intros H. revert esc. induction H as [|c p Hc _ IH]; intros esc; [done|]. simpl.
  destruct esc; [apply IH|]. apply Ascii.eqb_neq in Hc. rewrite Hc. apply IH.
Qed.

Lemma index_byte_spec l c q :
  index_byte l c = Some q → ∃ t, l = take q l ++ c :: t ∧ Forall (λ x, x ≠ c) (take q l) ∧ length (take q l) = q.
Proof.
  revert q. induction l as [|x l IH]; intros q; [done|]. simpl.
  destruct (Ascii.eqb_spec x c) as [->|Hx]; [intros [= <-]; by exists l|].
  destruct (index_byte l c) as [q'|] eqn:E; [|done]. intros [= <-]. destruct (IH q' eq_refl) as (t & Et & Hf & Hl).
  exists t. simpl. split_and!; [by rewrite <-Et|by constructor|by rewrite Hl].
Qed.

Lemma index_byte_none l c : index_byte l c = None → Forall (λ x, x ≠ c) l.
Proof.
  induction l as [|x l IH]; [done|]. simpl. destruct (Ascii.eqb_spec x c); [done|].
  destruct (index_byte l c); [done|]. intros _. constructor; auto.
Qed.

Lemma str_rest_nil esc : str_rest esc [] = [].
Proof. done. Qed.

Lemma string_end_loop_pos fuel b i :
  (i ≤ length b)%nat → (length b < fuel + i)%nat →
  string_end_loop fuel b i = pos b (str_rest false (drop i b)).
Proof.
  revert i. induction fuel as [|fuel IH]; intros i Hi Hf; [lia|]. simpl.
  destruct (Nat.ltb_spec i (length b)) as [Hlt|Hge].
  - destruct (index_byte (drop i b) quote) as [q|] eqn:Eq.
    + destruct (index_byte_spec _ _ _ Eq) as (t & Et & Hall & Hq).
      assert (Hd : drop (i + q + 1) b = t).
      { rewrite <-!drop_drop, Et. by rewrite drop_app_length' by done. }
      assert (Hlen : (i + q + 1 ≤ length b)%nat).
      { apply (f_equal length) in Et. rewrite length_drop, length_app in Et. simpl in Et. lia. }
      rewrite Et at 2. rewrite str_rest_app by done. rewrite escaped_parity, <-Nat.negb_even.
      destruct (Nat.even _); simpl.
      * rewrite <-Hd. by rewrite pos_drop.
      * rewrite <-Hd. apply IH; lia.
    + apply index_byte_none in Eq. rewrite <-(app_nil_r (drop i b)), str_rest_app by done.
      unfold pos. simpl. lia.
  - rewrite drop_ge by lia. unfold pos. simpl. lia.
Qed.

Lemma str_rest_suffix esc l : suffix (str_rest esc l) l.
Proof.
  revert esc. induction l as [|c l IH]; intros esc; [done|]. simpl.
  destruct esc; [|destruct (Ascii.eqb c quote)].
  - eapply suffix_trans; [apply IH|by exists [c]].
  - by exists [c].
  - eapply suffix_trans; [apply IH|by exists [c]].
Qed.

(** From the opening quote, [stringEnd] reaches the end of the string. *)
Lemma stringEnd_pos b c t : suffix (c :: t) b → stringEnd b (pos b (c :: t)) = pos b (str_rest false t).
Proof.
  intros H. unfold stringEnd. rewrite Nat.add_1_r, <-(pos_cons c) by done.
  rewrite string_end_loop_pos by (pose proof (pos_le t b); lia). by rewrite drop_pos by by eapply suffix_cons.
Qed.

Lemma hex_plain c : is_hex c = true → Ascii.eqb c quote = false ∧ Ascii.eqb c backslash = false.
Proof. destruct c as [[] [] [] [] [] [] [] []]; by vm_compute. Qed.

Lemma parse_string_rest_scan l raw r : parse_string l = Some (raw, r) → str_rest false l = r.
Proof.
  revert raw r. induction l as [l IH] using (induction_ltof1 _ (@length ascii)); unfold ltof in IH.
  destruct l as [|c l1]; [done|]. intros raw r. simpl.
  destruct (Ascii.eqb c quote); [by intros [= <- <-]|].
  destruct (Ascii.eqb c backslash).
  - destruct l1 as [|e l2]; [done|]. simpl. destruct (Ascii.eqb e "u").
    + destruct l2 as [|h1 [|h2 [|h3 [|h4 l3]]]]; try done. destruct (_ && _) eqn:Hh; [|done].
      apply andb_true_iff in Hh as [[[H1 H2]%andb_true_iff H3]%andb_true_iff H4].
      destruct (parse_string l3) as [[raw' r']|] eqn:E; [|done]. intros [= <- <-]. simpl.
      destruct (hex_plain _ H1) as [-> ->], (hex_plain _ H2) as [-> ->], (hex_plain _ H3) as [-> ->], (hex_plain _ H4) as [-> ->].
      apply (IH l3 ltac:(simpl; lia) _ _ E).
    + destruct (is_escape e); [|done]. destruct (parse_string l2) as [[raw' r']|] eqn:E; [|done]. intros [= <- <-].
      apply (IH l2 ltac:(simpl; lia) _ _ E).
  - destruct (code c <? 32); [done|]. destruct (parse_string l1) as [[raw' r']|] eqn:E; [|done]. intros [= <- <-].
    apply (IH l1 ltac:(simpl; lia) _ _ E).
Qed.

(** ** Values *)

(** The suffix at which [valueEnd]'s loop stops. *)
Fixpoint vrest (fuel : nat) (l : bytes) (depth : nat) : bytes :=
  match fuel, l with
  | O, _ | _, [] => l
  | S fuel, c :: t =>
      if Ascii.eqb c quote then vrest fuel (str_rest false t) depth
      else if Ascii.eqb c "[" || Ascii.eqb c "{" then vrest fuel t (S depth)
      else if Ascii.eqb c "]" || Ascii.eqb c "}" then
        match depth with O => l | S O => t | S d => vrest fuel t d end
      else if Ascii.eqb c "," && Nat.eqb depth 0 then l
      else vrest fuel t depth
  end.

Lemma str_rest_length esc l : (length (str_rest esc l) ≤ length l)%nat.
Proof. apply suffix_length, str_rest_suffix. Qed.

Lemma vrest_fuel n m l d : (length l ≤ n)%nat → (length l ≤ m)%nat → vrest n l d = vrest m l d.
Proof.
  revert m l d. induction n as [|n IH]; intros m l d Hn Hm.
  { destruct l; [|simpl in Hn; lia]. by destruct m. }
  destruct m as [|m]; [destruct l; [done|simpl in Hm; lia]|].
  destruct l as [|c t]; [done|]. simpl in *. pose proof (str_rest_length false t).
  destruct (Ascii.eqb c quote); [apply IH; lia|]. destruct (_ || _); [apply IH; lia|].
  destruct (_ || _); [destruct d as [|[|d]]; [done|done|apply IH; lia]|].
  destruct (_ && _); [done|apply IH; lia].
Qed.

Definition V (l : bytes) (d : nat) : bytes := vrest (length l) l d.

Lemma V_nil d : V [] d = [].
Proof. done. Qed.

Lemma V_cons c t d :
  V (c :: t) d =
  if Ascii.eqb c quote then V (str_rest false t) d
  else if Ascii.eqb c "[" || Ascii.eqb c "{" then V t (S d)
  else if Ascii.eqb c "]" || Ascii.eqb c "}" then match d with O => c :: t | S O => t | S d => V t d end
  else if Ascii.eqb c "," && Nat.eqb d 0 then c :: t
  else V t d.
Proof.
  unfold V. simpl. pose proof (str_rest_length false t).
  by rewrite (vrest_fuel (length t) (length (str_rest false t)) (str_rest false t)) by lia.
Qed.

Lemma vrest_suffix fuel l d : suffix (vrest fuel l d) l.
Proof.
  revert l d. induction fuel as [|fuel IH]; intros l d; [done|]. destruct l as [|c t]; [done|]. simpl.
  assert (Ht : suffix t (c :: t)) by by exists [c].
  repeat case_match; try done; try (eapply suffix_trans; [apply IH|]); try done.
  eapply suffix_trans; [apply str_rest_suffix|done].
Qed.

Lemma value_end_loop_pos fuel b s d :
  suffix s b → (length s < fuel)%nat → value_end_loop fuel b (pos b s) d = pos b (V s d).
Proof.
  revert s d. induction fuel as [|fuel IH]; intros s d Hs Hf; [lia|]. simpl. rewrite lookup_pos by done.
  destruct s as [|c t]; [done|]. cbn [head]. simpl in Hf.
  pose proof (suffix_cons _ _ _ Hs) as Ht. pose proof (str_rest_length false t).
  rewrite V_cons, <-(pos_cons c) by done.
  destruct (Ascii.eqb c quote).
  { rewrite stringEnd_pos by done. apply IH; [|lia]. eapply suffix_trans; [apply str_rest_suffix|done]. }
  destruct (_ || _); [apply IH; [done|lia]|].
  destruct (_ || _); [destruct d as [|[|d]]; [done|done|apply IH; [done|lia]]|].
  destruct (_ && _); [done|apply IH; [done|lia]].
Qed.

(** Bytes the loop steps over inside a container. *)
Definition plain (c : ascii) : bool :=
  negb (Ascii.eqb c quote || Ascii.eqb c "[" || Ascii.eqb c "{" || Ascii.eqb c "]" || Ascii.eqb c "}").
Definition plain0 (c : ascii) : bool := plain c && negb (Ascii.eqb c ",").

Lemma V_plain c t d : plain c = true → (Ascii.eqb c "," = false ∨ d ≠ 0%nat) → V (c :: t) d = V t d.
Proof.
  unfold plain. intros H Hd. rewrite V_cons. apply negb_true_iff in H. rewrite !orb_false_iff in H.
  destruct H as ((((-> & ->) & ->) & ->) & ->). simpl.
  destruct Hd as [->|Hd]; [done|]. apply Nat.eqb_neq in Hd. by rewrite Hd, andb_false_r.
Qed.

Lemma V_plain_app w t d : forallb plain0 w = true → V (w ++ t) d = V t d.
Proof.
  induction w as [|c w IH]; [done|]. simpl. intros [[Hc Hn]%andb_true_iff Hw]%andb_true_iff.
  apply negb_true_iff in Hn. by rewrite V_plain, IH by auto.
Qed.

Lemma ws_plain c : is_ws c = true → plain0 c = true.
Proof. destruct c as [[] [] [] [] [] [] [] []]; by vm_compute. Qed.
Lemma num_plain c : num_byte c = true → plain0 c = true.
Proof. destruct c as [[] [] [] [] [] [] [] []]; by vm_compute. Qed.

Lemma forallb_impl {A} (f g : A → bool) l : (∀ x, f x = true → g x = true) → forallb f l = true → forallb g l = true.
Proof. intros H. induction l as [|x l IH]; [done|]. simpl. intros [H1 H2]%andb_true_iff. by rewrite H, IH. Qed.

Lemma V_skip_ws l d : V (skip_ws l) d = V l d.
Proof.
  destruct (skip_ws_suffix l) as (w & E & H). rewrite E at 2. symmetry. apply V_plain_app.
  clear E. induction H as [|c w Hc _ IH]; [done|]. simpl. by rewrite ws_plain, IH.
Qed.

(** After a closing bracket at depth [S d]. *)
Definition after_close (r : bytes) (d : nat) : bytes := match d with O => r | S _ => V r d end.

Section Scan.
Definition value_scan (fuel : nat) : Prop := ∀ dep l v r d,
  parse_value fuel dep l = Some (v, r) → V l (S d) = V r (S d).
Definition members_scan (fuel : nat) : Prop := ∀ dep l m r d,
  parse_members fuel dep l = Some (m, r) → V l (S d) = after_close r d.
Definition elements_scan (fuel : nat) : Prop := ∀ dep l m r d,
  parse_elements fuel dep l = Some (m, r) → V l (S d) = after_close r d.

Lemma V_close c t d : c = "}"%char ∨ c = "]"%char → V (c :: t) (S d) = after_close t d.
Proof. rewrite V_cons. intros [-> | ->]; by destruct d. Qed.

Lemma container_scan {A} close (mk : list A → json) items dep l v r d :
  close = "}"%char ∨ close = "]"%char →
  (∀ l m r, items l = Some (m, r) → V l (S (S d)) = after_close r (S d)) →
  parse_container close mk items dep l = Some (v, r) → V l (S (S d)) = V r (S d).
Proof.
  intros Hc Hi. unfold parse_container. destruct (_ <=? _); [done|]. rewrite <-V_skip_ws.
  destruct (skip_ws l) as [|x t]; [done|]. destruct (Ascii.eqb_spec x close) as [->|].
  - intros [= <- <-]. by rewrite V_close.
  - destruct (items (x :: t)) as [[m r1]|] eqn:E; [|done]. cbn [mbind option_bind]. intros [= <- <-]. by rewrite (Hi _ _ _ E).
Qed.

Lemma literal_scan p v0 l v r d : forallb plain0 p = true → parse_literal p v0 l = Some (v, r) → V l d = V r d.
Proof.
  intros Hp. unfold parse_literal. destruct (strip p l) as [r1|] eqn:E; [|done]. cbn [mbind option_bind]. intros [= <- <-].
  apply strip_spec in E as [-> _]. by apply V_plain_app.
Qed.

(** A scalar that is not a string is plain text; [l] starts with its first byte. *)
Lemma scalar_scan fuel dep c t v r d :
  parse_value (S fuel) dep (c :: t) = Some (v, r) →
  Ascii.eqb c quote = false → Ascii.eqb c "{" = false → Ascii.eqb c "[" = false → V (c :: t) d = V r d.
Proof.
  cbn [parse_value]. intros H E1 E2 E3. rewrite E1, E2, E3 in H. clear E1 E2 E3.
  destruct (Ascii.eqb_spec c "t") as [->|]; [by rewrite V_plain by (done || by left); eapply literal_scan in H|].
  destruct (Ascii.eqb_spec c "f") as [->|]; [by rewrite V_plain by (done || by left); eapply literal_scan in H|].
  destruct (Ascii.eqb_spec c "n") as [->|]; [by rewrite V_plain by (done || by left); eapply literal_scan in H|].
  destruct (parse_number (c :: t)) as [[raw r1]|] eqn:E; [|done]. cbn [mbind option_bind] in H. injection H as <- <-.
  apply parse_number_spec in E as (-> & _ & Hn & _). apply V_plain_app. eapply forallb_impl; [apply num_plain|done].
Qed.
End Scan.

Lemma value_scan_step fuel : members_scan fuel → elements_scan fuel → value_scan (S fuel).
Proof.
  intros IHm IHe dep l v r d H. destruct l as [|c t]; [done|].
  destruct (Ascii.eqb c quote) eqn:Hq.
  { cbn [parse_value] in H. rewrite Hq in H. destruct (parse_string t) as [[raw r1]|] eqn:E; [|done].
    cbn [mbind option_bind] in H. injection H as <- <-. by rewrite V_cons, Hq, (parse_string_rest_scan _ _ _ E). }
  destruct (Ascii.eqb c "{") eqn:Hb.
  { cbn [parse_value] in H. rewrite Hq, Hb in H. rewrite V_cons, Hq, Hb, orb_true_r.
    eapply container_scan; [by left| |exact H]. intros. by eapply IHm. }
  destruct (Ascii.eqb c "[") eqn:Hk.
  { cbn [parse_value] in H. rewrite Hq, Hb, Hk in H. rewrite V_cons, Hq, Hk.
    eapply container_scan; [by right| |exact H]. intros. by eapply IHe. }
  by eapply scalar_scan.
Qed.

Lemma members_scan_step fuel : value_scan fuel → members_scan fuel → members_scan (S fuel).
Proof.
  intros IHv IHm dep l m r d. destruct l as [|c t]; [done|]. cbn [parse_members].
  destruct (Ascii.eqb_spec c quote) as [->|]; [|done]. cbn [negb].
  destruct (parse_string t) as [[key r1]|] eqn:Ek; [|done]. cbn [mbind option_bind].
  rewrite V_cons, Ascii.eqb_refl, (parse_string_rest_scan _ _ _ Ek), <-(V_skip_ws r1).
  destruct (skip_ws r1) as [|x r2]; [done|]. destruct (Ascii.eqb_spec x ":") as [->|]; [|done]. cbn [negb].
  rewrite (V_plain ":"%char) by auto. rewrite <-(V_skip_ws r2).
  destruct (parse_value fuel dep (skip_ws r2)) as [[v r3]|] eqn:Ev; [|done]. cbn [mbind option_bind].
  rewrite (IHv _ _ _ _ d Ev), <-(V_skip_ws r3). destruct (skip_ws r3) as [|e r4]; [done|].
  destruct (Ascii.eqb_spec e "}") as [->|].
  - intros [= <- <-]. apply V_close. by left.
  - destruct (Ascii.eqb_spec e ",") as [->|]; [|done].
    destruct (parse_members fuel dep (skip_ws r4)) as [[m' r5]|] eqn:Em; [|done]. cbn [mbind option_bind].
    intros [= <- <-]. rewrite (V_plain ","%char) by auto. rewrite <-(V_skip_ws r4). by eapply IHm.
Qed.

Lemma elements_scan_step fuel : value_scan fuel → elements_scan fuel → elements_scan (S fuel).
Proof.
  intros IHv IHe dep l m r d. cbn [parse_elements].
  destruct (parse_value fuel dep l) as [[v r1]|] eqn:Ev; [|done]. cbn [mbind option_bind].
  rewrite (IHv _ _ _ _ d Ev), <-(V_skip_ws r1). destruct (skip_ws r1) as [|e r2]; [done|].
  destruct (Ascii.eqb_spec e "]") as [->|].
  - intros [= <- <-]. apply V_close. by right.
  - destruct (Ascii.eqb_spec e ",") as [->|]; [|done].
    destruct (parse_elements fuel dep (skip_ws r2)) as [[m' r3]|] eqn:Em; [|done]. cbn [mbind option_bind].
    intros [= <- <-]. rewrite (V_plain ","%char) by auto. rewrite <-(V_skip_ws r2). by eapply IHe.
Qed.

Lemma scan_all fuel : value_scan fuel ∧ members_scan fuel ∧ elements_scan fuel.
Proof.
  induction fuel as [|fuel (Hv & Hm & He)]; [split_and!; intros dep [|c l] m r d H; discriminate H|].
  split_and!; [by apply value_scan_step|by apply members_scan_step|by apply elements_scan_step].
Qed.

(** Where [valueEnd] stops for a value followed by white space and a comma or
    a closing brace: after the value, but for a scalar other than a string
    only after the white space too. *)
Definition is_scalar (v : json) : bool :=
  match v with JNull | JBool _ | JNum _ => true | _ => false end.

Lemma container_kind {A} close (mk : list A → json) items dep l v r :
  parse_container close mk items dep l = Some (v, r) → ∃ m, v = mk m.
Proof.
  unfold parse_container. destruct (_ <=? _); [done|]. destruct (skip_ws l) as [|x t]; [done|].
  destruct (Ascii.eqb x close); [intros [= <- _]; by eexists|].
  destruct (items _) as [[m r1]|]; [|done]. cbn [mbind option_bind]. intros [= <- _]. by eexists.
Qed.

Lemma container_end {A} close (mk : list A → json) items dep l v r :
  close = "}"%char ∨ close = "]"%char →
  (∀ l m r, items l = Some (m, r) → V l 1 = r) →
  parse_container close mk items dep l = Some (v, r) → V l 1 = r.
Proof.
  intros Hc Hi. unfold parse_container. destruct (_ <=? _); [done|]. rewrite <-V_skip_ws.
  destruct (skip_ws l) as [|x t]; [done|]. destruct (Ascii.eqb_spec x close) as [->|].
  - intros [= <- <-]. by rewrite (V_close _ _ 0).
  - destruct (items (x :: t)) as [[m r1]|] eqn:E; [|done]. cbn [mbind option_bind]. intros [= <- <-]. by rewrite (Hi _ _ _ E).
Qed.

Lemma V_delimiter c t : c = ","%char ∨ c = "}"%char → V (c :: t) 0 = c :: t.
Proof. rewrite V_cons. by intros [-> | ->]. Qed.

Lemma valueEnd_pos fuel dep b s v r c t :
  suffix s b → parse_value fuel dep s = Some (v, r) → skip_ws r = c :: t → c = ","%char ∨ c = "}"%char →
  valueEnd b (pos b s) = Ok (pos b (if is_scalar v then skip_ws r else r)).
Proof.
  intros Hs Hv Hr Hc. destruct fuel as [|fuel]; [done|]. destruct s as [|x t0]; [done|].
  destruct (scan_all fuel) as (_ & Hm & He).
  unfold valueEnd, byte_at. rewrite lookup_pos by done. cbn [head res_bind].
  destruct (Ascii.eqb x quote) eqn:Hq.
  { cbn [parse_value] in Hv. rewrite Hq in Hv. destruct (parse_string t0) as [[raw r1]|] eqn:E; [|done].
    cbn [mbind option_bind] in Hv. injection Hv as <- <-. cbn [is_scalar].
    by rewrite stringEnd_pos, (parse_string_rest_scan _ _ _ E). }
  rewrite value_end_loop_pos by (done || apply suffix_length in Hs; lia). f_equal. f_equal.
  destruct (Ascii.eqb x "{") eqn:Hb.
  { cbn [parse_value] in Hv. rewrite Hq, Hb in Hv. rewrite V_cons, Hq, Hb, orb_true_r.
    destruct (container_kind _ _ _ _ _ _ _ Hv) as [m ->]. cbn [is_scalar].
    eapply container_end; [by left| |exact Hv]. intros. by eapply (Hm _ _ _ _ 0%nat). }
  destruct (Ascii.eqb x "[") eqn:Hk.
  { cbn [parse_value] in Hv. rewrite Hq, Hb, Hk in Hv. rewrite V_cons, Hq, Hk.
    destruct (container_kind _ _ _ _ _ _ _ Hv) as [m ->]. cbn [is_scalar].
    eapply container_end; [by right| |exact Hv]. intros. by eapply (He _ _ _ _ 0%nat). }
  rewrite (scalar_scan _ _ _ _ _ _ 0 Hv) by done.
  assert (Hsc : is_scalar v = true).
  { cbn [parse_value] in Hv. rewrite Hq, Hb, Hk in Hv. unfold parse_literal in Hv.
    repeat (case_match; simplify_option_eq; try done). }
  rewrite Hsc, <-V_skip_ws, Hr. by apply V_delimiter.
Qed.
