(* ===== verification/GoText.v ===== *)
(** * Text the way Go's [bytes], [strings] and [unicode] treat it

    Cutting into lines, prefixes, and the removal of Unicode white space, on
    byte sequences (a Go string is a byte sequence that need not be UTF-8). *)

From S2P Require Import Prelude Json JsonFacts Request RequestFacts.
Local Open Scope Z_scope.

Definition newline : ascii := byte_of 10.
Definition carriage_return : ascii := byte_of 13.

(** [bytes.Cut(l, []byte{c})], without the flag *)
Fixpoint cut (c : ascii) (l : bytes) : bytes * bytes :=
  match l with
  | [] => ([], [])
  | x :: l' => if Ascii.eqb x c then ([], l') else let '(a, b) := cut c l' in (x :: a, b)
  end.

(** [bytes.Split(l, []byte{c})]; never empty *)
Fixpoint split_on (c : ascii) (l : bytes) : list bytes :=
  match l with
  | [] => [[]]
  | x :: l' =>
      if Ascii.eqb x c then [] :: split_on c l'
      else match split_on c l' with [] => [[x]] | a :: r => (x :: a) :: r end
  end.

(** [bytes.TrimPrefix] and [bytes.TrimSuffix] of one byte *)
Definition trim_prefix_byte (c : ascii) (l : bytes) : bytes :=
  match l with x :: l' => if Ascii.eqb x c then l' else l | [] => [] end.
Definition trim_suffix_byte (c : ascii) (l : bytes) : bytes := rev (trim_prefix_byte c (rev l)).

(** [unicode.IsSpace] *)
Definition is_space (r : Z) : bool :=
  ((9 <=? r) && (r <=? 13)) || (r =? 32) || (r =? 133) || (r =? 160) || (r =? 5760)
  || ((8192 <=? r) && (r <=? 8202)) || (r =? 8232) || (r =? 8233) || (r =? 8239) || (r =? 8287) || (r =? 12288).

Fixpoint trim_left_space (fuel : nat) (l : bytes) : bytes :=
  match fuel, l with
  | O, _ | _, [] => l
  | S fuel, _ => let '(r, n) := decode_rune l in if is_space r then trim_left_space fuel (drop n l) else l
  end.

(** The width of the white space rune the text ends in, if any. *)
Definition last_space (l : bytes) : option nat :=
  snd <$> list_find (λ k, (k ≤ length l)%nat ∧
    let '(r, n) := decode_rune (drop (length l - k) l) in n = k ∧ is_space r = true) [1; 2; 3; 4]%nat.

Fixpoint trim_right_space (fuel : nat) (l : bytes) : bytes :=
  match fuel with
  | O => l
  | S fuel =>
      match last_space l with Some k => trim_right_space fuel (take (length l - k) l) | None => l end
  end.

(** [bytes.TrimSpace] *)
Definition trim_space (l : bytes) : bytes :=
  let l := trim_left_space (length l) l in trim_right_space (length l) l.

(** [strings.TrimSpace] *)
Definition TrimSpace (s : string) : string := str (trim_space (lit s)).

Example trim_space_ex : TrimSpace (str (lit "  a b " ++ map byte_of [194; 160; 10])) = "a b"%string.
Proof. vm_compute. reflexivity. Qed.
Example trim_space_invalid : trim_space (map byte_of [160; 32]) = map byte_of [160].
Proof. vm_compute. reflexivity. Qed.

(** [utf8.Valid] *)
Fixpoint valid_utf8 (fuel : nat) (l : bytes) : bool :=
  match fuel, l with
  | O, _ | _, [] => true
  | S fuel, _ => let '(r, n) := decode_rune l in negb (Nat.eqb n 1 && (r =? rune_error)) && valid_utf8 fuel (drop n l)
  end.
Definition ValidString (s : string) : bool := valid_utf8 (String.length s) (lit s).

Lemma cut_free c l x : index_byte_free c l → cut c (l ++ c :: x) = (l, x).
Proof.
  induction 1 as [|y l Hy _ IH]; simpl; [by rewrite Ascii.eqb_refl|].
  destruct (Ascii.eqb_spec y c); [done|]. by rewrite IH.
Qed.

Lemma cut_none c l : index_byte_free c l → cut c l = (l, []).
Proof.
  induction 1 as [|y l Hy _ IH]; simpl; [done|]. destruct (Ascii.eqb_spec y c); [done|]. by rewrite IH.
Qed.

Lemma cut_shorter c x l : (length (snd (cut c (x :: l))) ≤ length l)%nat.
Proof.
  revert x. induction l as [|y l IH]; intros x; simpl; [destruct (Ascii.eqb x c); done|].
  destruct (Ascii.eqb x c); [done|]. specialize (IH y). simpl in IH. destruct (Ascii.eqb y c); [simpl in *; lia|].
  destruct (cut c l). simpl in *. lia.
Qed.

(** The first line feed cuts a text in two. *)
Lemma newline_split l :
  index_byte_free newline l ∨ ∃ a b, l = a ++ newline :: b ∧ index_byte_free newline a.
Proof.
  induction l as [|x l [IH|(a & b & -> & IH)]]; [by left; constructor| |].
  - destruct (decide (x = newline)) as [->|]; [right; exists [], l; split; [done|constructor]|left; by constructor].
  - destruct (decide (x = newline)) as [->|]; right; [exists [], (a ++ newline :: b)|exists (x :: a), b].
    + split; [done|constructor].
    + split; [done|by constructor].
Qed.

Lemma index_byte_at c a b : index_byte_free c a → index_byte (a ++ c :: b) c = Some (length a).
Proof.
  induction 1 as [|x a Hx _ IH]; simpl; [by rewrite Ascii.eqb_refl|]. destruct (Ascii.eqb_spec x c); [done|]. by rewrite IH.
Qed.

Lemma index_byte_plain l c : index_byte l c = None ↔ index_byte_free c l.
Proof.
  split; [apply index_byte_none|]. intros H. induction H as [|x l Hx _ IH]; [done|]. simpl.
  destruct (Ascii.eqb_spec x c); [done|]. by rewrite IH.
Qed.
