(* ===== verification/RequestSpec.v ===== *)
(** * What [Inspect] and [Rewrite] guarantee

    A reference that folds over the members of the parsed object, the
    refinement of the byte scanner to it, and the effect of [Rewrite]. *)

From S2P Require Import Prelude Json JsonFacts Request RequestFacts GoText.
Local Open Scope Z_scope.
#[local] Arguments Ascii.eqb : simpl never.
#[local] Arguments is_ws : simpl never.

(** ** Located members *)

(** A member of the top-level object: its key as spelled (without quotes),
    its value, the bytes the scanner takes for the value, and how many bytes
    of the input are left at the start and at the end of those. *)
Record member := mk_member {
  mb_key : bytes; mb_value : json; mb_raw : bytes; mb_start : nat; mb_end : nat }.

Fixpoint locate (fuel : nat) (l : bytes) : list member :=
  match fuel, l with
  | O, _ | _, [] => []
  | S fuel, c :: l' =>
      match parse_string l' with
      | None => []
      | Some (key, r1) =>
          let s := skip_ws (tail (skip_ws r1)) in
          match parse_value fuel 1 s with
          | None => []
          | Some (v, r3) =>
              let e := if is_scalar v then skip_ws r3 else r3 in
              let m := mk_member key v (take (length s - length e) s) (length s) (length e) in
              match skip_ws r3 with
              | d :: r4 => if Ascii.eqb d "," then m :: locate fuel (skip_ws r4) else [m]
              | [] => [m]
              end
          end
      end
  end.

(** The members of a request body. *)
Definition body_members (b : bytes) : list member :=
  match skip_ws b with
  | c :: l => if Ascii.eqb c "{" then
                match skip_ws l with
                | d :: r => if Ascii.eqb d "}" then [] else locate (json_fuel b) (d :: r)
                | [] => []
                end
              else []
  | [] => []
  end.

(** [inspect_member] on a member, positions counted from the front. *)
Definition inspect_located (n : nat) (acc : Request * bool) (m : member) : res inspect_error (Request * bool) :=
  inspect_member (routingKey (quote :: mb_key m ++ [quote])) (mb_raw m) (n - mb_start m) (n - mb_end m) acc.

Lemma slice_pos b s e : suffix s b → suffix e s → slice b (pos b s) (pos b e) = take (length s - length e) s.
Proof.
  intros Hs He. unfold slice. rewrite drop_pos by done. f_equal. unfold pos.
  pose proof (suffix_length _ _ Hs). pose proof (suffix_length _ _ He). lia.
Qed.

Lemma take_app_minus {A} (w r : list A) : take (length (w ++ r) - length r) (w ++ r) = w.
Proof. rewrite length_app. replace (_ - _)%nat with (length w) by lia. apply take_app_length. Qed.

Lemma consumed_suffix fuel dep s v r : parse_value fuel dep s = Some (v, r) → suffix r s.
Proof. intros (w & -> & _)%(proj1 (parse_consumed fuel)). by exists w. Qed.

Lemma skip_ws_idem l : skip_ws (skip_ws l) = skip_ws l.
Proof. destruct (skip_ws l) as [|c t] eqn:E; [done|]. by rewrite skip_ws_id by by eapply skip_ws_head. Qed.

Lemma inspect_loop_ws F b s acc : suffix s b → inspect_loop F b (pos b s) acc = inspect_loop F b (pos b (skip_ws s)) acc.
Proof.
  intros H. destruct F as [|F]; [done|]. cbn [inspect_loop].
  rewrite (space_pos b s), (space_pos b (skip_ws s)), skip_ws_idem; [done| |done].
  eapply suffix_trans; [apply skip_ws_is_suffix|done].
Qed.

(** The loop of [Inspect] is the fold over the located members. *)
Lemma inspect_loop_spec fuel b l m r F acc :
  suffix l b → parse_members fuel 1 l = Some (m, r) → (length l < F)%nat →
  inspect_loop F b (pos b l) acc
  = let? acc' := fold_res (inspect_located (length b)) acc (locate fuel l) in Ok (fst acc').
Proof.
  revert l m r F acc. induction fuel as [|fuel IH]; intros l m r F acc Hl Hp HF; [done|].
  destruct l as [|c l']; [done|]. destruct F as [|F]; [lia|]. cbn [parse_members] in Hp.
  destruct (Ascii.eqb_spec c quote) as [->|]; [|done]. cbn [negb] in Hp.
  destruct (parse_string l') as [[key r1]|] eqn:Ek; [|done]. cbn [mbind option_bind] in Hp.
  destruct (skip_ws r1) as [|x r2] eqn:E1; [done|]. destruct (Ascii.eqb_spec x ":") as [->|]; [|done]. cbn [negb] in Hp.
  destruct (parse_value fuel 1 (skip_ws r2)) as [[v r3]|] eqn:Ev; [|done]. cbn [mbind option_bind] in Hp.
  destruct (skip_ws r3) as [|e r4] eqn:E3; [done|].
  assert (He : e = ","%char ∨ e = "}"%char).
  { destruct (Ascii.eqb_spec e "}"); [by right|]. destruct (Ascii.eqb_spec e ","); [by left|done]. }
  (* the suffixes *)
  pose proof (suffix_cons _ _ _ Hl) as Hl'.
  assert (Hr1 : suffix r1 b). { rewrite (parse_string_app _ _ _ Ek) in Hl'. destruct Hl' as [p ->]. exists (p ++ key ++ [quote]). by rewrite <-!app_assoc. }
  assert (Hr2 : suffix (":"%char :: r2) b) by (rewrite <-E1; eapply suffix_trans; [apply skip_ws_is_suffix|done]).
  pose proof (suffix_cons _ _ _ Hr2) as Hr2'.
  assert (Hs : suffix (skip_ws r2) b) by (eapply suffix_trans; [apply skip_ws_is_suffix|done]).
  pose proof (consumed_suffix _ _ _ _ _ Ev) as Hr3s.
  assert (Hr3 : suffix r3 b) by by eapply suffix_trans.
  assert (Hr4 : suffix (e :: r4) b) by (rewrite <-E3; eapply suffix_trans; [apply skip_ws_is_suffix|done]).
  (* the steps *)
  cbn [inspect_loop]. rewrite space_pos by done. rewrite skip_ws_id by done.
  unfold byte_at. rewrite lookup_pos by done. cbn [head res_bind].
  change (Ascii.eqb quote "}") with false. cbn iota.
  rewrite stringEnd_pos, (parse_string_rest_scan _ _ _ Ek) by done.
  rewrite slice_pos by (done || (rewrite (parse_string_app _ _ _ Ek); exists (quote :: key ++ [quote]); simpl; by rewrite <-app_assoc)).
  assert (Ekey : take (length (quote :: l') - length r1) (quote :: l') = quote :: key ++ [quote]).
  { rewrite (parse_string_app _ _ _ Ek). change (quote :: key ++ quote :: r1) with ((quote :: key) ++ [quote] ++ r1).
    rewrite app_assoc. by rewrite take_app_minus. }
  rewrite Ekey, space_pos, E1 by done. rewrite Nat.add_1_r, <-(pos_cons ":"%char) by done.
  rewrite space_pos by done.
  rewrite (valueEnd_pos fuel 1 b (skip_ws r2) v r3 e r4) by done. cbn [res_bind].
  set (en := if is_scalar v then skip_ws r3 else r3).
  assert (Hens : suffix en (skip_ws r2)).
  { unfold en. destruct (is_scalar v); [|done]. eapply suffix_trans; [apply skip_ws_is_suffix|done]. }
  rewrite slice_pos by done.
  cbn [locate]. rewrite Ek, E1. cbn [tail]. rewrite Ev. fold en. rewrite E3.
  set (mb := mk_member key v _ _ _).
  assert (Eloc : ∀ a, inspect_located (length b) a mb
    = inspect_member (routingKey (quote :: key ++ [quote])) (take (length (skip_ws r2) - length en) (skip_ws r2))
        (pos b (skip_ws r2)) (pos b en) a) by done.
  assert (Een : skip_ws en = e :: r4) by (unfold en; destruct (is_scalar v); by rewrite ?skip_ws_idem).
  assert (Hen : suffix en b) by by eapply suffix_trans.
  assert (Ehd : fold_res (inspect_located (length b)) acc (if Ascii.eqb e "," then mb :: locate fuel (skip_ws r4) else [mb])
    = let? a := inspect_located (length b) acc mb in
      fold_res (inspect_located (length b)) a (if Ascii.eqb e "," then locate fuel (skip_ws r4) else [])).
  { by destruct (Ascii.eqb e ","). }
  rewrite Ehd, Eloc. clear Ehd Eloc. destruct (inspect_member _ _ _ _ acc) as [acc'|er]; [|done]. cbn [res_bind].
  rewrite space_pos, Een, lookup_pos by done. cbn [head res_bind].
  pose proof (suffix_length _ _ Hr3s) as L1. pose proof (suffix_length _ _ (skip_ws_is_suffix r2)) as L2.
  pose proof (suffix_length _ _ (skip_ws_is_suffix r1)) as L3. rewrite E1 in L3.
  pose proof (suffix_length _ _ (skip_ws_is_suffix r3)) as L4. rewrite E3 in L4.
  apply parse_string_app in Ek. apply (f_equal length) in Ek. rewrite length_app in Ek. cbn [length] in *.
  destruct He as [-> | ->].
  - change (Ascii.eqb "," "}") with false in Hp. change (Ascii.eqb "," ",") with true in *. cbn iota in *.
    destruct (parse_members fuel 1 (skip_ws r4)) as [[m' r5]|] eqn:Em; [|done].
    rewrite Nat.add_1_r, <-(pos_cons ","%char) by done. pose proof (suffix_cons _ _ _ Hr4) as Hr4'.
    rewrite inspect_loop_ws by done. eapply IH; [|exact Em|].
    + eapply suffix_trans; [apply skip_ws_is_suffix|done].
    + pose proof (suffix_length _ _ (skip_ws_is_suffix r4)). lia.
  - change (Ascii.eqb "}" ",") with false. cbn iota. destruct F as [|F]; [lia|]. cbn [inspect_loop fold_res res_bind].
    rewrite space_pos, skip_ws_id by done. unfold byte_at. rewrite lookup_pos by done. done.
Qed.

(** ** Recognised names *)

Lemma index_byte_app_none l1 l2 c : index_byte (l1 ++ l2) c = None ↔ index_byte l1 c = None ∧ index_byte l2 c = None.
Proof. rewrite !index_byte_plain. apply Forall_app. Qed.

Lemma lit_inj a b : lit a = lit b → a = b.
Proof. intros H. rewrite <-(string_of_list_ascii_of_string a), <-(string_of_list_ascii_of_string b). f_equal. exact H. Qed.

Lemma lit_of_str l : lit (str l) = l.
Proof. apply list_ascii_of_string_of_list_ascii. Qed.

Lemma quoted_eq key k : quote :: key ++ [quote] = quoted k ↔ key = lit k.
Proof. unfold quoted. split; [|by intros ->]. intros [= H]. by apply app_inj_tail in H as [-> _]. Qed.

(** The literal comparison with decoding as a fallback recognises exactly the
    keys that decode to a listed name. *)
Lemma spelled_spec keys key k :
  Forall (λ n, forallb (λ c, code c <? 128) (lit n) = true ∧ index_byte (lit n) backslash = None ∧ n ≠ ""%string) keys →
  parse_string (key ++ [quote]) = Some (key, []) → k ∈ keys →
  spelled keys (quote :: key ++ [quote]) = k ↔ unquote key = k.
Proof.
  intros Hkeys Hp Hk. rewrite Forall_forall in Hkeys.
  assert (Hplain : index_byte key backslash = None → ∀ n, n ∈ keys → unquote key = n ↔ key = lit n).
  { intros Hb n Hn. destruct (Hkeys _ Hn) as (Ha & _ & _). apply index_byte_plain in Hb.
    rewrite <-(unquote_plain (length key) key (lit n) (le_n _) Hb Ha). unfold unquote. split.
    - intros <-. by rewrite lit_of_str.
    - intros ->. apply string_of_list_ascii_of_string. }
  unfold spelled. destruct (list_find _ keys) as [[i n]|] eqn:Ef.
  - apply list_find_Some in Ef as (Hi & Hn%quoted_eq & _). assert (Hin : n ∈ keys) by by eapply list_elem_of_lookup_2.
    destruct (Hkeys _ Hin) as (_ & Hb & _). rewrite <-Hn in Hb. rewrite (Hplain Hb k Hk), Hn. split; [by intros ->|].
    intros H. by apply lit_inj.
  - rewrite list_find_None, Forall_forall in Ef.
    assert (Hne : key ≠ lit k) by (intros H; apply (Ef k Hk); by apply quoted_eq).
    destruct (index_byte key backslash) as [i|] eqn:Eb.
    + assert (Hsome : is_Some (index_byte (quote :: key ++ [quote]) backslash)).
      { apply not_eq_None_Some. intros H. change (quote :: key ++ [quote]) with ([quote] ++ key ++ [quote]) in H.
        apply index_byte_app_none in H as [_ [H _]%index_byte_app_none]. congruence. }
      rewrite bool_decide_true by done.
      assert (Hu : unmarshal_string (quote :: key ++ [quote]) = Some (unquote key)).
      { unfold unmarshal_string, parse_json. rewrite skip_ws_id by done. cbn [json_fuel length Nat.mul Nat.add].
        unfold json_fuel. cbn [length]. rewrite Nat.add_comm. cbn [Nat.add parse_value]. rewrite Ascii.eqb_refl, Hp. done. }
      by rewrite Hu.
    + assert (Hnone : index_byte (quote :: key ++ [quote]) backslash = None).
      { change (quote :: key ++ [quote]) with ([quote] ++ key ++ [quote]). rewrite !index_byte_app_none. done. }
      rewrite Hnone, bool_decide_false by (intros [? ?]; done). rewrite (Hplain eq_refl k Hk).
      split; [|done]. intros <-. by destruct (Hkeys _ Hk) as (_ & _ & []).
Qed.

(** ** The reference *)

(** What one member contributes, by its decoded name and parsed value; only
    the image test and the two spellings of "nothing" look at the text. *)
Definition inspect_value (key : string) (v : json) (raw : bytes) (start i : nat) (acc : Request * bool)
    : res inspect_error (Request * bool) :=
  let '(r, seenStream) := acc in
  if (key =? "model")%string then
    reject 0 <=? rq_ModelStart r with DuplicateModel ;;
    match decode_string v (rq_Model r) with
    | None => Err ModelNotString
    | Some m => Ok (with_rq_Model m (Z.of_nat start) (Z.of_nat i) r, seenStream)
    end
  else if (key =? "stream")%string then
    reject seenStream with DuplicateStream ;;
    match decode_bool v (rq_Stream r) with
    | None => Err StreamNotBool
    | Some s => Ok (with_rq_flags s (rq_Tools r) (rq_Stateful r) (rq_Vision r) r, true)
    end
  else if contains ["tools"; "functions"]%string key then
    if bool_decide (raw = lit "[]") || bool_decide (raw = lit "null") then Ok acc
    else Ok (with_rq_flags (rq_Stream r) true (rq_Stateful r) (rq_Vision r) r, seenStream)
  else if contains ["previous_response_id"; "conversation"]%string key then
    if bool_decide (raw = lit "null") then Ok acc
    else Ok (with_rq_flags (rq_Stream r) (rq_Tools r) true (rq_Vision r) r, seenStream)
  else if contains ["messages"; "contents"; "input"]%string key then
    Ok (with_rq_flags (rq_Stream r) (rq_Tools r) (rq_Stateful r) (rq_Vision r || hasImage raw) r, seenStream)
  else if contains ["max_tokens"; "max_completion_tokens"; "max_output_tokens"]%string key then
    Ok (raise_limit (match decode_int64 v 0 with Some n => if n <=? 0 then None else Some n | None => None end) r,
        seenStream)
  else if contains ["generationConfig"; "generation_config"]%string key then
    Ok (raise_limit
          (match decode_limits v with
           | Some o => let m := Z.max (ol_camel o) (ol_snake o) in if m <=? 0 then None else Some m
           | None => None
           end) r, seenStream)
  else Ok acc.

Definition inspect_json_member (n : nat) (acc : Request * bool) (m : member) : res inspect_error (Request * bool) :=
  inspect_value (unquote (mb_key m)) (mb_value m) (mb_raw m) (n - mb_start m) (n - mb_end m) acc.

(** A member's texts are the ones its parts were parsed from. *)
Definition member_ok (m : member) : Prop :=
  parse_string (mb_key m ++ [quote]) = Some (mb_key m, []) ∧ parse_json (mb_raw m) = Some (mb_value m)
  ∧ (mb_end m ≤ mb_start m)%nat.

Lemma inspect_member_value key v raw s e acc :
  parse_json raw = Some v → inspect_member key raw s e acc = inspect_value key v raw s e acc.
Proof.
  intros Hp.
  assert (Hg : generationOutputLimit raw = match decode_limits v with
     | Some o => let m := Z.max (ol_camel o) (ol_snake o) in if m <=? 0 then None else Some m
     | None => None end).
  { unfold generationOutputLimit. rewrite Hp. cbn [mbind option_bind]. destruct (decode_limits v) as [o|]; [|done].
    destruct (Z.ltb_spec (ol_camel o) (ol_snake o)); [rewrite Z.max_r by lia|rewrite Z.max_l by lia]; done. }
  unfold inspect_member, inspect_value, positiveInt. by rewrite Hg, Hp.
Qed.

Lemma inspect_value_key k k' v raw s e acc :
  (∀ x, x ∈ routing_keys → k = x ↔ k' = x) → inspect_value k v raw s e acc = inspect_value k' v raw s e acc.
Proof.
  intros H.
  assert (Hb : ∀ x, contains routing_keys x = true → (k =? x)%string = (k' =? x)%string).
  { intros x Hx. apply contains_spec in Hx. specialize (H x Hx).
    destruct (String.eqb_spec k x), (String.eqb_spec k' x); tauto. }
  unfold inspect_value, contains. cbn [existsb]. by rewrite !Hb by reflexivity.
Qed.

Lemma routing_keys_ok :
  Forall (λ n, forallb (λ c, code c <? 128) (lit n) = true ∧ index_byte (lit n) backslash = None ∧ n ≠ ""%string)
    routing_keys.
Proof. repeat constructor; done. Qed.

Lemma inspect_located_value n acc m : member_ok m → inspect_located n acc m = inspect_json_member n acc m.
Proof.
  intros (Hk & Hv & _). unfold inspect_located, inspect_json_member. rewrite (inspect_member_value _ _ _ _ _ _ Hv).
  apply inspect_value_key. intros x Hx. by apply spelled_spec; [apply routing_keys_ok| |].
Qed.

Lemma parse_string_own l key r : parse_string l = Some (key, r) → parse_string (key ++ [quote]) = Some (key, []).
Proof. apply (parse_string_rest l key r []). Qed.

(** The members of a valid object, in order, with their own texts. *)
Lemma locate_spec fuel l m r :
  parse_members fuel 1 l = Some (m, r) →
  map (λ x, (mb_key x, mb_value x)) (locate fuel l) = m ∧ Forall member_ok (locate fuel l).
Proof.
  revert l m r. induction fuel as [|fuel IH]; intros l m r; [done|]. destruct l as [|c l']; [done|].
  cbn [parse_members locate]. destruct (negb _); [done|].
  destruct (parse_string l') as [[key r1]|] eqn:Ek; [|done]. cbn [mbind option_bind].
  destruct (skip_ws r1) as [|x r2]; [done|]. destruct (negb _); [done|]. cbn [tail].
  destruct (parse_value fuel 1 (skip_ws r2)) as [[v r3]|] eqn:Ev; [|done]. cbn [mbind option_bind].
  set (en := if is_scalar v then skip_ws r3 else r3). set (mb := mk_member key v _ _ _).
  destruct (skip_ws r3) as [|e r4] eqn:E3; [done|].
  assert (Hok : Ascii.eqb e "}" = true ∨ Ascii.eqb e "," = true → member_ok mb).
  { intros He. destruct (skip_ws_suffix r3) as (w & Ew & Hw).
    assert (Hen : ∃ w', r3 = w' ++ en ∧ skip_ws w' = [] ∧ head_is num_byte w' = false).
    { unfold en. destruct (is_scalar v); [|by exists []]. exists w. split_and!; [congruence| |].
      - clear Ew. induction Hw as [|y w Hy _ IHw]; [done|]. simpl. by rewrite Hy.
      - destruct Hw as [|y w Hy]; [done|]. simpl. by apply ws_byte_not_num. }
    destruct Hen as (w' & Er3 & Hw1 & Hw2).
    destruct (parse_own_text _ _ _ _ _ w' Ev ltac:(lia) Hw1 Hw2) as (t & Et & Hp).
    split_and!; [by eapply parse_string_own| |].
    - simpl. rewrite Et, Er3, app_assoc, take_app_minus. exact Hp.
    - simpl. rewrite Et, Er3, !length_app. lia. }
  destruct (Ascii.eqb e "}") eqn:Hb.
  - intros [= <- <-]. assert (Ascii.eqb e "," = false) as -> by by apply Ascii.eqb_eq in Hb as ->.
    split; [done|]. constructor; [by apply Hok; left|done].
  - destruct (Ascii.eqb e ",") eqn:Hc; [|done].
    destruct (parse_members fuel 1 (skip_ws r4)) as [[m' r5]|] eqn:Em; [|done]. cbn [mbind option_bind].
    intros [= <- <-]. destruct (IH _ _ _ Em) as [E1 E2]. simpl. rewrite E1. split; [done|].
    constructor; [by apply Hok; right|done].
Qed.

(** The object a valid text holds, read with any large enough fuel. *)
Lemma parse_object b m :
  parse_json b = Some (JObj m) →
  ∃ l, skip_ws b = "{"%char :: l ∧
    ((∃ r, skip_ws l = "}"%char :: r ∧ m = []) ∨
     (∃ r, head (skip_ws l) ≠ Some "}"%char ∧ parse_members (json_fuel b) 1 (skip_ws l) = Some (m, r)
       ∧ skip_ws r = [])).
Proof.
  unfold parse_json. destruct (parse_value _ 0 (skip_ws b)) as [[v r]|] eqn:Ev; [|done]. cbn [mbind option_bind].
  destruct (skip_ws r) eqn:Er; [|done]. intros [= ->].
  assert (Hlen : (length (skip_ws b) ≤ length b)%nat) by apply suffix_length, skip_ws_is_suffix.
  revert Ev Hlen. destruct (json_fuel b) as [|f] eqn:Ef; [done|]. destruct (skip_ws b) as [|c l]; [done|].
  intros Ev Hlen. cbn [parse_value] in Ev.
  destruct (Ascii.eqb c quote). { destruct (parse_string l) as [[raw r1]|]; done. }
  destruct (Ascii.eqb_spec c "{") as [->|].
  - exists l. split; [done|]. unfold parse_container in Ev. cbn [Z.leb] in Ev.
    destruct (skip_ws l) as [|x t] eqn:El; [done|]. destruct (Ascii.eqb_spec x "}") as [->|Hx].
    + injection Ev as <- <-. left. eauto.
    + destruct (parse_members f (0 + 1) (x :: t)) as [[m' r1]|] eqn:Em; [|done]. cbn [mbind option_bind] in Ev.
      injection Ev as <- <-. right. exists r1. split_and!; [simpl; congruence| |done].
      destruct (proj1 (proj2 (parse_consumed f)) _ _ _ _ Em) as (w & Ew & _ & Hw). rewrite Ew. apply Hw; [|done].
      rewrite <-Ef. unfold json_fuel. apply (f_equal length) in Ew. rewrite length_app in Ew.
      pose proof (suffix_length _ _ (skip_ws_is_suffix l)) as L. rewrite El in L. simpl in *. lia.
  - destruct (Ascii.eqb c "["). { apply container_kind in Ev as [? ?]. done. }
    unfold parse_literal in Ev. repeat (case_match; simplify_option_eq; try done).
Qed.

Lemma body_members_spec b m :
  parse_json b = Some (JObj m) →
  map (λ x, (mb_key x, mb_value x)) (body_members b) = m ∧ Forall member_ok (body_members b).
Proof.
  intros (l & Eb & [(r & El & ->)|(r & Hx & Hm & _)])%parse_object; unfold body_members; rewrite Eb.
  - rewrite El. done.
  - cbn [Ascii.eqb]. destruct (skip_ws l) as [|x t] eqn:El; [by destruct (json_fuel b)|]. simpl in Hx.
    destruct (Ascii.eqb_spec x "}") as [->|]; [done|]. by apply locate_spec with r.
Qed.

Lemma not_object b v : parse_json b = Some v → (∀ m, v ≠ JObj m) → head_is (Ascii.eqb "{") (skip_ws b) = false.
Proof.
  unfold parse_json. destruct (parse_value _ 0 (skip_ws b)) as [[v' r]|] eqn:Ev; [|done]. cbn [mbind option_bind].
  destruct (skip_ws r); [|done]. intros [= ->] Hv. destruct (skip_ws b) as [|c l]; [done|]. simpl.
  destruct (Ascii.eqb_spec "{" c) as [<-|]; [|done]. exfalso. unfold json_fuel in Ev. rewrite Nat.add_comm in Ev.
  cbn [Nat.add parse_value] in Ev. apply container_kind in Ev as [m ->]. by apply (Hv m).
Qed.

Lemma fold_res_ext {E S A} (f g : S → A → res E S) s l :
  Forall (λ a, ∀ s, f s a = g s a) l → fold_res f s l = fold_res g s l.
Proof. intros H. revert s. induction H as [|a l Ha _ IH]; intros s; [done|]. simpl. rewrite Ha. destruct (g s a); simpl; auto. Qed.

Lemma Inspect_eq b :
  Inspect b =
  match parse_json b with
  | None => Err InvalidJSON
  | Some (JObj _) =>
      let? acc := fold_res (inspect_json_member (length b)) (new_Request, false) (body_members b) in Ok (fst acc)
  | Some _ => Err NotObject
  end.
Proof.
  unfold Inspect, Valid. destruct (parse_json b) as [v|] eqn:Ev; [|done].
  rewrite bool_decide_true by done. cbn [negb].
  assert (Esp : space b 0 = pos b (skip_ws b)).
  { rewrite <-space_pos by done. f_equal. unfold pos. lia. }
  cbv zeta. rewrite Esp, lookup_pos by apply skip_ws_is_suffix.
  assert (Hobj : (∃ m, v = JObj m) ∨ ∀ m, v ≠ JObj m) by (destruct v; eauto; by right).
  destruct Hobj as [[m ->]|Hno].
  - rewrite <-(fold_res_ext (inspect_located (length b))).
    2:{ destruct (body_members_spec _ _ Ev) as [_ Hok]. eapply Forall_impl; [exact Hok|].
        intros x Hx acc. by apply inspect_located_value. }
    pose proof (skip_ws_is_suffix b) as Hsb.
    destruct (parse_object _ _ Ev) as (l & El & Hl). rewrite El in *. cbn [head]. rewrite Ascii.eqb_refl.
    rewrite Nat.add_1_r, <-(pos_cons "{"%char) by done. pose proof (suffix_cons _ _ _ Hsb) as Hlb.
    rewrite inspect_loop_ws by done. unfold body_members. rewrite El, Ascii.eqb_refl.
    assert (Hws : suffix (skip_ws l) b) by (eapply suffix_trans; [apply skip_ws_is_suffix|done]).
    destruct Hl as [(r & Er & ->)|(r & Hx & Hm & _)].
    + rewrite Er in *. cbn [inspect_loop]. rewrite space_pos, skip_ws_id by done. unfold byte_at.
      rewrite lookup_pos by done. done.
    + destruct (skip_ws l) as [|x t] eqn:Et; [by destruct (json_fuel b)|].
      destruct (Ascii.eqb_spec x "}") as [->|]; [done|].
      apply (inspect_loop_spec _ _ _ _ _ _ _ Hws Hm). apply suffix_length in Hws. lia.
  - pose proof (not_object _ _ Ev Hno) as Hh.
    transitivity (Err (A := Request) NotObject); [|destruct v; try done; exfalso; by eapply Hno].
    destruct (skip_ws b) as [|c l]; [done|]. simpl in *. by rewrite Ascii.eqb_sym, Hh.
Qed.

(** ** The theorems *)

(** C13: the byte scanner reads requests as [encoding/json] does.  On every
    input [Inspect] terminates without reading out of range and returns what
    the reference computes from the parsed text: an error for invalid JSON or
    a non-object, and otherwise the fold, in order, over all members of the
    object by their decoded names and parsed values. *)
Theorem inspect_refines_json b :
  Inspect b =
    match parse_json b with
    | None => Err InvalidJSON
    | Some (JObj _) =>
        let? acc := fold_res (inspect_json_member (length b)) (new_Request, false) (body_members b) in Ok (fst acc)
    | Some _ => Err NotObject
    end
  ∧ (∀ m, parse_json b = Some (JObj m) → map (λ x, (mb_key x, mb_value x)) (body_members b) = m)
  ∧ Inspect b ≠ Err OutOfRange ∧ Inspect b ≠ Err OutOfFuel.
Proof.
  split; [apply Inspect_eq|]. split; [intros m Hm; by apply body_members_spec|].
  assert (Hf : ∀ l acc e, fold_res (inspect_json_member (length b)) acc l = Err e → e ≠ OutOfRange ∧ e ≠ OutOfFuel).
  { induction l as [|x l IH]; intros acc e; [done|]. simpl.
    destruct (inspect_json_member _ acc x) as [acc'|e'] eqn:Ex; simpl; [apply IH|]. intros [= <-].
    unfold inspect_json_member, inspect_value in Ex. destruct acc. repeat (case_match; try done); by injection Ex as <-. }
  rewrite Inspect_eq. destruct (parse_json b) as [[]|]; try done.
  destruct (fold_res _ _ _) as [acc|e] eqn:Ef; [done|]. simpl. apply Hf in Ef as [? ?]. split; congruence.
Qed.
