(* ===== verification/RewriteFacts.v ===== *)
(** * Rewriting the model

    Replacing the text of one member's value by a string literal changes that
    member and nothing else. *)

From S2P Require Import Prelude Json JsonFacts Request RequestFacts RequestSpec.
Local Open Scope Z_scope.
#[local] Arguments Ascii.eqb : simpl never.
#[local] Arguments is_ws : simpl never.















(** ** The effect on [Inspect] *)















(** ** Quoted models *)







(** ** The theorems *)


Lemma inspect_refines_json_witness : parse_json ex1 ≠ None ∧ Inspect ex1 ≠ Err OutOfRange.
Proof. split; [by vm_compute|]. apply (inspect_refines_json ex1). Defined.


(** Go's quoting is not JSON's for other bytes: the body is no longer valid. *)
Lemma rewrite_unsafe_name :
  ∃ r, Inspect ex1 = Ok r ∧ Inspect (Rewrite (λ _, true) ex1 r (str [byte_of 127])) = Err InvalidJSON.
Proof. eexists. split; [apply inspect_ex1|]. vm_compute. reflexivity. Qed.
