(* ===== verification/Sse.v ===== *)
(** * Server-sent event frames ([internal/protocol/sse.go])

    The reader returns one frame, up to an empty line, per call, from the
    fragments [bufio.Reader.ReadSlice] yields; its stream is the list of the
    bytes still to come and whether it ends in [io.EOF].  Fuel is the length
    of the stream: every fragment but the last is not empty. *)

From S2P Require Import Prelude Json JsonFacts Request RequestFacts GoText.
Local Open Scope Z_scope.

Inductive sse_error := SseEOF | TooLong | Truncated | SseOutOfFuel.
Inductive slice_error := BufferFull | EndOfStream.

(** [bufio.NewReaderSize(r, 8192)] *)
Definition sse_buffer : nat := Z.to_nat 8192.

(** [ReadSlice('\n')] of a reader with a buffer of [n] bytes *)
Definition ReadSlice (n : nat) (l : bytes) : bytes * option slice_error * bytes :=
  match index_byte l newline with
  | Some i =>
      if (i <? n)%nat then (take (S i) l, None, drop (S i) l) else (take n l, Some BufferFull, drop n l)
  | None => if (n <=? length l)%nat then (take n l, Some BufferFull, drop n l) else (l, Some EndOfStream, [])
  end.

Definition len (l : bytes) : Z := Z.of_nat (length l).

Section Reader.
Context (size : nat) (limit : Z) (eof : bool).

Fixpoint next_loop (fuel : nat) (frame : bytes) (lineBytes : Z) (l : bytes) : res sse_error bytes * bytes :=
  match fuel with
  | O => (Err SseOutOfFuel, l)
  | S fuel =>
      let '(line, e, l') := ReadSlice size l in
      if limit <? len frame + len line then (Err TooLong, l')
    else
      let frame := frame ++ line in
      let lineBytes := lineBytes + len line in
      match e with
      | Some BufferFull => next_loop fuel frame lineBytes l'
      | Some EndOfStream => (Err (if eof && bool_decide (frame = []) then SseEOF else Truncated), l')
      | None =>
          if (lineBytes =? 1)
          || ((lineBytes =? 2) && (len line =? 2) && bool_decide (line !! 0%nat = Some carriage_return))
          then (Ok frame, l')
        else next_loop fuel frame 0 l'
      end
  end.

Definition Next (l : bytes) : res sse_error bytes * bytes := next_loop (S (length l)) [] 0 l.

End Reader.

(** The data lines of a frame, joined. *)
Fixpoint sse_data_loop (fuel : nat) (frame : bytes) (data : option bytes) : option bytes :=
  match fuel, frame with
  | O, _ | _, [] => data
  | S fuel, _ =>
      let '(line, rest) := cut newline frame in
      let line := trim_suffix_byte carriage_return line in
      sse_data_loop fuel rest
        (match strip (lit "data:") line with
         | Some v =>
             let v := trim_prefix_byte " " v in
             Some (match data with None => v | Some d => d ++ newline :: v end)
         | None => data
         end)
  end.

Definition SSEData (frame : bytes) : bytes := default [] (sse_data_loop (length frame) frame None).

(** ** The reference: a frame ends with the first empty line *)

Definition is_blank (line : bytes) : bool := bool_decide (line = [newline] ∨ line = [carriage_return; newline]).

Fixpoint split_event (fuel : nat) (l : bytes) : option (bytes * bytes) :=
  match fuel with
  | O => None
  | S fuel =>
      match index_byte l newline with
      | None => None
      | Some i =>
          let line := take (S i) l in
          if is_blank line then Some (line, drop (S i) l)
          else '(f, r) ← split_event fuel (drop (S i) l); Some (line ++ f, r)
      end
  end.

Definition next_event (limit : Z) (eof : bool) (l : bytes) : res sse_error (bytes * bytes) :=
  match split_event (S (length l)) l with
  | Some (f, r) => if limit <? len f then Err TooLong else Ok (f, r)
  | None => if limit <? len l then Err TooLong else Err (if eof && bool_decide (l = []) then SseEOF else Truncated)
  end.

(** What a caller sees of a call. *)
Definition outcome (x : res sse_error bytes * bytes) : res sse_error (bytes * bytes) :=
  match x with (Ok f, r) => Ok (f, r) | (Err e, _) => Err e end.

Definition sse_ex : bytes := lit ": hi" ++ [carriage_return; newline; carriage_return; newline] ++ lit "data: a" ++ [newline]
  ++ lit "data:b" ++ [newline; newline].
Example sse_ex1 : outcome (Next sse_buffer 100 true sse_ex)
  = Ok (lit ": hi" ++ [carriage_return; newline; carriage_return; newline], lit "data: a" ++ [newline] ++ lit "data:b" ++ [newline; newline]).
Proof. vm_compute. reflexivity. Qed.
Example sse_ex2 : SSEData (lit "data: a" ++ [newline] ++ lit "data:b" ++ [newline; newline]) = lit "a" ++ newline :: lit "b".
Proof. vm_compute. reflexivity. Qed.
