(* ===== verification/SseFacts.v ===== *)
(** * The event reader implements its specification

    The frames depend on the bytes of the stream alone, not on how the
    buffered reader fragments them, and events that are written are read
    back. *)

From S2P Require Import Prelude Json JsonFacts Request RequestFacts GoText Sse.
Local Open Scope Z_scope.
#[local] Arguments Ascii.eqb : simpl never.

Lemma len_app a b : len (a ++ b) = len a + len b.
Proof. unfold len. rewrite length_app. lia. Qed.
Lemma len_cons x a : len (x :: a) = len a + 1.
Proof. unfold len. simpl. lia. Qed.
Lemma len_nonneg a : 0 <= len a.
Proof. unfold len. lia. Qed.

Lemma take_line a b : take (S (length a)) (a ++ newline :: b) = a ++ [newline].
Proof. rewrite (cons_middle newline a b), app_assoc. apply take_app_length'. rewrite length_app. simpl. lia. Qed.
Lemma drop_line a b : drop (S (length a)) (a ++ newline :: b) = b.
Proof. rewrite (cons_middle newline a b), app_assoc. apply drop_app_length'. rewrite length_app. simpl. lia. Qed.

Lemma split_event_line fuel a b :
  index_byte_free newline a →
  split_event (S fuel) (a ++ newline :: b)
  = if is_blank (a ++ [newline]) then Some (a ++ [newline], b)
    else '(f, r) ← split_event fuel b; Some ((a ++ [newline]) ++ f, r).
Proof. intros Ha. cbn [split_event]. rewrite index_byte_at, take_line, drop_line by done. done. Qed.

Lemma split_event_free fuel a : index_byte_free newline a → split_event fuel a = None.
Proof. intros Ha%index_byte_plain. destruct fuel; [done|]. cbn [split_event]. by rewrite Ha. Qed.

Lemma split_event_fuel f g l : (length l < f)%nat → (length l < g)%nat → split_event f l = split_event g l.
Proof.
  revert g l. induction f as [|f IH]; intros [|g] l Hf Hg; try lia.
  destruct (newline_split l) as [H|(a & b & -> & H)]; [by rewrite !split_event_free|].
  rewrite !split_event_line by done. rewrite length_app in *. cbn [length] in *. rewrite (IH g b) by lia. done.
Qed.

Section Spec.
Context (size : nat) (limit : Z) (eof : bool).

(** The reference after the complete lines [f0], for the bytes [x] to come. *)
Definition event_after (f0 x : bytes) : res sse_error (bytes * bytes) :=
  match split_event (S (length x)) x with
  | Some (f, r) => if limit <? len f0 + len f then Err TooLong else Ok (f0 ++ f, r)
  | None =>
      if limit <? len f0 + len x then Err TooLong
    else Err (if eof && bool_decide (f0 ++ x = []) then SseEOF else Truncated)
  end.

Lemma event_after_free f0 x :
  index_byte_free newline x →
  event_after f0 x = if limit <? len f0 + len x then Err TooLong
  else Err (if eof && bool_decide (f0 ++ x = []) then SseEOF else Truncated).
Proof. intros H. unfold event_after. by rewrite split_event_free. Qed.

Lemma event_after_line f0 a b :
  index_byte_free newline a →
  event_after f0 (a ++ newline :: b)
  = if is_blank (a ++ [newline])
  then if limit <? len f0 + len (a ++ [newline]) then Err TooLong else Ok (f0 ++ a ++ [newline], b)
  else event_after (f0 ++ a ++ [newline]) b.
Proof.
  intros H. unfold event_after. rewrite split_event_line by done. destruct (is_blank _); [done|].
  assert (Hfuel : split_event (length (a ++ newline :: b)) b = split_event (S (length b)) b).
  { apply split_event_fuel; [|lia]. rewrite length_app. simpl. lia. }
  rewrite Hfuel. destruct (split_event (S (length b)) b) as [[f r]|]; cbn [mbind option_bind].
  - rewrite !len_app, Z.add_assoc, <-!app_assoc. done.
  - assert (E : (f0 ++ a ++ [newline]) ++ b = f0 ++ a ++ newline :: b) by by rewrite <-!app_assoc.
    rewrite E, <-!len_app, E. done.
Qed.

Lemma event_after_long f0 a x :
  index_byte_free newline a → limit < len f0 + len a → event_after f0 (a ++ x) = Err TooLong.
Proof.
  intros Ha Hlim. unfold event_after. destruct (newline_split x) as [Hx|(c & b & -> & Hc)].
  - rewrite split_event_free by (by apply Forall_app). rewrite len_app. pose proof (len_nonneg x).
    destruct (Z.ltb_spec limit (len f0 + (len a + len x))); [done|lia].
  - rewrite app_assoc, split_event_line by (by apply Forall_app). pose proof (len_nonneg c).
    destruct (is_blank _).
    { rewrite !len_app. destruct (Z.ltb_spec limit (len f0 + (len a + len c + len [newline]))); [done|unfold len at 4 in H0; lia]. }
    destruct (split_event _ b) as [[f r]|]; cbn [mbind option_bind].
    + rewrite !len_app. pose proof (len_nonneg f). pose proof (len_nonneg [newline]).
      destruct (Z.ltb_spec limit (len f0 + (len a + len c + len [newline] + len f))); [done|lia].
    + rewrite !len_app. pose proof (len_nonneg (newline :: b)).
      destruct (Z.ltb_spec limit (len f0 + (len a + len c + len (newline :: b)))); [done|lia].
Qed.

(** Whether a complete line is empty shows in the lengths of its fragments. *)
Lemma blank_test p a :
  index_byte_free newline p → index_byte_free newline a → p = [] ∨ (2 <= len p) →
  (len p + len (a ++ [newline]) =? 1)
  || ((len p + len (a ++ [newline]) =? 2) && (len (a ++ [newline]) =? 2)
    && bool_decide ((a ++ [newline]) !! 0%nat = Some carriage_return))
  = is_blank (p ++ a ++ [newline]).
Proof.
  intros Hp Ha Hlen. unfold is_blank. rewrite len_app. change (len [newline]) with 1.
  pose proof (len_nonneg a). destruct Hlen as [-> | Hlen].
  - change (len []) with 0. cbn [app]. destruct a as [|x [|y a]].
    + reflexivity.
    + destruct (decide (x = carriage_return)) as [->|Hx]; [reflexivity|]. cbn [app].
      rewrite !bool_decide_false; [reflexivity| |simpl; congruence]. intros [H'|H']; congruence.
    + rewrite !len_cons. pose proof (len_nonneg a). destruct (Z.eqb_spec (0 + (len a + 1 + 1 + 1)) 1); [lia|].
      destruct (Z.eqb_spec (0 + (len a + 1 + 1 + 1)) 2); [lia|]. cbn [orb andb].
      rewrite bool_decide_false; [done|]. intros [H'|H']; apply (f_equal len) in H'; rewrite !len_app, !len_cons in H'; change (len []) with 0 in H'; lia.
  - destruct (Z.eqb_spec (len p + (len a + 1)) 1); [lia|]. destruct (Z.eqb_spec (len p + (len a + 1)) 2); [lia|].
    cbn [orb andb]. rewrite bool_decide_false; [done|].
    intros [H'|H']; apply (f_equal len) in H'; rewrite !len_app, ?len_cons in H'; change (len []) with 0 in H'; lia.
Qed.

Lemma next_loop_spec (Hsize : (2 ≤ size)%nat) fuel f0 p l :
  (length l < fuel)%nat → index_byte_free newline p → p = [] ∨ (2 <= len p) →
  outcome (next_loop size limit eof fuel (f0 ++ p) (len p) l) = event_after f0 (p ++ l).
Proof.
  revert f0 p l. induction fuel as [|fuel IH]; intros f0 p l Hf Hp Hlen; [lia|].
  assert (Hfrag : ∀ w r, l = w ++ r → length w = size → index_byte_free newline w →
    outcome (if limit <? len (f0 ++ p) + len w then (Err TooLong, r)
    else next_loop size limit eof fuel ((f0 ++ p) ++ w) (len p + len w) r) = event_after f0 (p ++ l)).
  { intros w r -> Hw Hfree. assert (Hpw : index_byte_free newline (p ++ w)) by by apply Forall_app.
    rewrite app_assoc. destruct (Z.ltb_spec limit (len (f0 ++ p) + len w)) as [Hl|Hl].
    - rewrite event_after_long; [done|done|]. rewrite len_app in *. lia.
    - rewrite <-app_assoc, <-len_app. rewrite <-IH; [done| |done|].
      + rewrite length_app in Hf. lia.
      + right. rewrite len_app. pose proof (len_nonneg p). unfold len at 2. lia. }
  cbn [next_loop]. unfold ReadSlice. destruct (newline_split l) as [Hl|(a & b & -> & Ha)].
  - rewrite (proj2 (index_byte_plain l newline) Hl). destruct (Nat.leb_spec size (length l)).
    + apply Hfrag; [by rewrite take_drop|rewrite length_take; lia|by apply Forall_take].
    + rewrite event_after_free by (by apply Forall_app). rewrite !len_app, <-app_assoc, Z.add_assoc.
      by destruct (limit <? _).
  - rewrite index_byte_at by done. destruct (Nat.ltb_spec (length a) size).
    + rewrite take_line, drop_line, (app_assoc p a), event_after_line by (by apply Forall_app).
      destruct (Z.ltb_spec limit (len (f0 ++ p) + len (a ++ [newline]))) as [Hl|Hl].
      * destruct (is_blank _).
        -- rewrite !len_app in *. destruct (Z.ltb_spec limit (len f0 + (len p + len a + len [newline]))); [done|lia].
        -- symmetry. rewrite <-(app_nil_l b). apply event_after_long; [constructor|]. rewrite !len_app in *. change (len []) with 0. lia.
      * rewrite <-(app_assoc p a [newline]), <-(blank_test p a) by done. destruct (_ || _).
        -- simpl. rewrite !len_app in *. destruct (Z.ltb_spec limit (len f0 + (len p + (len a + len [newline])))); [lia|].
          by rewrite <-!app_assoc.
        -- change 0 with (len []) at 1. rewrite <-(app_nil_r ((f0 ++ p) ++ _)).
          rewrite IH; [|rewrite length_app in Hf; simpl in Hf; lia|constructor|by left]. by rewrite <-!app_assoc.
    + apply Hfrag; [by rewrite take_drop|rewrite length_take, length_app; simpl; lia|].
      rewrite take_app_le by lia. by apply Forall_take.
Qed.

End Spec.

(** ** Events written and read back *)

(** An event of the given data lines. *)
Definition data_line (d : bytes) : bytes := lit "data: " ++ d ++ [newline].
Definition write_event (ds : list bytes) : bytes := concat (map data_line ds) ++ [newline].

(** A line of data: no line feed, no carriage return at its end. *)
Definition is_line (d : bytes) : Prop := index_byte_free newline d ∧ last d ≠ Some carriage_return.

Fixpoint join_lines (ds : list bytes) : bytes :=
  match ds with [] => [] | [d] => d | d :: ds' => d ++ newline :: join_lines ds' end.

Lemma data_prefix_free : index_byte_free newline (lit "data: ").
Proof. repeat constructor; done. Qed.

Lemma trim_suffix_line d : last d ≠ Some carriage_return → trim_suffix_byte carriage_return d = d.
Proof.
  intros H. unfold trim_suffix_byte. destruct d as [|x d _] using rev_ind; [done|]. rewrite rev_app_distr. simpl.
  rewrite last_snoc in H. destruct (Ascii.eqb_spec x carriage_return); [congruence|]. simpl. by rewrite rev_involutive.
Qed.

Lemma last_data d : last d ≠ Some carriage_return → last (lit "data: " ++ d) ≠ Some carriage_return.
Proof. intros H. rewrite last_app. by destruct (last d). Qed.

Definition more_data (data : option bytes) (d : bytes) : option bytes :=
  Some (match data with None => d | Some x => x ++ newline :: d end).

Lemma sse_data_lines ds rest fuel data :
  Forall is_line ds → (length (concat (map data_line ds) ++ rest) ≤ fuel)%nat →
  ∃ fuel', (length rest ≤ fuel')%nat ∧
    sse_data_loop fuel (concat (map data_line ds) ++ rest) data = sse_data_loop fuel' rest (fold_left more_data ds data).
Proof.
  intros H. revert fuel data. induction H as [|d ds [Hd Hl] _ IH]; intros fuel data Hf; [by exists fuel|].
  assert (E : concat (map data_line (d :: ds)) ++ rest = (lit "data: " ++ d) ++ newline :: concat (map data_line ds) ++ rest).
  { cbn [map concat]. unfold data_line at 1. by rewrite <-!app_assoc. }
  rewrite E in *. rewrite length_app in Hf. cbn [length] in Hf. destruct fuel as [|fuel]; [simpl in Hf; lia|].
  destruct (IH fuel (more_data data d)) as (f' & Hf' & E'); [lia|]. exists f'. split; [done|].
  cbn [fold_left]. rewrite <-E'. cbn [sse_data_loop lit list_ascii_of_string app].
  change ("d"%char :: "a"%char :: "t"%char :: "a"%char :: ":"%char :: " "%char :: d ++ newline :: concat (map data_line ds) ++ rest)
    with (lit "data: " ++ d ++ newline :: concat (map data_line ds) ++ rest).
  rewrite app_assoc, cut_free by (apply Forall_app; split; [apply data_prefix_free|done]).
  rewrite trim_suffix_line by by apply last_data. reflexivity.
Qed.

Lemma fold_more_data ds x : fold_left more_data ds (Some x) = Some (foldl (λ a d, a ++ newline :: d) x ds).
Proof. revert x. induction ds as [|d ds IH]; intros x; [done|]. simpl. apply IH. Qed.

Lemma join_lines_fold ds x : foldl (λ a d, a ++ newline :: d) x ds = join_lines (x :: ds).
Proof.
  revert x. induction ds as [|d ds IH]; intros x; [done|]. cbn [foldl]. rewrite IH. destruct ds; [done|].
  cbn [join_lines]. by rewrite <-app_assoc.
Qed.

Lemma sse_data_write ds : ds ≠ [] → Forall is_line ds → SSEData (write_event ds) = join_lines ds.
Proof.
  intros Hne H. unfold SSEData, write_event.
  destruct (sse_data_lines ds [newline] _ None H (le_n _)) as ([|f] & Hf & ->); [simpl in Hf; lia|].
  assert (E : ∀ data, sse_data_loop (S f) [newline] data = data) by (intros data; destruct f; reflexivity).
  rewrite E. destruct ds as [|d ds]; [done|]. change (fold_left more_data (d :: ds) None) with (fold_left more_data ds (Some d)). by rewrite fold_more_data, join_lines_fold.
Qed.

Lemma split_written ds rest fuel :
  Forall is_line ds → (length (concat (map data_line ds)) < fuel)%nat →
  split_event fuel (write_event ds ++ rest) = Some (write_event ds, rest).
Proof.
  intros H. revert fuel. unfold write_event. induction H as [|d ds [Hd _] _ IH]; intros fuel Hf.
  - destruct fuel; [simpl in Hf; lia|]. cbn [map concat app].
    rewrite (split_event_line _ [] rest) by constructor. reflexivity.
  - assert (E : (concat (map data_line (d :: ds)) ++ [newline]) ++ rest
      = (lit "data: " ++ d) ++ newline :: (concat (map data_line ds) ++ [newline]) ++ rest).
    { cbn [map concat]. unfold data_line at 1. by rewrite <-!app_assoc. }
    cbn [map concat] in Hf. rewrite length_app in Hf. unfold data_line at 1 in Hf. rewrite !length_app in Hf. cbn [length] in Hf.
    destruct fuel as [|fuel]; [lia|]. rewrite E, split_event_line by (apply Forall_app; split; [apply data_prefix_free|done]).
    assert (Hb : is_blank ((lit "data: " ++ d) ++ [newline]) = false).
    { unfold is_blank. rewrite bool_decide_false; [done|]. intros [H'|H']; discriminate. }
    rewrite Hb, IH by lia. cbn [mbind option_bind]. cbn [map concat]. unfold data_line at 2. by rewrite <-!app_assoc.
Qed.

Lemma next_spec size limit eof l : (2 ≤ size)%nat → outcome (Next size limit eof l) = next_event limit eof l.
Proof.
  intros Hsize. unfold Next. rewrite <-(app_nil_l []) at 1. change 0 with (len []).
  rewrite next_loop_spec; [|done|lia|constructor|by left]. unfold event_after, next_event. cbn [app].
  change (len []) with 0. by destruct (split_event _ l) as [[f r]|].
Qed.

Lemma next_event_frame limit eof l f r : next_event limit eof l = Ok (f, r) → l = f ++ r ∧ f ≠ [] ∧ len f <= limit.
Proof.
  unfold next_event. destruct (split_event _ l) as [[f' r']|] eqn:Es; [|by case_match].
  destruct (Z.ltb_spec limit (len f')); [done|]. intros [= <- <-]. revert f' r' Es H. generalize (S (length l)).
  intros n. revert l. induction n as [|n IH]; intros l f0 r0 Es Hl; [done|].
  destruct (newline_split l) as [Hn|(a & b & -> & Ha)]; [by rewrite split_event_free in Es|].
  rewrite split_event_line in Es by done. destruct (is_blank _).
  - injection Es as <- <-. split_and!; [by rewrite <-app_assoc|by destruct a|lia].
  - destruct (split_event n b) as [[f1 r1]|] eqn:E0; [|done]. injection Es as <- <-.
    destruct (IH b _ _ E0) as (-> & _ & _). { rewrite !len_app in *. pose proof (len_nonneg a). change (len [newline]) with 1 in *. lia. }
    split_and!; [by rewrite <-!app_assoc|by destruct a|done].
Qed.

(** ** The theorems *)

(** C15: the reader's frames are the stream's, cut after each first empty
    line: a call terminates, and whatever the buffer size (two bytes or more)
    and however a line falls across fragments, it returns the bytes up to and
    including the first line that is LF or CRLF alone and leaves exactly the
    bytes after it, unless that exceeds the limit; without such a line the
    stream is too long, ended, or truncated.  Complete frames concatenated
    with the rest give the stream back. *)
Theorem sse_reader_refines_lines size limit eof l :
  (2 ≤ size)%nat →
  outcome (Next size limit eof l) = next_event limit eof l
  ∧ (∀ f r, outcome (Next size limit eof l) = Ok (f, r) → l = f ++ r ∧ f ≠ [] ∧ len f <= limit)
  ∧ outcome (Next size limit eof l) ≠ Err SseOutOfFuel.
Proof.
  intros Hsize. rewrite next_spec by done. split_and!; [done|apply next_event_frame|].
  unfold next_event. destruct (split_event _ l) as [[f r]|]; repeat case_match; done.
Qed.

(** C16: what is written as an event is read back: for any data lines without
    line breaks, within the limit, the reader returns exactly the event's
    bytes and leaves the rest, and [SSEData] of them is the lines joined by
    line feeds. *)
Theorem sse_roundtrip size limit eof ds rest :
  (2 ≤ size)%nat → ds ≠ [] → Forall is_line ds → len (write_event ds) <= limit →
  outcome (Next size limit eof (write_event ds ++ rest)) = Ok (write_event ds, rest)
  ∧ SSEData (write_event ds) = join_lines ds.
Proof.
  intros Hsize Hne H Hl. split; [|by apply sse_data_write].
  unfold Next. rewrite <-(app_nil_l []) at 1. change 0 with (len []).
  rewrite next_loop_spec; [|done|lia|constructor|by left]. unfold event_after. cbn [app].
  rewrite split_written; [|done|unfold write_event; rewrite !length_app; simpl; lia].
  change (len []) with 0. destruct (Z.ltb_spec limit (0 + len (write_event ds))); [lia|done].
Qed.

Lemma sse_reader_refines_lines_witness :
  outcome (Next 2 100 true sse_ex) = outcome (Next sse_buffer 100 true sse_ex).
Proof.
  destruct (sse_reader_refines_lines 2 100 true sse_ex) as (-> & _ & _); [lia|]. vm_compute. reflexivity.
Defined.

Lemma sse_roundtrip_witness :
  SSEData (write_event [lit "a"; []]) = [ "a"%char; newline].
Proof.
  apply (sse_roundtrip 2 100 true [lit "a"; []] []); [lia|done| |vm_compute; discriminate].
  repeat constructor; vm_compute; discriminate.
Defined.
