(* ===== verification/Observer.v ===== *)
(** * Completion observer ([internal/protocol/execution.go])

    What the gateway learns from the frames of a streamed response: declared
    usage, whether output was seen, whether the response completed, and why it
    did not.  A [json.RawMessage] is a parsed value, absent when its member is
    ([null] is a message of four bytes, not an empty one). *)

From S2P Require Import Prelude Json GoText Sse.
Local Open Scope Z_scope.

Record CompletionObserver := {
  o_InputTokens : Z; o_OutputTokens : Z; o_TotalTokens : Z; o_UsageSeen : bool;
  o_Protocol : string; o_Complete : bool; o_Terminal : bool; o_SawOutput : bool; o_Error : string;
  o_choices : gmap Z bool; o_inputSeen : bool; o_outputSeen : bool; o_totalSeen : bool }.

Definition new_observer (protocol : string) : CompletionObserver :=
  {| o_InputTokens := 0; o_OutputTokens := 0; o_TotalTokens := 0; o_UsageSeen := false;
     o_Protocol := protocol; o_Complete := false; o_Terminal := false; o_SawOutput := false; o_Error := "";
     o_choices := ∅; o_inputSeen := false; o_outputSeen := false; o_totalSeen := false |}.

Definition set_o_error (e : string) (o : CompletionObserver) : CompletionObserver :=
  {| o_InputTokens := o_InputTokens o; o_OutputTokens := o_OutputTokens o; o_TotalTokens := o_TotalTokens o;
     o_UsageSeen := o_UsageSeen o; o_Protocol := o_Protocol o; o_Complete := o_Complete o;
     o_Terminal := o_Terminal o; o_SawOutput := o_SawOutput o; o_Error := e; o_choices := o_choices o;
     o_inputSeen := o_inputSeen o; o_outputSeen := o_outputSeen o; o_totalSeen := o_totalSeen o |}.
Definition set_o_progress (complete terminal : bool) (saw : bool) (choices : gmap Z bool) (o : CompletionObserver)
    : CompletionObserver :=
  {| o_InputTokens := o_InputTokens o; o_OutputTokens := o_OutputTokens o; o_TotalTokens := o_TotalTokens o;
     o_UsageSeen := o_UsageSeen o; o_Protocol := o_Protocol o; o_Complete := complete;
     o_Terminal := terminal; o_SawOutput := saw; o_Error := o_Error o; o_choices := choices;
     o_inputSeen := o_inputSeen o; o_outputSeen := o_outputSeen o; o_totalSeen := o_totalSeen o |}.
Definition set_o_usage (input output total : Z) (i u t : bool) (o : CompletionObserver) : CompletionObserver :=
  {| o_InputTokens := input; o_OutputTokens := output; o_TotalTokens := total;
     o_UsageSeen := true; o_Protocol := o_Protocol o; o_Complete := o_Complete o;
     o_Terminal := o_Terminal o; o_SawOutput := o_SawOutput o; o_Error := o_Error o; o_choices := o_choices o;
     o_inputSeen := i; o_outputSeen := u; o_totalSeen := t |}.

Definition finish (o : CompletionObserver) : CompletionObserver :=
  set_o_progress true true (o_SawOutput o) (o_choices o) o.
Definition saw_output (b : bool) (o : CompletionObserver) : CompletionObserver :=
  if b then set_o_progress (o_Complete o) (o_Terminal o) true (o_choices o) o else o.

(** ** Usage *)

Record usageValue := { u_input : Z; u_output : Z; u_total : Z; u_inputSet : bool; u_outputSet : bool; u_totalSet : bool }.
Definition no_usage : usageValue :=
  {| u_input := 0; u_output := 0; u_total := 0; u_inputSet := false; u_outputSet := false; u_totalSet := false |}.

Fixpoint usageField (fields : gmap string json) (names : list string) : Z * bool :=
  match names with
  | [] => (0, false)
  | name :: names =>
      match fields !! name with
      | None => usageField fields names
      | Some raw =>
          match decode_int64 raw 0 with
          | Some value => if 0 <=? value then (value, true) else usageField fields names
          | None => usageField fields names
          end
      end
  end.

Definition parseUsageValue (raw : json) : usageValue :=
  match raw, decode_map raw with
  | JNull, _ | _, None => no_usage
  | _, Some fields =>
      let '(i, iset) := usageField fields ["prompt_tokens"; "promptTokens"; "input_tokens"; "inputTokens"; "promptTokenCount"] in
      let '(u, uset) := usageField fields ["completion_tokens"; "completionTokens"; "output_tokens"; "outputTokens"; "candidatesTokenCount"] in
      let '(t, tset) := usageField fields ["total_tokens"; "totalTokens"; "totalTokenCount"] in
      {| u_input := i; u_output := u; u_total := t; u_inputSet := iset; u_outputSet := uset; u_totalSet := tset |}
  end.

Definition mergeUsage (value : usageValue) (o : CompletionObserver) : CompletionObserver :=
  if negb (u_inputSet value) && negb (u_outputSet value) && negb (u_totalSet value) then o
  else
    let inputSeen := o_inputSeen o || u_inputSet value in
    let outputSeen := o_outputSeen o || u_outputSet value in
    let totalSeen := o_totalSeen o || u_totalSet value in
    let input := if u_inputSet value then u_input value else o_InputTokens o in
    let output := if u_outputSet value then u_output value else o_OutputTokens o in
    let total := if u_totalSet value then u_total value else o_TotalTokens o in
    let total := if negb totalSeen && inputSeen && outputSeen then i64 (input + output) else total in
    set_o_usage input output total inputSeen outputSeen totalSeen o.

Definition usage_keys : list string := ["usage"; "usageMetadata"; "usage_metadata"].

Definition merge_usage_members (envelope : gmap string json) (o : CompletionObserver) : CompletionObserver :=
  fold_left (λ o key, match envelope !! key with Some raw => mergeUsage (parseUsageValue raw) o | None => o end) usage_keys o.

Definition observeUsage (data : bytes) (o : CompletionObserver) : CompletionObserver :=
  match v ← parse_json data; decode_map v with
  | None => o
  | Some envelope =>
      let o := merge_usage_members envelope o in
      match envelope !! "message"%string with
      | None => o
      | Some raw => match decode_map raw with Some nested => merge_usage_members nested o | None => o end
      end
  end.

Definition ObserveJSON (data : bytes) (o : CompletionObserver) : CompletionObserver := observeUsage (trim_space data) o.

(** ** Choices *)

Definition choice (index : Z) (finished : bool) (o : CompletionObserver) : CompletionObserver :=
  if (index <? 0) || (1024 <? index) then set_o_error "invalid_choice_index" o
  else
    let choices := <[index := default false (o_choices o !! index) || finished]> (o_choices o) in
    let complete := bool_decide (choices ≠ ∅) && bool_decide (map_Forall (λ _ done_, done_ = true) choices) in
    set_o_progress complete (o_Terminal o) (o_SawOutput o) choices o.

(** ** The event's fields *)

(** Go's struct types of [Observe], with their tags. *)
Record chat_delta := { cd_content : string; cd_refusal : string; cd_tool_calls : slice_of (option json); cd_function_call : option json }.
Record chat_choice := { cc_index : Z; cc_finish : option string; cc_delta : chat_delta }.
Record part := { pt_text : string; pt_function_call : option json }.
Record candidate := { ca_index : Z; ca_finish : string; ca_parts : slice_of part }.
Record event := {
  ev_type : string; ev_error : option json; ev_delta : option json; ev_choices : slice_of chat_choice;
  ev_candidates : slice_of candidate; ev_block : string }.

Definition zero_delta := {| cd_content := ""; cd_refusal := ""; cd_tool_calls := nil_slice; cd_function_call := None |}.
Definition zero_choice := {| cc_index := 0; cc_finish := None; cc_delta := zero_delta |}.
Definition zero_part := {| pt_text := ""; pt_function_call := None |}.
Definition zero_candidate := {| ca_index := 0; ca_finish := ""; ca_parts := nil_slice |}.
Definition zero_event :=
  {| ev_type := ""; ev_error := None; ev_delta := None; ev_choices := nil_slice; ev_candidates := nil_slice; ev_block := "" |}.

(** A [*string]. *)
Definition decode_string_ptr (v : json) : option (option string) :=
  match v with JNull => Some None | _ => s ← decode_string v ""; Some (Some s) end.

Definition decode_chat_delta : json → chat_delta → option chat_delta :=
  decode_struct ["content"; "refusal"; "tool_calls"; "function_call"]%string (λ d n x,
    if (n =? "content")%string then
      s ← decode_string x (cd_content d);
      Some {| cd_content := s; cd_refusal := cd_refusal d; cd_tool_calls := cd_tool_calls d; cd_function_call := cd_function_call d |}
    else if (n =? "refusal")%string then
      s ← decode_string x (cd_refusal d);
      Some {| cd_content := cd_content d; cd_refusal := s; cd_tool_calls := cd_tool_calls d; cd_function_call := cd_function_call d |}
    else if (n =? "tool_calls")%string then
      l ← decode_slice None (λ y _, Some (Some y)) x (cd_tool_calls d);
      Some {| cd_content := cd_content d; cd_refusal := cd_refusal d; cd_tool_calls := l; cd_function_call := cd_function_call d |}
    else
      Some {| cd_content := cd_content d; cd_refusal := cd_refusal d; cd_tool_calls := cd_tool_calls d; cd_function_call := Some x |}).

Definition decode_chat_choice : json → chat_choice → option chat_choice :=
  decode_struct ["index"; "finish_reason"; "delta"]%string (λ c n x,
    if (n =? "index")%string then
      i ← decode_int64 x (cc_index c); Some {| cc_index := i; cc_finish := cc_finish c; cc_delta := cc_delta c |}
    else if (n =? "finish_reason")%string then
      f ← decode_string_ptr x; Some {| cc_index := cc_index c; cc_finish := f; cc_delta := cc_delta c |}
    else
      d ← decode_chat_delta x (cc_delta c); Some {| cc_index := cc_index c; cc_finish := cc_finish c; cc_delta := d |}).

Definition decode_part : json → part → option part :=
  decode_struct ["text"; "functionCall"]%string (λ p n x,
    if (n =? "text")%string then
      s ← decode_string x (pt_text p); Some {| pt_text := s; pt_function_call := pt_function_call p |}
    else Some {| pt_text := pt_text p; pt_function_call := Some x |}).

Definition decode_candidate : json → candidate → option candidate :=
  decode_struct ["index"; "finishReason"; "content"]%string (λ c n x,
    if (n =? "index")%string then
      i ← decode_int64 x (ca_index c); Some {| ca_index := i; ca_finish := ca_finish c; ca_parts := ca_parts c |}
    else if (n =? "finishReason")%string then
      s ← decode_string x (ca_finish c); Some {| ca_index := ca_index c; ca_finish := s; ca_parts := ca_parts c |}
    else
      l ← decode_struct ["parts"]%string (λ l _ y, decode_slice zero_part decode_part y l) x (ca_parts c);
      Some {| ca_index := ca_index c; ca_finish := ca_finish c; ca_parts := l |}).

Definition decode_event : json → event → option event :=
  decode_struct ["type"; "error"; "delta"; "choices"; "candidates"; "promptFeedback"]%string (λ e n x,
    if (n =? "type")%string then
      s ← decode_string x (ev_type e);
      Some {| ev_type := s; ev_error := ev_error e; ev_delta := ev_delta e; ev_choices := ev_choices e; ev_candidates := ev_candidates e; ev_block := ev_block e |}
    else if (n =? "error")%string then
      Some {| ev_type := ev_type e; ev_error := Some x; ev_delta := ev_delta e; ev_choices := ev_choices e; ev_candidates := ev_candidates e; ev_block := ev_block e |}
    else if (n =? "delta")%string then
      Some {| ev_type := ev_type e; ev_error := ev_error e; ev_delta := Some x; ev_choices := ev_choices e; ev_candidates := ev_candidates e; ev_block := ev_block e |}
    else if (n =? "choices")%string then
      l ← decode_slice zero_choice decode_chat_choice x (ev_choices e);
      Some {| ev_type := ev_type e; ev_error := ev_error e; ev_delta := ev_delta e; ev_choices := l; ev_candidates := ev_candidates e; ev_block := ev_block e |}
    else if (n =? "candidates")%string then
      l ← decode_slice zero_candidate decode_candidate x (ev_candidates e);
      Some {| ev_type := ev_type e; ev_error := ev_error e; ev_delta := ev_delta e; ev_choices := ev_choices e; ev_candidates := l; ev_block := ev_block e |}
    else
      s ← decode_struct ["blockReason"]%string (λ s _ y, decode_string y s) x (ev_block e);
      Some {| ev_type := ev_type e; ev_error := ev_error e; ev_delta := ev_delta e; ev_choices := ev_choices e; ev_candidates := ev_candidates e; ev_block := s |}).

(** ** [Observe] *)

(** The last [event:] line's name. *)
Definition event_name (frame : bytes) : string :=
  fold_left (λ event line, match strip (lit "event:") line with Some r => str (trim_space r) | None => event end)
    (split_on newline frame) ""%string.

Definition has_content (d : chat_delta) : bool :=
  negb (cd_content d =? "")%string || negb (cd_refusal d =? "")%string
  || bool_decide (sl_elems (cd_tool_calls d) ≠ []) || bool_decide (cd_function_call d ≠ None).

Definition observe_chat (v : event) (o : CompletionObserver) : CompletionObserver :=
  fold_left (λ o c,
      let o := choice (cc_index c) (match cc_finish c with Some f => negb (f =? "")%string | None => false end) o in
      saw_output (has_content (cc_delta c)) o) (sl_elems (ev_choices v)) o.

Definition observe_messages (event : string) (v : Observer.event) (o : CompletionObserver) : CompletionObserver :=
  let o := if (event =? "message_stop")%string then finish o else o in
  if (event =? "content_block_delta")%string then
    saw_output
      (match d ← ev_delta v;
             decode_struct ["text"; "partial_json"]%string (λ '(t, p) n x,
               if (n =? "text")%string then s ← decode_string x t; Some (s, p) else s ← decode_string x p; Some (t, s))
               d (""%string, ""%string)
       with
       | Some (text, partial) => negb (text =? "")%string || negb (partial =? "")%string
       | None => false
       end) o
  else o.

Definition observe_responses (event : string) (v : Observer.event) (o : CompletionObserver) : CompletionObserver :=
  let o := if (event =? "response.completed")%string then finish o else o in
  if contains ["response.output_text.delta"; "response.function_call_arguments.delta"; "response.refusal.delta"]%string event then
    saw_output (match d ← ev_delta v; decode_string d "" with Some delta => negb (delta =? "")%string | None => false end) o
  else o.

Definition observe_gemini (v : Observer.event) (o : CompletionObserver) : CompletionObserver :=
  if negb (ev_block v =? "")%string then set_o_error "upstream_blocked" o
  else
    fold_left (λ o c,
        let o := choice (ca_index c) (negb (ca_finish c =? "")%string) o in
        fold_left (λ o p, saw_output (negb (pt_text p =? "")%string || bool_decide (pt_function_call p ≠ None)) o)
          (sl_elems (ca_parts c)) o)
      (sl_elems (ev_candidates v)) o.

Definition Observe (frame : bytes) (o : CompletionObserver) : CompletionObserver :=
  let event := event_name frame in
  let data := trim_space (SSEData frame) in
  if (event =? "error")%string then set_o_error "upstream_error" o
  else if bool_decide (data = []) then o
  else if bool_decide (data = lit "[DONE]") then
    if negb (o_Protocol o =? "chat")%string then set_o_error "unexpected_completion_marker" o else finish o
  else
    match v ← parse_json data; decode_event v zero_event with
    | None => set_o_error "invalid_sse_json" o
    | Some v =>
        if match ev_error v with None | Some JNull => false | Some _ => true end then set_o_error "upstream_error" o
        else
          let event := if (ev_type v =? "")%string then event else ev_type v in
          let o := observeUsage data o in
          if contains ["error"; "response.failed"; "response.incomplete"]%string event then set_o_error "upstream_incomplete" o
          else if (o_Protocol o =? "chat")%string then observe_chat v o
          else if (o_Protocol o =? "messages")%string then observe_messages event v o
          else if (o_Protocol o =? "responses")%string then observe_responses event v o
          else if (o_Protocol o =? "gemini")%string then observe_gemini v o
          else set_o_error "unknown_stream_protocol" o
    end.

(** A stream of frames. *)
Definition observe_all (frames : list bytes) (o : CompletionObserver) : CompletionObserver :=
  fold_left (λ o f, Observe f o) frames o.
