(* ===== verification/ObserverFacts.v ===== *)
(** * What the completion observer guarantees

    Every observation is a sequence of a few elementary updates; invariants
    are proved for those, by induction over the sequence. *)

From S2P Require Import Prelude Execution Json GoText Sse Observer.
Local Open Scope Z_scope.

(** ** Elementary updates *)

Definition usage_ok (v : usageValue) : Prop :=
  (u_inputSet v = true → 0 <= u_input v < two63) ∧ (u_outputSet v = true → 0 <= u_output v < two63)
  ∧ (u_totalSet v = true → 0 <= u_total v < two63).

Inductive update : CompletionObserver → CompletionObserver → Prop :=
| upd_error e o : e ∈ error_categories → e ≠ ""%string → update o (set_o_error e o)
| upd_finish o : o_Protocol o ≠ "gemini"%string → update o (finish o)
| upd_saw b o : update o (saw_output b o)
| upd_choice i f o : update o (choice i f o)
| upd_usage v o : usage_ok v → update o (mergeUsage v o).

Abbreviation updates := (rtc update).

Ltac category := apply contains_spec; reflexivity.

Lemma error_updates e o : contains error_categories e = true → e ≠ ""%string → updates o (set_o_error e o).
Proof. intros H ?. apply rtc_once. constructor; [by apply contains_spec|done]. Qed.

Lemma fold_updates {A} (f : CompletionObserver → A → CompletionObserver) l o :
  (∀ o a, a ∈ l → updates o (f o a)) → updates o (fold_left f l o).
Proof.
  revert o. induction l as [|a l IH]; intros o H; [done|]. simpl. etransitivity; [apply H; by left|].
  apply IH. intros o' b Hb. apply H. by right.
Qed.

Lemma parse_i64_range raw z : parse_i64 raw = Some z → is_i64 z.
Proof.
  unfold parse_i64, is_i64. destruct raw as [|c d]; [done|]. destruct (Ascii.eqb c "-"); case_match; try done;
    case_match eqn:E; intros [= <-]; apply andb_true_iff in E as [?%Z.leb_le ?%Z.ltb_lt]; lia.
Qed.

Lemma usageField_range fields names z : usageField fields names = (z, true) → 0 <= z < two63.
Proof.
  induction names as [|n names IH]; simpl; [done|]. destruct (fields !! n) as [raw|]; [|done].
  destruct (decode_int64 raw 0) as [v|] eqn:E; [|done]. destruct (Z.leb_spec 0 v); [|done]. intros [= <-].
  destruct raw; try done; simpl in E; [injection E as <-; unfold two63; lia|]. apply parse_i64_range in E. unfold is_i64 in E. lia.
Qed.

Lemma parseUsageValue_ok raw : usage_ok (parseUsageValue raw).
Proof.
  assert (H0 : usage_ok no_usage) by done. unfold parseUsageValue. destruct raw; try exact H0; destruct (decode_map _) as [fields|]; try exact H0.
  repeat match goal with |- context [usageField ?f ?n] =>
    let z := fresh "z" in let b := fresh "b" in let E := fresh "E" in destruct (usageField f n) as [z b] eqn:E end.
  split_and!; simpl; intros ->; by eapply usageField_range.
Qed.

Lemma merge_members_updates m o : updates o (merge_usage_members m o).
Proof.
  apply fold_updates. intros o' k _. destruct (m !! k); [|done]. apply rtc_once. constructor. apply parseUsageValue_ok.
Qed.

Lemma observeUsage_updates data o : updates o (observeUsage data o).
Proof.
  unfold observeUsage. destruct (parse_json data ≫= decode_map) as [m|]; [|done].
  assert (H := merge_members_updates m o). destruct (m !! _) as [raw|]; [|done].
  destruct (decode_map raw) as [n|]; [|done]. etransitivity; [exact H|apply merge_members_updates].
Qed.

(** No update touches the protocol. *)
Lemma update_protocol o o' : update o o' → o_Protocol o' = o_Protocol o.
Proof.
  destruct 1; try done.
  - by destruct b.
  - unfold choice. by case_match.
  - unfold mergeUsage. by case_match.
Qed.

Lemma updates_protocol o o' : updates o o' → o_Protocol o' = o_Protocol o.
Proof. induction 1 as [|o1 o2 o3 H _ IH]; [done|]. rewrite IH. by apply update_protocol. Qed.

Lemma Observe_updates frame o : updates o (Observe frame o).
Proof.
  unfold Observe. destruct (_ =? "error")%string; [by apply error_updates|].
  destruct (bool_decide _); [done|]. destruct (bool_decide _).
  { destruct (String.eqb_spec (o_Protocol o) "chat") as [E|]; simpl; [|by apply error_updates].
    apply rtc_once. constructor. by rewrite E. }
  destruct (parse_json _ ≫= _) as [v|]; [|by apply error_updates].
  destruct (match ev_error v with None | Some JNull => false | Some _ => true end); [by apply error_updates|].
  set (ev := if (_ =? "")%string then _ else _). set (data := trim_space _).
  pose proof (observeUsage_updates data o) as Hu. set (o1 := observeUsage data o) in *.
  etransitivity; [exact Hu|]. clear Hu.
  destruct (contains _ ev); [by apply error_updates|].
  destruct (String.eqb_spec (o_Protocol o1) "chat") as [_|_].
  { apply fold_updates. intros o' c _. eapply rtc_l; [apply upd_choice|]. apply rtc_once, upd_saw. }
  destruct (String.eqb_spec (o_Protocol o1) "messages") as [E|_].
  { unfold observe_messages. etransitivity; [|destruct (_ =? "content_block_delta")%string; [apply rtc_once, upd_saw|reflexivity]].
    destruct (_ =? "message_stop")%string; [|done]. apply rtc_once. constructor. by rewrite E. }
  destruct (String.eqb_spec (o_Protocol o1) "responses") as [E|_].
  { unfold observe_responses. etransitivity; [|destruct (contains _ ev); [apply rtc_once, upd_saw|reflexivity]].
    destruct (_ =? "response.completed")%string; [|done]. apply rtc_once. constructor. by rewrite E. }
  destruct (_ =? "gemini")%string; [|by apply error_updates].
  unfold observe_gemini. destruct (negb _); [by apply error_updates|].
  apply fold_updates. intros o' c _. eapply rtc_l; [apply upd_choice|]. apply fold_updates. intros o'' p _. apply rtc_once, upd_saw.
Qed.

Lemma observe_all_updates frames o : updates o (observe_all frames o).
Proof. apply fold_updates. intros o' f _. apply Observe_updates. Qed.

(** ** The invariant *)

Definition all_finished (m : gmap Z bool) : Prop := m ≠ ∅ ∧ map_Forall (λ _ d, d = true) m.

(** A declared count, or nothing. *)
Definition count_ok (seen : bool) (z : Z) : Prop := if seen then 0 <= z < two63 else z = 0.

Record observer_ok (o : CompletionObserver) : Prop := {
  ok_error : o_Error o ∈ error_categories;
  ok_index : ∀ i d, o_choices o !! i = Some d → 0 <= i <= 1024;
  ok_complete : o_Complete o = true → o_Terminal o = true ∨ all_finished (o_choices o);
  ok_terminal : o_Terminal o = true → o_Protocol o ≠ "gemini"%string;
  ok_seen : o_UsageSeen o = o_inputSeen o || o_outputSeen o || o_totalSeen o;
  ok_input : count_ok (o_inputSeen o) (o_InputTokens o);
  ok_output : count_ok (o_outputSeen o) (o_OutputTokens o);
  ok_total : if o_totalSeen o then 0 <= o_TotalTokens o < two63
             else o_TotalTokens o = if o_inputSeen o && o_outputSeen o then i64 (o_InputTokens o + o_OutputTokens o) else 0 }.

Lemma new_observer_ok p : observer_ok (new_observer p).
Proof. split; try done. category. Qed.

Lemma mergeUsage_ok v o : usage_ok v → observer_ok o → observer_ok (mergeUsage v o).
Proof.
  intros (Hi & Hu & Ht) Ho. unfold mergeUsage. destruct (negb _ && negb _ && negb _) eqn:E; [done|].
  destruct Ho as [He Hx Hc Htm Hs Ii Oo To]. split; simpl; try done.
  - revert E. destruct (u_inputSet v), (u_outputSet v), (u_totalSet v), (o_inputSeen o), (o_outputSeen o), (o_totalSeen o); done.
  - destruct (u_inputSet v); [rewrite orb_true_r; by apply Hi|]. by rewrite orb_false_r.
  - destruct (u_outputSet v); [rewrite orb_true_r; by apply Hu|]. by rewrite orb_false_r.
  - destruct (u_totalSet v); [rewrite orb_true_r; by apply Ht|]. rewrite orb_false_r. clear Hi Hu Ht.
    destruct (o_totalSeen o); [done|]. simpl.
    destruct (u_inputSet v), (u_outputSet v), (o_inputSeen o), (o_outputSeen o); simpl in *; done.
Qed.

Lemma choice_ok i f o : observer_ok o → observer_ok (choice i f o).
Proof.
  intros Ho. unfold choice. destruct (Z.ltb_spec i 0); [|destruct (Z.ltb_spec 1024 i)]; simpl.
  1,2: destruct Ho; split; try done; category.
  destruct Ho as [He Hx Hc Htm Hs Ii Oo To]. split; simpl; try done.
  - intros j d [[<- _]|[_ H1]]%lookup_insert_Some; [lia|by eapply Hx].
  - intros [?%bool_decide_eq_true ?%bool_decide_eq_true]%andb_true_iff. right. by split.
Qed.

Lemma update_ok o o' : update o o' → observer_ok o → observer_ok o'.
Proof.
  destruct 1 as [e o He Hne|o Hp|b o|i f o|v o Hv]; intros Ho.
  - destruct Ho; split; done.
  - destruct Ho; split; simpl; auto.
  - destruct b; [|done]. destruct Ho; split; done.
  - by apply choice_ok.
  - by apply mergeUsage_ok.
Qed.

Lemma updates_ok o o' : updates o o' → observer_ok o → observer_ok o'.
Proof. induction 1; [done|]. intros. eauto using update_ok. Qed.

(** What is never taken back. *)
Definition keeps (o o' : CompletionObserver) : Prop :=
  (o_Error o ≠ ""%string → o_Error o' ≠ ""%string) ∧ (o_Terminal o = true → o_Terminal o' = true)
  ∧ (o_SawOutput o = true → o_SawOutput o' = true) ∧ (o_UsageSeen o = true → o_UsageSeen o' = true)
  ∧ ∀ i, o_choices o !! i = Some true → o_choices o' !! i = Some true.

#[export] Instance keeps_preorder : PreOrder keeps.
Proof. split; [intros o; by split_and!|]. intros x y z (?&?&?&?&?) (?&?&?&?&?). split_and!; eauto. Qed.

Lemma update_keeps o o' : update o o' → keeps o o'.
Proof.
  destruct 1 as [e o He Hne|o Hp|b o|i f o|v o Hv].
  - by split_and!.
  - by split_and!.
  - destruct b; by split_and!.
  - unfold choice. destruct ((i <? 0) || (1024 <? i)); [by split_and!|]. split_and!; try done. intros j Hj. simpl.
    destruct (decide (i = j)) as [->|]; [by rewrite lookup_insert_eq, Hj|by rewrite lookup_insert_ne].
  - unfold mergeUsage. destruct (_ && _ && _); by split_and!.
Qed.

Lemma updates_keeps o o' : updates o o' → keeps o o'.
Proof. induction 1 as [|o1 o2 o3 H _ IH]; [done|]. etransitivity; [by apply update_keeps|done]. Qed.

(** ** Chat streams *)

Definition choice_finished (c : chat_choice) : bool :=
  match cc_finish c with Some f => negb (f =? "")%string | None => false end.
Definition valid_index (i : Z) : bool := (0 <=? i) && (i <=? 1024).

(** The event of a frame that neither ends the stream nor reports an error. *)
Definition chat_event (frame : bytes) : option event :=
  let data := trim_space (SSEData frame) in
  if (event_name frame =? "error")%string || bool_decide (data = []) || bool_decide (data = lit "[DONE]") then None
  else
    v ← v ← parse_json data; decode_event v zero_event;
    if match ev_error v with None | Some JNull => false | Some _ => true end
       || contains ["error"; "response.failed"; "response.incomplete"]%string
            (if (ev_type v =? "")%string then event_name frame else ev_type v)
    then None else Some v.

(** What the chunks seen say about one index. *)
Definition index_state (cs : list chat_choice) (i : Z) : option bool :=
  if valid_index i && existsb (λ c, cc_index c =? i) cs
  then Some (existsb (λ c, (cc_index c =? i) && choice_finished c) cs) else None.

(** The state of an observer that saw the chunks [cs] and no end marker. *)
Record saw_chunks (cs : list chat_choice) (o : CompletionObserver) : Prop := {
  sc_protocol : o_Protocol o = "chat"%string;
  sc_choices : ∀ i, o_choices o !! i = index_state cs i;
  sc_complete : o_Complete o = true ↔ all_finished (o_choices o);
  sc_output : o_SawOutput o = existsb (λ c, has_content (cc_delta c)) cs;
  sc_error : o_Error o = if forallb (λ c, valid_index (cc_index c)) cs then ""%string else "invalid_choice_index"%string;
  sc_terminal : o_Terminal o = false }.

Lemma saw_chunks_new : saw_chunks [] (new_observer "chat").
Proof.
  split; simpl; try done.
  - intros i. unfold index_state. by rewrite andb_false_r.
  - split; [done|]. by intros [[] _].
Qed.

Lemma mergeUsage_chunks v cs o : saw_chunks cs o → saw_chunks cs (mergeUsage v o).
Proof. unfold mergeUsage. destruct (_ && _ && _); [done|]. by intros []. Qed.

Lemma merge_members_chunks m cs o : saw_chunks cs o → saw_chunks cs (merge_usage_members m o).
Proof.
  unfold merge_usage_members. generalize usage_keys. intros l. revert o. induction l as [|k l IH]; intros o H; [done|].
  simpl. apply IH. destruct (m !! k); [by apply mergeUsage_chunks|done].
Qed.

Lemma observeUsage_chunks data cs o : saw_chunks cs o → saw_chunks cs (observeUsage data o).
Proof.
  intros H. unfold observeUsage. destruct (parse_json data ≫= decode_map) as [m|]; [|done].
  apply (merge_members_chunks m) in H. destruct (m !! _) as [raw|]; [|done].
  destruct (decode_map raw); [by apply merge_members_chunks|done].
Qed.

Lemma index_state_snoc cs c i :
  index_state (cs ++ [c]) i
  = if valid_index i && (cc_index c =? i) then Some (default false (index_state cs i) || choice_finished c) else index_state cs i.
Proof.
  unfold index_state. rewrite !existsb_app. simpl. rewrite !orb_false_r.
  destruct (valid_index i); [|done]. simpl. destruct (cc_index c =? i); simpl; [|by rewrite !orb_false_r].
  rewrite orb_true_r. destruct (existsb (λ c, cc_index c =? i) cs) eqn:E; [done|]. simpl.
  replace (existsb (λ c0, (cc_index c0 =? i) && choice_finished c0) cs) with false; [done|]. symmetry.
  apply not_true_is_false. intros (x & Hx & [Hi _]%andb_true_iff)%existsb_exists.
  assert (existsb (λ c, cc_index c =? i) cs = true) by (apply existsb_exists; eauto). congruence.
Qed.

Lemma chunk_step cs c o :
  saw_chunks cs o →
  saw_chunks (cs ++ [c]) (saw_output (has_content (cc_delta c)) (choice (cc_index c) (choice_finished c) o)).
Proof.
  intros Ho. assert (H : saw_chunks (cs ++ [c]) (set_o_progress (o_Complete (choice (cc_index c) (choice_finished c) o))
    (o_Terminal o) (o_SawOutput o || has_content (cc_delta c)) (o_choices (choice (cc_index c) (choice_finished c) o))
    (choice (cc_index c) (choice_finished c) o))).
  2:{ destruct (has_content (cc_delta c)).
      - rewrite orb_true_r in H. unfold saw_output. replace (o_Terminal (choice _ _ o)) with (o_Terminal o); [done|].
        unfold choice. by case_match.
      - rewrite orb_false_r in H. replace (saw_output false _) with (set_o_progress (o_Complete (choice (cc_index c) (choice_finished c) o))
          (o_Terminal o) (o_SawOutput o) (o_choices (choice (cc_index c) (choice_finished c) o)) (choice (cc_index c) (choice_finished c) o)); [done|].
        unfold choice. case_match; by destruct o. }
  destruct Ho as [Hp Hc Hcm Ho He Ht].
  assert (Hsaw : o_SawOutput o || has_content (cc_delta c) = existsb (λ c, has_content (cc_delta c)) (cs ++ [c])).
  { rewrite existsb_app, Ho. simpl. by rewrite orb_false_r. }
  assert (Hall : forallb (λ c, valid_index (cc_index c)) (cs ++ [c])
    = forallb (λ c, valid_index (cc_index c)) cs && valid_index (cc_index c)).
  { rewrite forallb_app. simpl. by rewrite andb_true_r. }
  assert (Hbad : (cc_index c <? 0) || (1024 <? cc_index c) = negb (valid_index (cc_index c))).
  { unfold valid_index. rewrite negb_andb, <-!Z.ltb_antisym. done. }
  unfold choice. rewrite Hbad. destruct (valid_index (cc_index c)) eqn:Ev; simpl.
  - split; simpl; try done.
    + intros i. rewrite index_state_snoc. destruct (Z.eqb_spec (cc_index c) i) as [<-|Hne].
      * by rewrite Ev, lookup_insert_eq, Hc.
      * rewrite andb_false_r, lookup_insert_ne by done. apply Hc.
    + rewrite andb_true_iff, !bool_decide_eq_true. done.
    + by rewrite Hall, andb_true_r.
  - split; simpl; try done.
    + intros i. rewrite index_state_snoc. destruct (Z.eqb_spec (cc_index c) i) as [<-|Hne]; [by rewrite Ev|].
      by rewrite andb_false_r.
    + by rewrite Hall, andb_false_r.
Qed.

Lemma observe_chat_chunks v cs o :
  saw_chunks cs o → saw_chunks (cs ++ sl_elems (ev_choices v)) (observe_chat v o).
Proof.
  unfold observe_chat. generalize (sl_elems (ev_choices v)) as l. intros l. revert cs o.
  induction l as [|c l IH]; intros cs o H; [by rewrite app_nil_r|]. rewrite (cons_middle c cs l), app_assoc. simpl.
  by apply IH, chunk_step.
Qed.

Lemma Observe_chat_event frame v cs o :
  chat_event frame = Some v → saw_chunks cs o → saw_chunks (cs ++ sl_elems (ev_choices v)) (Observe frame o).
Proof.
  unfold chat_event, Observe. intros H Ho. destruct (_ =? "error")%string; [done|].
  destruct (bool_decide _); [done|]. destruct (bool_decide _); [done|]. cbn [orb] in H.
  destruct (parse_json _ ≫= _) as [v'|]; [|done]. cbn [mbind option_bind] in H.
  destruct (match ev_error v' with None | Some JNull => false | Some _ => true end); [done|].
  cbn [orb] in H. destruct (contains _ _); [done|]. injection H as ->.
  apply (observeUsage_chunks (trim_space (SSEData frame))) in Ho. rewrite (sc_protocol _ _ Ho), String.eqb_refl.
  by apply observe_chat_chunks.
Qed.

Lemma observe_all_chat frames vs cs o :
  mapM chat_event frames = Some vs → saw_chunks cs o →
  saw_chunks (cs ++ concat (map (λ v, sl_elems (ev_choices v)) vs)) (observe_all frames o).
Proof.
  revert vs cs o. induction frames as [|f frames IH]; intros vs cs o H Ho.
  - injection H as <-. by rewrite app_nil_r.
  - cbn [mapM] in H. destruct (chat_event f) as [v|] eqn:Ef; [|done]. cbn [mbind option_bind] in H.
    destruct (mapM chat_event frames) as [vs'|]; [|done]. injection H as <-. cbn [map concat]. rewrite app_assoc.
    apply (IH vs'); [done|]. by apply Observe_chat_event.
Qed.

Definition done_frame : bytes := lit "data: [DONE]" ++ [newline; newline].

Lemma Observe_done o : o_Protocol o = "chat"%string → Observe done_frame o = finish o.
Proof.
  intros H. unfold Observe.
  replace (event_name done_frame) with ""%string by (vm_compute; reflexivity).
  replace (trim_space (SSEData done_frame)) with (lit "[DONE]") by (vm_compute; reflexivity).
  simpl. by rewrite H.
Qed.

(** ** The theorems *)

(** C17: whatever a client is sent, in every protocol, the observer stays well
    formed: errors are gateway-owned categories that redaction keeps, choice
    indices stay within 0 and 1024, the response is complete only after its
    end marker or with at least one choice and every choice finished (Gemini
    has no end marker), declared counts are 64-bit and not negative, the total
    is the declared one or the sum; and an error, the end marker, output,
    usage and finished choices are never forgotten. *)
Theorem observer_invariant o frames json_body :
  observer_ok o →
  let o' := ObserveJSON json_body (observe_all frames o) in
  observer_ok o' ∧ keeps o o' ∧ o_Protocol o' = o_Protocol o
  ∧ (∀ r, er_UpstreamError (Redacted (er_set_error r (o_Error o'))) = o_Error o').
Proof.
  intros Ho o'. assert (H : updates o o').
  { etransitivity; [apply observe_all_updates|apply observeUsage_updates]. }
  assert (Hok := updates_ok _ _ H Ho). split_and!; [done|by apply updates_keeps|by apply updates_protocol|].
  intros r. apply ok_error, contains_spec in Hok. unfold Redacted. cbn [er_set_error er_UpstreamError]. by rewrite Hok.
Qed.

(** C18: a chat stream is complete exactly when it says so.  After chunks that
    report no error, the choices recorded are the valid indices seen, finished
    when some chunk finished them; the response is complete iff one was seen
    and all are finished; output was seen iff some chunk carried any; the error
    is set iff an index was out of range.  A final [DONE] completes it whatever
    the choices. *)
Theorem chat_completion frames vs :
  mapM chat_event frames = Some vs →
  let cs := concat (map (λ v, sl_elems (ev_choices v)) vs) in
  let o := observe_all frames (new_observer "chat") in
  saw_chunks cs o
  ∧ (let o' := observe_all (frames ++ [done_frame]) (new_observer "chat") in
     o_Complete o' = true ∧ o_Terminal o' = true ∧ o_SawOutput o' = o_SawOutput o ∧ o_Error o' = o_Error o
     ∧ o_TotalTokens o' = o_TotalTokens o).
Proof.
  intros H cs o. assert (Ho : saw_chunks cs o) by apply (observe_all_chat frames vs [] _ H saw_chunks_new).
  split; [done|]. cbv zeta. unfold observe_all. rewrite fold_left_app. simpl.
  change (fold_left _ frames _) with o. by rewrite Observe_done by apply Ho.
Qed.

(** The other protocols that end with a named event. *)
Lemma message_stop_frame_completes :
  let f := lit "event: message_stop" ++ [newline] ++ js "data: {'type':'message_stop'}" ++ [newline; newline] in
  o_Complete (Observe f (new_observer "messages")) = true
  ∧ o_Error (Observe f (new_observer "claude")) = "unknown_stream_protocol"%string.
Proof. vm_compute. split; reflexivity. Qed.

Definition chunk (s : string) : bytes := lit "data: " ++ js s ++ [newline; newline].
Definition chat_frames : list bytes :=
  [chunk "{'choices':[{'index':0,'delta':{'content':'hi'}},{'index':1,'delta':{}}]}";
   chunk "{'choices':[{'index':1,'finish_reason':'stop'}],'usage':{'prompt_tokens':3,'completion_tokens':4}}";
   chunk "{'choices':[{'index':0,'finish_reason':'length'}]}"].
Definition chat_observed : CompletionObserver := observe_all chat_frames (new_observer "chat").
Example chat_observed_ok :
  (o_Complete chat_observed, o_SawOutput chat_observed, o_TotalTokens chat_observed, o_Error chat_observed) = (true, true, 7, ""%string).
Proof. vm_compute. reflexivity. Qed.

(** A [null] function call counts as output: its raw message is not empty. *)
Lemma null_function_call_is_output :
  o_SawOutput (Observe (chunk "{'choices':[{'index':0,'delta':{'function_call':null}}]}") (new_observer "chat")) = true.
Proof. vm_compute. reflexivity. Qed.

(** The sum of two declared counts may wrap. *)
Lemma usage_total_wraps :
  o_TotalTokens (Observe (chunk "{'usage':{'prompt_tokens':9223372036854775807,'completion_tokens':1}}") (new_observer "chat"))
  = - two63.
Proof. vm_compute. reflexivity. Qed.

Lemma observer_invariant_witness : observer_ok (ObserveJSON [] (observe_all chat_frames (new_observer "chat"))).
Proof. apply (observer_invariant (new_observer "chat") chat_frames []). apply new_observer_ok. Defined.

Lemma chat_completion_witness : ∃ cs, length cs = 4%nat ∧ saw_chunks cs chat_observed.
Proof.
  destruct (mapM chat_event chat_frames) as [vs|] eqn:E; [|vm_compute in E; discriminate].
  exists (concat (map (λ v, sl_elems (ev_choices v)) vs)). split.
  - vm_compute in E. injection E as <-. reflexivity.
  - apply (chat_completion chat_frames vs E).
Defined.
