(* ===== verification/Providerdef.v ===== *)
(** * Provider descriptors ([internal/providerdef/registry.go])

    The table of adapters shared by validation, factories and the control
    plane: built once, then looked up.  Go maps are finite maps; the panic of
    a duplicate identifier is [None]. *)

From S2P Require Import Prelude.
From stdpp Require Import sorting.

Record CredentialField := { cf_Name : string; cf_Label : string; cf_Secret : bool; cf_Required : bool }.

Record Descriptor := {
  ds_ID : string; ds_Factory : string; ds_Protocols : list string; ds_TextOnly : bool; ds_ToolsAllowed : bool;
  ds_BrowserRequired : bool; ds_BrowserAuthCheck : bool; ds_CredentialModes : list string;
  ds_LoginMaterials : list string; ds_InvokeCredentials : list string; ds_LoginFlow : string;
  ds_SessionAcquisition : string; ds_RefreshStrategy : string; ds_AllowedOrigins : list string;
  ds_CredentialFields : list CredentialField;
  ds_CredentialFieldsByMode : option (gmap string (list CredentialField)); ds_DefaultMaxInflight : Z }.

Definition zero_Descriptor : Descriptor :=
  {| ds_ID := ""; ds_Factory := ""; ds_Protocols := []; ds_TextOnly := false; ds_ToolsAllowed := false;
     ds_BrowserRequired := false; ds_BrowserAuthCheck := false; ds_CredentialModes := []; ds_LoginMaterials := [];
     ds_InvokeCredentials := []; ds_LoginFlow := ""; ds_SessionAcquisition := ""; ds_RefreshStrategy := "";
     ds_AllowedOrigins := []; ds_CredentialFields := []; ds_CredentialFieldsByMode := None; ds_DefaultMaxInflight := 0 |}.

Abbreviation registry_map := (gmap string Descriptor).

Definition FieldsForMode (d : Descriptor) (mode : string) : list CredentialField :=
  match ds_CredentialFieldsByMode d with
  | Some by_mode => default (ds_CredentialFields d) (by_mode !! mode)
  | None => ds_CredentialFields d
  end.

(** [strings.Fields] of ASCII text *)
Fixpoint fields_loop (s word : string) : list string :=
  match s with
  | EmptyString => if (word =? "")%string then [] else [word]
  | String c s' =>
      if Ascii.eqb c " " then (if (word =? "")%string then [] else [word]) ++ fields_loop s' ""
      else fields_loop s' (word ++ String c "")
  end.
Definition Fields (s : string) : list string := fields_loop s "".

(** ** Field updates *)

Definition with_Protocols (ps : list string) (d : Descriptor) : Descriptor :=
  {| ds_ID := ds_ID d; ds_Factory := ds_Factory d; ds_Protocols := ps; ds_TextOnly := ds_TextOnly d;
     ds_ToolsAllowed := ds_ToolsAllowed d; ds_BrowserRequired := ds_BrowserRequired d;
     ds_BrowserAuthCheck := ds_BrowserAuthCheck d; ds_CredentialModes := ds_CredentialModes d;
     ds_LoginMaterials := ds_LoginMaterials d; ds_InvokeCredentials := ds_InvokeCredentials d;
     ds_LoginFlow := ds_LoginFlow d; ds_SessionAcquisition := ds_SessionAcquisition d;
     ds_RefreshStrategy := ds_RefreshStrategy d; ds_AllowedOrigins := ds_AllowedOrigins d;
     ds_CredentialFields := ds_CredentialFields d; ds_CredentialFieldsByMode := ds_CredentialFieldsByMode d;
     ds_DefaultMaxInflight := ds_DefaultMaxInflight d |}.
Definition with_browser (required check : bool) (d : Descriptor) : Descriptor :=
  {| ds_ID := ds_ID d; ds_Factory := ds_Factory d; ds_Protocols := ds_Protocols d; ds_TextOnly := ds_TextOnly d;
     ds_ToolsAllowed := ds_ToolsAllowed d; ds_BrowserRequired := required;
     ds_BrowserAuthCheck := check; ds_CredentialModes := ds_CredentialModes d;
     ds_LoginMaterials := ds_LoginMaterials d; ds_InvokeCredentials := ds_InvokeCredentials d;
     ds_LoginFlow := ds_LoginFlow d; ds_SessionAcquisition := ds_SessionAcquisition d;
     ds_RefreshStrategy := ds_RefreshStrategy d; ds_AllowedOrigins := ds_AllowedOrigins d;
     ds_CredentialFields := ds_CredentialFields d; ds_CredentialFieldsByMode := ds_CredentialFieldsByMode d;
     ds_DefaultMaxInflight := ds_DefaultMaxInflight d |}.
Definition with_credentials (modes : list string) (fields : list CredentialField)
    (by_mode : option (gmap string (list CredentialField))) (d : Descriptor) : Descriptor :=
  {| ds_ID := ds_ID d; ds_Factory := ds_Factory d; ds_Protocols := ds_Protocols d; ds_TextOnly := ds_TextOnly d;
     ds_ToolsAllowed := ds_ToolsAllowed d; ds_BrowserRequired := ds_BrowserRequired d;
     ds_BrowserAuthCheck := ds_BrowserAuthCheck d; ds_CredentialModes := modes;
     ds_LoginMaterials := ds_LoginMaterials d; ds_InvokeCredentials := ds_InvokeCredentials d;
     ds_LoginFlow := ds_LoginFlow d; ds_SessionAcquisition := ds_SessionAcquisition d;
     ds_RefreshStrategy := ds_RefreshStrategy d; ds_AllowedOrigins := ds_AllowedOrigins d;
     ds_CredentialFields := fields; ds_CredentialFieldsByMode := by_mode;
     ds_DefaultMaxInflight := ds_DefaultMaxInflight d |}.
Definition with_ToolsAllowed (b : bool) (d : Descriptor) : Descriptor :=
  {| ds_ID := ds_ID d; ds_Factory := ds_Factory d; ds_Protocols := ds_Protocols d; ds_TextOnly := ds_TextOnly d;
     ds_ToolsAllowed := b; ds_BrowserRequired := ds_BrowserRequired d;
     ds_BrowserAuthCheck := ds_BrowserAuthCheck d; ds_CredentialModes := ds_CredentialModes d;
     ds_LoginMaterials := ds_LoginMaterials d; ds_InvokeCredentials := ds_InvokeCredentials d;
     ds_LoginFlow := ds_LoginFlow d; ds_SessionAcquisition := ds_SessionAcquisition d;
     ds_RefreshStrategy := ds_RefreshStrategy d; ds_AllowedOrigins := ds_AllowedOrigins d;
     ds_CredentialFields := ds_CredentialFields d; ds_CredentialFieldsByMode := ds_CredentialFieldsByMode d;
     ds_DefaultMaxInflight := ds_DefaultMaxInflight d |}.
Definition with_flow (login invoke : list string) (flow session refresh : string) (origins : list string)
    (d : Descriptor) : Descriptor :=
  {| ds_ID := ds_ID d; ds_Factory := ds_Factory d; ds_Protocols := ds_Protocols d; ds_TextOnly := ds_TextOnly d;
     ds_ToolsAllowed := ds_ToolsAllowed d; ds_BrowserRequired := ds_BrowserRequired d;
     ds_BrowserAuthCheck := ds_BrowserAuthCheck d; ds_CredentialModes := ds_CredentialModes d;
     ds_LoginMaterials := login; ds_InvokeCredentials := invoke; ds_LoginFlow := flow;
     ds_SessionAcquisition := session; ds_RefreshStrategy := refresh; ds_AllowedOrigins := origins;
     ds_CredentialFields := ds_CredentialFields d; ds_CredentialFieldsByMode := ds_CredentialFieldsByMode d;
     ds_DefaultMaxInflight := ds_DefaultMaxInflight d |}.

(** ** Construction *)

Definition value_field (label : string) : CredentialField :=
  {| cf_Name := "value"; cf_Label := label; cf_Secret := true; cf_Required := true |}.
Definition public_field (name label : string) : CredentialField :=
  {| cf_Name := name; cf_Label := label; cf_Secret := false; cf_Required := true |}.

Definition new_Descriptor (id factory : string) (textOnly : bool) : Descriptor :=
  {| ds_ID := id; ds_Factory := factory; ds_Protocols := ["chat"]; ds_TextOnly := textOnly;
     ds_ToolsAllowed := negb textOnly; ds_BrowserRequired := false; ds_BrowserAuthCheck := false;
     ds_CredentialModes := ["api_key"; "oauth"; "cookie"; "browser_session"]; ds_LoginMaterials := [];
     ds_InvokeCredentials := []; ds_LoginFlow := ""; ds_SessionAcquisition := ""; ds_RefreshStrategy := "";
     ds_AllowedOrigins := []; ds_CredentialFields := [value_field "Credential value"];
     ds_CredentialFieldsByMode := None; ds_DefaultMaxInflight := 1 |}.

(** The closure [add]. *)
Definition add (out : option registry_map) (row : string * bool * string) : option registry_map :=
  let '(factory, textOnly, ids) := row in
  fold_left (λ acc id,
      m ← acc;
      match m !! id with
      | Some _ => None
      | None => Some (<[id := new_Descriptor id factory textOnly]> m)
      end) (Fields ids) out.

Definition rows : list (string * bool * string) :=
  [("http", false, "openai anthropic gemini copilot codex claude-code gemini-cli qwen-code kimi-code");
   ("chatgptweb", true, "chatgpt-web");
   ("appdevice", true, "app-device");
   ("playground", true, "cloudflare-playground");
   ("chinaapps", true, "tencent-ima weread-ai");
   ("chinafinal", true, "tencent-aistudio-web");
   ("webnext", true, "flowith langfast liaobots");
   ("codingnext", false, "freebuff codebuddy-cn");
   ("codingnext", true, "zed-hosted");
   ("chinamore", true, "minimax-web mimo stepchat");
   ("codingmore", true, "amazon-q augment devin-cli");
   ("codingfinal", true, "cursor windsurf trae v0-web warp zcode qoder");
   ("businessweb", true, "gemini-business aistudio-playground aistudio-build copilot-m365 promptql");
   ("enterpriseweb", true, "maxai notion-web opera-aria google-ai-mode");
   ("chinaremaining", true, "emohaa spark-web qwen-web-cn metaso");
   ("chinanext", true, "dola-web yuanbao deepseek-web doubao");
   ("china", true, "kimi-web qwen-web-intl glm-web zai-web");
   ("coding", false, "kiro antigravity");
   ("embedded", true, "tabbit fanzha chataigpt chatgptfree");
   ("webhttp", true, "venice-web inkeep gptanon perfectassistant aifreeforever toolbaz phindai whiterabbitneo");
   ("majorweb", true, "claude-web grok-web grok-console grok-build genspark zenmux-web blackbox conol-web adapta-web pi reka-web huggingchat hyperagent inner-ai uc-web easemate gemini-web gigachat-web copilot-web perplexity-web t3-web you poe-web meta-ai arena tinycms-web merlin sider monica raycast duckduckgo-web")]%string.

(** [d := out[id]; ...; out[id] = d] *)
Definition edit (id : string) (f : Descriptor → Descriptor) (m : registry_map) : registry_map :=
  <[id := f (default zero_Descriptor (m !! id))]> m.
Definition edit_all (ids : list string) (f : Descriptor → Descriptor) (m : registry_map) : registry_map :=
  fold_left (λ m id, edit id f m) ids m.

Definition protocol_table : list (string * list string) :=
  [("openai", ["chat"; "responses"]);
   ("chatgpt-web", ["chat"; "responses"]);
   ("grok-console", ["chat"; "responses"]);
   ("grok-build", ["chat"; "responses"]);
   ("anthropic", ["messages"]);
   ("claude-code", ["messages"]);
   ("gemini", ["gemini"]);
   ("gemini-cli", ["gemini"]);
   ("antigravity", ["gemini"]);
   ("copilot", ["chat"; "responses"; "messages"]);
   ("codex", ["responses"]);
   ("kiro", ["chat"; "messages"]);
   ("kimi-code", ["chat"; "messages"])]%string.

Definition set_protocols (m : registry_map) : registry_map :=
  fold_left (λ m '(id, ps), edit id (with_Protocols ps) m) protocol_table m.

Definition browser_ids : list string :=
  ["chatgpt-web"; "doubao"; "gemini-web"; "gigachat-web"; "aistudio-build"; "cloudflare-playground"].
Definition set_browser (d : Descriptor) : Descriptor :=
  with_credentials ["browser_profile"; "browser_session"; "cookie"] (ds_CredentialFields d) (ds_CredentialFieldsByMode d)
    (with_browser true (ds_BrowserAuthCheck d) d).

Definition login_ids : list string := ["chatgpt-web"; "claude-web"; "blackbox"].
Definition login_fields : gmap string (list CredentialField) :=
  list_to_map
    [("username_password", [public_field "username" "Username";
                            {| cf_Name := "password"; cf_Label := "Password"; cf_Secret := true; cf_Required := true |}]);
     ("browser_session", [value_field "Browser session reference"]);
     ("cookie", [value_field "Cookie"]);
     ("browser_profile", [public_field "value" "Browser profile reference"])]%string.
Definition set_login (d : Descriptor) : Descriptor :=
  with_credentials
    (if contains (ds_CredentialModes d) "username_password" then ds_CredentialModes d
     else ds_CredentialModes d ++ ["username_password"]%string)
    (ds_CredentialFields d) (Some login_fields) d.

(** [d.CredentialFields[0].Label = ...] *)
Definition relabel (label : string) (fs : list CredentialField) : list CredentialField :=
  match fs with
  | f :: fs => {| cf_Name := cf_Name f; cf_Label := label; cf_Secret := cf_Secret f; cf_Required := cf_Required f |} :: fs
  | [] => []
  end.
Definition set_api_key (d : Descriptor) : Descriptor :=
  with_credentials ["api_key"] (relabel "API key" (ds_CredentialFields d)) (ds_CredentialFieldsByMode d) d.

Definition set_auth_check (d : Descriptor) : Descriptor := with_browser (ds_BrowserRequired d) true d.

Definition cli_ids : list string :=
  ["devin-cli"; "zcode"; "codex"; "claude-code"; "gemini-cli"; "qwen-code"; "kimi-code"; "kiro"; "antigravity"; "amazon-q"].
Definition set_cli (d : Descriptor) : Descriptor :=
  with_credentials ["oauth"; "cli_session"; "api_key"] (ds_CredentialFields d) (ds_CredentialFieldsByMode d) d.

Definition set_device (d : Descriptor) : Descriptor :=
  with_credentials ["device_session"] []
    (Some {["device_session" := [public_field "value" "Device session reference"]]}) d.

(** The derived fields, computed by the last loop. *)
Definition finalize (id : string) (d : Descriptor) : Descriptor :=
  let login := List.filter (λ k, (k =? "username_password")%string) (ds_CredentialModes d) in
  let invoke := List.filter (λ k, negb (k =? "username_password")%string) (ds_CredentialModes d) in
  let flow := (if ds_BrowserRequired d || ds_BrowserAuthCheck d then "interactive_browser" else "manual_credential")%string in
  let session := (if ds_BrowserRequired d then "bound_browser_profile" else "explicit_import")%string in
  let '(session, origins) :=
    (if (id =? "claude-web")%string then ("verified_cookie_and_organization", ["https://claude.ai"])
     else (session, ds_AllowedOrigins d))%string in
  let '(session, origins) :=
    (if (id =? "chatgpt-web")%string then ("identity_checked_browser_profile", ["https://chatgpt.com"])
     else (session, origins))%string in
  let origins := (if (id =? "blackbox")%string then ["https://app.blackbox.ai"] else origins)%string in
  let refresh := (if contains invoke "oauth" then "oauth_grant_if_configured_else_reauthorize" else "replace_or_reauthorize")%string in
  with_flow login invoke flow session refresh origins d.

Definition build : option registry_map :=
  m ← fold_left add rows (Some ∅);
  let m := set_protocols m in
  let m := edit_all browser_ids set_browser m in
  let m := edit_all login_ids set_login m in
  let m := edit_all ["openai"; "anthropic"; "gemini"]%string set_api_key m in
  let m := edit_all login_ids set_auth_check m in
  let m := edit_all cli_ids set_cli m in
  let m := edit "kiro" (with_ToolsAllowed false) m in
  let m := edit "app-device" set_device m in
  Some (map_imap (λ id d, Some (finalize id d)) m).

Definition registry : registry_map := default ∅ build.

(** ** Queries *)

Definition Lookup (id : string) : Descriptor * bool :=
  match registry !! id with Some d => (d, true) | None => (zero_Descriptor, false) end.

Definition by_id (a b : Descriptor) : Prop := String.leb (ds_ID a) (ds_ID b) = true.
#[export] Instance by_id_dec a b : Decision (by_id a b).
Proof. unfold by_id. apply _. Defined.

Definition All : list Descriptor := merge_sort by_id (map snd (map_to_list registry)).

Definition Supports (id protocol : string) : bool :=
  match registry !! id with Some d => existsb (λ p, (p =? protocol)%string) (ds_Protocols d) | None => false end.

Example lookup_claude : ds_LoginMaterials (fst (Lookup "claude-web")) = ["username_password"]%string.
Proof. vm_compute. reflexivity. Qed.
Example supports_gemini : Supports "gemini-cli" "gemini" && negb (Supports "gemini-cli" "chat") = true.
Proof. vm_compute. reflexivity. Qed.

(** ** Facts *)

Definition protocol_names : list string := ["chat"; "responses"; "messages"; "gemini"].

(** What every consumer of a descriptor relies on. *)
Definition descriptor_ok (id : string) (d : Descriptor) : bool :=
  (ds_ID d =? id)%string
  && negb (bool_decide (ds_Protocols d = [])) && forallb (contains protocol_names) (ds_Protocols d)
  && (if ds_TextOnly d then negb (ds_ToolsAllowed d) else true)
  && (ds_DefaultMaxInflight d =? 1)%Z
  && negb (bool_decide (ds_InvokeCredentials d = []))
  && forallb (λ k, contains (ds_LoginMaterials d) k || contains (ds_InvokeCredentials d) k) (ds_CredentialModes d)
  && forallb (contains (ds_CredentialModes d)) (ds_LoginMaterials d ++ ds_InvokeCredentials d)
  && negb (existsb (contains (ds_InvokeCredentials d)) (ds_LoginMaterials d))
  && forallb (λ k, existsb cf_Required (FieldsForMode d k)) (ds_CredentialModes d)
  && Bool.eqb (ds_LoginFlow d =? "interactive_browser")%string (ds_BrowserRequired d || ds_BrowserAuthCheck d)
  && implb (contains (ds_LoginMaterials d) "username_password") (ds_BrowserAuthCheck d && existsb cf_Secret (FieldsForMode d "username_password")).

Lemma build_some : build = Some registry.
Proof.
  assert (H : match build with Some _ => true | None => false end = true) by (vm_compute; reflexivity).
  unfold registry. destruct build; [reflexivity|discriminate].
Qed.

Lemma registry_checked : forallb (λ '(id, d), descriptor_ok id d) (map_to_list registry) = true.
Proof. vm_compute. reflexivity. Qed.

Lemma registry_ok id d : registry !! id = Some d → descriptor_ok id d = true.
Proof.
  intros H%elem_of_map_to_list. pose proof registry_checked as Hc. rewrite forallb_forall in Hc.
  apply list_elem_of_In in H. apply (Hc _ H).
Qed.

Lemma lookup_spec id d : Lookup id = (d, true) ↔ registry !! id = Some d.
Proof. unfold Lookup. destruct (registry !! id); naive_solver. Qed.

Lemma supports_spec id p : Supports id p = true ↔ ∃ d, registry !! id = Some d ∧ p ∈ ds_Protocols d.
Proof.
  unfold Supports. destruct (registry !! id) as [d|]; [|naive_solver]. rewrite existsb_exists. split.
  - intros (x & Hx & ->%String.eqb_eq). exists d. split; [done|]. by apply list_elem_of_In.
  - intros (d' & [= <-] & Hp). exists p. split; [by apply list_elem_of_In|]. apply String.eqb_refl.
Qed.

Lemma modes_spec d id k : descriptor_ok id d = true →
  k ∈ ds_CredentialModes d ↔ k ∈ ds_LoginMaterials d ∨ k ∈ ds_InvokeCredentials d.
Proof.
  intros H. unfold descriptor_ok in H. rewrite !andb_true_iff in H. destruct H as ((((((_ & H1) & H2) & _) & _) & _) & _).
  rewrite forallb_forall in H1, H2. split.
  - intros Hk%list_elem_of_In. apply H1 in Hk. apply orb_true_iff in Hk. by rewrite !contains_spec in Hk.
  - intros Hk. apply contains_spec, H2, list_elem_of_In, elem_of_app. done.
Qed.

(** All pairs of a list, in order. *)
Fixpoint pairwise {A} (f : A → A → bool) (l : list A) : bool :=
  match l with [] => true | a :: l' => forallb (f a) l' && pairwise f l' end.

Lemma pairwise_lookup {A} (f : A → A → bool) l i j a b :
  pairwise f l = true → (i < j)%nat → l !! i = Some a → l !! j = Some b → f a b = true.
Proof.
  revert i j. induction l as [|x l IH]; intros i j H Hij Ha Hb; [done|]. cbn [pairwise] in H.
  apply andb_true_iff in H as [H1 H2]. destruct j as [|j]; [lia|]. destruct i as [|i]; simpl in *; [|apply (IH i j); [done|lia|done|done]].
  injection Ha as <-. rewrite forallb_forall in H1. apply H1, list_elem_of_In. by eapply list_elem_of_lookup_2.
Qed.

Lemma sorted_values (m : registry_map) d :
  d ∈ merge_sort by_id (map snd (map_to_list m)) ↔ ∃ id, m !! id = Some d.
Proof.
  rewrite (merge_sort_Permutation by_id _), list_elem_of_fmap. split.
  - intros ([id d'] & -> & H%elem_of_map_to_list). by exists id.
  - intros (id & H). exists (id, d). split; [done|]. by apply elem_of_map_to_list.
Qed.

Lemma listing_spec d : d ∈ All ↔ ∃ id, Lookup id = (d, true).
Proof.
  etransitivity; [exact (sorted_values registry d)|]. split; intros [id H]; exists id; by apply lookup_spec.
Qed.

(** ** The theorems *)

(** The descriptor table is built without a clash of identifiers and each
    entry is usable: it is filed under its own identifier, speaks at least one
    protocol, and a known one; text-only adapters take no tools; its
    credential modes are exactly its login materials and its invocation
    credentials, which are disjoint and of which there is at least one; every
    mode asks for some required field; and it logs in interactively exactly
    when a browser is involved. *)
Theorem registry_wellformed :
  build = Some registry ∧
  ∀ id d, Lookup id = (d, true) →
    ds_ID d = id
    ∧ ds_Protocols d ≠ [] ∧ (∀ p, Supports id p = true ↔ p ∈ ds_Protocols d) ∧ (∀ p, p ∈ ds_Protocols d → p ∈ protocol_names)
    ∧ (ds_TextOnly d = true → ds_ToolsAllowed d = false)
    ∧ (∀ k, k ∈ ds_CredentialModes d ↔ k ∈ ds_LoginMaterials d ∨ k ∈ ds_InvokeCredentials d)
    ∧ ds_InvokeCredentials d ≠ []
    ∧ (∀ k, k ∈ ds_LoginMaterials d → k ∉ ds_InvokeCredentials d)
    ∧ (∀ k, k ∈ ds_CredentialModes d → ∃ f, f ∈ FieldsForMode d k ∧ cf_Required f = true)
    ∧ (ds_LoginFlow d = "interactive_browser"%string ↔ ds_BrowserRequired d = true ∨ ds_BrowserAuthCheck d = true).
Proof.
  split; [exact build_some|]. intros id d Hd%lookup_spec. pose proof (registry_ok _ _ Hd) as Hok.
  assert (Hmodes := λ k, modes_spec d id k Hok).
  unfold descriptor_ok in Hok. rewrite !andb_true_iff in Hok.
  destruct Hok as (((((((((((H1 & H2) & H3) & H4) & _) & H6) & _) & _) & H9) & H10) & H11) & _).
  apply String.eqb_eq in H1. apply negb_true_iff, bool_decide_eq_false in H2. apply negb_true_iff, bool_decide_eq_false in H6.
  rewrite forallb_forall in H3, H10. apply negb_true_iff in H9. apply Bool.eqb_prop in H11.
  split_and!; [done|done| | | |done|done| | |].
  - intros p. rewrite supports_spec. split; [|intros Hp; exists d; exact (conj Hd Hp)].
    intros (d' & E & Hp). rewrite Hd in E. injection E as <-. exact Hp.
  - intros p Hp%list_elem_of_In. by apply contains_spec, H3.
  - intros Ht. rewrite Ht in H4. by apply negb_true_iff.
  - intros k Hk Hi. enough (existsb (contains (ds_InvokeCredentials d)) (ds_LoginMaterials d) = true) by congruence.
    apply existsb_exists. exists k. split; [by apply list_elem_of_In|by apply contains_spec].
  - intros k Hk%list_elem_of_In. apply H10, existsb_exists in Hk as (f & Hf%list_elem_of_In & ?). eauto.
  - rewrite <-String.eqb_eq, H11, orb_true_iff. done.
Qed.

(** The listing is complete and ordered: it holds exactly the descriptors
    [Lookup] finds, strictly increasing by identifier. *)
Theorem all_lists_registry :
  (∀ d, d ∈ All ↔ ∃ id, Lookup id = (d, true))
  ∧ (∀ i j a b, (i < j)%nat → All !! i = Some a → All !! j = Some b → String.ltb (ds_ID a) (ds_ID b) = true).
Proof.
  split.
  - apply listing_spec.
  - intros i j a b. apply (pairwise_lookup (λ a b, String.ltb (ds_ID a) (ds_ID b))). vm_compute. reflexivity.
Qed.

Lemma registry_wellformed_witness : ds_ToolsAllowed (fst (Lookup "doubao")) = false.
Proof.
  destruct registry_wellformed as [_ H]. apply (H "doubao"%string); [|reflexivity].
  destruct (Lookup "doubao") as [d b] eqn:E. assert (b = true) as -> by (apply (f_equal snd) in E; vm_compute in E; done). done.
Defined.

Lemma all_lists_registry_witness :
  String.ltb (default ""%string (ds_ID <$> All !! 0%nat)) (default ""%string (ds_ID <$> All !! 1%nat)) = true.
Proof.
  destruct (All !! 0%nat) as [a|] eqn:Ea; [|vm_compute in Ea; discriminate].
  destruct (All !! 1%nat) as [b|] eqn:Eb; [|vm_compute in Eb; discriminate].
  apply (proj2 all_lists_registry 0%nat 1%nat a b); [lia|done|done].
Defined.
