(* ===== verification/GoNet.v ===== *)
(** * Addresses, URLs and paths of Go's standard library

    [net.SplitHostPort], [net.ParseIP], [IP.IsLoopback], the host and port of
    a [url.URL], [filepath.Dir] and [filepath.Join] (on Unix), and the regular
    expressions of the configuration.  [url.Parse] itself, whose grammar
    changes between releases, is a parameter: the interface [UrlParser]. *)

From S2P Require Import Prelude Json JsonFacts Request RequestFacts GoText.
Local Open Scope Z_scope.

(** ** [url.URL] *)

(** The fields the gateway reads; [u_User] tells whether [User] is set. *)
Record URL := { url_Scheme : string; url_Host : string; url_User : bool; url_Path : string;
  url_RawQuery : string; url_Fragment : string }.

(** [url.Parse]; [None] is an error. *)
Class UrlParser := url_Parse : string → option URL.

Definition last_index (c : ascii) (l : bytes) : option nat :=
  match index_byte (rev l) c with Some i => Some (length l - S i)%nat | None => None end.

(** [validOptionalPort]: empty, or a colon and digits *)
Definition valid_optional_port (l : bytes) : bool :=
  match l with [] => true | c :: d => Ascii.eqb c ":" && forallb is_digit d end.

Definition split_host_port (host : bytes) : bytes * bytes :=
  let '(h, p) :=
    match last_index ":" host with
    | Some i => if valid_optional_port (drop i host) then (take i host, drop (S i) host) else (host, [])
    | None => (host, [])
    end in
  match h with
  | c :: h' =>
      if Ascii.eqb c "[" && bool_decide (last h' = Some "]"%char) then (removelast h', p) else (h, p)
  | [] => (h, p)
  end.

Definition Hostname (u : URL) : string := str (fst (split_host_port (lit (url_Host u)))).
Definition Port (u : URL) : string := str (snd (split_host_port (lit (url_Host u)))).

(** [strconv.Atoi] of a port, the error dropped: digits, saturated at the
    largest integer; anything else is 0. *)
Definition atoi_port (s : string) : Z :=
  if bool_decide (s = ""%string) || negb (forallb is_digit (lit s)) then 0 else Z.min (digits_value (lit s)) (two63 - 1).

(** ** [net.SplitHostPort]; [None] is an error *)

Definition SplitHostPort (hostport : string) : option (string * string) :=
  let l := lit hostport in
  match last_index ":" l with
  | None => None
  | Some i =>
      match l with
      | [] => None
      | c :: _ =>
          if Ascii.eqb c "[" then
            match index_byte l "]" with
            | None => None
            | Some end_ =>
                if Nat.eqb (S end_) i then
                  if bool_decide (index_byte (drop 1 l) "[" = None) && bool_decide (index_byte (drop (S end_) l) "]" = None)
                  then Some (str (take (end_ - 1) (drop 1 l)), str (drop (S i) l)) else None
                else None
            end
          else
            if bool_decide (index_byte (take i l) ":" = None) && bool_decide (index_byte l "[" = None)
               && bool_decide (index_byte l "]" = None)
            then Some (str (take i l), str (drop (S i) l)) else None
      end
  end.

(** ** [net.ParseIP]: sixteen bytes *)

Definition octet (l : bytes) : option Z :=
  match l with
  | [] => None
  | c :: d =>
      if negb (forallb is_digit l) || (Ascii.eqb c "0" && negb (bool_decide (d = []))) then None
      else let v := digits_value l in if 255 <? v then None else Some v
  end.

Definition parse_ipv4 (l : bytes) : option (list Z) :=
  match split_on "." l with
  | [a; b; c; d] => x ← octet a; y ← octet b; z ← octet c; w ← octet d; Some [x; y; z; w]
  | _ => None
  end.

Fixpoint span_hex (l : bytes) : bytes * bytes :=
  match l with
  | c :: l' => if is_hex c then let '(h, r) := span_hex l' in (c :: h, r) else ([], l)
  | [] => ([], [])
  end.

Definition hex_value (l : bytes) : Z := fold_left (λ n c, 16 * n + hex_digit c) l 0.

(** The loop over the groups: the bytes so far and where [::] stood; the
    result has the remaining text. *)
Fixpoint ipv6_loop (fuel : nat) (ip : list Z) (ellipsis : option nat) (s : bytes)
    : option (list Z * option nat * bytes) :=
  match fuel with
  | O => Some (ip, ellipsis, s)
  | S fuel =>
      if (16 <=? length ip)%nat then Some (ip, ellipsis, s)
      else
        let '(h, r) := span_hex s in
        if (4 <? length h)%nat || bool_decide (h = []) then None
        else
          match r with
          | c :: _ =>
              if Ascii.eqb c "." then
                if bool_decide (ellipsis = None) && negb (Nat.eqb (length ip) 12) then None
                else if (16 <? length ip + 4)%nat then None
                else v4 ← parse_ipv4 s; Some (ip ++ v4, ellipsis, [])
              else
                let ip := ip ++ [hex_value h / 256; hex_value h mod 256] in
                if negb (Ascii.eqb c ":") then None
                else
                  match drop 1 r with
                  | [] => None
                  | d :: s' =>
                      if Ascii.eqb d ":" then
                        if bool_decide (ellipsis ≠ None) then None
                        else if bool_decide (s' = []) then Some (ip, Some (length ip), [])
                        else ipv6_loop fuel ip (Some (length ip)) s'
                      else ipv6_loop fuel ip ellipsis (d :: s')
                  end
          | [] => Some (ip ++ [hex_value h / 256; hex_value h mod 256], ellipsis, [])
          end
  end.

Definition parse_ipv6 (l : bytes) : option (list Z) :=
  '(ip, ellipsis, s) ←
    (match l with
     | a :: b :: r =>
         if Ascii.eqb a ":" && Ascii.eqb b ":"
         then match r with [] => Some ([], Some 0%nat, []) | _ => ipv6_loop 9 [] (Some 0%nat) r end
         else ipv6_loop 9 [] None l
     | _ => ipv6_loop 9 [] None l
     end);
  if negb (bool_decide (s = [])) then None
  else if (length ip <? 16)%nat then
    match ellipsis with
    | None => None
    | Some e => Some (take e ip ++ replicate (16 - length ip) 0 ++ drop e ip)
    end
  else if bool_decide (ellipsis ≠ None) then None else Some ip.

(** The first of the bytes that tell the formats apart; a zone is refused. *)
Fixpoint ip_format (l : bytes) : option ascii :=
  match l with
  | [] => None
  | c :: l' => if Ascii.eqb c "." || Ascii.eqb c ":" || Ascii.eqb c "%" then Some c else ip_format l'
  end.

Definition v4_prefix : list Z := replicate 10 0 ++ [255; 255].

Definition ParseIP (s : string) : option (list Z) :=
  let l := lit s in
  match ip_format l with
  | Some c =>
      if Ascii.eqb c "." then v4 ← parse_ipv4 l; Some (v4_prefix ++ v4)
      else if Ascii.eqb c ":" then match index_byte l "%" with Some _ => None | None => parse_ipv6 l end
      else None
  | None => None
  end.

Definition IsLoopback (ip : list Z) : bool :=
  if bool_decide (take 12 ip = v4_prefix) then bool_decide (ip !! 12%nat = Some 127)
  else bool_decide (ip = replicate 15 0 ++ [1]).

(** A host that names the machine itself. *)
Definition loopback_host (host : string) : bool :=
  (host =? "localhost")%string || match ParseIP host with Some ip => IsLoopback ip | None => false end.

Example parse_ip_ex1 : ParseIP "127.0.0.1" = Some (v4_prefix ++ [127; 0; 0; 1]). Proof. vm_compute. reflexivity. Qed.
Example parse_ip_ex2 : ParseIP "::1" = Some (replicate 15 0 ++ [1]). Proof. vm_compute. reflexivity. Qed.
Example parse_ip_ex3 : ParseIP "::ffff:127.9.0.1" = Some (v4_prefix ++ [127; 9; 0; 1]). Proof. vm_compute. reflexivity. Qed.
Example parse_ip_ex4 : ParseIP "127.0.0.01" = None. Proof. vm_compute. reflexivity. Qed.
Example parse_ip_ex5 : ParseIP "1:2:3:4:5:6:7:8:9" = None. Proof. vm_compute. reflexivity. Qed.
Example parse_ip_ex6 : ParseIP "fe80::1%eth0" = None. Proof. vm_compute. reflexivity. Qed.
Example parse_ip_ex7 : is_Some (ParseIP "2001:db8::8:800:200c:417a"). Proof. vm_compute. eauto. Qed.
Example split_host_port_ex1 : SplitHostPort "127.0.0.1:8317" = Some ("127.0.0.1", "8317")%string. Proof. vm_compute. reflexivity. Qed.
Example split_host_port_ex2 : SplitHostPort "[::1]:80" = Some ("::1", "80")%string. Proof. vm_compute. reflexivity. Qed.
Example split_host_port_ex3 : SplitHostPort "::1:80" = None. Proof. vm_compute. reflexivity. Qed.

(** ** [path/filepath] on Unix *)

Definition slash : ascii := "/"%char.

(** One element of [filepath.Clean], the elements kept so far reversed. *)
Definition clean_elem (rooted : bool) (kept : list bytes) (e : bytes) : list bytes :=
  if bool_decide (e = []) || bool_decide (e = lit ".") then kept
  else if bool_decide (e = lit "..") then
    match kept with
    | k :: kept' => if bool_decide (k = lit "..") then e :: kept else kept'
    | [] => if rooted then [] else [e]
    end
  else e :: kept.

Fixpoint join_with (sep : ascii) (l : list bytes) : bytes :=
  match l with [] => [] | [a] => a | a :: l' => a ++ sep :: join_with sep l' end.

Definition Clean (p : bytes) : bytes :=
  let rooted := match p with c :: _ => Ascii.eqb c slash | [] => false end in
  let kept := rev (fold_left (clean_elem rooted) (split_on slash p) []) in
  let out := join_with slash kept in
  if rooted then slash :: out else if bool_decide (out = []) then lit "." else out.

(** [filepath.Dir] *)
Definition Dir (p : bytes) : bytes :=
  Clean (match last_index slash p with Some i => take (S i) p | None => [] end).

(** [filepath.Join]: the non-empty elements *)
Definition Join (l : list bytes) : bytes :=
  match List.filter (λ e, negb (bool_decide (e = []))) l with [] => [] | l' => Clean (join_with slash l') end.

Definition IsAbs (p : string) : bool := has_prefix p "/".

Example dir_ex : str (Dir (lit ".clash-tokens/sessions.json")) = ".clash-tokens"%string. Proof. vm_compute. reflexivity. Qed.
Example join_ex : str (Join [lit "a/../b"; lit "profiles"; lit "p1"; lit "sessions.json"]) = "b/profiles/p1/sessions.json"%string.
Proof. vm_compute. reflexivity. Qed.
Example clean_ex : str (Clean (lit "/../a//./b/..")) = "/a"%string. Proof. vm_compute. reflexivity. Qed.

(** ** Patterns *)

Definition is_alnum (c : ascii) : bool :=
  let x := code c in ((48 <=? x) && (x <=? 57)) || ((65 <=? x) && (x <=? 90)) || ((97 <=? x) && (x <=? 122)).

(** [^[a-zA-Z0-9][a-zA-Z0-9_.-]{0,95}$] *)
Definition identifier (s : string) : bool :=
  match lit s with
  | [] => false
  | c :: l => is_alnum c && forallb (λ d, is_alnum d || ascii_in d "_.-") l && (length l <=? 95)%nat
  end.

(** [^/devtools/browser/[A-Za-z0-9-]{8,128}$] *)
Definition devtools_path (s : string) : bool :=
  match strip (lit "/devtools/browser/") (lit s) with
  | Some l => forallb (λ d, is_alnum d || ascii_in d "-") l && (8 <=? length l)%nat && (length l <=? 128)%nat
  | None => false
  end.

(** [strings.ContainsAny(s, "\r\n\x00")] *)
Definition has_control (s : string) : bool :=
  existsb (λ c, (code c =? 13) || (code c =? 10) || (code c =? 0)) (lit s).

(** ** Facts *)

Lemma identifier_nonempty s : identifier s = true → s ≠ ""%string.
Proof. by intros H ->. Qed.

Lemma octet_range l v : octet l = Some v → 0 <= v <= 255.
Proof.
  unfold octet. destruct l as [|c d]; [done|]. destruct (negb _ || _) eqn:E; [done|].
  destruct (Z.ltb_spec 255 (digits_value (c :: d))); [done|]. intros [= <-].
  apply orb_false_iff in E as [E _]. apply negb_false_iff in E. rewrite forallb_forall in E. split; [|lia].
  unfold digits_value. assert (Hgen : ∀ l n, (∀ x, In x l → is_digit x = true) → 0 <= n → 0 <= fold_left (λ n c, 10 * n + (code c - 48)) l n).
  { induction l as [|x l IH]; intros n Hl Hn; [done|]. simpl. apply IH; [intros; apply Hl; by right|].
    pose proof (Hl x (or_introl eq_refl)) as Hx. unfold is_digit in Hx. lia. }
  by apply Hgen.
Qed.

Lemma parse_ipv4_shape l ip : parse_ipv4 l = Some ip → length ip = 4%nat ∧ Forall (λ x, 0 <= x <= 255) ip.
Proof.
  unfold parse_ipv4. destruct (split_on "." l) as [|a [|b [|c [|d [|]]]]]; try done.
  destruct (octet a) as [x|] eqn:Ea; [|done]. destruct (octet b) as [y|] eqn:Eb; [|done].
  destruct (octet c) as [z|] eqn:Ec; [|done]. destruct (octet d) as [w|] eqn:Ed; [|done]. intros [= <-].
  split; [done|]. repeat constructor; by eapply octet_range.
Qed.
