(* ===== verification/ConfigAccounts.v ===== *)
(** * Accounts, browser profiles and source metadata ([internal/config]:
    [accounts.go], [browser_profiles.go], [metadata.go])

    Errors are the messages the code builds.  Sets of Go ([map[string]bool])
    are finite sets. *)

From S2P Require Import Prelude ConfigData Json GoText GoNet.
Local Open Scope string_scope.
Local Open Scope Z_scope.

Abbreviation checked := (res string).

(** ** Source metadata *)

Definition source_kinds : list string :=
  ["vendor_api"; "cloud_api"; "aggregator_api"; "product_reverse"; "browser_reverse"; "app_reverse"; "cli_reverse";
   "local_model"; "custom_api"].
Definition billing_modes : list string := ["metered"; "subscription"; "free_allowance"; "local"; "unknown"].
Definition credential_modes : list string :=
  ["api_key"; "oauth"; "browser_session"; "cookie"; "username_password"; "cli_session"; "device_session"; "anonymous"].

(** A short field without line breaks or zero bytes. *)
Definition plain_field (v : string) : bool := negb (256 <? slen v) && negb (has_control v).

Definition allowed_field (f : string * string * list string) : checked unit :=
  let '(name, value, allowed) := f in
  if (value =s "") then Ok tt else reject negb (contains allowed value) with ("invalid " ++ name) ;; Ok tt.

Definition ValidateMetadata (s : Source) : checked unit :=
  reject negb (plain_field (s_Organization s)) with "invalid organization" ;;
  reject negb (plain_field (s_Project s)) with "invalid project" ;;
  let? _ := fold_res (λ _ f, allowed_field f) tt
    [("source_kind", s_SourceKind s, source_kinds);
     ("execution_location", s_ExecutionLocation s, ["local"; "remote"]);
     ("inference_location", s_InferenceLocation s, ["local"; "remote"; "unknown"]);
     ("billing_mode", s_BillingMode s, billing_modes);
     ("credential_mode", s_CredentialMode s, credential_modes)] in
  let local_model := s_SourceKind s =s "local_model" in
  let local_inference := s_InferenceLocation s =s "local" in
  let local_billing := s_BillingMode s =s "local" in
  reject local_inference && (negb local_model || negb (s_Local s))
    with "local inference requires an explicit local_model and loopback transport" ;;
  reject local_model && (negb local_inference || negb (s_Local s))
    with "local_model requires local inference and loopback transport" ;;
  reject local_model && negb local_billing with "local_model requires local billing mode" ;;
  reject local_billing && (negb local_model || negb local_inference || negb (s_Local s))
    with "local billing mode requires a local_model source" ;;
  reject local_model && negb (contains ["openai"; "anthropic"; "gemini"] (s_Adapter s))
    with "local_model requires a generic local inference API" ;;
  Ok tt.

(** ** References and defaults *)

Definition cred_prefix : string := "cred://".

Definition ValidCredentialRef (ref : string) : bool :=
  (ref =s "") || match strip (lit cred_prefix) (lit ref) with Some r => identifier (str r) | None => false end.

Definition account_of (c : Config) (id : string) : option Account :=
  snd <$> list_find (λ a, a_ID a = id) (c_Accounts c).

Definition SourceCredentialRef (c : Config) (s : Source) : string :=
  if negb (s_CredentialRef s =s "") then s_CredentialRef s
  else match account_of c (s_AccountID s) with Some a => a_CredentialRef a | None => "" end.

Definition fill (v d : string) : string := if v =s "" then d else v.

Definition with_endpoint (url org project : string) (s : Source) : Source :=
  {| s_Weight := s_Weight s; s_AccountID := s_AccountID s; s_CredentialRef := s_CredentialRef s;
     s_CredentialTypeOverride := s_CredentialTypeOverride s; s_SourceKind := s_SourceKind s;
     s_ExecutionLocation := s_ExecutionLocation s; s_InferenceLocation := s_InferenceLocation s;
     s_BillingMode := s_BillingMode s; s_CredentialMode := s_CredentialMode s; s_ID := s_ID s;
     s_Provider := s_Provider s; s_Adapter := s_Adapter s; s_BaseURL := url; s_KeyEnv := s_KeyEnv s;
     s_AccountIDEnv := s_AccountIDEnv s; s_Organization := org; s_Project := project; s_Enabled := s_Enabled s;
     s_AutoApproved := s_AutoApproved s; s_Local := s_Local s; s_Anonymous := s_Anonymous s; s_Paid := s_Paid s;
     s_MaxInflight := s_MaxInflight s; s_QuotaDomain := s_QuotaDomain s; s_QuotaMaxInflight := s_QuotaMaxInflight s;
     s_Models := s_Models s |}.

Definition EffectiveSource (c : Config) (s : Source) : Source :=
  if s_AccountID s =s "" then s
  else
    match account_of c (s_AccountID s) with
    | Some a => with_endpoint (fill (s_BaseURL s) (a_BaseURL a)) (fill (s_Organization s) (a_Organization a))
                  (fill (s_Project s) (a_Project a)) s
    | None => s
    end.

(** The browser a source uses: that of the first account of its name with a
    profile that exists, with a session file of its own, or the default. *)
Definition profile_browser (c : Config) (a : Account) (p : BrowserProfile) : Browser :=
  let b := c_Browser c in
  {| b_ExpectedIdentity := a_ExpectedIdentity a; b_Engine := bp_Engine p; b_Enabled := bp_Enabled p; b_CDPURL := bp_CDPURL p;
     b_StateFile := str (Join [Dir (lit (b_StateFile b)); lit "profiles"; lit (bp_ID p); lit "sessions.json"]);
     b_MaxSessions := b_MaxSessions b; b_SessionTTLSeconds := b_SessionTTLSeconds b; b_PollMS := b_PollMS b;
     b_MaxPromptBytes := b_MaxPromptBytes b; b_MaxResponseBytes := b_MaxResponseBytes b |}.

Fixpoint source_browser_loop (c : Config) (s : Source) (accounts : list Account) : Browser :=
  match accounts with
  | [] => c_Browser c
  | a :: accounts =>
      if negb (a_ID a =s s_AccountID s) || (a_BrowserProfileID a =s "") then source_browser_loop c s accounts
      else
        match list_find (λ p, bp_ID p = a_BrowserProfileID a) (c_BrowserProfiles c) with
        | Some (_, p) => profile_browser c a p
        | None => source_browser_loop c s accounts
        end
  end.

Definition SourceBrowser (c : Config) (s : Source) : Browser := source_browser_loop c s (c_Accounts c).

(** ** Browser profiles *)

Definition BrowserEngines : list string :=
  ["chrome"; "edge"; "brave"; "firefox"; "opera"; "vivaldi"; "chromium"; "arc"].
Definition containsBrowserEngine (e : string) : bool := contains BrowserEngines e.

Section Urls.
Context `{UrlParser}.

(** No user, query or fragment. *)
Definition bare_url (u : URL) : bool := negb (url_User u) && (url_RawQuery u =s "") && (url_Fragment u =s "").

Definition check_profile (st : gset string * gset string) (p : BrowserProfile) : checked (gset string * gset string) :=
  let '(ids, endpoints) := st in
  reject negb (identifier (bp_ID p)) || bool_decide (bp_ID p ∈ ids) with "invalid or duplicate browser profile id" ;;
  let ids := {[bp_ID p]} ∪ ids in
  reject negb (containsBrowserEngine (bp_Engine p)) with ("profile " ++ bp_ID p ++ ": unsupported browser engine") ;;
  match url_Parse (bp_CDPURL p) with
  | None => Err ("profile " ++ bp_ID p ++ ": invalid CDP URL")
  | Some u =>
      let port := atoi_port (Port u) in
      let normal := (url_Scheme u =s "http") && ((url_Path u =s "") || (url_Path u =s "/")) in
      let externalWS := bp_External p && negb (bp_Engine p =s "firefox") && (url_Scheme u =s "ws") && devtools_path (url_Path u) in
      reject (negb normal && negb externalWS)
      || negb (match ParseIP (Hostname u) with Some ip => IsLoopback ip | None => false end)
      || (port <? 1024) || (65535 <? port) || negb (bare_url u)
        with ("profile " ++ bp_ID p ++ ": CDP must be loopback HTTP or an external browser WebSocket with port 1024..65535") ;;
      reject bool_decide (Port u ∈ endpoints) with "browser profiles must use distinct CDP ports" ;;
      Ok (ids, {[Port u]} ∪ endpoints)
  end.

Definition check_account_profile (ids : gset string) (a : Account) : checked unit :=
  reject negb (a_BrowserProfileID a =s "") && negb (bool_decide (a_BrowserProfileID a ∈ ids))
    with ("account " ++ a_ID a ++ ": unknown browser profile") ;;
  Ok tt.

Definition ValidateBrowserProfiles (c : Config) : checked unit :=
  let engine := b_Engine (c_Browser c) in
  reject negb (engine =s "") && negb (containsBrowserEngine engine) with "unsupported default browser engine" ;;
  reject (engine =s "firefox")
  && match url_Parse (b_CDPURL (c_Browser c)) with
  | None => true
  | Some u => (Port u =s "") || (negb (url_Path u =s "") && negb (url_Path u =s "/"))
  end
    with "Firefox default browser requires a port and no endpoint path" ;;
  reject (64 <? length (c_BrowserProfiles c))%nat with "browser registry exceeds 64 profiles" ;;
  let? st := fold_res check_profile (∅, ∅) (c_BrowserProfiles c) in
  fold_res (λ _ a, check_account_profile (fst st) a) tt (c_Accounts c).

(** ** Accounts *)

(** HTTPS, or plain HTTP on the machine itself. *)
Definition secure_scheme (u : URL) : bool :=
  (url_Scheme u =s "https") || ((url_Scheme u =s "http") && loopback_host (Hostname u)).

Definition validateAccountMetadata (a : Account) : checked unit :=
  reject negb (plain_field (a_Organization a)) with ("account " ++ a_ID a ++ ": invalid organization") ;;
  reject negb (plain_field (a_Project a)) with ("account " ++ a_ID a ++ ": invalid project") ;;
  reject negb (plain_field (a_ExpectedIdentity a)) with ("account " ++ a_ID a ++ ": invalid expected_identity") ;;
  if a_BaseURL a =s "" then Ok tt
  else
    match url_Parse (a_BaseURL a) with
    | None => Err ("account " ++ a_ID a ++ ": invalid base_url")
    | Some u =>
        reject (url_Host u =s "") || negb (bare_url u) with ("account " ++ a_ID a ++ ": invalid base_url") ;;
        reject negb (secure_scheme u) with ("account " ++ a_ID a ++ ": base_url must use HTTPS outside loopback") ;;
        Ok tt
    end.

Definition pool_strategies : list string := [""; "round-robin"; "least-load"; "sticky"; "weighted"].
Definition verification_states : list string := [""; "verified"; "unverified"; "unfilled"; "invalid"].

Definition check_provider (providers : gset string) (p : Provider) : checked (gset string) :=
  reject negb (identifier (p_ID p)) || bool_decide (p_ID p ∈ providers) with "invalid or duplicate provider id" ;;
  reject negb (contains pool_strategies (p_PoolStrategy p)) with ("provider " ++ p_ID p ++ ": invalid pool strategy") ;;
  Ok ({[p_ID p]} ∪ providers).

Definition in_range (lo hi z : Z) : bool := (lo <=? z) && (z <=? hi).

Definition check_account (providers : gset string) (accounts : gmap string Account) (a : Account)
  : checked (gmap string Account) :=
  reject negb (contains verification_states (a_VerificationState a))
    with ("account " ++ a_ID a ++ ": invalid verification state") ;;
  reject negb (identifier (a_ID a)) || negb (a_ID (default zero_Account (accounts !! a_ID a)) =s "")
    with "invalid or duplicate account id" ;;
  reject negb (bool_decide (a_ProviderID a ∈ providers)) with ("account " ++ a_ID a ++ ": unknown provider") ;;
  reject negb (ValidCredentialRef (a_CredentialRef a)) || negb (ValidCredentialRef (a_LoginCredentialRef a))
    with ("account " ++ a_ID a ++ ": invalid credential reference") ;;
  let? _ := validateAccountMetadata a in
  reject negb (in_range 1 10000 (a_MaxInflight a)) || negb (in_range 1 10000 (a_Weight a)) || negb (identifier (a_QuotaDomain a))
    with ("account " ++ a_ID a ++ ": invalid capacity, weight or quota domain") ;;
  Ok (<[a_ID a := a]> accounts).

Definition check_source_account (accounts : gmap string Account) (s : Source) : checked unit :=
  reject negb (ValidCredentialRef (s_CredentialRef s)) with ("source " ++ s_ID s ++ ": invalid credential reference") ;;
  if s_AccountID s =s "" then Ok tt
  else
    match accounts !! s_AccountID s with
    | None => Err ("source " ++ s_ID s ++ ": unknown account or provider mismatch")
    | Some a =>
        reject negb (a_ProviderID a =s s_Provider s)
          with ("source " ++ s_ID s ++ ": account provider changed while source is bound; migrate source first") ;;
        reject negb (s_QuotaDomain s =s a_QuotaDomain a)
          with ("source " ++ s_ID s ++ ": quota domain must match its account") ;;
        reject negb (s_CredentialRef s =s "") && negb (a_CredentialRef a =s "") && negb (s_CredentialRef s =s a_CredentialRef a)
          with ("source " ++ s_ID s ++ ": conflicting account credential") ;;
        Ok tt
    end.

Definition ValidateAccounts (c : Config) : checked unit :=
  let? _ := ValidateBrowserProfiles c in
  let? providers := fold_res check_provider ∅ (c_Providers c) in
  let? accounts := fold_res (check_account providers) ∅ (c_Accounts c) in
  fold_res (λ _ s, check_source_account accounts s) tt (c_Sources c).

End Urls.
