(* ===== verification/ConfigValidate.v ===== *)
(** * Configuration validation ([internal/config/config.go], [Validate])

    Every guard in the order of the code; errors are its messages.  The five
    counters of browser-backed sources, of which the code only asks whether
    one is positive, are one counter. *)

From S2P Require Import Prelude GoFloat ConfigData Json Request GoText GoNet Providerdef ConfigAccounts.
Local Open Scope string_scope.
Local Open Scope Z_scope.

(** ** Models *)

Definition about_source (s : Source) (what : string) : string := "source " ++ s_ID s ++ ": " ++ what.

Definition tool_modes : list string := ["native"; "none"; "unknown"].

(** [strings.ContainsAny(m.Upstream, "?#\\")] *)
Definition has_reserved (v : string) : bool := contains_any v "?#\".

Definition check_protocol (s : Source) (p : string) : checked unit :=
  reject negb (Supports (s_Adapter s) p) with about_source s ("adapter does not support " ++ p) ;; Ok tt.

Definition check_model (s : Source) (d : Descriptor) (models : gset string) (m : Model) : checked (gset string) :=
  reject (m_ID m =s "") || (256 <? slen (m_ID m)) || has_prefix (m_ID m) "auto" || bool_decide (m_ID m ∈ models)
         || (m_Upstream m =s "") || (1024 <? slen (m_Upstream m)) || has_reserved (m_Upstream m)
    with about_source s "invalid model" ;;
  let models := {[m_ID m]} ∪ models in
  reject negb (ValidPrice (m_InputUSDPerMillion m)) || negb (ValidPrice (m_OutputUSDPerMillion m))
    with about_source s "invalid model USD rate" ;;
  reject negb (m_Tier m =s "unrated") && ((Tier (m_Tier m) <? 0) || (m_RatingBasis m =s ""))
    with about_source s "rated models require rating_basis" ;;
  reject (m_MaxInputBytes m <? 1) || bool_decide (m_Protocols m = [])
    with about_source s "model limits and protocols required" ;;
  reject negb (contains tool_modes (m_Tools m)) with about_source s "invalid tools capability" ;;
  reject ds_TextOnly d && (negb (m_Tools m =s "none") || m_Vision m)
    with about_source s "text adapter requires tools none and vision false" ;;
  reject negb (ds_ToolsAllowed d) && negb (m_Tools m =s "none") with about_source s "adapter requires tools none" ;;
  let? _ := fold_res (λ _ p, check_protocol s p) tt (m_Protocols m) in
  Ok models.

(** ** Sources *)

Record check_state := { k_ids : gset string; k_domains : gmap string Z; k_profiles : gset string; k_browsers : nat }.
Definition start_state : check_state := {| k_ids := ∅; k_domains := ∅; k_profiles := ∅; k_browsers := 0 |}.

Definition device_models : list (string * string) :=
  [("meituan-xiaotuan", "meituan_xiaotuan"); ("wangzhe-lingbao", "wangzhe_lingbao"); ("douyin-xiaohuoren", "douyin_xiaohuoren")].
Definition device_model (provider : string) : string :=
  match list_find (λ kv, fst kv = provider) device_models with Some (_, (_, v)) => v | None => "" end.

Definition trim_right_slashes (s : string) : string :=
  str (rev ((fix go l := match l with c :: l' => if Ascii.eqb c slash then go l' else l | [] => [] end) (rev (lit s)))).

Section Validate.
Context `{UrlParser}.

(** The adapters with a browser behind them. *)
Definition check_browser_adapter (c : Config) (s : Source) (profiles : gset string) : checked (gset string * nat) :=
  let off := s_Enabled s && negb (b_Enabled (SourceBrowser c s)) in
  let alone := (s_MaxInflight s =? 1) && (s_QuotaMaxInflight s =? 1) in
  let adapter := s_Adapter s in
  if adapter =s "chatgpt-web" then
    let endpoint := b_CDPURL (SourceBrowser c s) in
    reject bool_decide (endpoint ∈ profiles) with "one ChatGPT web source per browser profile is supported" ;;
    reject off with "chatgpt-web requires browser.enabled" ;;
    reject negb alone with "ChatGPT web account and browser concurrency must be one" ;;
    Ok ({[endpoint]} ∪ profiles, 1%nat)
  else if adapter =s "doubao" then
    reject off with "doubao requires browser.enabled" ;; Ok (profiles, 1%nat)
  else if adapter =s "gemini-web" then
    reject off with "gemini-web requires browser.enabled" ;;
    reject negb alone with "Gemini Web account and browser concurrency must be one" ;; Ok (profiles, 1%nat)
  else if adapter =s "gigachat-web" then
    reject off with "gigachat-web requires browser.enabled" ;;
    reject negb alone with "GigaChat Web account and browser concurrency must be one" ;; Ok (profiles, 1%nat)
  else if adapter =s "cloudflare-playground" then
    reject off with "cloudflare-playground requires browser.enabled" ;;
    reject negb (trim_right_slashes (s_BaseURL s) =s "https://playground.ai.cloudflare.com")
      with "cloudflare-playground uses its public browser origin" ;;
    reject negb (s_MaxInflight s =? 1) with "cloudflare-playground browser concurrency must be one" ;; Ok (profiles, 0%nat)
  else if adapter =s "aistudio-build" then
    reject off with "aistudio-build requires browser.enabled" ;;
    reject negb alone with "AI Studio Build account and browser concurrency must be one" ;; Ok (profiles, 1%nat)
  else Ok (profiles, 0%nat).

Definition check_device (c : Config) (s : Source) : checked unit :=
  reject (device_model (s_Provider s) =s "") || negb (s_BaseURL s =s "adb://current-app-session") || s_Local s || s_AutoApproved s
  || negb (s_Anonymous s) || negb (s_KeyEnv s =s "") || negb (s_MaxInflight s =? 1) || negb (s_QuotaMaxInflight s =? 1)
  || negb (s_QuotaDomain s =s "android-device")
    with about_source s "device providers require manual routing, android-device capacity one, and adb://current-app-session" ;;
  let d := c_Device c in
  reject s_Enabled s
  && (negb (d_Enabled d) || negb (IsAbs (d_ADBPath d)) || negb (IsAbs (d_OCRPath d)) || negb (IsAbs (d_StateDir d))
    || (d_Serial d =s "") || has_control (d_Serial d) || (d_ClipboardSyncMS d <? 200) || (5000 <? d_ClipboardSyncMS d)
    || negb (s_Project s =s "current-app-session"))
    with about_source s "enabled device requires explicit paths, serial, sync delay and project current-app-session" ;;
  fold_res (λ _ m, reject negb (m_Upstream m =s device_model (s_Provider s))
      with about_source s "unknown device model selector" ;; Ok tt) tt (s_Models s).

(** The adapters with requirements of their own. *)
Definition check_project (c : Config) (s : Source) : checked unit :=
  reject ((s_Adapter s =s "gemini-cli") || (s_Adapter s =s "antigravity")) && (s_Project s =s "")
    with about_source s "Code Assist project required" ;;
  reject (s_Adapter s =s "weread-ai") && (TrimSpace (s_Project s) =s "")
    with about_source s "WeRead book ID required in project" ;;
  if s_Adapter s =s "app-device" then check_device c s else Ok tt.

Definition check_base_url (s : Source) : checked unit :=
  if s_Adapter s =s "app-device" then Ok tt
  else if s_Adapter s =s "devin-cli" then
    reject negb (s_BaseURL s =s "devin://acp/stdio") || negb (s_Local s)
      with about_source s "Devin CLI requires local base_url devin://acp/stdio" ;; Ok tt
  else if s_Adapter s =s "zcode" then
    reject negb (s_BaseURL s =s "zcode://app-server/stdio") || negb (s_Local s)
      with about_source s "ZCode requires local base_url zcode://app-server/stdio" ;; Ok tt
  else
    match url_Parse (s_BaseURL s) with
    | None => Err (about_source s "invalid base_url")
    | Some u =>
        reject (url_Host u =s "") || negb (bare_url u) with about_source s "invalid base_url" ;;
        reject negb (secure_scheme u) with about_source s "HTTPS required outside loopback" ;;
        reject s_Local s && negb (loopback_host (Hostname u)) with about_source s "local requires loopback endpoint" ;;
        Ok tt
    end.

(** The adapters that sign in by themselves. *)
Definition keyless_adapters : list string :=
  ["chatgpt-web"; "doubao"; "gemini-web"; "gigachat-web"; "duckduckgo-web"; "aistudio-build"].

Definition check_source (c : Config) (st : check_state) (configured : Source) : checked check_state :=
  let s := EffectiveSource c configured in
  reject (s_Weight s <? 0) || (10000 <? s_Weight s) with about_source s "invalid weight" ;;
  let? _ := (match ValidateMetadata s with Ok _ => Ok tt | Err e => Err (about_source s e) end) in
  reject negb (identifier (s_ID s)) || bool_decide (s_ID s ∈ k_ids st) with ("invalid or duplicate source id: " ++ s_ID s) ;;
  let '(descriptor, known) := Lookup (s_Adapter s) in
  reject negb known with about_source s "unsupported adapter" ;;
  let? browser := check_browser_adapter c s (k_profiles st) in
  let? _ := check_project c s in
  let? _ := check_base_url s in
  reject negb (s_Local s) && negb (s_Anonymous s) && (s_KeyEnv s =s "") && (SourceCredentialRef c s =s "")
  && negb (contains keyless_adapters (s_Adapter s))
    with about_source s "key_env required" ;;
  reject negb (in_range 1 10000 (s_MaxInflight s)) || (s_QuotaDomain s =s "") || negb (in_range 1 10000 (s_QuotaMaxInflight s))
    with about_source s "explicit source and quota capacity required" ;;
  reject bool_decide (s_Models s = []) with about_source s "at least one model is required" ;;
  reject match k_domains st !! s_QuotaDomain s with Some n => negb (n =? s_QuotaMaxInflight s) | None => false end
    with ("inconsistent quota limit for " ++ s_QuotaDomain s) ;;
  let? _ := fold_res (check_model s descriptor) ∅ (s_Models s) in
  Ok {| k_ids := {[s_ID s]} ∪ k_ids st; k_domains := <[s_QuotaDomain s := s_QuotaMaxInflight s]> (k_domains st);
    k_profiles := fst browser; k_browsers := k_browsers st + snd browser |}.

(** ** The browser and the groups *)

Definition check_browser (b : Browser) : checked unit :=
  reject match url_Parse (b_CDPURL b) with
  | None => true
  | Some u =>
      negb (url_Scheme u =s "http")
      || negb (match ParseIP (Hostname u) with Some ip => IsLoopback ip | None => false end) || negb (bare_url u)
  end
    with "browser cdp_url must be an explicit loopback HTTP endpoint" ;;
  reject (b_StateFile b =s "") || negb (in_range 1 4096 (b_MaxSessions b)) || (b_SessionTTLSeconds b <? 60)
  || negb (in_range 500 10000 (b_PollMS b)) || negb (in_range 1 (2 ^ 20) (b_MaxPromptBytes b))
  || negb (in_range 1 (4 * 2 ^ 20) (b_MaxResponseBytes b))
    with "invalid browser resource limits" ;;
  Ok tt.

Definition preference_names : list string :=
  ["lower_latency"; "existing_subscription"; "lower_cost"; "official_api"; "reverse_source"].
Definition group_types : list string := ["auto"; "select"; "fallback"; "latency"; "load-balance"; "weighted"].

Definition check_preference (g : Group) (seen : gset string) (p : string) : checked (gset string) :=
  reject negb (contains preference_names p) with ("group " ++ g_ID g ++ ": invalid preference") ;;
  reject bool_decide (p ∈ seen) || negb (contains ["auto"; "latency"; "load-balance"] (g_Type g))
    with ("group " ++ g_ID g ++ ": preferences must be unique and require auto, latency or load-balance") ;;
  Ok ({[p]} ∪ seen).

Definition check_group (ids : gset string) (gids : gset string) (g : Group) : checked (gset string) :=
  reject negb (ValidPrice (g_MaxUSDPerMillion g)) || negb (ValidPrice (g_MaxUSDPerRequest g))
    with ("group " ++ g_ID g ++ ": invalid USD budget") ;;
  let? _ := fold_res (check_preference g) ∅ (g_Preferences g) in
  reject negb (in_range 0 8 (g_MaxAttempts g)) with ("group " ++ g_ID g ++ ": max_attempts must be between 0 and 8") ;;
  reject negb (identifier (g_ID g)) || bool_decide (g_ID g ∈ gids) with "invalid or duplicate group id" ;;
  reject negb (contains group_types (g_Type g)) with ("group " ++ g_ID g ++ ": invalid type") ;;
  reject Tier (g_MinTier g) <? 0 with ("group " ++ g_ID g ++ ": invalid min_tier") ;;
  let? _ := fold_res (λ _ id, reject negb (bool_decide (id ∈ ids)) with ("group " ++ g_ID g ++ ": unknown source " ++ id) ;; Ok tt)
  tt (g_Sources g) in
  Ok ({[g_ID g]} ∪ gids).

(** ** [Validate] *)

Definition check_runtime (r : Runtime) : checked unit :=
  reject negb (in_range 1 10000 (rt_MaxInflight r)) || negb (in_range 0 10000 (rt_MaxQueued r))
  || negb (in_range 1 (64 * 2 ^ 20) (rt_MaxBodyBytes r)) || (rt_MaxBufferedBytes r <? rt_MaxBodyBytes r)
  || (2 * 2 ^ 30 <? rt_MaxBufferedBytes r) || (rt_MaxOutputBytes r <? 1) || (rt_QueueTimeoutMS r <? 1)
  || (rt_RequestTimeoutMS r <? 1) || (rt_WriteTimeoutMS r <? 1) || (rt_BodyReadTimeoutMS r <? 1)
    with "invalid runtime resource limits" ;;
  Ok tt.

Definition check_listen (listen : string) : checked unit :=
  match SplitHostPort listen with
  | None => Err "listen must be host:port"
  | Some (host, _) => reject host =s "" with "listen must specify an explicit host" ;; Ok tt
  end.

Definition Validate (c : Config) : checked unit :=
  let? _ := ValidateAccounts c in
  reject negb (c_SchemaVersion c =? 1) with "unsupported schema_version" ;;
  let? _ := check_listen (c_Listen c) in
  let? _ := check_runtime (c_Runtime c) in
  let? st := fold_res (check_source c) start_state (c_Sources c) in
  let? _ := (if (0 <? k_browsers st)%nat then check_browser (c_Browser c) else Ok tt) in
  let? _ := fold_res (check_group (k_ids st)) ∅ (c_Groups c) in
  Ok tt.

End Validate.

(** [Default] *)
Definition Default : Config :=
  {| c_BrowserProfiles := []; c_Providers := []; c_Accounts := []; c_SchemaVersion := 1; c_Listen := "127.0.0.1:8317";
     c_APIKeyEnv := "COT_API_KEY"; c_AdminKeyEnv := "COT_ADMIN_KEY";
     c_Runtime := {| rt_MaxInflight := 128; rt_MaxQueued := 128; rt_MaxBodyBytes := 16 * 2 ^ 20; rt_MaxBufferedBytes := 128 * 2 ^ 20;
       rt_MaxOutputBytes := 64 * 2 ^ 20; rt_QueueTimeoutMS := 5000; rt_RequestTimeoutMS := 300000; rt_WriteTimeoutMS := 15000;
       rt_BodyReadTimeoutMS := 15000 |};
     c_Browser := {| b_ExpectedIdentity := ""; b_Engine := ""; b_Enabled := false; b_CDPURL := "http://127.0.0.1:9222";
       b_StateFile := ".clash-tokens/sessions.json"; b_MaxSessions := 256; b_SessionTTLSeconds := 86400; b_PollMS := 1000;
       b_MaxPromptBytes := 64 * 2 ^ 10; b_MaxResponseBytes := 2 ^ 20 |};
     c_Device := {| d_Enabled := false; d_ADBPath := ""; d_Serial := ""; d_StateDir := ""; d_OCRPath := ""; d_OCRDataDir := "";
       d_ClipboardSyncMS := 0 |};
     c_Sources := [];
     c_Groups := [ {| g_RequireVision := false; g_MaxUSDPerMillion := None; g_MaxUSDPerRequest := None; g_Preferences := [];
       g_MaxAttempts := 0; g_AllowMetered := None; g_AllowSubscription := None; g_AllowUnknownCost := None;
       g_AllowedSourceKinds := []; g_ID := "auto"; g_Type := "auto"; g_Sources := []; g_MinTier := "silver";
       g_AllowUnrated := false; g_AllowPaid := false; g_LocalOnly := false; g_RequireTools := false |} ] |}.

(** A parser for plain [scheme://host[:port]path] texts, for examples. *)
Definition simple_parser : UrlParser := λ s,
  match index_byte (lit s) ":" with
  | Some i =>
      rest ← strip (lit "://") (drop i (lit s));
      let n := default (length rest) (index_byte rest slash) in
      Some {| url_Scheme := str (take i (lit s)); url_Host := str (take n rest); url_User := false; url_Path := str (drop n rest);
              url_RawQuery := ""; url_Fragment := "" |}
  | None => None
  end.

Example default_valid : Validate (H := simple_parser) Default = Ok tt.
Proof. vm_compute. reflexivity. Qed.
