(* ===== verification/ConfigSpec.v ===== *)
(** * What a valid configuration is

    The validation passes as conditions on the configuration alone, without
    the order of the checks or the accumulators, each proved to hold exactly
    when the pass succeeds. *)

From S2P Require Import Prelude ConfigData Json GoText GoNet Providerdef ConfigAccounts ConfigValidate.
Local Open Scope string_scope.
Local Open Scope Z_scope.

Ltac by_guards := intros; autorewrite with guards; tauto.

Definition in_range_spec lo hi z : in_range lo hi z = true ↔ lo <= z <= hi.
Proof. unfold in_range. autorewrite with guards. done. Qed.

#[local] Hint Rewrite in_range_spec : guards.

(** Absent, or one of the listed values. *)
Definition one_of (l : list string) (v : string) : Prop := v = "" ∨ v ∈ l.

(** ** Sources: metadata *)

Definition metadata_ok (s : Source) : Prop :=
  plain_field (s_Organization s) = true ∧ plain_field (s_Project s) = true
  ∧ one_of source_kinds (s_SourceKind s) ∧ one_of ["local"; "remote"] (s_ExecutionLocation s)
  ∧ one_of ["local"; "remote"; "unknown"] (s_InferenceLocation s) ∧ one_of billing_modes (s_BillingMode s)
  ∧ one_of credential_modes (s_CredentialMode s)
  ∧ (s_SourceKind s = "local_model" ↔ s_InferenceLocation s = "local")
  ∧ (s_SourceKind s = "local_model" ↔ s_BillingMode s = "local")
  ∧ (s_SourceKind s = "local_model" → s_Local s = true ∧ s_Adapter s ∈ ["openai"; "anthropic"; "gemini"]).

Lemma allowed_field_ok n v l : allowed_field (n, v, l) = Ok tt ↔ one_of l v.
Proof.
  unfold allowed_field, one_of. destruct (String.eqb_spec v ""); [naive_solver|]. autorewrite with guards. naive_solver.
Qed.

Lemma ValidateMetadata_ok s : ValidateMetadata s = Ok tt ↔ metadata_ok s.
Proof.
  unfold ValidateMetadata, metadata_ok. rewrite !reject_ok, !negb_false_iff, res_bind_ok.
  assert (Hfold : ∀ l k, (∃ a, fold_res (λ _ f, allowed_field f) tt l = Ok a ∧ k = Ok (E := string) tt)
    ↔ Forall (λ f, allowed_field f = Ok tt) l ∧ k = Ok tt).
  { intros l k. rewrite <-fold_res_unit. split; [intros ([] & ? & ?); done|intros []; by exists tt]. }
  rewrite Hfold, !Forall_cons, !allowed_field_ok, !reject_ok, !andb_false_impl, !orb_false_iff, !negb_false_iff, contains_spec.
  destruct (String.eqb_spec (s_SourceKind s) "local_model") as [->|];
    destruct (String.eqb_spec (s_InferenceLocation s) "local") as [->|];
    destruct (String.eqb_spec (s_BillingMode s) "local") as [->|]; destruct (s_Local s); naive_solver.
Qed.

(** ** Browser profiles *)

Section Urls.
Context `{UrlParser}.

(** A loopback HTTP endpoint, or for an external browser its WebSocket. *)
Definition profile_url_ok (p : BrowserProfile) (u : URL) : Prop :=
  ((url_Scheme u = "http" ∧ (url_Path u = "" ∨ url_Path u = "/")) ∨
    (bp_External p = true ∧ bp_Engine p ≠ "firefox" ∧ url_Scheme u = "ws" ∧ devtools_path (url_Path u) = true))
  ∧ (∃ ip, ParseIP (Hostname u) = Some ip ∧ IsLoopback ip = true)
  ∧ 1024 <= atoi_port (Port u) <= 65535 ∧ bare_url u = true.

Definition profile_ok (p : BrowserProfile) : Prop :=
  identifier (bp_ID p) = true ∧ bp_Engine p ∈ BrowserEngines
  ∧ ∃ u, url_Parse (bp_CDPURL p) = Some u ∧ profile_url_ok p u.

Definition profile_port (p : BrowserProfile) : string :=
  match url_Parse (bp_CDPURL p) with Some u => Port u | None => "" end.

Definition profiles_ok (c : Config) : Prop :=
  let engine := b_Engine (c_Browser c) in
  one_of BrowserEngines engine
  ∧ (engine = "firefox" → ∃ u, url_Parse (b_CDPURL (c_Browser c)) = Some u ∧ Port u ≠ "" ∧ (url_Path u = "" ∨ url_Path u = "/"))
  ∧ (length (c_BrowserProfiles c) <= 64)%nat
  ∧ Forall profile_ok (c_BrowserProfiles c)
  ∧ NoDup (map bp_ID (c_BrowserProfiles c)) ∧ NoDup (map profile_port (c_BrowserProfiles c))
  ∧ Forall (λ a, a_BrowserProfileID a = "" ∨ a_BrowserProfileID a ∈ map bp_ID (c_BrowserProfiles c)) (c_Accounts c).

Lemma loopback_ok ip : match ip with Some ip => IsLoopback ip | None => false end = true ↔ ∃ i, ip = Some i ∧ IsLoopback i = true.
Proof. destruct ip; naive_solver. Qed.

Definition profiles_acc (l : list BrowserProfile) : gset string * gset string :=
  (list_to_set (map bp_ID l), list_to_set (map profile_port l)).

Lemma check_profile_ok pre p st :
  check_profile (profiles_acc pre) p = Ok st ↔
  (profile_ok p ∧ bp_ID p ∉ map bp_ID pre ∧ profile_port p ∉ map profile_port pre) ∧ st = profiles_acc (pre ++ [p]).
Proof.
  unfold check_profile, profiles_acc, profile_ok, profile_port, profile_url_ok, containsBrowserEngine.
  assert (Hset : ∀ (f : BrowserProfile → string), list_to_set (map f (pre ++ [p])) = {[f p]} ∪ (list_to_set (map f pre) : gset string)).
  { intros f. rewrite map_app, list_to_set_app_L. simpl. set_solver. }
  rewrite !Hset. destruct (url_Parse (bp_CDPURL p)) as [u|].
  2:{ autorewrite with guards. split; [intros (_ & _ & [=])|]. intros [[(_ & _ & u & [=] & _) _] _]. }
  autorewrite with guards. rewrite !elem_of_list_to_set, loopback_ok.
  destruct (decide (url_Scheme u = "http" ∧ (url_Path u = "" ∨ url_Path u = "/"))) as [Hn|Hn].
  - split; [|naive_solver]. intros ((? & ?) & ? & ((((_ & ?) & ?) & ?) & ?) & ? & ->). naive_solver.
  - split; [|naive_solver]. intros ((? & ?) & ? & ((((Hx & ?) & ?) & ?) & ?) & ? & ->).
    destruct Hx as [[[? ?] ?] ?]; [|naive_solver]. intros ?. split; intros ?; naive_solver.
Qed.

Lemma ValidateBrowserProfiles_ok c : ValidateBrowserProfiles c = Ok tt ↔ profiles_ok c.
Proof.
  unfold ValidateBrowserProfiles, profiles_ok, one_of, containsBrowserEngine. autorewrite with guards.
  rewrite Nat.ltb_ge, res_bind_ok.
  assert (Hloop : ∀ st, fold_res check_profile (∅, ∅) (c_BrowserProfiles c) = Ok st ↔
    (Forall profile_ok (c_BrowserProfiles c) ∧ NoDup (map bp_ID (c_BrowserProfiles c)) ∧ NoDup (map profile_port (c_BrowserProfiles c)))
    ∧ st = profiles_acc (c_BrowserProfiles c)).
  { intros st. change (∅, ∅) with (profiles_acc []).
    rewrite (fold_res_positions _ (λ pre p, profile_ok p ∧ bp_ID p ∉ map bp_ID pre ∧ profile_port p ∉ map profile_port pre)).
    2:{ intros. apply check_profile_ok. }
    by rewrite !positions_and, positions_forall, !positions_nodup. }
  setoid_rewrite Hloop. setoid_rewrite fold_res_unit.
  assert (Hacc : ∀ st, st = profiles_acc (c_BrowserProfiles c) → ∀ a,
    check_account_profile (fst st) a = Ok tt ↔ a_BrowserProfileID a = "" ∨ a_BrowserProfileID a ∈ map bp_ID (c_BrowserProfiles c)).
  { intros st -> a. unfold check_account_profile. autorewrite with guards. simpl. rewrite elem_of_list_to_set.
    destruct (decide (a_BrowserProfileID a = "")); naive_solver. }
  assert (Hff : b_Engine (c_Browser c) =s "firefox" = true ∨ b_Engine (c_Browser c) ≠ "firefox").
  { destruct (String.eqb_spec (b_Engine (c_Browser c)) "firefox"); auto. }
  split.
  - intros (He & Hf & Hlen & st & [[H1 [H2 H3]] Est] & Ha). split_and!; try done.
    + destruct (decide (b_Engine (c_Browser c) = "")); [by left|right; naive_solver].
    + intros E. specialize (Hf E). destruct (url_Parse _) as [u|]; [|done]. exists u. autorewrite with guards in Hf.
      destruct (decide (url_Path u = "")); naive_solver.
    + eapply Forall_impl; [exact Ha|]. intros a. by apply Hacc.
  - intros (He & Hf & Hlen & H1 & H2 & H3 & Ha). split_and!; try done.
    + naive_solver.
    + intros E. destruct (Hf E) as (u & -> & ? & ?). autorewrite with guards. naive_solver.
    + exists (profiles_acc (c_BrowserProfiles c)). split; [done|]. eapply Forall_impl; [exact Ha|]. intros a. by apply Hacc.
Qed.

(** ** Accounts *)

(** A base URL with a host and nothing else to it, over HTTPS unless it is the
    machine itself. *)
Definition endpoint_ok (url : string) (u : URL) : Prop :=
  url_Parse url = Some u ∧ url_Host u ≠ "" ∧ bare_url u = true ∧ secure_scheme u = true.

Definition account_ok (providers : list Provider) (a : Account) : Prop :=
  a_VerificationState a ∈ verification_states ∧ identifier (a_ID a) = true ∧ a_ProviderID a ∈ map p_ID providers
  ∧ ValidCredentialRef (a_CredentialRef a) = true ∧ ValidCredentialRef (a_LoginCredentialRef a) = true
  ∧ plain_field (a_Organization a) = true ∧ plain_field (a_Project a) = true ∧ plain_field (a_ExpectedIdentity a) = true
  ∧ (a_BaseURL a = "" ∨ ∃ u, endpoint_ok (a_BaseURL a) u)
  ∧ 1 <= a_MaxInflight a <= 10000 ∧ 1 <= a_Weight a <= 10000 ∧ identifier (a_QuotaDomain a) = true.

(** A source agrees with the account it is bound to. *)
Definition bound_ok (accounts : list Account) (s : Source) : Prop :=
  ValidCredentialRef (s_CredentialRef s) = true
  ∧ (s_AccountID s = "" ∨ ∃ a, a ∈ accounts ∧ a_ID a = s_AccountID s ∧ a_ProviderID a = s_Provider s
    ∧ s_QuotaDomain s = a_QuotaDomain a
    ∧ (s_CredentialRef s = "" ∨ a_CredentialRef a = "" ∨ s_CredentialRef s = a_CredentialRef a)).

Definition accounts_ok (c : Config) : Prop :=
  profiles_ok c
  ∧ Forall (λ p, identifier (p_ID p) = true ∧ p_PoolStrategy p ∈ pool_strategies) (c_Providers c)
  ∧ NoDup (map p_ID (c_Providers c))
  ∧ Forall (account_ok (c_Providers c)) (c_Accounts c) ∧ NoDup (map a_ID (c_Accounts c))
  ∧ Forall (bound_ok (c_Accounts c)) (c_Sources c).

Lemma validateAccountMetadata_ok a :
  validateAccountMetadata a = Ok tt ↔
  plain_field (a_Organization a) = true ∧ plain_field (a_Project a) = true ∧ plain_field (a_ExpectedIdentity a) = true
  ∧ (a_BaseURL a = "" ∨ ∃ u, endpoint_ok (a_BaseURL a) u).
Proof.
  unfold validateAccountMetadata, endpoint_ok. rewrite !reject_ok, !negb_false_iff.
  destruct (String.eqb_spec (a_BaseURL a) "") as [->|Hne]; [naive_solver|].
  destruct (url_Parse (a_BaseURL a)) as [u|]; [|naive_solver]. autorewrite with guards. naive_solver.
Qed.

Lemma list_to_set_snoc {A} (f : A → string) l x :
  list_to_set (map f (l ++ [x])) = {[f x]} ∪ (list_to_set (map f l) : gset string).
Proof. rewrite map_app, list_to_set_app_L. simpl. set_solver. Qed.

Lemma providers_loop l st :
  fold_res check_provider ∅ l = Ok st ↔
  (Forall (λ p, identifier (p_ID p) = true ∧ p_PoolStrategy p ∈ pool_strategies) l ∧ NoDup (map p_ID l))
  ∧ st = list_to_set (map p_ID l).
Proof.
  etransitivity; [apply (fold_res_positions check_provider
    (λ pre p, (identifier (p_ID p) = true ∧ p_PoolStrategy p ∈ pool_strategies) ∧ p_ID p ∉ map p_ID pre)
    (λ l, list_to_set (map p_ID l)))|by rewrite positions_and, positions_forall, positions_nodup].
  - intros pre p post st' _ _. unfold check_provider. rewrite list_to_set_snoc. autorewrite with guards.
    rewrite elem_of_list_to_set. tauto.
Qed.

(** The map of the accounts passed. *)
Definition accounts_acc (l : list Account) : gmap string Account := fold_left (λ m a, <[a_ID a := a]> m) l ∅.

Lemma accounts_acc_some l id : is_Some (accounts_acc l !! id) ↔ id ∈ map a_ID l.
Proof.
  unfold accounts_acc. induction l as [|a l IH] using rev_ind; [split; [intros [? [=]]|by intros ?%not_elem_of_nil]|].
  rewrite fold_left_app, map_app, elem_of_app, <-IH. simpl. rewrite lookup_insert_is_Some', list_elem_of_singleton. naive_solver.
Qed.

Lemma accounts_acc_lookup l id a : accounts_acc l !! id = Some a → a ∈ l ∧ a_ID a = id.
Proof.
  unfold accounts_acc. induction l as [|x l IH] using rev_ind; [done|]. rewrite fold_left_app. simpl.
  rewrite elem_of_app, list_elem_of_singleton. intros [[<- <-]|[_ H1]]%lookup_insert_Some; [auto|]. apply IH in H1. naive_solver.
Qed.

Lemma accounts_acc_unique l a : NoDup (map a_ID l) → a ∈ l → accounts_acc l !! a_ID a = Some a.
Proof.
  intros Hnd Ha. destruct (proj2 (accounts_acc_some l (a_ID a))) as [b Hb].
  { apply list_elem_of_fmap. eauto. }
  destruct (accounts_acc_lookup _ _ _ Hb) as [Hin Heq]. rewrite Hb. f_equal.
  apply list_elem_of_lookup in Hin as [i Hi]. apply list_elem_of_lookup in Ha as [j Hj].
  assert (i = j); [|congruence]. eapply NoDup_lookup; [exact Hnd|..]; rewrite list_lookup_fmap; [by rewrite Hi|rewrite Hj; simpl; congruence].
Qed.

Lemma accounts_loop ps l st :
  fold_res (check_account (list_to_set (map p_ID ps))) ∅ l = Ok st ↔
  (Forall (account_ok ps) l ∧ NoDup (map a_ID l)) ∧ st = accounts_acc l.
Proof.
  etransitivity; [apply (fold_res_positions _ (λ pre a, account_ok ps a ∧ a_ID a ∉ map a_ID pre) accounts_acc)
    |by rewrite positions_and, positions_forall, positions_nodup].
  - intros pre a post st' _ Hpre. unfold check_account, account_ok.
    assert (Hacc : accounts_acc (pre ++ [a]) = <[a_ID a := a]> (accounts_acc pre)) by (unfold accounts_acc; by rewrite fold_left_app).
    assert (Hdup : (a_ID (default zero_Account (accounts_acc pre !! a_ID a)) =s "") = true ↔ a_ID a ∉ map a_ID pre).
    { rewrite String.eqb_eq, <-accounts_acc_some. destruct (accounts_acc pre !! a_ID a) as [b|] eqn:Eb; simpl; [|naive_solver].
      apply accounts_acc_lookup in Eb as [Hb _]. apply list_elem_of_split in Hb as (p1 & p2 & ->).
      destruct (Hpre p1 b p2 eq_refl) as [(_ & Hid & _) _]. apply identifier_nonempty in Hid. naive_solver. }
    rewrite reject_ok, reject_ok, reject_ok, reject_ok, res_bind_ok, orb_false_iff, !negb_false_iff, Hdup, orb_false_iff, !negb_false_iff.
    rewrite Hacc. autorewrite with guards. rewrite elem_of_list_to_set. split.
    + intros (? & ? & ? & ? & [] & [? [? [? ?]]]%validateAccountMetadata_ok & Hk). autorewrite with guards in Hk. tauto.
    + intros [[(? & ? & ? & ? & ? & ? & ? & ? & ? & ? & ? & ?) ?] ->]. split_and!; try done. exists tt.
      split; [by apply validateAccountMetadata_ok|]. autorewrite with guards. tauto.
Qed.

Lemma bound_loop l s : NoDup (map a_ID l) → check_source_account (accounts_acc l) s = Ok tt ↔ bound_ok l s.
Proof.
  intros Hnd. unfold check_source_account, bound_ok. rewrite reject_ok, negb_false_iff.
  destruct (String.eqb_spec (s_AccountID s) "") as [->|Hne]; [naive_solver|].
  assert (Hcred : ∀ x y : string, (x ≠ "" ∧ y ≠ "" → x = y) ↔ (x = "" ∨ y = "" ∨ x = y)).
  { intros x y. destruct (decide (x = "")); [naive_solver|]. destruct (decide (y = "")); naive_solver. }
  destruct (accounts_acc l !! s_AccountID s) as [a|] eqn:Ea.
  - apply accounts_acc_lookup in Ea as Ha. destruct Ha as [Ha Hid]. autorewrite with guards.
    setoid_rewrite <-Hcred. split; [intros (? & ? & ? & ? & _)|intros (? & [?|(a' & Ha' & Hid' & ? & ? & ?)])].
    + split; [done|]. right. exists a. split_and!; naive_solver.
    + done.
    + assert (a' = a) as ->. { apply (accounts_acc_unique l) in Ha'; [|done]. rewrite Hid', Ea in Ha'. naive_solver. }
      split_and!; naive_solver.
  - split; [naive_solver|]. intros (_ & [?|(a & Ha & Hid & _)]); [done|]. exfalso.
    apply (accounts_acc_unique l) in Ha; [|done]. rewrite Hid in Ha. congruence.
Qed.

Lemma ValidateAccounts_ok c : ValidateAccounts c = Ok tt ↔ accounts_ok c.
Proof.
  unfold ValidateAccounts, accounts_ok. rewrite res_bind_ok. split.
  - intros ([] & Hp%ValidateBrowserProfiles_ok & Hk).
    apply res_bind_ok in Hk as (ps & [[H1 H2] ->]%providers_loop & Hk).
    apply res_bind_ok in Hk as (accs & [[H3 H4] ->]%accounts_loop & Hk%fold_res_unit).
    split_and!; try done. eapply Forall_impl; [exact Hk|]. intros s. by apply bound_loop.
  - intros (Hp & H1 & H2 & H3 & H4 & H5). exists tt. split; [by apply ValidateBrowserProfiles_ok|].
    apply res_bind_ok. eexists. split; [by apply providers_loop|].
    apply res_bind_ok. eexists. split; [by apply accounts_loop|].
    apply fold_res_unit. eapply Forall_impl; [exact H5|]. intros s. by apply bound_loop.
Qed.

End Urls.
