(* ===== verification/ValidateSpec.v ===== *)
(** * The meaning of [Config.Validate]

    [Validate] accepts exactly the valid configurations: every condition of
    the check, freed from the order of the loop and its accumulators. *)

From S2P Require Import Prelude GoFloat ConfigData Json GoText GoNet Providerdef ConfigAccounts ConfigValidate ConfigSpec.
Local Open Scope string_scope.
Local Open Scope Z_scope.
#[local] Hint Rewrite in_range_spec : guards.
#[local] Opaque Lookup Supports.

(** Booleans as conditions: case analysis on the comparisons of a guard. *)
Ltac eqb_cases :=
  repeat match goal with
  | |- context [String.eqb ?a ?b] => destruct (String.eqb_spec a b)
  end.

(** Evaluate the tests on literals. *)
Lemma true_impl (P : Prop) : (true = true → P) ↔ P.
Proof. tauto. Qed.
Lemma false_impl (P : Prop) : (false = true → P) ↔ True.
Proof. split; [done|by intros _ ?]. Qed.
Ltac closed_tests :=
  repeat match goal with
  | |- context [contains ?l (String ?a ?v)] => let b := eval vm_compute in (contains l (String a v)) in change (contains l (String a v)) with b
  | |- context [String.eqb (String ?a ?u) ?v] => let b := eval vm_compute in (String.eqb (String a u) v) in change (String.eqb (String a u) v) with b
  end; cbn iota; rewrite ?true_impl, ?false_impl.

(** ** Models *)

Definition model_ok (s : Source) (d : Descriptor) (m : Model) : Prop :=
  m_ID m ≠ "" ∧ slen (m_ID m) <= 256 ∧ has_prefix (m_ID m) "auto" = false
  ∧ m_Upstream m ≠ "" ∧ slen (m_Upstream m) <= 1024 ∧ has_reserved (m_Upstream m) = false
  ∧ ValidPrice (m_InputUSDPerMillion m) = true ∧ ValidPrice (m_OutputUSDPerMillion m) = true
  ∧ (m_Tier m = "unrated" ∨ 0 <= Tier (m_Tier m) ∧ m_RatingBasis m ≠ "")
  ∧ 1 <= m_MaxInputBytes m ∧ m_Protocols m ≠ [] ∧ m_Tools m ∈ tool_modes
  ∧ (ds_TextOnly d = true → m_Tools m = "none" ∧ m_Vision m = false)
  ∧ (ds_ToolsAllowed d = false → m_Tools m = "none")
  ∧ Forall (λ p, Supports (s_Adapter s) p = true) (m_Protocols m).

Lemma check_protocols_ok s l : fold_res (λ _ p, check_protocol s p) tt l = Ok tt ↔ Forall (λ p, Supports (s_Adapter s) p = true) l.
Proof.
  rewrite fold_res_unit. apply Forall_iff. intros p. unfold check_protocol. rewrite reject_ok, negb_false_iff.
  split; [intros [H _]; exact H|intros H; exact (conj H eq_refl)].
Qed.

Lemma check_model_ok s d pre m st :
  check_model s d (list_to_set (map m_ID pre)) m = Ok st ↔
  (model_ok s d m ∧ m_ID m ∉ map m_ID pre) ∧ st = list_to_set (map m_ID (pre ++ [m])).
Proof.
  unfold check_model, model_ok. rewrite list_to_set_snoc, !reject_ok, res_bind_ok.
  assert (Hp : (∃ a, fold_res (λ _ p, check_protocol s p) tt (m_Protocols m) = Ok a ∧ Ok (E := string) ({[m_ID m]} ∪ list_to_set (map m_ID pre)) = Ok st)
    ↔ Forall (λ p, Supports (s_Adapter s) p = true) (m_Protocols m) ∧ st = {[m_ID m]} ∪ list_to_set (map m_ID pre)).
  { rewrite <-check_protocols_ok. split; [intros ([] & ? & [= <-]); done|intros [? ->]; by exists tt]. }
  rewrite Hp. clear Hp. autorewrite with guards. rewrite elem_of_list_to_set.
  destruct (decide (m_Tier m = "unrated")); naive_solver.
Qed.

Lemma check_models_ok s d l st :
  fold_res (check_model s d) ∅ l = Ok st ↔ (Forall (model_ok s d) l ∧ NoDup (map m_ID l)) ∧ st = list_to_set (map m_ID l).
Proof.
  etransitivity; [apply (fold_res_positions _ (λ pre m, model_ok s d m ∧ m_ID m ∉ map m_ID pre) (λ l, list_to_set (map m_ID l)))
    |by rewrite positions_and, positions_forall, positions_nodup].
  intros pre m post st' _ _. apply check_model_ok.
Qed.

(** ** Sources *)

(** The adapters that need an enabled browser, those of them that take one
    request at a time, and those whose presence the browser's settings are
    checked for. *)
Definition browser_backed : list string :=
  ["chatgpt-web"; "doubao"; "gemini-web"; "gigachat-web"; "cloudflare-playground"; "aistudio-build"].
Definition exclusive : list string := ["chatgpt-web"; "gemini-web"; "gigachat-web"; "aistudio-build"].
Definition counted : list string := ["chatgpt-web"; "doubao"; "gemini-web"; "gigachat-web"; "aistudio-build"].

Section Urls.
Context `{UrlParser}.

Definition browser_adapter_ok (c : Config) (s : Source) : Prop :=
  (s_Adapter s ∈ browser_backed → s_Enabled s = true → b_Enabled (SourceBrowser c s) = true)
  ∧ (s_Adapter s ∈ exclusive → s_MaxInflight s = 1 ∧ s_QuotaMaxInflight s = 1)
  ∧ (s_Adapter s = "cloudflare-playground" →
    trim_right_slashes (s_BaseURL s) = "https://playground.ai.cloudflare.com" ∧ s_MaxInflight s = 1).

(** An app on a physical device. *)
Definition device_ok (c : Config) (s : Source) : Prop :=
  device_model (s_Provider s) ≠ "" ∧ s_BaseURL s = "adb://current-app-session" ∧ s_Local s = false ∧ s_AutoApproved s = false
  ∧ s_Anonymous s = true ∧ s_KeyEnv s = "" ∧ s_MaxInflight s = 1 ∧ s_QuotaMaxInflight s = 1 ∧ s_QuotaDomain s = "android-device"
  ∧ (s_Enabled s = true →
    let d := c_Device c in
    d_Enabled d = true ∧ IsAbs (d_ADBPath d) = true ∧ IsAbs (d_OCRPath d) = true ∧ IsAbs (d_StateDir d) = true
    ∧ d_Serial d ≠ "" ∧ has_control (d_Serial d) = false ∧ 200 <= d_ClipboardSyncMS d <= 5000
    ∧ s_Project s = "current-app-session")
  ∧ Forall (λ m, m_Upstream m = device_model (s_Provider s)) (s_Models s).

Definition project_ok (c : Config) (s : Source) : Prop :=
  (s_Adapter s = "gemini-cli" ∨ s_Adapter s = "antigravity" → s_Project s ≠ "")
  ∧ (s_Adapter s = "weread-ai" → TrimSpace (s_Project s) ≠ "")
  ∧ (s_Adapter s = "app-device" → device_ok c s).

(** Where a source's requests go. *)
Definition base_url_ok (s : Source) : Prop :=
  if s_Adapter s =s "app-device" then True
  else if s_Adapter s =s "devin-cli" then s_BaseURL s = "devin://acp/stdio" ∧ s_Local s = true
  else if s_Adapter s =s "zcode" then s_BaseURL s = "zcode://app-server/stdio" ∧ s_Local s = true
  else ∃ u, endpoint_ok (s_BaseURL s) u ∧ (s_Local s = true → loopback_host (Hostname u) = true).

Definition source_ok (c : Config) (s : Source) : Prop :=
  0 <= s_Weight s <= 10000 ∧ metadata_ok s ∧ identifier (s_ID s) = true
  ∧ browser_adapter_ok c s ∧ project_ok c s ∧ base_url_ok s
  ∧ (s_Local s = true ∨ s_Anonymous s = true ∨ s_KeyEnv s ≠ "" ∨ SourceCredentialRef c s ≠ "" ∨ s_Adapter s ∈ keyless_adapters)
  ∧ 1 <= s_MaxInflight s <= 10000 ∧ s_QuotaDomain s ≠ "" ∧ 1 <= s_QuotaMaxInflight s <= 10000
  ∧ s_Models s ≠ [] ∧ NoDup (map m_ID (s_Models s))
  ∧ ∃ d, Lookup (s_Adapter s) = (d, true) ∧ Forall (model_ok s d) (s_Models s).

Definition endpoints (c : Config) (l : list Source) : list string :=
  map (λ s, b_CDPURL (SourceBrowser c s)) (List.filter (λ s, s_Adapter s =s "chatgpt-web") (map (EffectiveSource c) l)).

Lemma check_browser_adapter_ok c s (seen : gset string) r :
  check_browser_adapter c s seen = Ok r ↔
  (browser_adapter_ok c s ∧ (s_Adapter s = "chatgpt-web" → b_CDPURL (SourceBrowser c s) ∉ seen))
  ∧ r = (if s_Adapter s =s "chatgpt-web" then {[b_CDPURL (SourceBrowser c s)]} ∪ seen else seen,
    if contains counted (s_Adapter s) then 1%nat else 0%nat).
Proof.
  unfold check_browser_adapter, browser_adapter_ok. rewrite <-!contains_spec, <-!String.eqb_eq.
  destruct (contains browser_backed (s_Adapter s)) eqn:Hb.
  - apply contains_spec in Hb. unfold browser_backed in Hb. rewrite !elem_of_cons in Hb.
    destruct Hb as [-> | [-> | [-> | [-> | [-> | [-> | []%not_elem_of_nil]]]]]]; closed_tests.
    all: autorewrite with guards; destruct (decide (s_Enabled s = true)) as [He|He]; rewrite ?He; tauto.
  - assert (Hno : ∀ x, x ∈ browser_backed → (s_Adapter s =s x) = false).
    { intros x Hx. apply String.eqb_neq. intros <-. by apply contains_false in Hb. }
    assert (Hsub : ∀ l, forallb (contains browser_backed) l = true → contains l (s_Adapter s) = false).
    { intros l Hl. apply contains_false. intros Hin%list_elem_of_In. rewrite forallb_forall in Hl. apply Hl in Hin. congruence. }
    rewrite !Hno by (apply contains_spec; reflexivity). rewrite !Hsub by reflexivity. closed_tests. rewrite ok_inj. tauto.
Qed.

Lemma check_device_ok c s : check_device c s = Ok tt ↔ device_ok c s.
Proof.
  unfold check_device, device_ok. rewrite !reject_ok, fold_res_unit.
  assert (Hm : Forall (λ m, (reject negb (m_Upstream m =s device_model (s_Provider s)) with about_source s "unknown device model selector" ;; Ok tt) = Ok tt) (s_Models s)
    ↔ Forall (λ m, m_Upstream m = device_model (s_Provider s)) (s_Models s)).
  { rewrite !Forall_forall. split; intros Hall m Hm; specialize (Hall m Hm); autorewrite with guards in *; tauto. }
  rewrite Hm. autorewrite with guards. tauto.
Qed.

Lemma check_project_ok c s : check_project c s = Ok tt ↔ project_ok c s.
Proof.
  unfold check_project, project_ok. autorewrite with guards.
  destruct (String.eqb_spec (s_Adapter s) "app-device") as [->|Hne]; [rewrite check_device_ok|]; naive_solver.
Qed.

Lemma check_base_url_ok s : check_base_url s = Ok tt ↔ base_url_ok s.
Proof.
  unfold check_base_url, base_url_ok, endpoint_ok. destruct (s_Adapter s =s "app-device"); [done|].
  destruct (s_Adapter s =s "devin-cli"); [autorewrite with guards; tauto|].
  destruct (s_Adapter s =s "zcode"); [autorewrite with guards; tauto|].
  destruct (url_Parse (s_BaseURL s)) as [u|]; [|naive_solver]. autorewrite with guards. split; [naive_solver|].
  intros (u' & ([= <-] & ? & ? & ?) & ?). naive_solver.
Qed.

Lemma effective_same c s :
  let e := EffectiveSource c s in
  s_ID e = s_ID s ∧ s_QuotaDomain e = s_QuotaDomain s ∧ s_QuotaMaxInflight e = s_QuotaMaxInflight s
  ∧ s_Adapter e = s_Adapter s ∧ s_Models e = s_Models s ∧ s_MaxInflight e = s_MaxInflight s.
Proof. unfold EffectiveSource. destruct (s_AccountID s =s ""); [done|]. by destruct (account_of c (s_AccountID s)). Qed.

(** The sources agree on the limit of a quota domain. *)
Definition agrees (s s' : Source) : Prop := s_QuotaDomain s' = s_QuotaDomain s → s_QuotaMaxInflight s' = s_QuotaMaxInflight s.

Definition domains_acc (l : list Source) : gmap string Z := fold_left (λ m s, <[s_QuotaDomain s := s_QuotaMaxInflight s]> m) l ∅.

Lemma domains_acc_lookup l d n : domains_acc l !! d = Some n → ∃ s, s ∈ l ∧ s_QuotaDomain s = d ∧ s_QuotaMaxInflight s = n.
Proof.
  unfold domains_acc. induction l as [|s l IH] using rev_ind; [done|]. rewrite fold_left_app. simpl.
  intros [[<- <-]|[_ H1]]%lookup_insert_Some; [exists s|destruct (IH H1) as (x & ? & ? & ?); exists x]; set_solver.
Qed.

Lemma domains_acc_some l s : s ∈ l → is_Some (domains_acc l !! s_QuotaDomain s).
Proof.
  unfold domains_acc. induction l as [|x l IH] using rev_ind; [by intros ?%not_elem_of_nil|]. rewrite fold_left_app. simpl.
  rewrite elem_of_app, list_elem_of_singleton, lookup_insert_is_Some'. naive_solver.
Qed.

(** Agreement with the last limit recorded is agreement with all. *)
Lemma domains_acc_agree l s :
  (∀ pre x post, l = (pre ++ x :: post)%list → Forall (agrees x) pre) →
  (match domains_acc l !! s_QuotaDomain s with Some n => negb (n =? s_QuotaMaxInflight s) | None => false end) = false
  ↔ Forall (agrees s) l.
Proof.
  intros Hl. assert (Hall : ∀ x y, x ∈ l → y ∈ l → s_QuotaDomain x = s_QuotaDomain y → s_QuotaMaxInflight x = s_QuotaMaxInflight y).
  { intros x y Hx Hy Heq. apply list_elem_of_lookup in Hx as [i Hi]. apply list_elem_of_lookup in Hy as [j Hj].
    assert (Hlt : ∀ i j x y, (i < j)%nat → l !! i = Some x → l !! j = Some y → agrees y x).
    { intros i' j' x' y' Hij Hi' Hj'. apply take_drop_middle in Hj'. symmetry in Hj'. specialize (Hl _ _ _ Hj').
      rewrite Forall_forall in Hl. apply Hl. apply list_elem_of_lookup. exists i'. rewrite lookup_take_lt; done. }
    destruct (Nat.lt_trichotomy i j) as [Hij|[->|Hij]]; [|congruence|].
    - by apply (Hlt i j x y).
    - symmetry. by apply (Hlt j i y x). }
  rewrite Forall_forall. unfold agrees. destruct (domains_acc l !! s_QuotaDomain s) as [n|] eqn:E.
  - destruct (domains_acc_lookup _ _ _ E) as (x & Hx & Hd & <-). rewrite negb_false_iff, Z.eqb_eq. split; [|naive_solver].
    intros Hn y Hy Hyd. rewrite <-Hn. apply Hall; [done..|congruence].
  - split; [|done]. intros _ x Hx Hd. destruct (domains_acc_some l x Hx) as [n Hn]. congruence.
Qed.

Definition state_acc (c : Config) (l : list Source) : check_state :=
  {| k_ids := list_to_set (map s_ID l); k_domains := domains_acc l; k_profiles := list_to_set (endpoints c l);
    k_browsers := length (List.filter (λ s, contains counted (s_Adapter s)) l) |}.

Definition new_endpoint (c : Config) (pre : list Source) (s : Source) : Prop :=
  s_Adapter s = "chatgpt-web" → b_CDPURL (SourceBrowser c (EffectiveSource c s)) ∉ endpoints c pre.

Lemma endpoints_snoc c l s :
  endpoints c (l ++ [s])%list = (endpoints c l ++ if s_Adapter s =s "chatgpt-web" then [b_CDPURL (SourceBrowser c (EffectiveSource c s))] else [])%list.
Proof.
  unfold endpoints. rewrite map_app, List.filter_app, map_app. f_equal. simpl.
  destruct (effective_same c s) as (_ & _ & _ & -> & _). by destruct (_ =s _).
Qed.

Lemma state_acc_snoc c l s :
  state_acc c (l ++ [s])%list =
  {| k_ids := {[s_ID s]} ∪ list_to_set (map s_ID l); k_domains := <[s_QuotaDomain s := s_QuotaMaxInflight s]> (domains_acc l);
    k_profiles := if s_Adapter s =s "chatgpt-web" then {[b_CDPURL (SourceBrowser c (EffectiveSource c s))]} ∪ list_to_set (endpoints c l)
    else list_to_set (endpoints c l);
    k_browsers := length (List.filter (λ s, contains counted (s_Adapter s)) l) + (if contains counted (s_Adapter s) then 1 else 0) |}.
Proof.
  unfold state_acc. rewrite list_to_set_snoc, endpoints_snoc, List.filter_app, length_app. unfold domains_acc. rewrite fold_left_app.
  cbn [fold_left List.filter]. f_equal.
  - destruct (_ =s _); [rewrite list_to_set_app_L; simpl; set_solver|by rewrite app_nil_r].
  - by destruct (contains counted (s_Adapter s)).
Qed.

Lemma check_source_ok c pre s st :
  (∀ p x post, pre = (p ++ x :: post)%list → Forall (agrees x) p) →
  check_source c (state_acc c pre) s = Ok st ↔
  ((source_ok c (EffectiveSource c s) ∧ s_ID s ∉ map s_ID pre ∧ new_endpoint c pre s) ∧ Forall (agrees s) pre)
  ∧ st = state_acc c (pre ++ [s])%list.
Proof.
  intros Hpre. rewrite state_acc_snoc, <-(domains_acc_agree pre s Hpre). unfold check_source, source_ok, new_endpoint.
  destruct (effective_same c s) as (Eid & Eqd & Eqm & Ead & Emo & Emi). set (e := EffectiveSource c s) in *.
  cbn [state_acc k_ids k_domains k_profiles k_browsers].
  assert (Hmeta : (match ValidateMetadata e with Ok _ => Ok tt | Err x => Err (about_source e x) end) = Ok tt ↔ metadata_ok e).
  { rewrite <-ValidateMetadata_ok. destruct (ValidateMetadata e) as [[]|]; naive_solver. }
  destruct (Lookup (s_Adapter e)) as [d known] eqn:Ed. rewrite <-Eid, <-Eqd, <-Eqm, <-Ead. split.
  - intros Hk. guards Hk. destruct a. apply Hmeta in Hm. apply check_browser_adapter_ok in Hm0 as [[Hb Hnew] ->]. destruct a1, a2.
    apply check_project_ok in Hm1. apply check_base_url_ok in Hm2. apply check_models_ok in Hm3 as [[Hm3 Hm4] _].
    apply ok_inj in Hk as ->. autorewrite with guards in *. rewrite !elem_of_list_to_set in *.
    assert (known = true) as -> by tauto.
    split; [|done]. split; [|done]. split_and!; try tauto.
    + destruct (s_Local e), (s_Anonymous e); try tauto. destruct (decide (s_KeyEnv e = "")); [|tauto].
      destruct (decide (SourceCredentialRef c e = "")); tauto.
    + eauto.
  - intros [[((Hw & Hmd & Hid & Hb & Hpj & Hbu & Hkey & Hmi & Hqd & Hqm & Hmod & Hnd & d' & [= <- ->] & Hms) & Hdup & Hnew) Hag] ->].
    rewrite reject_ok. split; [autorewrite with guards; lia|]. apply res_bind_ok. exists tt. split; [by apply Hmeta|].
    rewrite reject_ok. split; [autorewrite with guards; rewrite elem_of_list_to_set; exact (conj Hid Hdup)|]. cbn [negb].
    apply res_bind_ok. eexists. split; [apply check_browser_adapter_ok; split; [split; [done|]|reflexivity]; by rewrite elem_of_list_to_set|].
    apply res_bind_ok. exists tt. split; [by apply check_project_ok|]. apply res_bind_ok. exists tt. split; [by apply check_base_url_ok|].
    rewrite reject_ok. split.
    { autorewrite with guards. intros [[[? ?] ?] ?]. destruct Hkey as [?|[?|[?|[?|?]]]]; congruence || tauto. }
    rewrite reject_ok. split; [autorewrite with guards; tauto|]. rewrite reject_ok. split; [autorewrite with guards; tauto|].
    rewrite reject_ok. split; [exact Hag|]. apply res_bind_ok. eexists. split; [apply check_models_ok; exact (conj (conj Hms Hnd) eq_refl)|]. reflexivity.
Qed.

(** The quota limits agree when any two sources of one domain do. *)
Lemma agrees_positions l :
  (∀ pre x post, l = (pre ++ x :: post)%list → Forall (agrees x) pre)
  ↔ ∀ x y, x ∈ l → y ∈ l → s_QuotaDomain x = s_QuotaDomain y → s_QuotaMaxInflight x = s_QuotaMaxInflight y.
Proof.
  split; [|intros H' pre x post ->; apply Forall_forall; intros y Hy Hd; apply H'; set_solver].
  intros Hl x y Hx Hy Heq. apply list_elem_of_split in Hx as (p1 & p2 & ->).
  rewrite elem_of_app, elem_of_cons in Hy. destruct Hy as [Hy|[->|Hy]]; [|done|].
  - specialize (Hl p1 x p2 eq_refl). rewrite Forall_forall in Hl. by rewrite (Hl y Hy).
  - apply list_elem_of_split in Hy as (q1 & q2 & ->). specialize (Hl (p1 ++ x :: q1)%list y q2).
    rewrite <-app_assoc in Hl. specialize (Hl eq_refl). rewrite Forall_forall in Hl. apply Hl; [|done]. set_solver.
Qed.

Lemma endpoints_positions c l :
  (∀ pre s post, l = (pre ++ s :: post)%list → new_endpoint c pre s) ↔ NoDup (endpoints c l).
Proof.
  induction l as [|x l IH] using rev_ind; [split; [constructor|by intros _ []]|].
  rewrite endpoints_snoc, NoDup_app, <-IH. split.
  - intros H0. split_and!.
    + intros pre s post ->. apply (H0 pre s (post ++ [x])%list). by rewrite <-app_assoc.
    + intros k Hk. specialize (H0 l x [] eq_refl). unfold new_endpoint in H0.
      destruct (String.eqb_spec (s_Adapter x) "chatgpt-web"); [|set_solver]. intros ->%list_elem_of_singleton. by apply H0.
    + destruct (_ =s _); [apply NoDup_singleton|constructor].
  - intros (H1 & H2 & _) pre s post Heq. destruct post as [|b post _] using rev_ind.
    + apply app_inj_tail in Heq as [-> ->]. intros Ha Hin. apply (H2 _ Hin). rewrite Ha. simpl. set_solver.
    + rewrite app_comm_cons, app_assoc in Heq. apply app_inj_tail in Heq as [-> _]. by eapply H1.
Qed.

Lemma sources_loop c l st :
  fold_res (check_source c) start_state l = Ok st ↔
  (Forall (λ s, source_ok c (EffectiveSource c s)) l ∧ NoDup (map s_ID l) ∧ NoDup (endpoints c l)
    ∧ (∀ x y, x ∈ l → y ∈ l → s_QuotaDomain x = s_QuotaDomain y → s_QuotaMaxInflight x = s_QuotaMaxInflight y))
  ∧ st = state_acc c l.
Proof.
  etransitivity; [apply (fold_res_positions _
    (λ pre s, (source_ok c (EffectiveSource c s) ∧ s_ID s ∉ map s_ID pre ∧ new_endpoint c pre s) ∧ Forall (agrees s) pre) (state_acc c))|].
  - intros pre s post st' _ Hpre. apply check_source_ok. intros p x q ->. by destruct (Hpre p x q eq_refl).
  - rewrite positions_and, agrees_positions, !positions_and, positions_forall, positions_nodup, endpoints_positions. tauto.
Qed.

(** ** The browser, the groups and the rest *)

Definition browser_ok (b : Browser) : Prop :=
  (∃ u ip, url_Parse (b_CDPURL b) = Some u ∧ url_Scheme u = "http" ∧ ParseIP (Hostname u) = Some ip ∧ IsLoopback ip = true
    ∧ bare_url u = true)
  ∧ b_StateFile b ≠ "" ∧ 1 <= b_MaxSessions b <= 4096 ∧ 60 <= b_SessionTTLSeconds b ∧ 500 <= b_PollMS b <= 10000
  ∧ 1 <= b_MaxPromptBytes b <= 2 ^ 20 ∧ 1 <= b_MaxResponseBytes b <= 4 * 2 ^ 20.

Lemma check_browser_ok b : check_browser b = Ok tt ↔ browser_ok b.
Proof.
  unfold check_browser, browser_ok. destruct (url_Parse (b_CDPURL b)) as [u|]; [|naive_solver].
  autorewrite with guards. rewrite loopback_ok. split.
  - intros (((? & ip & ? & ?) & ?) & Hr). split; [by exists u, ip|tauto].
  - intros ((u' & ip & [= <-] & ? & ? & ? & ?) & Hr). split_and!; try tauto. by exists ip.
Qed.

Definition group_ok (ids : list string) (g : Group) : Prop :=
  ValidPrice (g_MaxUSDPerMillion g) = true ∧ ValidPrice (g_MaxUSDPerRequest g) = true
  ∧ Forall (λ p, p ∈ preference_names ∧ g_Type g ∈ ["auto"; "latency"; "load-balance"]) (g_Preferences g) ∧ NoDup (g_Preferences g)
  ∧ 0 <= g_MaxAttempts g <= 8 ∧ identifier (g_ID g) = true ∧ g_Type g ∈ group_types ∧ 0 <= Tier (g_MinTier g)
  ∧ Forall (λ id, id ∈ ids) (g_Sources g).

Lemma preferences_loop g l st :
  fold_res (check_preference g) ∅ l = Ok st ↔
  (Forall (λ p, p ∈ preference_names ∧ g_Type g ∈ ["auto"; "latency"; "load-balance"]) l ∧ NoDup l) ∧ st = list_to_set (map id l).
Proof.
  etransitivity; [apply (fold_res_positions _ (λ pre p, (p ∈ preference_names ∧ g_Type g ∈ ["auto"; "latency"; "load-balance"]) ∧ id p ∉ map id pre)
    (λ l, list_to_set (map id l)))|rewrite positions_and, positions_forall, positions_nodup; by rewrite map_id].
  intros pre p post st' _ _. unfold check_preference. rewrite list_to_set_snoc. autorewrite with guards.
  rewrite elem_of_list_to_set. tauto.
Qed.

Lemma groups_loop ids l st :
  fold_res (check_group (list_to_set ids)) ∅ l = Ok st ↔ (Forall (group_ok ids) l ∧ NoDup (map g_ID l)) ∧ st = list_to_set (map g_ID l).
Proof.
  etransitivity; [apply (fold_res_positions _ (λ pre g, group_ok ids g ∧ g_ID g ∉ map g_ID pre) (λ l, list_to_set (map g_ID l)))
    |by rewrite positions_and, positions_forall, positions_nodup].
  intros pre g post st' _ _. unfold check_group, group_ok. rewrite list_to_set_snoc.
  assert (Hs : fold_res (λ _ id, reject negb (bool_decide (id ∈ (list_to_set ids : gset string))) with ("group " ++ g_ID g ++ ": unknown source " ++ id) ;; Ok tt)
    tt (g_Sources g) = Ok tt ↔ Forall (λ id, id ∈ ids) (g_Sources g)).
  { rewrite fold_res_unit. apply Forall_iff. intros x. autorewrite with guards. rewrite elem_of_list_to_set. tauto. }
  split.
  - intros Hk. guards Hk. apply preferences_loop in Hm as [[? ?] _]. destruct a0. apply Hs in Hm0. apply ok_inj in Hk as ->.
    autorewrite with guards in *. rewrite !elem_of_list_to_set in *. tauto.
  - intros [[(? & ? & ? & ? & ? & ? & ? & ? & ?) ?] ->]. rewrite reject_ok. split; [autorewrite with guards; tauto|].
    apply res_bind_ok. eexists. split; [by apply preferences_loop|]. rewrite reject_ok. split; [autorewrite with guards; tauto|].
    rewrite reject_ok. split; [autorewrite with guards; rewrite elem_of_list_to_set; tauto|].
    rewrite reject_ok. split; [autorewrite with guards; tauto|]. rewrite reject_ok. split; [autorewrite with guards; tauto|].
    apply res_bind_ok. exists tt. split; [by apply Hs|done].
Qed.

Definition runtime_ok (r : Runtime) : Prop :=
  1 <= rt_MaxInflight r <= 10000 ∧ 0 <= rt_MaxQueued r <= 10000 ∧ 1 <= rt_MaxBodyBytes r <= 64 * 2 ^ 20
  ∧ rt_MaxBodyBytes r <= rt_MaxBufferedBytes r <= 2 * 2 ^ 30 ∧ 1 <= rt_MaxOutputBytes r ∧ 1 <= rt_QueueTimeoutMS r
  ∧ 1 <= rt_RequestTimeoutMS r ∧ 1 <= rt_WriteTimeoutMS r ∧ 1 <= rt_BodyReadTimeoutMS r.

Lemma check_runtime_ok r : check_runtime r = Ok tt ↔ runtime_ok r.
Proof. unfold check_runtime, runtime_ok. autorewrite with guards. tauto. Qed.

Definition listen_ok (l : string) : Prop := ∃ host port, SplitHostPort l = Some (host, port) ∧ host ≠ "".

Lemma check_listen_ok l : check_listen l = Ok tt ↔ listen_ok l.
Proof.
  unfold check_listen, listen_ok. destruct (SplitHostPort l) as [[h p]|]; [|naive_solver]. autorewrite with guards. naive_solver.
Qed.

(** A configuration the gateway may run with. *)
Record valid_config (c : Config) : Prop := {
  vc_accounts : accounts_ok c;
  vc_schema : c_SchemaVersion c = 1;
  vc_listen : listen_ok (c_Listen c);
  vc_runtime : runtime_ok (c_Runtime c);
  vc_sources : Forall (λ s, source_ok c (EffectiveSource c s)) (c_Sources c);
  vc_source_ids : NoDup (map s_ID (c_Sources c));
  vc_endpoints : NoDup (endpoints c (c_Sources c));
  vc_quotas : ∀ x y, x ∈ c_Sources c → y ∈ c_Sources c → s_QuotaDomain x = s_QuotaDomain y →
  s_QuotaMaxInflight x = s_QuotaMaxInflight y;
  vc_browser : (∃ s, s ∈ c_Sources c ∧ s_Adapter s ∈ counted) → browser_ok (c_Browser c);
  vc_groups : Forall (group_ok (map s_ID (c_Sources c))) (c_Groups c);
  vc_group_ids : NoDup (map g_ID (c_Groups c)) }.

Lemma counted_positive (l : list Source) :
  (0 <? length (List.filter (λ s, contains counted (s_Adapter s)) l))%nat = true ↔ ∃ s, s ∈ l ∧ s_Adapter s ∈ counted.
Proof.
  rewrite Nat.ltb_lt. split.
  - destruct (List.filter _ l) as [|s r] eqn:E; [simpl; lia|]. intros _. exists s.
    assert (Hin : In s (List.filter (λ s, contains counted (s_Adapter s)) l)) by (rewrite E; by left).
    apply filter_In in Hin as [? ?]. split; [by apply list_elem_of_In|by apply contains_spec].
  - intros (s & Hs & Ha). assert (Hin : In s (List.filter (λ s, contains counted (s_Adapter s)) l)).
    { apply filter_In. split; [by apply list_elem_of_In|by apply contains_spec]. }
    destruct (List.filter _ l); [done|simpl; lia].
Qed.

Lemma Validate_ok c : Validate c = Ok tt ↔ valid_config c.
Proof.
  unfold Validate. split.
  - intros Hk. guards Hk. destruct a, a0, a1, a3. apply ValidateAccounts_ok in Hm. apply check_listen_ok in Hm0. apply check_runtime_ok in Hm1.
    apply sources_loop in Hm2 as [(Hs & Hn & He & Hq) ->]. apply groups_loop in Hm4 as [[Hgr Hgn] _].
    apply negb_false_iff, Z.eqb_eq in Hg. split; try done. intros Hc%counted_positive. unfold state_acc in Hm3. cbn [k_browsers] in Hm3.
    rewrite Hc in Hm3. by apply check_browser_ok.
  - intros []. apply res_bind_ok. exists tt. split; [by apply ValidateAccounts_ok|].
    rewrite reject_ok. split; [by apply negb_false_iff, Z.eqb_eq|]. apply res_bind_ok. exists tt. split; [by apply check_listen_ok|].
    apply res_bind_ok. exists tt. split; [by apply check_runtime_ok|]. apply res_bind_ok. eexists. split; [by apply sources_loop|].
    apply res_bind_ok. exists tt. split.
    + cbn [state_acc k_browsers]. destruct (0 <? _)%nat eqn:E; [|done]. apply counted_positive in E. by apply check_browser_ok, vc_browser0.
    + apply res_bind_ok. eexists. split; [by apply groups_loop|done].
Qed.

End Urls.
