(* ===== verification/ConfigTheorems.v ===== *)
(** * Validated configurations and what they give the router

    The exact meaning of [Validate], and the composition with the routing
    core: a router built from an accepted configuration keeps every counter
    within the limits the configuration itself writes down. *)

From S2P Require Import Prelude GoFloat ConfigData Execution RouterData RouterPolicy RouterOps RouterInv RouterReach RouterFacts RouterLimits.
From S2P Require Import Json GoText GoNet Providerdef ConfigAccounts ConfigValidate ConfigSpec ValidateSpec.
Local Open Scope string_scope.
Local Open Scope Z_scope.
#[local] Opaque Lookup Supports.

(** ** The limits a compiled router starts from *)

Definition limit_below (h : heap) (k : loc) (limit : Z) : Prop :=
  (k < h_next h)%nat ∧ q_limit (q_at h k) = limit.

Lemma limit_alloc_quota h k n q : limit_below h k n → limit_below (fst (alloc_quota q h)) k n.
Proof.
  unfold limit_below, alloc_quota, q_at. simpl. intros [Hk Hl]. split; [lia|]. by rewrite lookup_insert_ne by lia.
Qed.
Lemma limit_new_quota h n : limit_below (fst (alloc_quota (with_q_limit n zero_quota) h)) (h_next h) n.
Proof. unfold limit_below, alloc_quota, q_at. simpl. rewrite lookup_insert_eq. simpl. split; [lia|done]. Qed.
Lemma limit_alloc_state h k n st : limit_below h k n → limit_below (fst (alloc_state st h)) k n.
Proof. unfold limit_below, alloc_state, q_at. simpl. intros [Hk Hl]. split; [lia|done]. Qed.

(** The account limits, by account. *)
Definition account_limits_ok (l : list Account) (h : heap) (limits : gmap string loc) : Prop :=
  ∀ id, match limits !! id with
        | Some k => ∃ a, a ∈ l ∧ a_ID a = id ∧ limit_below h k (a_MaxInflight a)
        | None => id ∉ map a_ID l
        end.

Lemma new_accounts_limits l h :
  let acc := fold_left new_account l (h, ∅) in account_limits_ok l (fst acc) (snd acc).
Proof.
  induction l as [|a l IH] using rev_ind; simpl in *.
  { intros id. rewrite lookup_empty. apply not_elem_of_nil. }
  rewrite fold_left_app. destruct (fold_left new_account l (h, ∅)) as [h1 m]. cbn [fst snd] in IH.
  intros id. simpl. specialize (IH id). rewrite lookup_insert. case_decide as E.
  - subst. exists a. split_and!; [set_solver|done|apply limit_new_quota].
  - destruct (m !! id) as [k|].
    + destruct IH as (b & Hb & Hid & Hl). exists b. split_and!; [set_solver|done|by apply limit_alloc_quota].
    + rewrite map_app, elem_of_app. simpl. rewrite list_elem_of_singleton. naive_solver.
Qed.

(** What the loop over the sources has built after the sources [l]. *)
Record source_limits_ok (l : list Source) (limits : gmap string loc) (h : heap) (b : building) : Prop := {
  sl_length : length (bd_state b) = length l;
  sl_qs : ∀ id k, bd_qs b !! id = Some k → ∃ s, s ∈ l ∧ s_QuotaDomain s = id ∧ limit_below h k (s_QuotaMaxInflight s);
  sl_quotas : Forall2 (λ s k, bd_qs b !! s_QuotaDomain s = Some k) l (bd_quotas b);
  sl_accounts : Forall2 (λ s k, k = limits !! s_AccountID s) l (bd_accounts b) }.

Lemma new_source_limits ps accts limits l h b s :
  source_limits_ok l limits h b →
  let acc := new_source ps accts limits (h, b) s in
  source_limits_ok (l ++ [s]) limits (fst acc) (snd acc) ∧ ∀ k n, limit_below h k n → limit_below (fst acc) k n.
Proof.
  intros [Hn Hqs Hq Ha]. unfold new_source.
  destruct (match ps !! s_Provider s with Some p => _ | None => _ end) as [e0 ap0].
  destruct (match accts !! s_AccountID s with Some a => _ | None => _ end) as [enabled approved].
  pose proof (limit_alloc_state h) as Hst. unfold alloc_state in *. cbn [fst] in Hst. set (h1 := with_h_next _ _) in *.
  unfold domain_quota. destruct (bd_qs b !! s_QuotaDomain s) as [kd|] eqn:Ed; cbv zeta; cbn [fst snd bd_qs bd_quotas bd_accounts bd_state].
  - split; [|intros k n Hk; by apply Hst]. constructor; cbn [bd_qs bd_quotas bd_accounts bd_state].
    + rewrite !length_app. simpl. lia.
    + intros id k Hk. destruct (Hqs id k Hk) as (s' & Hs' & Hid & Hl). exists s'. split_and!; [set_solver|done|by apply Hst].
    + apply Forall2_app; [done|by repeat constructor].
    + apply Forall2_app; [done|by repeat constructor].
  - pose proof (limit_alloc_quota h1) as Hal. pose proof (limit_new_quota h1 (s_QuotaMaxInflight s)) as Hnew.
    unfold alloc_quota in *. cbn [fst snd] in *.
    split; [|intros k n Hk; by apply Hal, Hst]. constructor; cbn [bd_qs bd_quotas bd_accounts bd_state].
    + rewrite !length_app. simpl. lia.
    + intros id k. rewrite lookup_insert. case_decide as E.
      * intros [= <-]. subst. exists s. split_and!; [set_solver|done|exact Hnew].
      * intros Hk. destruct (Hqs id k Hk) as (s' & Hs' & Hid & Hl). exists s'. split_and!; [set_solver|done|by apply Hal, Hst].
    + apply Forall2_app; [|repeat constructor; by rewrite lookup_insert_eq].
      eapply Forall2_impl; [exact Hq|]. intros x k Hk. rewrite lookup_insert_ne; [done|]. intros E. congruence.
    + apply Forall2_app; [done|by repeat constructor].
Qed.

Lemma compile_limits c h :
  let '(h2, limits, b) := compile_sources c h in
  source_limits_ok (c_Sources c) limits h2 b ∧ account_limits_ok (c_Accounts c) h2 limits.
Proof.
  unfold compile_sources. pose proof (new_accounts_limits (c_Accounts c) h) as Hacc.
  destruct (fold_left new_account (c_Accounts c) (h, ∅)) as [h1 limits]. cbn [fst snd] in Hacc.
  set (f := new_source _ _ limits). set (b0 := mk_building [] [] [] [] [] false [] ∅ ∅ [] []).
  assert (Hl : let acc := fold_left f (c_Sources c) (h1, b0) in
    source_limits_ok (c_Sources c) limits (fst acc) (snd acc) ∧ ∀ k n, limit_below h1 k n → limit_below (fst acc) k n).
  { induction (c_Sources c) as [|s l IH] using rev_ind.
    - split; [|done]. constructor; simpl; [done| |constructor|constructor]. intros id k. by rewrite lookup_empty.
    - rewrite fold_left_app. destruct (fold_left f l (h1, b0)) as [h2 b]. cbn [fst snd] in IH. destruct IH as [IH Hm].
      destruct (new_source_limits (provider_map (c_Providers c)) (account_map (c_Accounts c)) limits l h2 b s IH) as [Hs Hm'].
      fold f in Hs, Hm'. split; [exact Hs|]. intros k n Hk. by apply Hm', Hm. }
  destruct (fold_left f (c_Sources c) (h1, b0)) as [h2 b]. cbn [fst snd] in Hl. destruct Hl as [Hs Hm]. split; [done|].
  intros id. specialize (Hacc id). destruct (limits !! id) as [k|]; [|done].
  destruct Hacc as (a & Ha & Hid & Hk). exists a. split_and!; auto.
Qed.

(** Where the counters of source [i] of a booted router are, and their limits. *)
Record counters_of (c : Config) (h : heap) (r : router) (i : nat) (s : Source) : Prop := {
  co_state : is_Some (r_state r !! i);
  co_quota : ∃ k s', r_quotas r !! i = Some k ∧ s' ∈ c_Sources c ∧ s_QuotaDomain s' = s_QuotaDomain s
             ∧ q_limit (q_at h k) = s_QuotaMaxInflight s';
  co_account : s_AccountID s ∈ map a_ID (c_Accounts c) → ∃ k a, r_accounts r !! i = Some (Some k) ∧ a ∈ c_Accounts c
             ∧ a_ID a = s_AccountID s ∧ q_limit (q_at h k) = a_MaxInflight a }.

Lemma boot_counters c i s :
  let h0 := fst (New c empty_heap) in
  c_Sources c !! i = Some s → counters_of c h0 (router_at h0 (snd (New c empty_heap))) i s.
Proof.
  cbv zeta. unfold New. pose proof (compile_limits c empty_heap) as Hc. destruct (compile_sources c empty_heap) as [[h2 limits] b].
  destruct Hc as [[Hn Hqs Hq Ha] Hacc]. unfold alloc_cap, alloc_router, router_at. cbn [fst snd h_routers with_h_next with_h_routers].
  rewrite lookup_insert_eq. cbn [default r_state r_quotas r_accounts compiled_router]. intros Hs. constructor.
  - apply lookup_lt_is_Some. simpl. rewrite Hn. by eapply lookup_lt_Some.
  - destruct (Forall2_lookup_l _ _ _ _ _ Hq Hs) as (k & Hk & Hd). destruct (Hqs _ _ Hd) as (s' & Hs' & Hid & _ & Hl). by exists k, s'.
  - intros Hin. destruct (Forall2_lookup_l _ _ _ _ _ Ha Hs) as (x & Hx & ->).
    specialize (Hacc (s_AccountID s)). destruct (limits !! s_AccountID s) as [k|]; [|done].
    destruct Hacc as (a & Hain & Hid & _ & Hl). by exists k, a.
Qed.

(** ** The theorems *)

Section Urls.
Context `{UrlParser}.

(** C19: [Validate] decides validity.  The check, a pass over accounts,
    sources, models and groups with accumulators of names, quota domains and
    browser endpoints that stops at the first error, accepts a configuration
    exactly when it satisfies the order-free conditions of [valid_config]:
    unique identifiers, accounts bound to their provider and quota domain,
    HTTPS except on loopback, one limit per quota domain, known adapters,
    protocols, models and groups, and every limit in its range. *)
Theorem validate_exact c : is_ok (Validate c) = true ↔ valid_config c.
Proof. rewrite <-Validate_ok. destruct (Validate c) as [[]|e]; simpl; [done|]. split; [done|by intros [=]]. Qed.

(** Every counter of source [s] is within what the configuration says. *)
Definition source_within (c : Config) (h : heap) (r : router) (i : nat) (s : Source) : Prop :=
  (∃ k, r_state r !! i = Some k ∧ st_active (st_at h k) <= s_MaxInflight s <= 10000)
  ∧ (∃ k, r_quotas r !! i = Some k ∧ q_active (q_at h k) <= s_QuotaMaxInflight s <= 10000)
  ∧ (s_AccountID s = "" ∨ ∃ k a, r_accounts r !! i = Some (Some k) ∧ a ∈ c_Accounts c ∧ a_ID a = s_AccountID s
    ∧ a_ProviderID a = s_Provider s ∧ q_active (q_at h k) <= a_MaxInflight a <= 10000).

(** A validated configuration is obeyed.  Boot a router from a
    configuration [Validate] accepted, and run any sequence of operations on
    it: the requests in flight never exceed [max_inflight], and for every
    configured source its own counter, the counter of its quota domain and
    that of its account stay within the limits that source and its account
    declare (the domain is shared: the limit is the one of this source because
    validation makes all sources of a domain agree). *)
Theorem validated_limits_hold c now t h :
  is_ok (Validate c) = true →
  let h0 := fst (New c empty_heap) in
  let r0 := router_at h0 (snd (New c empty_heap)) in
  steps no_reconfigure now h0 t h →
  cap_active (rcap h r0) <= rt_MaxInflight (c_Runtime c) <= 10000
  ∧ ∀ i s, c_Sources c !! i = Some s → source_within c h r0 i s.
Proof.
  intros Hv h0 r0 Hs. apply validate_exact in Hv as [Hacc _ _ Hrt Hsrc _ _ Hquota _ _ _].
  pose proof (static_steps _ _ _ _ _ _ (compiled_distinct c empty_heap) (static_boot c) Hs) as [_ _ [Hg Hst Hq] Hl].
  fold h0 r0 in Hg, Hst, Hq, Hl. assert (Hcfg : r_cfg r0 = c) by apply New_compiled. rewrite Hcfg in Hg.
  destruct Hrt as ([? ?] & _). split; [unfold rcap; lia|]. intros i s Hi.
  assert (Hin : s ∈ c_Sources c) by by eapply list_elem_of_lookup_2.
  pose proof (boot_counters c i s Hi) as [[ks Hks] (kq & s' & Hkq & Hs' & Hd & Hlim) Ha]. fold h0 r0 in Hks, Hkq, Hlim, Ha.
  rewrite Forall_forall in Hsrc. pose proof (Hsrc s Hin) as Hok. unfold source_ok in Hok.
  destruct (effective_same c s) as (_ & _ & Eq & _ & _ & Em). rewrite Eq, Em in Hok. split_and!.
  - exists ks. split; [done|]. pose proof (Hst i ks Hks) as Hle. unfold src_at in Hle. rewrite Hcfg, Hi in Hle. simpl in Hle. lia.
  - exists kq. split; [done|]. pose proof (Hq kq) as Hle. rewrite Hl, Hlim, (Hquota s' s) in Hle by done. lia.
  - destruct Hacc as (_ & _ & _ & Haccs & Hnd & Hb). rewrite Forall_forall in Hb.
    destruct (Hb s Hin) as (_ & [He|(a & Hain & Hid & Hpr & _)]); [by left|right].
    destruct Ha as (ka & a' & Hka & Ha' & Hid' & Hla). { apply list_elem_of_fmap. by exists a. }
    assert (a' = a) as ->.
    { pose proof (accounts_acc_unique _ _ Hnd Hain) as E1. pose proof (accounts_acc_unique _ _ Hnd Ha') as E2. rewrite Hid' in E2. rewrite Hid in E1. congruence. }
    exists ka, a. split_and!; try done; [|rewrite Forall_forall in Haccs; by apply Haccs].
    pose proof (Hq ka) as Hle. rewrite Hl, Hla in Hle. rewrite Forall_forall in Haccs. apply Haccs in Ha'. unfold account_ok in Ha'. lia.
Qed.

End Urls.

(** ** A validated configuration with a pooled source *)

Definition pool_account : Account :=
  {| a_VerificationState := ""; a_VerificationVersion := 0; a_VerificationBinding := "";
     a_VerificationAt := None; a_ID := "acct"; a_ProviderID := "prov"; a_DisplayName := "Account";
     a_Enabled := true; a_AutoApproved := true; a_CredentialRef := ""; a_LoginCredentialRef := "";
     a_ExpectedIdentity := ""; a_CredentialTypeOverride := false; a_BrowserProfileID := "";
     a_BaseURL := ""; a_Organization := ""; a_Project := ""; a_QuotaDomain := "pool";
     a_MaxInflight := 1; a_Weight := 1; a_CreatedAt := 0 |}.

Definition pool_model : Model :=
  {| m_InputUSDPerMillion := Some (f_of_Z 2); m_OutputUSDPerMillion := Some (f_of_Z 8);
     m_Enabled := None; m_AutoApproved := None; m_DeclaredModel := ""; m_CanonicalModel := "";
     m_ID := "talk"; m_Upstream := "up-talk"; m_Protocols := ["chat"]; m_Tier := "gold";
     m_RatingBasis := "manual"; m_Tools := "native"; m_Vision := false; m_MaxInputBytes := 1000 |}.

Definition pool_source : Source :=
  {| s_Weight := 1; s_AccountID := "acct"; s_CredentialRef := ""; s_CredentialTypeOverride := false;
     s_SourceKind := "vendor_api"; s_ExecutionLocation := "remote"; s_InferenceLocation := "remote";
     s_BillingMode := "metered"; s_CredentialMode := "api_key"; s_ID := "a"; s_Provider := "prov";
     s_Adapter := "openai"; s_BaseURL := "https://api.example.com"; s_KeyEnv := "PROV_KEY";
     s_AccountIDEnv := ""; s_Organization := ""; s_Project := ""; s_Enabled := true;
     s_AutoApproved := true; s_Local := false; s_Anonymous := false; s_Paid := true;
     s_MaxInflight := 2; s_QuotaDomain := "pool"; s_QuotaMaxInflight := 1; s_Models := [pool_model] |}.

Definition pool_config : Config :=
  {| c_BrowserProfiles := [];
     c_Providers := [{| p_ID := "prov"; p_Enabled := true; p_AutoApproved := true; p_PoolStrategy := "" |}];
     c_Accounts := [pool_account]; c_SchemaVersion := 1; c_Listen := c_Listen Default; c_APIKeyEnv := "";
     c_AdminKeyEnv := ""; c_Runtime := c_Runtime Default; c_Browser := c_Browser Default; c_Device := c_Device Default;
     c_Sources := [pool_source]; c_Groups := c_Groups Default |}.

#[local] Existing Instance simple_parser.

Example pool_valid : is_ok (Validate pool_config) = true.
Proof. vm_compute. reflexivity. Qed.

(** Plain HTTP to a remote host is refused. *)
Example insecure_refused :
  is_ok (Validate {| c_BrowserProfiles := []; c_Providers := c_Providers pool_config; c_Accounts := [pool_account]; c_SchemaVersion := 1;
    c_Listen := c_Listen Default; c_APIKeyEnv := ""; c_AdminKeyEnv := ""; c_Runtime := c_Runtime Default; c_Browser := c_Browser Default;
    c_Device := c_Device Default; c_Sources := [with_endpoint "http://api.example.com" "" "" pool_source]; c_Groups := [] |}) = false.
Proof. vm_compute. reflexivity. Qed.

Definition pool_boot : heap := fst (New pool_config empty_heap).
Definition pool_rid : loc := snd (New pool_config empty_heap).
Definition pool_query : Query :=
  {| qr_Probe := false; qr_Detail := false; qr_ExcludedSources := []; qr_Affinity := "";
     qr_Model := "a/talk"; qr_Protocol := "chat"; qr_Tools := true; qr_Bytes := 100;
     qr_OutputTokens := 10; qr_SpentUSD := f0; qr_Stateful := false; qr_Vision := false |}.
Definition pool_busy : heap := exec (OpAcquire pool_rid pool_query 0) 1 pool_boot.

Example pool_granted : q_active (q_at pool_busy (quota_loc (router_at pool_boot pool_rid) 0)) = 1.
Proof. vm_compute. reflexivity. Qed.

Lemma validated_limits_hold_witness :
  cap_active (rcap pool_busy (router_at pool_boot pool_rid)) <= 128
  ∧ source_within pool_config pool_busy (router_at pool_boot pool_rid) 0 pool_source.
Proof.
  assert (Hs : steps no_reconfigure 0 pool_boot 1 pool_busy).
  { apply (steps_more _ _ _ 0 pool_boot (OpAcquire pool_rid pool_query 0)); [apply steps_refl|lia|reflexivity]. }
  destruct (validated_limits_hold pool_config 0 1 pool_busy pool_valid Hs) as [Hg Hsrc].
  split; [exact (proj1 Hg)|]. exact (Hsrc 0%nat pool_source eq_refl).
Defined.
