(* ===== verification/Service.v ===== *)
(** * Versioned configuration ([internal/config/service.go])

    One journal file, atomically replaced, holds the retained versions; every
    change prepares the next runtime first and commits it last.  The encodings
    ([encoding/json] of the structs) are an interface, [Codec]; the file system
    is a map of file contents, a write the list of the states it passes
    through; the calls a [Prepare] makes on the runtime are a log.  The mutex
    makes each operation one step. *)

From S2P Require Import Prelude ConfigData Json GoText GoNet ConfigAccounts ConfigValidate.
From stdpp Require Import pretty.
Local Open Scope string_scope.
Local Open Scope Z_scope.

Definition ErrRevisionConflict : string := "configuration changed; refresh the preview before applying".
Definition ErrNotExist : string := "file does not exist".

Record Version := { v_Revision : Z; v_CreatedAt : Z; v_Summary : string; v_Config : Config }.
Record journal := { j_Format : Z; j_Versions : list Version }.

(** [json.Marshal] and [json.Unmarshal] of a configuration, [json.MarshalIndent]
    of a journal, and the journal a file decodes to: one object, no unknown
    member, nothing after it. *)
Class Codec := {
  marshal : Config → option bytes;
  unmarshal : bytes → option Config;
  marshal_journal : journal → option bytes;
  decode_journal : bytes → option journal }.

(** [Prepare]: whether the two closures it returns are not nil. *)
Definition Preparer : Type := Config → res string (bool * bool).
Inductive runtime_event := Prepared (c : Config) | Committed (c : Config) | Discarded (c : Config).

Abbreviation files := (gmap string bytes).

(** The outcome of each system call of [atomicWrite]. *)
Record write_env := {
  w_temp : string; w_mkdir : bool; w_create : bool; w_chmod : bool; w_copy : bool; w_partial : nat; w_sync : bool;
  w_close : bool; w_rename : bool }.

(** The result and the states of the file system on the way. *)
Definition atomicWrite (e : write_env) (path : string) (b : bytes) (fs : files) : res string unit * list files :=
  if negb (w_mkdir e) then (Err "cannot create configuration directory", [])
  else if negb (w_create e) then (Err "cannot start configuration transaction", [])
  else
    let name := w_temp e in
    let created := <[name := []]> fs in
    let wrote := if w_chmod e then (if w_copy e then b else take (w_partial e) b) else [] in
    let written := <[name := wrote]> fs in
    if negb (w_chmod e && w_copy e && w_sync e) || negb (w_close e) then
      (Err "cannot write configuration transaction", [created; written; delete name written])
    else if negb (w_rename e) then (Err "cannot commit configuration transaction", [created; written; delete name written])
    else
      let renamed := <[path := wrote]> (delete name written) in
      (Ok tt, [created; written; renamed; delete name renamed]).

(** The state a list of states ends in. *)
Definition final (fs : files) (trace : list files) : files := default fs (last trace).

Definition max_versions : nat := 50.
Definition max_config : Z := 4 * 2 ^ 20.
Definition max_journal : Z := 32 * 2 ^ 20.
Definition blen (b : bytes) : Z := Z.of_nat (length b).

Section Service.
Context `{UrlParser} `{Codec}.

Record Service := { sv_path : string; sv_versions : list Version; sv_prepare : option Preparer }.

Definition Clone (c : Config) : option Config := b ← marshal c; unmarshal b.

Fixpoint check_versions (previous : Z) (vs : list Version) : checked unit :=
  match vs with
  | [] => Ok tt
  | v :: vs =>
      reject v_Revision v <=? previous with "invalid configuration revision order" ;;
      let? _ := (match Validate (v_Config v) with
        | Ok _ => Ok tt
        | Err e => Err ("invalid configuration history revision " ++ pretty (v_Revision v) ++ ": " ++ e)
        end) in
      check_versions (v_Revision v) vs
  end.

Definition readJournal (fs : files) (path : string) : checked (list Version) :=
  match fs !! path with
  | None => Err ErrNotExist
  | Some b =>
      reject max_journal <? blen b with "configuration history exceeds size limit" ;;
      match decode_journal b with
      | None => Err "invalid configuration history"
      | Some j =>
          reject negb (j_Format j =? 1) || bool_decide (j_Versions j = []) || (max_versions <? length (j_Versions j))%nat
            with "invalid configuration history" ;;
          let? _ := check_versions 0 (j_Versions j) in
          Ok (j_Versions j)
      end
  end.

(** [OpenService]; the log of the runtime is empty. *)
Definition OpenService (fs : files) (now : Z) (path : string) (seed : Config) (prepare : option Preparer) : checked Service :=
  let? _ := Validate seed in
  let path := path ++ ".state" in
  match readJournal fs path with
  | Ok versions => Ok {| sv_path := path; sv_versions := versions; sv_prepare := prepare |}
  | Err e =>
      if e =s ErrNotExist then
        match Clone seed with
        | None => Err "json: unsupported value"
        | Some seed =>
            Ok {| sv_path := path; sv_prepare := prepare;
              sv_versions := [ {| v_Revision := 1; v_CreatedAt := now; v_Summary := "Initial configuration"; v_Config := seed |} ] |}
        end
      else Err e
  end.

Definition zero_Config : Config :=
  {| c_BrowserProfiles := []; c_Providers := []; c_Accounts := []; c_SchemaVersion := 0; c_Listen := ""; c_APIKeyEnv := "";
    c_AdminKeyEnv := "";
    c_Runtime := {| rt_MaxInflight := 0; rt_MaxQueued := 0; rt_MaxBodyBytes := 0; rt_MaxBufferedBytes := 0; rt_MaxOutputBytes := 0;
      rt_QueueTimeoutMS := 0; rt_RequestTimeoutMS := 0; rt_WriteTimeoutMS := 0; rt_BodyReadTimeoutMS := 0 |};
    c_Browser := {| b_ExpectedIdentity := ""; b_Engine := ""; b_Enabled := false; b_CDPURL := ""; b_StateFile := "";
      b_MaxSessions := 0; b_SessionTTLSeconds := 0; b_PollMS := 0; b_MaxPromptBytes := 0; b_MaxResponseBytes := 0 |};
    c_Device := {| d_Enabled := false; d_ADBPath := ""; d_Serial := ""; d_StateDir := ""; d_OCRPath := ""; d_OCRDataDir := "";
      d_ClipboardSyncMS := 0 |};
    c_Sources := []; c_Groups := [] |}.
Definition zero_Version : Version := {| v_Revision := 0; v_CreatedAt := 0; v_Summary := ""; v_Config := zero_Config |}.

(** [s.versions[len(s.versions)-1]]; an empty list panics in Go. *)
Definition newest (s : Service) : Version := default zero_Version (last (sv_versions s)).

(** The error of [Clone] is dropped, its value is then the zero value. *)
Definition cloneVersion (v : Version) : Version :=
  {| v_Revision := v_Revision v; v_CreatedAt := v_CreatedAt v; v_Summary := v_Summary v;
    v_Config := default zero_Config (Clone (v_Config v)) |}.

Definition Current (s : Service) : Version := cloneVersion (newest s).
Definition History (s : Service) : list Version := map cloneVersion (sv_versions s).

Definition preview (s : Service) (now expected : Z) (next : Config) : checked Version :=
  let current := newest s in
  reject negb (expected =? v_Revision current) with ErrRevisionConflict ;;
  let? _ := Validate next in
  match marshal next with
  | None => Err "configuration exceeds size limit"
  | Some b =>
      reject max_config <? blen b with "configuration exceeds size limit" ;;
      match Clone next with
      | None => Err "json: invalid value"
      | Some next => Ok {| v_Revision := u64 (v_Revision current + 1); v_CreatedAt := now; v_Summary := ""; v_Config := next |}
      end
  end.
Definition Preview := preview.

(** Drop the oldest versions until the journal fits. *)
Fixpoint fit_journal (versions : list Version) : checked (list Version * bytes) :=
  match marshal_journal {| j_Format := 1; j_Versions := versions |} with
  | None => Err "json: unsupported value"
  | Some b =>
      if blen b <? max_journal then Ok (versions, b)
    else
      match versions with
      | _ :: (_ :: _) as rest => fit_journal rest
      | _ => Err "configuration history exceeds size limit"
      end
  end.

Definition set_summary (summary : string) (v : Version) : Version :=
  {| v_Revision := v_Revision v; v_CreatedAt := v_CreatedAt v; v_Summary := summary; v_Config := v_Config v |}.

(** What a call returns and leaves behind. *)
Record applied := {
  ap_result : checked Version; ap_service : Service; ap_files : list files; ap_log : list runtime_event }.

Definition failed (s : Service) (e : string) (trace : list files) (log : list runtime_event) : applied :=
  {| ap_result := Err e; ap_service := s; ap_files := trace; ap_log := log |}.

(** After the runtime is prepared ([undo] is what [discard] does, [commit]
    what [commit] does): keep at most 50 versions, write, commit. *)
Definition persist (s : Service) (env : write_env) (fs : files) (v : Version) (prepared undo commit : list runtime_event) : applied :=
  let versions := (sv_versions s ++ [v])%list in
  let versions := drop (length versions - max_versions) versions in
  match fit_journal versions with
  | Err e => failed s e [] (prepared ++ undo)%list
  | Ok (versions, b) =>
      match atomicWrite env (sv_path s) b fs with
      | (Err e, trace) => failed s e trace (prepared ++ undo)%list
      | (Ok _, trace) =>
          {| ap_result := Ok (cloneVersion v);
            ap_service := {| sv_path := sv_path s; sv_versions := versions; sv_prepare := sv_prepare s |};
            ap_files := trace; ap_log := (prepared ++ commit)%list |}
      end
  end.

Definition apply (s : Service) (env : write_env) (fs : files) (now expected : Z) (next : Config) (summary : string) : applied :=
  match preview s now expected next with
  | Err e => failed s e [] []
  | Ok v =>
      if 512 <? slen summary then failed s "configuration summary is too long" [] []
    else
      let v := set_summary summary v in
      match sv_prepare s with
      | None => persist s env fs v [] [] []
      | Some prepare =>
          match prepare (v_Config v) with
          | Err e => failed s e [] []
          | Ok (commit, discard) =>
              if negb commit || negb discard then failed s "invalid runtime preparation" [] [Prepared (v_Config v)]
            else persist s env fs v [Prepared (v_Config v)] [Discarded (v_Config v)] [Committed (v_Config v)]
          end
      end
  end.

Definition Apply := apply.

Definition Rollback (s : Service) (env : write_env) (fs : files) (now expected target : Z) : applied :=
  match list_find (λ v, v_Revision v = target) (sv_versions s) with
  | Some (_, v) => apply s env fs now expected (v_Config v) ("Rollback to revision " ++ pretty target)
  | None => failed s "configuration revision is not retained" [] []
  end.

End Service.
