(* ===== verification/ServiceFacts.v ===== *)
(** * The versioned configuration keeps its promises

    Against the interface [CodecLaws] of the encodings: what a change returns
    and leaves behind on every branch, and what a crash can leave. *)

From S2P Require Import Prelude ConfigData Json GoText GoNet ConfigAccounts ConfigValidate Service.
Local Open Scope string_scope.
Local Open Scope Z_scope.
#[local] Arguments max_journal : simpl never.
#[local] Arguments max_config : simpl never.

(** A write leaves every file but its temporary one as it was, except that a
    successful one replaces its target; and the target is never seen partly
    written. *)
Lemma atomicWrite_spec env path b fs r trace :
  w_temp env ≠ path → atomicWrite env path b fs = (r, trace) →
  (∀ p, p ≠ w_temp env → final fs trace !! p = if is_ok r && bool_decide (p = path) then Some b else fs !! p)
  ∧ ∀ fs', fs' ∈ trace → ∀ p, p ≠ w_temp env → fs' !! p = fs !! p ∨ (is_ok r = true ∧ p = path ∧ fs' !! p = Some b).
Proof.
  intros Hne. unfold atomicWrite. destruct (w_mkdir env); [|intros [= <- <-]; split; [done|by intros ? ?%not_elem_of_nil]].
  destruct (w_create env); [|intros [= <- <-]; split; [done|by intros ? ?%not_elem_of_nil]]. cbn [negb].
  set (wrote := if w_chmod env then _ else _).
  assert (Hfail : ∀ p, p ≠ w_temp env → (<[w_temp env:=[]]> fs !! p = fs !! p) ∧ (<[w_temp env:=wrote]> fs !! p = fs !! p)
    ∧ delete (w_temp env) (<[w_temp env:=wrote]> fs) !! p = fs !! p).
  { intros p Hp. rewrite lookup_delete_ne, !lookup_insert_ne by done. done. }
  assert (Hin : ∀ fs', fs' ∈ [<[w_temp env:=[]]> fs; <[w_temp env:=wrote]> fs; delete (w_temp env) (<[w_temp env:=wrote]> fs)] →
    ∀ p, p ≠ w_temp env → fs' !! p = fs !! p).
  { intros fs' Hin p Hp. destruct (Hfail p Hp) as (? & ? & ?). rewrite !elem_of_cons in Hin.
    destruct Hin as [-> |[-> |[-> |[]%not_elem_of_nil]]]; done. }
  destruct (negb _ || _) eqn:Ew.
  { intros [= <- <-]. split; [intros p Hp; by apply Hin; [set_solver|]|]. intros fs' Hfs p Hp. left. by apply Hin. }
  destruct (w_rename env); cbn [negb].
  2:{ intros [= <- <-]. split; [intros p Hp; by apply Hin; [set_solver|]|]. intros fs' Hfs p Hp. left. by apply Hin. }
  assert (wrote = b) as Ewb.
  { unfold wrote. destruct (w_chmod env), (w_copy env); simpl in Ew; try done; by rewrite ?andb_false_r in Ew. }
  intros [= <- <-]. cbn [is_ok]. split.
  - intros p Hp. unfold final, id. cbn [last from_option]. rewrite lookup_delete_ne by done.
    destruct (decide (p = path)) as [->|Hpp]; [by rewrite bool_decide_true, lookup_insert_eq, Ewb|].
    rewrite bool_decide_false, lookup_insert_ne by done. by apply Hfail.
  - intros fs' Hfs p Hp. destruct (decide (p = path)) as [->|Hpp].
    + rewrite !elem_of_cons in Hfs. destruct (Hfail path Hp) as (? & ? & ?).
      destruct Hfs as [->|[->|[->|[->|[]%not_elem_of_nil]]]]; [by left|by left|right|right].
      * by rewrite lookup_insert_eq, Ewb.
      * by rewrite lookup_delete_ne, lookup_insert_eq, Ewb by done.
    + left. rewrite !elem_of_cons in Hfs. destruct (Hfail p Hp) as (? & ? & ?).
      destruct Hfs as [->|[->|[->|[->|[]%not_elem_of_nil]]]]; [done|done| |].
      * by rewrite lookup_insert_ne by done.
      * by rewrite lookup_delete_ne, lookup_insert_ne by done.
Qed.

Section Facts.
Context `{UrlParser} `{Codec}.

(** A version that an encoding and decoding leaves as it is. *)
Definition faithful (v : Version) : Prop :=
  Clone (v_Config v) = Some (v_Config v) ∧ ValidString (v_Summary v) = true.

(** What the encodings are relied on for: a copy of a valid configuration is
    valid and is its own copy; a journal of faithful versions reads back. *)
Class CodecLaws : Prop := {
  clone_valid c c' : Validate c = Ok tt → Clone c = Some c' → Validate c' = Ok tt;
  clone_idem c c' : Clone c = Some c' → Clone c' = Some c';
  journal_roundtrip j b : marshal_journal j = Some b → Forall faithful (j_Versions j) → decode_journal b = Some j }.

Context `{CodecLaws}.

(** ** The journal *)

(** Revisions increase, and every version is valid. *)
Fixpoint versions_ok (previous : Z) (vs : list Version) : Prop :=
  match vs with
  | [] => True
  | v :: vs => previous < v_Revision v ∧ Validate (v_Config v) = Ok tt ∧ versions_ok (v_Revision v) vs
  end.

Lemma check_versions_ok p vs : check_versions p vs = Ok tt ↔ versions_ok p vs.
Proof.
  revert p. induction vs as [|v vs IH]; intros p; [done|]. cbn [check_versions versions_ok].
  rewrite reject_ok, Z.leb_gt, res_bind_ok, <-IH. destruct (Validate (v_Config v)) as [[]|]; naive_solver.
Qed.

Lemma versions_ok_snoc p vs v :
  versions_ok p (vs ++ [v]) ↔
  versions_ok p vs ∧ v_Revision (default {| v_Revision := p; v_CreatedAt := 0; v_Summary := ""; v_Config := zero_Config |} (last vs)) < v_Revision v
  ∧ Validate (v_Config v) = Ok tt.
Proof.
  revert p. induction vs as [|x vs IH]; intros p; [simpl; naive_solver|]. cbn [versions_ok app]. rewrite IH.
  destruct vs as [|y vs]; [simpl; naive_solver|]. rewrite (last_cons_cons x y). destruct (last (y :: vs)) eqn:E; [naive_solver|].
  by apply last_None in E.
Qed.

Lemma versions_ok_lower p q vs : q <= p → versions_ok p vs → versions_ok q vs.
Proof. destruct vs; [done|]. cbn [versions_ok]. intros ? (? & ? & ?). split_and!; [lia|done..]. Qed.

Lemma versions_ok_app_r p vs vs' : versions_ok p (vs ++ vs') → versions_ok p vs'.
Proof.
  revert p. induction vs as [|v vs IH]; intros p; [done|]. cbn [versions_ok app]. intros (Hp & _ & Hr).
  apply IH in Hr. apply versions_ok_lower with (v_Revision v); [lia|done].
Qed.

Lemma versions_ok_drop p n vs : versions_ok p vs → versions_ok p (drop n vs).
Proof. intros Hv. rewrite <-(take_drop n vs) in Hv. by eapply versions_ok_app_r. Qed.

(** Fitting the journal keeps a non-empty suffix, the longest that fits. *)
Lemma fit_journal_spec vs vs' b :
  fit_journal vs = Ok (vs', b) →
  ∃ dropped, vs = (dropped ++ vs')%list ∧ (vs ≠ [] → vs' ≠ [])
  ∧ marshal_journal {| j_Format := 1; j_Versions := vs' |} = Some b ∧ blen b < max_journal
  ∧ ∀ n b', (n < length dropped)%nat → marshal_journal {| j_Format := 1; j_Versions := drop n vs |} = Some b' → max_journal <= blen b'.
Proof.
  induction vs as [|v vs IH]; intros Hf; cbn [fit_journal] in Hf.
  - destruct (marshal_journal {| j_Format := 1; j_Versions := [] |}) as [b0|] eqn:Em; [|done].
    destruct (Z.ltb_spec (blen b0) max_journal); [|done]. injection Hf as <- <-. exists []. split_and!; try done.
    intros n b' Hn. simpl in Hn. lia.
  - destruct (marshal_journal {| j_Format := 1; j_Versions := v :: vs |}) as [b0|] eqn:Em; [|done].
    destruct (Z.ltb_spec (blen b0) max_journal).
    + injection Hf as <- <-. exists []. split_and!; try done. intros n b' Hn. simpl in Hn. lia.
    + destruct vs as [|v' vs]; [done|]. destruct (IH Hf) as (d & E & Hne & Hm & Hb & Hmax).
      exists (v :: d). split_and!; [by rewrite E|intros _; by apply Hne|done|done|].
      intros [|n] b' Hn Hb'; [simpl in Hb'; congruence|]. apply (Hmax n); [simpl in Hn; lia|exact Hb'].
Qed.

Lemma readJournal_written fs path vs b :
  vs ≠ [] → (length vs ≤ max_versions)%nat → versions_ok 0 vs → Forall faithful vs →
  marshal_journal {| j_Format := 1; j_Versions := vs |} = Some b → blen b < max_journal →
  readJournal (<[path := b]> fs) path = Ok vs.
Proof.
  intros Hne Hlen Hok Hf Hm Hb. unfold readJournal. rewrite lookup_insert_eq.
  destruct (Z.ltb_spec max_journal (blen b)); [lia|]. rewrite (journal_roundtrip _ _ Hm Hf). cbn [j_Format j_Versions].
  rewrite bool_decide_false by done. destruct (Nat.ltb_spec max_versions (length vs)); [lia|]. cbn [negb orb Z.eqb Pos.eqb].
  by rewrite (proj2 (check_versions_ok 0 vs) Hok).
Qed.

(** ** Atomic replacement *)

(** ** The service *)

Record service_ok (s : Service) : Prop := {
  so_some : sv_versions s ≠ [];
  so_length : (length (sv_versions s) ≤ max_versions)%nat;
  so_versions : versions_ok 0 (sv_versions s);
  so_faithful : Forall faithful (sv_versions s) }.

(** The journal file holds the versions, or there is none yet. *)
Definition stored (s : Service) (fs : files) : Prop :=
  readJournal fs (sv_path s) = Ok (sv_versions s) ∨ (fs !! sv_path s = None ∧ length (sv_versions s) = 1%nat).

Lemma newest_last s : sv_versions s ≠ [] → last (sv_versions s) = Some (newest s).
Proof. unfold newest. intros Hne. destruct (last (sv_versions s)) eqn:E; [done|]. by apply last_None in E. Qed.

Lemma preview_ok s now expected next v :
  preview s now expected next = Ok v ↔
  expected = v_Revision (newest s) ∧ Validate next = Ok tt ∧ (∃ b, marshal next = Some b ∧ blen b <= max_config)
  ∧ ∃ c, Clone next = Some c ∧ v = {| v_Revision := u64 (expected + 1); v_CreatedAt := now; v_Summary := ""; v_Config := c |}.
Proof.
  unfold preview. rewrite reject_ok, negb_false_iff, Z.eqb_eq, res_bind_ok. split.
  - intros (-> & [] & Hv & Hk). destruct (marshal next) as [b|]; [|done]. apply reject_ok in Hk as [Hb%Z.ltb_ge Hk].
    destruct (Clone next) as [c|]; [|done]. injection Hk as <-. eauto 10.
  - intros (-> & Hv & (b & -> & Hb) & c & -> & ->). split; [done|]. exists tt. split; [done|].
    destruct (Z.ltb_spec max_config (blen b)); [lia|done].
Qed.

(** The version a change creates. *)
Definition created (s : Service) (now : Z) (c : Config) (summary : string) : Version :=
  {| v_Revision := v_Revision (newest s) + 1; v_CreatedAt := now; v_Summary := summary; v_Config := c |}.

Lemma faithful_clone c now r summary next : Clone next = Some c → ValidString summary = true →
  faithful {| v_Revision := r; v_CreatedAt := now; v_Summary := summary; v_Config := c |}.
Proof. intros Hc%clone_idem Hs. by split. Qed.

Lemma cloneVersion_faithful v : faithful v → cloneVersion v = v.
Proof. intros [Hc _]. unfold cloneVersion. rewrite Hc. by destruct v. Qed.

(** What [persist] does with the versions it keeps. *)
Lemma persist_spec s env fs v prepared undo commit :
  service_ok s → w_temp env ≠ sv_path s → v_Revision (newest s) < v_Revision v → Validate (v_Config v) = Ok tt → faithful v →
  let a := persist s env fs v prepared undo commit in
  match ap_result a with
  | Ok v' =>
      v' = v ∧ service_ok (ap_service a) ∧ newest (ap_service a) = v ∧ sv_path (ap_service a) = sv_path s
      ∧ sv_prepare (ap_service a) = sv_prepare s ∧ sv_versions (ap_service a) `suffix_of` (sv_versions s ++ [v])%list
      ∧ readJournal (final fs (ap_files a)) (sv_path s) = Ok (sv_versions (ap_service a)) ∧ ap_log a = (prepared ++ commit)%list
  | Err _ => ap_service a = s ∧ final fs (ap_files a) !! sv_path s = fs !! sv_path s ∧ ap_log a = (prepared ++ undo)%list
  end
  ∧ ∀ fs', fs' ∈ ap_files a → fs' !! sv_path s = fs !! sv_path s
  ∨ (is_ok (ap_result a) = true ∧ readJournal fs' (sv_path s) = Ok (sv_versions (ap_service a))).
Proof.
  intros Hs Hne Hrev Hval Hfaith. unfold persist. set (all := (sv_versions s ++ [v])%list).
  destruct (fit_journal (drop (length all - max_versions) all)) as [[vs b]|e] eqn:Ef.
  2:{ cbn. split; [done|]. by intros ? ?%not_elem_of_nil. }
  apply fit_journal_spec in Ef as (d & Ed & Hnon & Hm & Hb & _).
  assert (Hall : versions_ok 0 all).
  { apply versions_ok_snoc. split_and!; [apply Hs|rewrite newest_last by apply Hs; done|done]. }
  assert (Hfall : Forall faithful all) by (apply Forall_app; split; [apply Hs|by constructor]).
  assert (Hvs : vs ≠ []). { apply Hnon. intros E%(f_equal length). unfold all, max_versions in E. rewrite length_drop, length_app in E. simpl in E. lia. }
  assert (Hsuf : vs `suffix_of` all).
  { exists (take (length all - max_versions) all ++ d)%list. rewrite <-app_assoc, <-Ed. by rewrite take_drop. }
  assert (Hok : service_ok {| sv_path := sv_path s; sv_versions := vs; sv_prepare := sv_prepare s |}).
  { destruct Hsuf as [p Ep]. rewrite Ep in Hall, Hfall. split; cbn [sv_versions]; [done| | |].
    - apply (f_equal length) in Ed. rewrite length_drop, length_app in Ed. lia.
    - by eapply versions_ok_app_r.
    - by apply Forall_app in Hfall as [_ ?]. }
  assert (Hnew : last vs = Some v).
  { destruct Hsuf as [p Ep]. unfold all in Ep. apply (f_equal last) in Ep. rewrite last_snoc, last_app in Ep.
    destruct (last vs) eqn:E; [congruence|]. by apply last_None in E. }
  assert (Hread : ∀ fs', readJournal (<[sv_path s := b]> fs') (sv_path s) = Ok vs).
  { intros fs'. by apply readJournal_written; [|apply Hok..| |]. }
  assert (Hread' : ∀ fs', fs' !! sv_path s = Some b → readJournal fs' (sv_path s) = Ok vs).
  { intros fs' E. rewrite <-(insert_id fs' (sv_path s) b E). apply Hread. }
  destruct (atomicWrite env (sv_path s) b fs) as [r trace] eqn:Ew.
  destruct (atomicWrite_spec _ _ _ _ _ _ Hne Ew) as [Hfin Htr].
  destruct r as [[]|e]; cbn [failed ap_result ap_service ap_files ap_log sv_versions sv_path sv_prepare is_ok].
  - split.
    + split_and!; try done; [by apply cloneVersion_faithful| |].
      * unfold newest. cbn [sv_versions]. by rewrite Hnew.
      * apply Hread'. rewrite Hfin by done. by rewrite bool_decide_true.
    + intros fs' Hfs. destruct (Htr fs' Hfs (sv_path s)) as [?|(_ & _ & E)]; [done|by left|right]. by split; [|apply Hread'].
  - split; [split_and!; [done| |done]; by rewrite Hfin|].
    intros fs' Hfs. destruct (Htr fs' Hfs (sv_path s)) as [?|([=] & _)]; [done|by left].
Qed.

(** The log of a change that reached the runtime, and of one that failed. *)
Definition committed_log (s : Service) (c : Config) : list runtime_event :=
  match sv_prepare s with Some _ => [Prepared c; Committed c] | None => [] end.

Lemma apply_spec s env fs now expected next summary :
  service_ok s → w_temp env ≠ sv_path s → v_Revision (newest s) + 1 < two64 → ValidString summary = true →
  let a := apply s env fs now expected next summary in
  match ap_result a with
  | Ok v =>
      expected = v_Revision (newest s) ∧ Validate next = Ok tt
      ∧ (∃ c, Clone next = Some c ∧ v = created s now c summary ∧ ap_log a = committed_log s c)
      ∧ service_ok (ap_service a) ∧ newest (ap_service a) = v ∧ sv_path (ap_service a) = sv_path s
      ∧ sv_prepare (ap_service a) = sv_prepare s ∧ sv_versions (ap_service a) `suffix_of` (sv_versions s ++ [v])%list
      ∧ readJournal (final fs (ap_files a)) (sv_path s) = Ok (sv_versions (ap_service a))
  | Err _ =>
      ap_service a = s ∧ final fs (ap_files a) !! sv_path s = fs !! sv_path s
      ∧ (ap_log a = [] ∨ ∃ c, ap_log a = [Prepared c; Discarded c]
        ∨ ap_log a = [Prepared c] ∧ ∃ p x y, sv_prepare s = Some p ∧ p c = Ok (x, y) ∧ x && y = false)
  end
  ∧ ∀ fs', fs' ∈ ap_files a → fs' !! sv_path s = fs !! sv_path s
  ∨ (is_ok (ap_result a) = true ∧ readJournal fs' (sv_path s) = Ok (sv_versions (ap_service a))).
Proof.
  intros Hs Hne Hmax Hsum.
  assert (Hfail : ∀ e log, (log = [] ∨ ∃ c, log = [Prepared c] ∧ ∃ p x y, sv_prepare s = Some p ∧ p c = Ok (x, y) ∧ x && y = false) →
    let a := failed s e [] log in
    (ap_service a = s ∧ final fs (ap_files a) !! sv_path s = fs !! sv_path s
    ∧ (ap_log a = [] ∨ ∃ c, ap_log a = [Prepared c; Discarded c]
    ∨ ap_log a = [Prepared c] ∧ ∃ p x y, sv_prepare s = Some p ∧ p c = Ok (x, y) ∧ x && y = false))
    ∧ ∀ fs', fs' ∈ ap_files a → fs' !! sv_path s = fs !! sv_path s
    ∨ (is_ok (ap_result a) = true ∧ readJournal fs' (sv_path s) = Ok (sv_versions (ap_service a)))).
  { intros e log Hlog. cbn. split; [split_and!; [done|done|]; naive_solver|]. by intros ? ?%not_elem_of_nil. }
  unfold apply. destruct (preview s now expected next) as [v0|e] eqn:Ep; [|by apply Hfail; left].
  destruct (512 <? slen summary); [by apply Hfail; left|].
  apply preview_ok in Ep as (-> & Hval & _ & c & Hc & ->). unfold set_summary. cbn [v_Revision v_CreatedAt v_Config].
  assert (Hpos : 0 <= v_Revision (newest s)).
  { pose proof (so_versions _ Hs) as Hv. pose proof (newest_last s (so_some _ Hs)) as Hl.
    destruct (sv_versions s) as [|x l _] using rev_ind; [done|]. rewrite last_snoc in Hl. injection Hl as <-.
    apply versions_ok_app_r in Hv. cbn [versions_ok] in Hv. lia. }
  rewrite u64_small by (unfold is_u64; lia). change {| v_Revision := _; v_CreatedAt := _; v_Summary := _; v_Config := c |} with (created s now c summary).
  assert (Hper : ∀ prepared undo commit, _) by exact (λ prepared undo commit, persist_spec s env fs (created s now c summary) prepared undo commit
    Hs Hne ltac:(cbn; lia) (clone_valid _ _ Hval Hc) (faithful_clone _ _ _ _ _ Hc Hsum)).
  unfold committed_log. destruct (sv_prepare s) as [prepare|] eqn:Eprep.
  - destruct (prepare c) as [[x y]|e] eqn:Ec; [|by apply Hfail; left].
    destruct (negb x || negb y) eqn:Exy.
    { apply Hfail. right. exists c. split; [done|]. exists prepare, x, y. split_and!; [done|done|]. by destruct x, y. }
    specialize (Hper [Prepared c] [Discarded c] [Committed c]). cbv zeta in Hper. destruct (ap_result _) as [v|e].
    + destruct Hper as [(-> & ? & ? & ? & ? & ? & ? & ?) ?]. split; [|done]. split_and!; try done. by exists c.
    + destruct Hper as [(? & ? & ?) ?]. split; [|done]. split_and!; try done. right. exists c. by left.
  - specialize (Hper [] [] []). cbv zeta in Hper. destruct (ap_result _) as [v|e].
    + destruct Hper as [(-> & ? & ? & ? & ? & ? & ? & ?) ?]. split; [|done]. split_and!; try done. by exists c.
    + destruct Hper as [(? & ? & ?) ?]. split; [|done]. split_and!; try done. by left.
Qed.

End Facts.
