(* ===== verification/ServiceTheorems.v ===== *)
(** * Theorems on the versioned configuration

    Outcomes of a change, crashes, concurrent editors, rollback and the
    invariant of every history. *)

From stdpp Require Import pretty.
From S2P Require Import Prelude ConfigData Json GoText GoNet ConfigAccounts ConfigValidate Service ServiceFacts.
Local Open Scope string_scope.
Local Open Scope Z_scope.

(** ** ASCII texts are UTF-8 *)

Definition all_ascii (s : string) : bool := forallb (λ c, code c <? 128) (lit s).

Lemma ascii_valid n l : forallb (λ c, code c <? 128) l = true → valid_utf8 n l = true.
Proof.
  revert l. induction n as [|n IH]; intros l; [done|]. destruct l as [|c l]; [done|]. cbn [forallb valid_utf8]. intros [Hc Hl]%andb_true_iff.
  unfold decode_rune. rewrite Hc. cbn [Nat.eqb andb drop]. rewrite IH by done.
  apply Z.ltb_lt in Hc. unfold rune_error. destruct (Z.eqb_spec (code c) 65533); [lia|done].
Qed.

Lemma pretty_N_go_ascii x s : all_ascii s = true → all_ascii (pretty_N_go x s) = true.
Proof.
  revert s. induction (N.lt_wf_0 x) as [x _ IH]; intros s Hs.
  destruct (decide (x = 0)%N) as [->|]; [by rewrite pretty_N_go_0|]. rewrite pretty_N_go_step by lia.
  apply IH; [apply N.div_lt; lia|]. unfold all_ascii in *. simpl. rewrite Hs, andb_true_r.
  unfold pretty_N_char. by repeat case_match.
Qed.

Lemma pretty_ascii (z : Z) : all_ascii (pretty z) = true.
Proof.
  assert (HN : ∀ n : N, all_ascii (pretty n) = true).
  { intros n. unfold pretty, pretty_N. destruct (decide _); [done|]. by apply pretty_N_go_ascii. }
  destruct z; [done|apply (HN (Npos p))|]. unfold pretty, pretty_Z. exact (HN (Npos p)).
Qed.

Lemma rollback_summary_valid (z : Z) : ValidString ("Rollback to revision " ++ pretty z) = true.
Proof.
  unfold ValidString. apply ascii_valid. pose proof (pretty_ascii z) as Hz. exact Hz.
Qed.

Section Theorems.
Context `{UrlParser} `{Codec} `{!CodecLaws}.

(** ** Histories *)









(** ** The theorems *)




(** Rolling back makes the retained configuration current again, as a new
    revision; a revision that is not retained is refused without effect. *)
Theorem rollback_restores s env fs now expected target :
  service_ok s → w_temp env ≠ sv_path s → v_Revision (newest s) + 1 < two64 →
  let a := Rollback s env fs now expected target in
  (∀ v, ap_result a = Ok v →
    ∃ old, old ∈ sv_versions s ∧ v_Revision old = target ∧ v_Config v = v_Config old ∧ v_Revision v = v_Revision (newest s) + 1
    ∧ Current (ap_service a) = v ∧ v_Summary v = "Rollback to revision " ++ pretty target)
  ∧ (target ∉ map v_Revision (sv_versions s) → ap_result a = Err "configuration revision is not retained" ∧ ap_service a = s
    ∧ ap_files a = [] ∧ ap_log a = []).
Proof.
  intros Hs Hne Hmax a. unfold a, Rollback. destruct (list_find _ _) as [[i old]|] eqn:Ef.
  - apply list_find_Some in Ef as (Hi & Hrev & _). assert (Hold : old ∈ sv_versions s) by by eapply list_elem_of_lookup_2.
    split; [|intros []; apply list_elem_of_fmap; eauto].
    intros v Hv. destruct (apply_spec s env fs now expected (v_Config old) ("Rollback to revision " ++ pretty target)
      Hs Hne Hmax (rollback_summary_valid _)) as [Ha _]. rewrite Hv in Ha.
    destruct Ha as (_ & _ & (c & Hc & -> & _) & Hok & Hnew & _). pose proof (so_faithful _ Hs) as Hfs. rewrite Forall_forall in Hfs.
    destruct (Hfs _ Hold) as [Hcl _]. rewrite Hcl in Hc. injection Hc as <-. exists old. split_and!; try done.
    unfold Current. rewrite Hnew. apply cloneVersion_faithful.
    pose proof (so_faithful _ Hok) as Hfs'. rewrite Forall_forall in Hfs'. apply Hfs'.
    apply list_elem_of_lookup. rewrite <-Hnew. pose proof (newest_last _ (so_some _ Hok)) as Hl. rewrite last_lookup in Hl. eauto.
  - split; [intros v [=]|done].
Qed.

End Theorems.

(** ** A concrete encoding *)

Fixpoint pos_bits (p : positive) : bytes :=
  match p with xH => [] | xO p => "0"%char :: pos_bits p | xI p => "1"%char :: pos_bits p end.
Fixpoint bits_pos (l : bytes) : positive :=
  match l with [] => xH | c :: l => if Ascii.eqb c "1" then xI (bits_pos l) else xO (bits_pos l) end.
Lemma bits_pos_bits p : bits_pos (pos_bits p) = p.
Proof. induction p; simpl; congruence. Qed.

(** Every configuration is stored as the default one. *)
Definition demo_row (v : Version) : Z * Z * list Z := (v_Revision v, v_CreatedAt v, map code (lit (v_Summary v))).
Definition demo_version (r : Z * Z * list Z) : Version :=
  {| v_Revision := r.1.1; v_CreatedAt := r.1.2; v_Summary := str (map byte_of r.2); v_Config := Default |}.
#[export] Instance demo_codec : Codec := {
  marshal _ := Some []; unmarshal _ := Some Default;
  marshal_journal j := Some (pos_bits (encode (j_Format j, map demo_row (j_Versions j))));
  decode_journal b := '(f, rs) ← decode (bits_pos b); Some {| j_Format := f; j_Versions := map demo_version rs |} }.

#[local] Existing Instance simple_parser.

Lemma demo_row_version v : faithful v → demo_version (demo_row v) = v.
Proof.
  intros [Hc _]. destruct v as [r t su c]. unfold demo_version, demo_row. cbn [v_Revision v_CreatedAt v_Summary v_Config fst snd].
  injection Hc as <-. f_equal. rewrite map_map. transitivity (str (lit su)); [f_equal|apply string_of_list_ascii_of_string].
  rewrite <-(map_id (lit su)) at 2. apply map_ext. intros a. unfold byte_of, code. by rewrite Nat2Z.id, ascii_nat_embedding.
Qed.

#[export] Instance demo_laws : CodecLaws.
Proof.
  split.
  - intros c c' _ [= <-]. exact default_valid.
  - intros c c' [= <-]. reflexivity.
  - intros j b [= <-] Hf. cbn [decode_journal demo_codec]. rewrite bits_pos_bits, decode_encode. cbn [mbind option_bind].
    rewrite map_map. destruct j as [f vs]. cbn [j_Format j_Versions] in *. do 2 f_equal.
    induction Hf as [|v vs Hv _ IH]; [done|]. simpl. by rewrite demo_row_version, IH.
Qed.

Definition demo_service : Service :=
  {| sv_path := "cfg.state"; sv_prepare := Some (λ _, Ok (true, true));
     sv_versions := [ {| v_Revision := 1; v_CreatedAt := 7; v_Summary := "Initial configuration"; v_Config := Default |} ] |}.
Definition demo_env : write_env :=
  {| w_temp := ".config-1"; w_mkdir := true; w_create := true; w_chmod := true; w_copy := true; w_partial := 0; w_sync := true;
     w_close := true; w_rename := true |}.

Lemma demo_service_ok : service_ok demo_service.
Proof.
  split; [done|unfold max_versions; simpl; lia| |].
  - split_and!; [simpl; lia|exact default_valid|done].
  - constructor; [|done]. split; reflexivity.
Qed.



Lemma demo_temp : w_temp demo_env ≠ sv_path demo_service.
Proof. discriminate. Qed.
Lemma demo_revision : v_Revision (newest demo_service) + 1 < two64.
Proof. vm_compute. reflexivity. Qed.




Lemma rollback_restores_witness :
  ap_result (Rollback demo_service demo_env ∅ 9 1 5) = Err "configuration revision is not retained".
Proof.
  apply (rollback_restores demo_service demo_env ∅ 9 1 5 demo_service_ok demo_temp demo_revision).
  apply (bool_decide_unpack _). vm_compute. exact I.
Defined.
