(* ===== verification/Program.v ===== *)
(** * Handlers as programs

    A request handler is a tree of effects: each node asks the shared server
    or its surroundings for an answer and continues with it.  The tree says
    what a handler does without fixing what the other handlers do meanwhile;
    [safe] checks a program against a monitor, whatever the answers are. *)

From S2P Require Import Prelude.

Section Programs.
Context {E : Type → Type}.

Inductive prog (A : Type) : Type :=
| Ret (a : A)
| Do {R : Type} (e : E R) (k : R → prog A).
Arguments Ret {A} a.
Arguments Do {A R} e k.

Definition trigger {R} (e : E R) : prog R := Do e Ret.

Fixpoint prog_bind {A B} (f : A → prog B) (p : prog A) : prog B :=
  match p with
  | Ret a => f a
  | Do e k => Do e (λ x, prog_bind f (k x))
  end.

#[export] Instance prog_mbind : MBind prog := λ A B f p, prog_bind f p.
#[export] Instance prog_mret : MRet prog := λ A a, Ret a.

(** A monitor follows the effects of one handler: [mon e x s s'] when, in
    state [s], effect [e] is allowed, may be answered by [x], and leads to
    [s'].  An effect the monitor forbids has [allowed e s] false. *)
Record monitor (S : Type) := {
  allowed : ∀ {R}, E R → S → Prop;
  answers : ∀ {R}, E R → R → S → S → Prop }.
Arguments allowed {S} _ {R}.
Arguments answers {S} _ {R}.

Section Safe.
Context {S : Type} (m : monitor S).

(** Every effect of [p] is allowed, and [Q] holds where it ends. *)
Fixpoint safe {A} (p : prog A) (Q : A → S → Prop) (s : S) : Prop :=
  match p with
  | Ret a => Q a s
  | Do e k => allowed m e s ∧ ∀ x s', answers m e x s s' → safe (k x) Q s'
  end.

Lemma safe_bind {A B} (p : prog A) (f : A → prog B) Q s :
  safe (p ≫= f) Q s ↔ safe p (λ a, safe (f a) Q) s.
Proof.
  revert s. induction p as [a|R e k IH]; intros s; [done|]. simpl. split; intros [Ha Hk]; (split; [done|]).
  - intros x s' Hx. by apply IH, Hk.
  - intros x s' Hx. by apply IH, Hk.
Qed.

Lemma safe_mono {A} (p : prog A) (Q Q' : A → S → Prop) s :
  (∀ a s, Q a s → Q' a s) → safe p Q s → safe p Q' s.
Proof.
  intros HQ. revert s. induction p as [a|R e k IH]; intros s; simpl; [apply HQ|]. intros [Ha Hk]. split; [done|].
  intros x s' Hx. by apply IH, Hk.
Qed.

Lemma safe_trigger {R} (e : E R) (Q : R → S → Prop) s :
  safe (trigger e) Q s ↔ allowed m e s ∧ ∀ x s', answers m e x s s' → Q x s'.
Proof. done. Qed.

Lemma safe_if {A} (b : bool) (p q : prog A) Q s :
  safe (if b then p else q) Q s ↔ (b = true → safe p Q s) ∧ (b = false → safe q Q s).
Proof. destruct b; naive_solver. Qed.

End Safe.
End Programs.

Arguments prog E A : clear implicits.
Arguments monitor E S : clear implicits.
Arguments Ret {E A} a.
Arguments Do {E A R} e k.
Arguments allowed {E S} _ {R}.
Arguments answers {E S} _ {R}.
