(* ===== verification/Gateway.v ===== *)
(** * The generation endpoint ([internal/api/server.go], [attempts.go],
    [stream.go])

    The handlers that admit a request, choose and call an upstream, and relay
    its answer, as programs over the effects of the server: its byte budget
    and ingress slots, the router, the upstream clients, the clock and
    contexts, and the response writer.  A deferred call is a step after the
    body it defers over, which returns (with [x_aborted] set when it panicked)
    the locals the deferred call reads. *)

From stdpp Require Import pretty.
From S2P Require Import Prelude GoFloat ConfigData Execution RouterData RouterPolicy RouterOps Json Request GoText Sse Observer Program.
Local Open Scope string_scope.
Local Open Scope Z_scope.

(** ** The requests and responses of the HTTP layer *)

Inductive read_error := ReadEOF | UnexpectedEOF | NoProgress | ReadFailed.

(** What a body will deliver: each item by one or more reads, with the error
    that comes with its last byte; at the end of the list every read is
    [io.EOF]. *)
Definition reader : Type := list (bytes * option read_error).

(** [r.Read(p)] with [n = len(p)] *)
Definition Read (n : nat) (r : reader) : bytes * option read_error * reader :=
  match r with
  | [] => ([], Some ReadEOF, [])
  | (b, e) :: r' =>
      if (n <? length b)%nat then (take n b, None, (drop n b, e) :: r')
      else (b, e, match e with None => r' | Some _ => [([], e)] end)
  end.

Record http_request := {
  ht_ContentLength : Z; ht_Body : reader; ht_Session : string; ht_Affinity : string }.

Record response := {
  rs_StatusCode : Z; rs_Header : gmap string string; rs_Body : reader }.

(** [upstream.TransportError] and errors that classify themselves by
    [HTTPStatus]. *)
Record upstream_error := { ue_transport : option bool; ue_HTTPStatus : option Z }.

Definition header (r : response) (key : string) : string := default "" (rs_Header r !! key).

(** Everything the body still holds, and whether it ends cleanly. *)
Fixpoint body_bytes (r : reader) : bytes * bool :=
  match r with
  | [] => ([], true)
  | (b, None) :: r' => let '(bs, eof) := body_bytes r' in ((b ++ bs)%list, eof)
  | (b, Some e) :: _ => (b, match e with ReadEOF => true | _ => false end)
  end.

(** ** Effects *)

Inductive counter := Requests | Rejected | OutputBytes | StreamErrors.
(** The two contexts of a request: that of the connection, and the one with
    the request timeout derived from it. *)
Inductive context := ConnectionCtx | RequestCtx.

Inductive failure := AcquireFailed (e : acquire_error) | UpstreamFailed (e : upstream_error).
(** The text of an error response: the handler's own, or that of an error. *)
Inductive message := Text (s : string) | InspectText (e : inspect_error) | FailureText (e : failure).

Inductive eff : Type → Type :=
| Add (k : counter) (n : Z) : eff unit
| Enter : eff bool
| Leave : eff unit
| Reserve (n : Z) : eff bool
| AddBuffered (n : Z) : eff unit
| CtxErr (which : context) : eff bool
| Acquire (q : Query) : eff (res acquire_error (loc * Target))
| CallUpstream (source : nat) (proto model : string) (stream : bool) (payload : bytes) : eff (res upstream_error response)
| CloseBody : eff unit
| Until (t : Z) : eff Z
| DoRelease (l : loc) (status cooldown : Z) : eff unit
| DoRecord (l : loc) (result : ExecutionResult) : eff unit
| DoFirstOutput (l : loc) : eff unit
| SetHeader (key value : string) : eff unit
| WriteHeader (status : Z) : eff unit
| Write (b : bytes) : eff (Z * bool)
| Flush : eff bool
| Fail (status : Z) (m : message) : eff unit.

Notation handler := (prog eff).
Notation "# e" := (trigger e) (at level 8, e at level 9) : go_scope.

(** HTTP dates, parsed by [net/http]: the instant, if the text is a date. *)
Class TimeParser := ParseTime : string → option Z.

(** [strconv.Atoi] *)
Definition Atoi (s : string) : option Z :=
  match lit s with
  | c :: l =>
      let '(sign, digits) := if ascii_in c "+-" then ((if Ascii.eqb c "-" then -1 else 1), l) else (1, c :: l) in
      if bool_decide (digits ≠ []) && forallb is_digit digits then
        let n := sign * digits_value digits in
        if (- two63 <=? n) && (n <? two63) then Some n else None
      else None
  | [] => None
  end.

Section Server.
Context (c : Config) `{TimeParser} (is_print : Z → bool).
Definition source_at (i : nat) : Source := default zero_Source (c_Sources c !! i).

(** ** Attempts *)

Fixpoint attempt_loop (id : string) (groups : list Group) : Z :=
  match groups with
  | [] => 1
  | g :: groups =>
      if negb (g_ID g =s id) || (g_Type g =s "select") then attempt_loop id groups
      else if 0 <? g_MaxAttempts g then g_MaxAttempts g
      else if g_Type g =s "fallback" then Z.max 1 (Z.min 8 (Z.of_nat (length (g_Sources g))))
      else attempt_loop id groups
  end.

Definition attemptLimit (q : Query) : Z :=
  if qr_Stateful q then 1
  else attempt_loop (if has_prefix (qr_Model q) "auto/" then "auto" else qr_Model q) (c_Groups c).

Definition native_adapters : list string := ["openai"; "anthropic"; "gemini"].
Definition api_kinds : list string := ["vendor_api"; "cloud_api"; "aggregator_api"; "custom_api"; "local_model"].

Definition rejectedBeforeGeneration (source : Source) (status : Z) : bool :=
  contains native_adapters (s_Adapter source)
  && (contains api_kinds (s_SourceKind source) && ((status =? 401) || (status =? 403) || (status =? 429))).

(** A duration in nanoseconds. *)
Definition retryAfter (v : string) : handler Z :=
  match Atoi v with
  | Some n => Ret (Z.max 0 (Z.min n 86400) * second)
  | None =>
      match ParseTime v with
      | Some t => d ← # (Until t); Ret (Z.max 0 (Z.min d day))
      | None => Ret (30 * second)
      end
  end.

Definition with_attempt (spent : float64) (excluded : list string) (q : Query) : Query :=
  {| qr_Probe := qr_Probe q; qr_Detail := qr_Detail q; qr_ExcludedSources := excluded; qr_Affinity := qr_Affinity q;
     qr_Model := qr_Model q; qr_Protocol := qr_Protocol q; qr_Tools := qr_Tools q; qr_Bytes := qr_Bytes q;
     qr_OutputTokens := qr_OutputTokens q; qr_SpentUSD := spent; qr_Stateful := qr_Stateful q; qr_Vision := qr_Vision q |}.

(** The attempt just made counts against the budget when a response proves it
    reached the upstream; its source is not tried again. *)
Definition next_attempt (t : Target) (reached : bool) (q : Query) : Query :=
  let '(cost, known) := estimatedRequestCost (t_Model t) q in
  with_attempt (if reached && known then fadd (qr_SpentUSD q) cost else qr_SpentUSD q)
    (qr_ExcludedSources q ++ [s_ID (source_at (t_Source t))])%list q.

(** [acquireResponse], with [left] = [limit - attempt] attempts left. *)
Fixpoint acquire_loop (left : nat) (q : Query) (stream : bool) (payload : string → bytes)
    : handler (option (loc * Target) * option response * option failure) :=
  match left with
  | O => Ret (None, None, None)
  | S left' =>
      got ← # (Acquire q);
      match got with
      | Err e => Ret (None, None, Some (AcquireFailed e))
      | Ok (lease, t) =>
          let model := m_Upstream (t_Model t) in
          out ← # (CallUpstream (t_Source t) (qr_Protocol q) model stream (payload model));
          '(safe, status, cooldown) ←
            match out with
            | Err e => Ret (default false (ue_transport e), 502, 0)
            | Ok resp =>
                d ← retryAfter (header resp "Retry-After");
                Ret (rejectedBeforeGeneration (source_at (t_Source t)) (rs_StatusCode resp), rs_StatusCode resp, d)
            end;
          stop ← (if negb safe || (left' =? 0)%nat then Ret true else # (CtxErr RequestCtx));
          if (stop : bool) then
            Ret (Some (lease, t), match out with Ok r => Some r | Err _ => None end,
                 match out with Ok _ => None | Err e => Some (UpstreamFailed e) end)
          else
            let q' := next_attempt t (match out with Ok _ => true | Err _ => false end) q in
            (match out with Ok _ => # CloseBody | Err _ => Ret tt end) ;;
            # (DoRelease lease status cooldown) ;;
            acquire_loop left' q' stream payload
      end
  end.

Definition acquireResponse (q : Query) (stream : bool) (payload : string → bytes)
    : handler (option (loc * Target) * option response * option failure) :=
  acquire_loop (Z.to_nat (attemptLimit q)) q stream payload.

(** ** Streams ([streamResponse]) *)

(** [recordUsage], and the other fields of the result. *)
Definition stream_result (transport complete : bool) (error : string) (canceled : bool) (o : CompletionObserver)
    : ExecutionResult :=
  {| er_InputTokens := o_InputTokens o; er_OutputTokens := o_OutputTokens o; er_TotalTokens := o_TotalTokens o;
     er_UsageKnown := o_UsageSeen o; er_UpstreamStatus := 0; er_TransportOK := transport; er_ProtocolComplete := complete;
     er_UpstreamError := error; er_ClientCanceled := canceled |}.

Definition stream_limit : Z := Z.min (rt_MaxOutputBytes (c_Runtime c)) (2 ^ 20).

(** One turn of the loop per frame, from the bytes of the body still unread. *)
Fixpoint stream_loop (fuel : nat) (eof : bool) (lease : loc) (body : bytes) (o : CompletionObserver)
    (sent observedOutput : bool) (total : Z) : handler (ExecutionResult * bool) :=
  match fuel with
  | O => Ret (stream_result false false "" false o, sent)
  | S fuel =>
      match Next sse_buffer stream_limit eof body with
      | (Err SseEOF, _) =>
          Ret (stream_result true (o_Complete o) (if o_Complete o then "" else "missing_completion") false o, sent)
      | (Err _, _) =>
          canceled ← # (CtxErr ConnectionCtx);
          Ret (stream_result false false "truncated_stream" canceled o, sent)
      | (Ok frame, body) =>
          let total := total + Z.of_nat (length frame) in
          if rt_MaxOutputBytes (c_Runtime c) <? total then Ret (stream_result false false "output_limit" false o, sent)
          else
            let o := Observe frame o in
            if negb (o_Error o =s "") then Ret (stream_result false false (o_Error o) false o, sent)
            else
              (if o_SawOutput o && negb observedOutput then # (DoFirstOutput lease) else Ret tt) ;;
              let observedOutput := o_SawOutput o || observedOutput in
              '(n, ok) ← # (Write frame);
              # (Add OutputBytes n) ;;
              if negb ok then Ret (stream_result false false "" true o, true)
              else
                flushed ← # Flush;
                if negb flushed then Ret (stream_result false false "" true o, true)
                else if o_Terminal o then Ret (stream_result true (o_Complete o) "" false o, true)
                else stream_loop fuel eof lease body o true observedOutput total
      end
  end.

Definition streamResponse (body : bytes) (eof : bool) (proto : string) (lease : loc) : handler (ExecutionResult * bool) :=
  stream_loop (S (length body)) eof lease body (new_observer proto) false false 0.

(** ** Admission *)

Definition endpoint (path : string) : string * string * bool :=
  if path =s "/v1/chat/completions" then ("chat", "", false)
  else if path =s "/v1/responses" then ("responses", "", false)
  else if path =s "/v1/messages" then ("messages", "", false)
  else if has_prefix path "/v1beta/models/" then
    let v := trim_prefix path "/v1beta/models/" in
    if has_suffix v ":generateContent" then ("gemini", trim_suffix v ":generateContent", false)
    else if has_suffix v ":streamGenerateContent" then ("gemini", trim_suffix v ":streamGenerateContent", true)
    else ("", "", false)
  else ("", "", false).

Definition statusToClient (n : Z) : Z := if (400 <=? n) && (n <=? 599) then n else 502.

(** The chunked body: a buffer of capacity [cap] that doubles up to [limit]. *)
Fixpoint read_chunks (fuel : nat) (limit cap : nat) (body : bytes) (emptyReads : nat) (r : reader)
    : bytes * nat * option read_error :=
  match fuel with
  | O => (body, cap, Some NoProgress)
  | S fuel =>
      if (limit <=? length body)%nat then (body, cap, None)
      else
        let cap := (if length body =? cap then Nat.min (cap * 2) limit else cap)%nat in
        let '(got, err, r) := Read (cap - length body) r in
        let body := (body ++ got)%list in
        match err with
        | Some ReadEOF => (body, cap, None)
        | Some e => (body, cap, Some e)
        | None =>
            if bool_decide (got = []) then
              if (S emptyReads =? 100)%nat then (body, cap, Some NoProgress)
              else read_chunks fuel limit cap body (S emptyReads) r
            else read_chunks fuel limit cap body 0 r
        end
  end.

(** [io.ReadFull(io.LimitReader(r, n), buf)] with [len(buf) = n]. *)
Fixpoint read_full (fuel : nat) (n : nat) (body : bytes) (r : reader) : bytes * option read_error :=
  match fuel with
  | O => (body, Some NoProgress)
  | S fuel =>
      if (n <=? length body)%nat then (body, None)
      else
        let '(got, err, r) := Read (n - length body) r in
        let body := (body ++ got)%list in
        match err with
        | None => read_full fuel n body r
        | Some e =>
            if (n <=? length body)%nat then (body, None)
            else (body, Some (match e with ReadEOF => if bool_decide (body = []) then ReadEOF else UnexpectedEOF | _ => e end))
        end
  end.

(** Enough turns for any body: one per byte, item and limit. *)
Definition read_fuel (r : reader) : nat := (length r + length (concat (map fst r)) + 2)%nat.

(** [readIngressBody]: the bytes, the capacity kept, and the error. *)
Definition readIngressBody (r : reader) (size : Z) (chunked : bool) : bytes * Z * option read_error :=
  let limit := Z.to_nat (size + 1) in
  if chunked then
    let '(body, cap, e) := read_chunks (read_fuel r) limit (Nat.min 4096 limit) [] 0 r in (body, Z.of_nat cap, e)
  else
    let '(body, e) := read_full (read_fuel r) limit [] r in (body, size + 1, e).

(** ** Generation *)

(** The locals the deferred release reads, where the body ended. *)
Record exit := {
  x_aborted : bool; x_status : Z; x_cooldown : Z; x_recorded : bool; x_failed : bool;
  x_usageCapture : bytes; x_usageCaptureComplete : bool; x_usageCaptureReserved : Z }.

Definition exit_with (status cooldown : Z) (failed : bool) : exit :=
  {| x_aborted := false; x_status := status; x_cooldown := cooldown; x_recorded := false; x_failed := failed;
     x_usageCapture := []; x_usageCaptureComplete := true; x_usageCaptureReserved := 0 |}.

(** The deferred recording and release. *)
Definition release_deferred (proto : string) (lease : loc) (x : exit) : handler unit :=
  (if x_recorded x then Ret tt
   else
     canceled ← # (CtxErr RequestCtx);
     let '(transport, complete, error, canceled) :=
       if canceled : bool then (false, false, "client_canceled", true)
       else if x_failed x then (false, false, "transport_or_adapter_error", false)
       else if (x_status x <? 200) || (300 <=? x_status x) then (false, false, "upstream_rejected", false)
       else (true, true, "", false) in
     let o :=
       if x_usageCaptureComplete x && bool_decide (x_usageCapture x ≠ []) then ObserveJSON (x_usageCapture x) (new_observer proto)
       else new_observer proto in
     # (DoRecord lease
       {| er_InputTokens := o_InputTokens o; er_OutputTokens := o_OutputTokens o; er_TotalTokens := o_TotalTokens o;
          er_UsageKnown := o_UsageSeen o; er_UpstreamStatus := x_status x; er_TransportOK := transport;
          er_ProtocolComplete := complete; er_UpstreamError := error; er_ClientCanceled := canceled |})) ;;
  (if 0 <? x_usageCaptureReserved x then # (AddBuffered (- x_usageCaptureReserved x)) else Ret tt) ;;
  # (DoRelease lease (x_status x) (x_cooldown x)).

(** The relay of a plain response: one turn per read of 32 KiB. *)
Definition relay_buffer : nat := Z.to_nat (32 * 2 ^ 10).

Definition aborted (x : exit) : exit :=
  {| x_aborted := true; x_status := 502; x_cooldown := x_cooldown x; x_recorded := x_recorded x; x_failed := x_failed x;
     x_usageCapture := x_usageCapture x; x_usageCaptureComplete := x_usageCaptureComplete x;
     x_usageCaptureReserved := x_usageCaptureReserved x |}.
Definition closed_by_client (failed : bool) (x : exit) : exit :=
  {| x_aborted := false; x_status := 499; x_cooldown := x_cooldown x; x_recorded := x_recorded x; x_failed := failed;
     x_usageCapture := x_usageCapture x; x_usageCaptureComplete := x_usageCaptureComplete x;
     x_usageCaptureReserved := x_usageCaptureReserved x |}.

(** Keep a copy of what was written, to read the usage from, within its limit
    and the byte budget. *)
Definition capture (b : bytes) (x : exit) : handler exit :=
  let with_capture b complete reserved :=
    {| x_aborted := x_aborted x; x_status := x_status x; x_cooldown := x_cooldown x; x_recorded := x_recorded x;
       x_failed := x_failed x; x_usageCapture := b; x_usageCaptureComplete := complete; x_usageCaptureReserved := reserved |} in
  let n := Z.of_nat (length b) in
  if x_usageCaptureComplete x then
    if stream_limit <? Z.of_nat (length (x_usageCapture x)) + n
    then Ret (with_capture (x_usageCapture x) false (x_usageCaptureReserved x))
    else
      ok ← # (Reserve n);
      if ok : bool then Ret (with_capture (x_usageCapture x ++ b)%list true (x_usageCaptureReserved x + n))
      else Ret (with_capture (x_usageCapture x) false (x_usageCaptureReserved x))
  else Ret x.

Fixpoint relay_loop (fuel : nat) (stream : bool) (r : reader) (total : Z) (x : exit) : handler exit :=
  match fuel with
  | O => Ret x
  | S fuel =>
      let '(got, readErr, r) := Read relay_buffer r in
      let total := total + Z.of_nat (length got) in
      (* what follows [if readErr != nil] *)
      let ended total x :=
        match readErr with
        | None => relay_loop fuel stream r total x
        | Some ReadEOF => Ret x
        | Some _ => # (Add StreamErrors 1) ;; Ret (aborted x)
        end in
      if bool_decide (got = []) then ended total x
      else if rt_MaxOutputBytes (c_Runtime c) <? total then # (Add StreamErrors 1) ;; Ret (aborted x)
      else
        '(written, ok) ← # (Write got);
        # (Add OutputBytes written) ;;
        x ← capture got x;
        if negb ok then Ret (closed_by_client (x_failed x) x)
        else if stream then
          flushed ← # Flush;
          if negb flushed then Ret (closed_by_client true x) else ended total x
        else ended total x
  end.

Definition copied_headers : list string :=
  ["X-COT-Session"; "X-COT-Response-Id"; "X-COT-Delivery"; "X-COT-Extraction"; "X-COT-Context"; "X-COT-Completion"].

Fixpoint copy_headers (resp : response) (keys : list string) : handler unit :=
  match keys with
  | [] => Ret tt
  | k :: keys =>
      (if header resp k =s "" then Ret tt else # (SetHeader k (header resp k))) ;; copy_headers resp keys
  end.

(** The decimal text of a non-negative number ([strconv.Itoa]). *)
Definition itoa (n : Z) : string := pretty n.

(** What is done with a response, after [acquireResponse] returned without an
    error. *)
Definition relay (meta : Request) (proto : string) (lease : loc) (t : Target) (resp : response) : handler exit :=
  let status := rs_StatusCode resp in
  cooldown ← retryAfter (header resp "Retry-After");
  let x := exit_with status cooldown false in
  if (status <? 200) || (300 <=? status) then
    (if status =? 429 then # (SetHeader "Retry-After" (itoa (Z.max 1 (Z.quot cooldown second)))) else Ret tt) ;;
    # (Fail (statusToClient status) (Text ("upstream returned status " ++ itoa status))) ;;
    Ret x
  else if rq_Stream meta && negb (has_prefix (header resp "Content-Type") "text/event-stream") then
    # (Fail 502 (Text "upstream did not return an SSE stream")) ;;
    Ret (exit_with 502 cooldown false)
  else
    copy_headers resp copied_headers ;;
    # (SetHeader "Content-Type" (header resp "Content-Type")) ;;
    # (SetHeader "X-COT-Source" (s_ID (source_at (t_Source t)))) ;;
    # (SetHeader "X-Accel-Buffering" "no") ;;
    if rq_Stream meta then
      let '(body, eof) := body_bytes (rs_Body resp) in
      '(result, sent) ← streamResponse body eof proto lease;
      let result :=
        {| er_InputTokens := er_InputTokens result; er_OutputTokens := er_OutputTokens result;
           er_TotalTokens := er_TotalTokens result; er_UsageKnown := er_UsageKnown result;
           er_UpstreamStatus := rs_StatusCode resp; er_TransportOK := er_TransportOK result;
           er_ProtocolComplete := er_ProtocolComplete result; er_UpstreamError := er_UpstreamError result;
           er_ClientCanceled := er_ClientCanceled result |} in
      # (DoRecord lease result) ;;
      let recorded aborted status :=
        {| x_aborted := aborted; x_status := status; x_cooldown := cooldown; x_recorded := true; x_failed := false;
           x_usageCapture := []; x_usageCaptureComplete := true; x_usageCaptureReserved := 0 |} in
      if Successful result then Ret (recorded false status)
      else if er_ClientCanceled result then Ret (recorded false 499)
      else
        # (Add StreamErrors 1) ;;
        if (sent : bool) then Ret (recorded true 502)
        else # (Fail 502 (Text "upstream stream did not complete")) ;; Ret (recorded false 502)
    else
      # (WriteHeader status) ;;
      relay_loop (read_fuel (rs_Body resp)) (rq_Stream meta) (rs_Body resp) 0 x.

(** What happens once [acquireResponse] has returned a lease; the result also
    says how much of [reservation] is still held. *)
Definition with_lease (meta : Request) (proto : string) (reservation : Z) (lease : loc) (t : Target) (resp : option response)
    (e : option failure) : handler (bool * Z) :=
  kept ← (if s_Adapter (source_at (t_Source t)) =s "chatgpt-web" then Ret reservation
          else # (AddBuffered (- reservation)) ;; Ret 0);
  x ←
    match e, resp with
    | Some e, _ =>
        let classified := match e with UpstreamFailed u => ue_HTTPStatus u | AcquireFailed _ => None end in
        late ← # (CtxErr RequestCtx);
        let status := if late : bool then 499 else default 0 classified in
        # (Fail (default 502 classified) (Text "upstream request failed")) ;;
        Ret (exit_with status 0 true)
    | None, Some resp =>
        x ← relay meta proto lease t resp;
        # CloseBody ;;
        Ret x
    | None, None => Ret (exit_with 0 0 false)
    end;
  release_deferred proto lease x ;;
  Ret (x_aborted x, kept).

(** From the query to the end of the request, under the stream's budget. *)
Definition generate_query (meta : Request) (body : bytes) (proto affinity : string) (reservation : Z) : handler (bool * Z) :=
  '(lease, resp, e) ← acquireResponse
    {| qr_Probe := false; qr_Detail := false; qr_ExcludedSources := []; qr_Affinity := affinity;
       qr_Model := rq_Model meta; qr_Protocol := proto; qr_Tools := rq_Tools meta; qr_Bytes := Z.of_nat (length body);
       qr_OutputTokens := rq_MaxOutputTokens meta; qr_SpentUSD := f0; qr_Stateful := rq_Stateful meta;
       qr_Vision := rq_Vision meta |} (rq_Stream meta) (Rewrite is_print body meta);
  match lease with
  | None =>
      # (Add Rejected 1) ;;
      # (Fail 503 (match e with Some e => FailureText e | None => Text "" end)) ;;
      Ret (false, reservation)
  | Some (lease, t) => with_lease meta proto reservation lease t resp e
  end.

Definition with_endpoint_meta (proto pathModel : string) (pathStream stateful : bool) (meta : Request) : Request :=
  let gemini := proto =s "gemini" in
  {| rq_Model := if gemini then pathModel else rq_Model meta; rq_Stream := if gemini then pathStream else rq_Stream meta;
     rq_Tools := rq_Tools meta; rq_Stateful := stateful || rq_Stateful meta; rq_Vision := rq_Vision meta;
     rq_MaxOutputTokens := rq_MaxOutputTokens meta; rq_ModelStart := rq_ModelStart meta; rq_ModelEnd := rq_ModelEnd meta |}.

(** The parsed request: everything after the upload has ended. *)
Definition generate_body (r : http_request) (proto pathModel : string) (pathStream : bool) (body : bytes) (reservation : Z)
    : handler (bool * Z) :=
  let refuse status m := # (Fail status m) ;; Ret (false, reservation) in
  match Inspect body with
  | Err e => refuse 400 (InspectText e)
  | Ok meta0 =>
      if (proto =s "gemini") && negb (rq_Model meta0 =s "") then refuse 400 (Text "Gemini model must be in URL only")
      else
        let meta := with_endpoint_meta proto pathModel pathStream (negb (ht_Session r =s "")) meta0 in
        if rq_Model meta =s "" then refuse 400 (Text "model required")
        else
          let rest (_ : unit) :=
            if 128 <? slen (ht_Affinity r) then refuse 400 (Text "affinity identifier exceeds 128 bytes")
            else generate_query meta body proto (ht_Affinity r) reservation in
          if rq_Stream meta then
            let streamBudget := 4 * stream_limit + 8192 in
            ok ← # (Reserve streamBudget);
            if negb ok then # (Add Rejected 1) ;; refuse 503 (Text "stream memory budget exhausted")
            else
              out ← rest tt;
              # (AddBuffered (- streamBudget)) ;; Ret out
          else rest tt
  end.

(** Under the byte budget. *)
Definition generate_reserved (r : http_request) (proto pathModel : string) (pathStream : bool) (size reservation : Z)
    : handler (bool * Z) :=
  let refuse status m := # (Fail status (Text m)) ;; Ret (false, reservation) in
  let '(body, capacity, e) := readIngressBody (ht_Body r) size (ht_ContentLength r <? 0) in
  if match e with None | Some ReadEOF | Some UnexpectedEOF => false | _ => true end then refuse 400 "cannot read request"
  else if size <? Z.of_nat (length body) then refuse 413 "request body exceeds declared or configured limit"
  else
    let retained := capacity + Z.of_nat (length body) + 8192 in
    held ← (if retained <? reservation then # (AddBuffered (retained - reservation)) ;; Ret retained else Ret reservation);
    generate_body r proto pathModel pathStream body held.

(** [generate]: true when it panics with [http.ErrAbortHandler]. *)
Definition generate (r : http_request) (proto pathModel : string) (pathStream : bool) : handler bool :=
  # (Add Requests 1) ;;
  entered ← # Enter;
  if negb entered then # (Add Rejected 1) ;; # (Fail 503 (Text "ingress capacity exhausted")) ;; Ret false
  else
    aborted ←
      (let limit := rt_MaxBodyBytes (c_Runtime c) in
       let size := if ht_ContentLength r <? 0 then limit else ht_ContentLength r in
       if limit <? size then # (Fail 413 (Text "request body too large")) ;; Ret false
       else
         let reservation := 2 * (size + 1) + 8192 in
         ok ← # (Reserve reservation);
         if negb ok then # (Add Rejected 1) ;; # (Fail 503 (Text "request byte budget exhausted")) ;; Ret false
         else
           '(aborted, held) ← generate_reserved r proto pathModel pathStream size reservation;
           # (AddBuffered (- held)) ;; Ret aborted);
    # Leave ;;
    Ret aborted.

(** The routes of [ServeHTTP]. *)
Inductive route :=
| RouteAsset (script : bool) | RoutePage (chat : bool) | RouteAdmin | RouteHealth | RouteModels
| RouteFail (status : Z) (m : string) | RouteGenerate (proto model : string) (stream : bool).

Definition ServeHTTP (method path query : string) : route :=
  if (method =s "GET") && ((path =s "/assets/control.js") || (path =s "/assets/control.css")) then RouteAsset (path =s "/assets/control.js")
  else if ((path =s "/") || (path =s "/chat")) && (method =s "GET") then RoutePage (path =s "/chat")
  else if has_prefix path "/admin/" then RouteAdmin
  else if (method =s "GET") && (path =s "/healthz") then RouteHealth
  else if (method =s "GET") && (path =s "/v1/models") then RouteModels
  else if negb (method =s "POST") then RouteFail 405 "method not allowed"
  else
    let '(proto, model, stream) := endpoint path in
    if proto =s "" then RouteFail 404 "unsupported endpoint"
    else if negb (query =s "") && negb (query =s "alt=sse") then RouteFail 400 "unsupported query parameters"
    else RouteGenerate proto model stream.

End Server.
