(* ===== verification/GatewaySem.v ===== *)
(** * Many requests at once

    The shared server and the requests in flight: one step performs one effect
    of one handler, wakes a handler that waits in the router's queue, admits a
    new request, or lets the administration change the router.  The answers
    the surroundings give (upstreams, contexts, clients, the clock) are
    arbitrary. *)

From S2P Require Import Prelude GoFloat ConfigData Execution RouterData RouterPolicy RouterOps RouterInv RouterReach RouterFacts.
From S2P Require Import Json Request Program Gateway.
Local Open Scope Z_scope.

Record world := {
  w_heap : heap; w_buffered : Z; w_ingress : Z;
  w_requests : Z; w_rejected : Z; w_outputBytes : Z; w_streamErrors : Z }.

Definition set_heap (h : heap) (w : world) : world :=
  {| w_heap := h; w_buffered := w_buffered w; w_ingress := w_ingress w; w_requests := w_requests w;
     w_rejected := w_rejected w; w_outputBytes := w_outputBytes w; w_streamErrors := w_streamErrors w |}.
Definition set_budget (buffered ingress : Z) (w : world) : world :=
  {| w_heap := w_heap w; w_buffered := buffered; w_ingress := ingress; w_requests := w_requests w;
     w_rejected := w_rejected w; w_outputBytes := w_outputBytes w; w_streamErrors := w_streamErrors w |}.
Definition count_up (k : counter) (n : Z) (w : world) : world :=
  let add k' v := match k, k' with
    | Requests, Requests | Rejected, Rejected | OutputBytes, OutputBytes | StreamErrors, StreamErrors => u64 (v + n)
    | _, _ => v end in
  {| w_heap := w_heap w; w_buffered := w_buffered w; w_ingress := w_ingress w; w_requests := add Requests (w_requests w);
     w_rejected := add Rejected (w_rejected w); w_outputBytes := add OutputBytes (w_outputBytes w);
     w_streamErrors := add StreamErrors (w_streamErrors w) |}.

Section Semantics.
Context (c : Config) (rid : loc) `{TimeParser} (is_print : Z → bool).

(** The capacity of the ingress channel. *)
Definition ingress_capacity : Z := rt_MaxInflight (c_Runtime c) + rt_MaxQueued (c_Runtime c).

(** One effect at time [now].  [a] is what the surroundings answer where it is
    theirs to decide; an acquisition may block and is not performed here. *)
Definition perform (now : Z) {R} (e : eff R) : R → world → option (R * world) :=
  match e in eff R return R → world → option (R * world) with
  | Add k n => λ _ w, Some (tt, count_up k n w)
  | Enter => λ _ w,
      if w_ingress w <? ingress_capacity then Some (true, set_budget (w_buffered w) (w_ingress w + 1) w) else Some (false, w)
  | Leave => λ _ w, Some (tt, set_budget (w_buffered w) (w_ingress w - 1) w)
  | Reserve n => λ _ w,
      if rt_MaxBufferedBytes (c_Runtime c) - w_buffered w <? n then Some (false, w)
      else Some (true, set_budget (w_buffered w + n) (w_ingress w) w)
  | AddBuffered n => λ _ w, Some (tt, set_budget (w_buffered w + n) (w_ingress w) w)
  | Acquire q => λ _ _, None
  | DoRelease l status cooldown => λ _ w, Some (tt, set_heap (exec (OpRelease l status cooldown) now (w_heap w)) w)
  | DoRecord l result => λ _ w, Some (tt, set_heap (exec (OpRecord l result) now (w_heap w)) w)
  | DoFirstOutput l => λ _ w, Some (tt, set_heap (exec (OpFirstOutput l) now (w_heap w)) w)
  | CtxErr _ => λ a w, Some (a, w)
  | CallUpstream _ _ _ _ _ => λ a w, Some (a, w)
  | CloseBody => λ a w, Some (a, w)
  | Until _ => λ a w, Some (a, w)
  | SetHeader _ _ => λ a w, Some (a, w)
  | WriteHeader _ => λ a w, Some (a, w)
  | Write _ => λ a w, Some (a, w)
  | Flush => λ a w, Some (a, w)
  | Fail _ _ => λ a w, Some (a, w)
  end.

(** A handler that runs, one that waits in the router's queue, and one that
    has returned ([true]: it panicked with [http.ErrAbortHandler]). *)
Inductive thread :=
| Running (p : prog eff bool)
| Blocked (waiter : nat) (k : res acquire_error (loc * Target) → prog eff bool)
| Ended (aborted : bool).

Record pool := { p_world : world; p_threads : list thread }.

(** A pass of [Acquire] that leaves the store [h] ends for the handler, which
    gets the lease and its target, or leaves it waiting. *)
Definition acquired (h : heap) (out : acquire_result) (k : res acquire_error (loc * Target) → prog eff bool) : thread :=
  match out with
  | Granted l => Running (k (Ok (l, le_Target (lease_at h l))))
  | Failed e => Running (k (Err e))
  | Waiting w => Blocked w k
  end.

Definition administrative (o : op) : bool :=
  match o with OpCancel _ | OpSetEnabled _ _ _ | OpReconfigure _ _ => true | _ => false end.

Inductive step (now : Z) (g : pool) : pool → Prop :=
| step_admit r proto model stream :
    step now g {| p_world := p_world g; p_threads := p_threads g ++ [Running (generate c is_print r proto model stream)] |}
| step_run i R (e : eff R) k a x w' :
    p_threads g !! i = Some (Running (Do e k)) → perform now e a (p_world g) = Some (x, w') →
    step now g {| p_world := w'; p_threads := <[i := Running (k x)]> (p_threads g) |}
| step_acquire i q k ctx h' res :
    p_threads g !! i = Some (Running (Do (Acquire q) k)) →
    acquire_iter rid q ctx None now (w_heap (p_world g)) = (h', res) →
    step now g {| p_world := set_heap h' (p_world g); p_threads := <[i := acquired h' res k]> (p_threads g) |}
| step_resume i w k cause h' res :
    p_threads g !! i = Some (Blocked w k) →
    acquire_resume rid w cause now (w_heap (p_world g)) = (h', Some res) →
    step now g {| p_world := set_heap h' (p_world g); p_threads := <[i := acquired h' res k]> (p_threads g) |}
| step_return i b :
    p_threads g !! i = Some (Running (Ret b)) →
    step now g {| p_world := p_world g; p_threads := <[i := Ended b]> (p_threads g) |}
| step_admin o :
    administrative o = true →
    step now g {| p_world := set_heap (exec o now (w_heap (p_world g))) (p_world g); p_threads := p_threads g |}.

(** Runs, by a clock that never runs backwards. *)
Inductive run : Z → pool → Z → pool → Prop :=
| run_refl t g : run t g t g
| run_step t g t1 g1 t2 g2 : run t g t1 g1 → t1 <= t2 → step t2 g1 g2 → run t g t2 g2.

End Semantics.

(** A server just started. *)
Definition started (c : Config) : pool :=
  {| p_world := {| w_heap := fst (New c empty_heap); w_buffered := 0; w_ingress := 0; w_requests := 0; w_rejected := 0;
       w_outputBytes := 0; w_streamErrors := 0 |}; p_threads := [] |}.
Definition server_rid (c : Config) : loc := snd (New c empty_heap).
