(* ===== verification/GatewayFacts.v ===== *)
(** * What a request holds

    A monitor keeps the ledger of one handler: its ingress slot, the bytes it
    has reserved, its lease.  [generate] is safe for it: it never takes twice,
    returns no more than it holds, uses no lease it does not hold, and ends
    with nothing, on every path and whatever it is answered. *)

From S2P Require Import Prelude GoFloat ConfigData Execution RouterData RouterPolicy RouterOps.
From S2P Require Import Json Request Sse Observer Program Gateway.
Local Open Scope string_scope.
Local Open Scope Z_scope.

Record ledger := mk_ledger { lg_in : bool; lg_buffered : Z; lg_lease : option loc }.
Definition nothing : ledger := mk_ledger false 0 None.

Definition ledger_allowed {R} (e : eff R) (s : ledger) : Prop :=
  match e with
  | Enter => lg_in s = false
  | Leave => s = mk_ledger true 0 None
  | Reserve n => 0 <= n
  | AddBuffered n => n <= 0 <= lg_buffered s + n
  | Acquire _ => lg_lease s = None
  | DoRelease l _ _ | DoRecord l _ | DoFirstOutput l => lg_lease s = Some l
  | _ => True
  end.

Definition ledger_after {R} (e : eff R) : R → ledger → ledger :=
  match e in eff R return R → ledger → ledger with
  | Enter => λ b s, if b then mk_ledger true (lg_buffered s) (lg_lease s) else s
  | Leave => λ _ s, mk_ledger false (lg_buffered s) (lg_lease s)
  | Reserve n => λ b s, if b then mk_ledger (lg_in s) (lg_buffered s + n) (lg_lease s) else s
  | AddBuffered n => λ _ s, mk_ledger (lg_in s) (lg_buffered s + n) (lg_lease s)
  | Acquire _ => λ x s, match x with Ok (l, _) => mk_ledger (lg_in s) (lg_buffered s) (Some l) | Err _ => s end
  | DoRelease _ _ _ => λ _ s, mk_ledger (lg_in s) (lg_buffered s) None
  | _ => λ _ s, s
  end.

Definition books : monitor eff ledger :=
  {| allowed := @ledger_allowed; answers R e x s s' := s' = ledger_after e x s |}.

Notation keeps p Q s := (safe books p Q s).

Lemma keeps_do {R A} (e : eff R) (k : R → prog eff A) Q s :
  keeps (trigger e ≫= k) Q s ↔ ledger_allowed e s ∧ ∀ x, keeps (k x) Q (ledger_after e x s).
Proof.
  change (keeps (trigger e ≫= k) Q s) with (ledger_allowed e s ∧ ∀ x s', s' = ledger_after e x s → keeps (k x) Q s').
  naive_solver.
Qed.
Lemma keeps_eff {R} (e : eff R) Q s :
  keeps (trigger e) Q s ↔ ledger_allowed e s ∧ ∀ x, Q x (ledger_after e x s).
Proof.
  change (keeps (trigger e) Q s) with (ledger_allowed e s ∧ ∀ x s', s' = ledger_after e x s → Q x s'). naive_solver.
Qed.
Lemma keeps_ret {A} (a : A) Q s : keeps (Ret a) Q s ↔ Q a s.
Proof. done. Qed.
Lemma keeps_bind {A B} (p : prog eff A) (f : A → prog eff B) Q s :
  keeps (p ≫= f) Q s ↔ keeps p (λ a, safe books (f a) Q) s.
Proof. apply safe_bind. Qed.

(** One effect, and the branches of a test. *)
Ltac effect := first [rewrite keeps_eff | rewrite keeps_do]; cbn [ledger_allowed ledger_after lg_in lg_buffered lg_lease];
  split; [try done|].
Ltac sub H := rewrite keeps_bind; eapply safe_mono; [|apply H]; simpl.

Section Ledger.
Context (c : Config) `{TimeParser} (is_print : Z → bool).

Lemma keeps_retryAfter v (Q : Z → ledger → Prop) s : (∀ d, Q d s) → keeps (retryAfter v) Q s.
Proof.
  intros HQ. unfold retryAfter. destruct (Atoi v); [apply HQ|]. destruct (ParseTime v); [|apply HQ].
  effect. intros d. apply HQ.
Qed.

Lemma keeps_acquire_loop left q stream payload i b :
  keeps (acquire_loop c left q stream payload) (λ out s, s = mk_ledger i b (fst <$> fst (fst out))) (mk_ledger i b None).
Proof.
  revert q. induction left as [|left IH]; intros q; [done|]. cbn [acquire_loop]. effect. intros [[l t]|e]; [|done].
  effect. intros out. rewrite keeps_bind.
  apply (safe_mono _ _ (λ _ s, s = mk_ledger i b (Some l))).
  - intros [[safe status] cooldown] s ->. rewrite keeps_bind. apply (safe_mono _ _ (λ _ s, s = mk_ledger i b (Some l))).
    + intros stop s ->. destruct stop; [done|]. cbv zeta. rewrite keeps_bind. set (q' := next_attempt _ _ _ _).
      assert (Hrest : keeps (trigger (DoRelease l status cooldown) ;; acquire_loop c left q' stream payload)
        (λ out s, s = mk_ledger i b (fst <$> fst (fst out))) (mk_ledger i b (Some l))). { effect. intros _. apply IH. }
      destruct out; [|exact Hrest]. effect. intros _. exact Hrest.
    + destruct (negb safe || _); [done|]. effect. done.
  - destruct out as [resp|e]; [|done]. rewrite keeps_bind. by apply keeps_retryAfter.
Qed.

Lemma keeps_stream_loop fuel eof l body o sent observed total i b :
  keeps (stream_loop c fuel eof l body o sent observed total) (λ _ s, s = mk_ledger i b (Some l)) (mk_ledger i b (Some l)).
Proof.
  revert body o sent observed total. induction fuel as [|fuel IH]; intros body o sent observed total; [done|]. cbn [stream_loop].
  destruct (Next _ _ eof body) as [[frame|e] body'].
  - destruct (_ <? _); [done|]. destruct (negb _); [done|]. rewrite keeps_bind.
    apply (safe_mono _ _ (λ _ s, s = mk_ledger i b (Some l))); [|destruct (_ && _); [effect; done|done]].
    intros [] s ->. effect. intros [n ok]. effect. intros _. destruct ok; cbn [negb]; [|done]. effect. intros [|]; [|done]. cbn [negb].
    destruct (o_Terminal _); [done|]. apply IH.
  - destruct e; [done| | |]; effect; done.
Qed.

(** The bytes kept for the usage grow with what is reserved for them. *)
Lemma keeps_capture bs x i b l :
  0 <= x_usageCaptureReserved x →
  keeps (capture c bs x) (λ x' s, ∃ n, 0 <= n ∧ s = mk_ledger i (b + n) (Some l)
    ∧ x_usageCaptureReserved x' = x_usageCaptureReserved x + n) (mk_ledger i b (Some l)).
Proof.
  intros Hx. assert (Hz : ∃ n, 0 <= n ∧ mk_ledger i b (Some l) = mk_ledger i (b + n) (Some l)
    ∧ x_usageCaptureReserved x = x_usageCaptureReserved x + n) by (exists 0; rewrite !Z.add_0_r; split_and!; [lia|done|done]).
  unfold capture. destruct (x_usageCaptureComplete x); [|exact Hz]. destruct (stream_limit c <? _); [exact Hz|].
  effect; [lia|]. intros [|]; [|exact Hz]. exists (Z.of_nat (length bs)). split_and!; [lia|done|done].
Qed.

Definition relayed (i : bool) (b : Z) (l : loc) (x x' : exit) (s : ledger) : Prop :=
  ∃ n, 0 <= n ∧ s = mk_ledger i (b + n) (Some l) ∧ x_usageCaptureReserved x' = x_usageCaptureReserved x + n.

Lemma relayed_refl i b l x x' :
  x_usageCaptureReserved x' = x_usageCaptureReserved x → relayed i b l x x' (mk_ledger i b (Some l)).
Proof. intros E. exists 0. rewrite !Z.add_0_r. split_and!; [lia|done|done]. Qed.
Lemma relayed_trans i b l x n x1 x2 s :
  0 <= n → x_usageCaptureReserved x1 = x_usageCaptureReserved x + n → relayed i (b + n) l x1 x2 s → relayed i b l x x2 s.
Proof. intros Hn E (m & Hm & -> & E'). exists (n + m). split_and!; [lia|f_equal; lia|lia]. Qed.

Lemma keeps_relay_loop fuel stream r total x i b l :
  0 <= x_usageCaptureReserved x →
  keeps (relay_loop c fuel stream r total x) (relayed i b l x) (mk_ledger i b (Some l)).
Proof.
  revert r total x b. induction fuel as [|fuel IH]; intros r total x b Hx; [by apply relayed_refl|]. cbn [relay_loop].
  destruct (Read relay_buffer r) as [[got readErr] r'].
  assert (Hend : ∀ total' x' b', 0 <= x_usageCaptureReserved x' →
    keeps (match readErr with
           | None => relay_loop c fuel stream r' total' x'
           | Some ReadEOF => Ret x'
           | Some _ => trigger (Add StreamErrors 1) ;; Ret (aborted x')
           end) (relayed i b' l x') (mk_ledger i b' (Some l))).
  { intros total' x' b' Hx'. destruct readErr as [[]|]; [by apply relayed_refl| | | |by apply IH];
      effect; intros _; by apply relayed_refl. }
  destruct (bool_decide _); [by apply Hend|]. destruct (_ <? _).
  { effect. intros _. by apply relayed_refl. }
  effect. intros [written ok]. effect. intros _. rewrite keeps_bind.
  eapply safe_mono; [|by apply keeps_capture]. intros x' s (n & Hn & -> & E).
  assert (Htr : ∀ x2 s, relayed i (b + n) l x' x2 s → relayed i b l x x2 s) by (intros; by eapply relayed_trans).
  destruct ok; cbn [negb]; [|by apply Htr, relayed_refl].
  destruct stream; [|eapply safe_mono; [exact Htr|apply Hend; lia]].
  effect. intros [|]; cbn [negb]; [|by apply Htr, relayed_refl]. eapply safe_mono; [exact Htr|apply Hend; lia].
Qed.

Lemma keeps_release_deferred proto l x i b (Q : unit → ledger → Prop) :
  0 <= x_usageCaptureReserved x <= b →
  Q tt (mk_ledger i (b - x_usageCaptureReserved x) None) → keeps (release_deferred proto l x) Q (mk_ledger i b (Some l)).
Proof.
  intros Hx HQ. unfold release_deferred.
  assert (Hrest : keeps ((if 0 <? x_usageCaptureReserved x then trigger (AddBuffered (- x_usageCaptureReserved x)) else Ret tt) ;;
    trigger (DoRelease l (x_status x) (x_cooldown x))) Q (mk_ledger i b (Some l))).
  { destruct (Z.ltb_spec 0 (x_usageCaptureReserved x)).
    - effect; [lia|]. intros _. effect. by intros [].
    - change (keeps (trigger (DoRelease l (x_status x) (x_cooldown x))) Q (mk_ledger i b (Some l))). effect. intros [].
      by replace b with (b - x_usageCaptureReserved x) by lia. }
  rewrite keeps_bind. apply (safe_mono _ _ (λ _ s, s = mk_ledger i b (Some l))); [by intros ? ? ->|].
  destruct (x_recorded x); [done|]. effect. intros canceled.
  repeat case_match; effect; done.
Qed.

Lemma keeps_copy_headers resp keys (Q : unit → ledger → Prop) s : Q tt s → keeps (copy_headers resp keys) Q s.
Proof.
  intros HQ. induction keys as [|k keys IH]; [done|]. cbn [copy_headers].
  destruct (header resp k =s ""); [exact IH|]. effect. intros _. exact IH.
Qed.

(** The exit of a relayed response, as the caller finds the ledger. *)
Definition relay_exit (i : bool) (b : Z) (l : loc) (x : exit) (s : ledger) : Prop :=
  0 <= x_usageCaptureReserved x ∧ s = mk_ledger i (b + x_usageCaptureReserved x) (Some l).

Lemma relay_exit_none i b l x : x_usageCaptureReserved x = 0 → relay_exit i b l x (mk_ledger i b (Some l)).
Proof. intros E. split; [lia|]. by rewrite E, Z.add_0_r. Qed.

Lemma keeps_relay meta proto l t resp i b :
  keeps (relay c meta proto l t resp) (relay_exit i b l) (mk_ledger i b (Some l)).
Proof.
  unfold relay. rewrite keeps_bind. apply keeps_retryAfter. intros cooldown. destruct (_ || _).
  { rewrite keeps_bind. apply (safe_mono _ _ (λ _ s, s = mk_ledger i b (Some l))).
    - intros _ s ->. effect. intros _. by apply relay_exit_none.
    - destruct (_ =? 429); [effect|]; done. }
  destruct (_ && _).
  { effect. intros _. by apply relay_exit_none. }
  rewrite keeps_bind. apply keeps_copy_headers. do 3 (effect; intros _). destruct (rq_Stream meta).
  - destruct (body_bytes (rs_Body resp)) as [body eof]. rewrite keeps_bind.
    eapply safe_mono; [|apply keeps_stream_loop]. intros [result sent] s ->. effect. intros _.
    destruct (Successful _); [by apply relay_exit_none|]. destruct (er_ClientCanceled _); [by apply relay_exit_none|].
    effect. intros _. destruct sent; [by apply relay_exit_none|]. effect. intros _. by apply relay_exit_none.
  - effect. intros _. eapply safe_mono; [|by apply keeps_relay_loop].
    intros x s (n & Hn & -> & E). cbn [exit_with x_usageCaptureReserved] in E. split; [lia|]. by rewrite E, Z.add_0_l.
Qed.

(** What the rest of a handler returns: how much of the reservation is still
    held, and nothing else. *)
Definition kept_part (i : bool) (b reservation : Z) (out : bool * Z) (s : ledger) : Prop :=
  0 <= snd out <= reservation ∧ s = mk_ledger i (b - reservation + snd out) None.

Lemma keeps_with_lease meta proto reservation l t resp e i b :
  0 <= reservation <= b →
  keeps (with_lease c meta proto reservation l t resp e) (kept_part i b reservation) (mk_ledger i b (Some l)).
Proof.
  intros Hr. unfold with_lease. rewrite keeps_bind.
  apply (safe_mono _ _ (λ kept s, 0 <= kept <= reservation ∧ s = mk_ledger i (b - reservation + kept) (Some l))).
  2:{ destruct (_ =s _); [split; [lia|f_equal; lia]|]. effect; [lia|]. intros _. split; [lia|f_equal; lia]. }
  intros kept s [Hk ->]. set (b' := b - reservation + kept). rewrite keeps_bind.
  apply (safe_mono _ _ (relay_exit i b' l)).
  - intros x s [Hx ->]. rewrite keeps_bind. apply keeps_release_deferred; [lia|]. split; [done|]. f_equal. simpl. lia.
  - destruct e as [e|]; [|destruct resp as [resp|]].
    + effect. intros late. effect. intros _. by apply relay_exit_none.
    + rewrite keeps_bind. eapply safe_mono; [|apply keeps_relay]. intros x s Hx. by effect.
    + by apply relay_exit_none.
Qed.

Lemma kept_all i b reservation out : snd out = reservation → 0 <= reservation → kept_part i b reservation out (mk_ledger i b None).
Proof. intros <- ?. split; [lia|]. f_equal. lia. Qed.

Lemma keeps_generate_query meta body proto affinity reservation i b :
  0 <= reservation <= b →
  keeps (generate_query c is_print meta body proto affinity reservation) (kept_part i b reservation) (mk_ledger i b None).
Proof.
  intros Hr. unfold generate_query, acquireResponse. rewrite keeps_bind. eapply safe_mono; [|apply keeps_acquire_loop].
  intros [[lease resp] e] s ->. cbn [fst]. destruct lease as [[l t]|]; [by apply keeps_with_lease|].
  effect. intros _. effect. intros _. apply kept_all; [done|lia].
Qed.

Lemma keeps_generate_body r proto model stream body reservation i b :
  0 <= stream_limit c → 0 <= reservation <= b →
  keeps (generate_body c is_print r proto model stream body reservation) (kept_part i b reservation) (mk_ledger i b None).
Proof.
  intros Hl Hr. unfold generate_body. cbv zeta.
  assert (Href : ∀ b' status m, reservation <= b' →
    keeps (trigger (Fail status m) ;; Ret (false, reservation)) (kept_part i b' reservation) (mk_ledger i b' None)).
  { intros b' status m Hb. effect. intros _. apply kept_all; [done|lia]. }
  destruct (Inspect body) as [meta0|e]; [|apply Href; lia]. destruct (_ && _); [apply Href; lia|].
  set (meta := with_endpoint_meta _ _ _ _ _). destruct (rq_Model meta =s ""); [apply Href; lia|].
  assert (Hrest : ∀ b', reservation <= b' → keeps (if 128 <? slen (ht_Affinity r)
    then trigger (Fail 400 (Text "affinity identifier exceeds 128 bytes")) ;; Ret (false, reservation)
    else generate_query c is_print meta body proto (ht_Affinity r) reservation) (kept_part i b' reservation) (mk_ledger i b' None)).
  { intros b' Hb. destruct (_ <? _); [apply Href; lia|]. apply keeps_generate_query. lia. }
  destruct (rq_Stream meta); [|apply Hrest; lia]. effect; [lia|]. intros [|]; cbn [negb].
  - rewrite keeps_bind. eapply safe_mono; [|apply Hrest; lia]. intros out s [Ho ->]. effect; [lia|]. intros _.
    split; [done|]. f_equal. lia.
  - effect. intros _. apply Href; lia.
Qed.

(** The bytes read are within the buffer, the buffer within the size. *)
Lemma read_length n r got e r' : Read n r = (got, e, r') → (length got <= n)%nat.
Proof.
  destruct r as [|[b0 e0] r0]; simpl; [by intros [= <- <- <-]; simpl; lia|].
  destruct (Nat.ltb_spec n (length b0)); intros [= <- <- <-]; [rewrite length_take; lia|done].
Qed.

Lemma read_chunks_bounds fuel limit cap body emptyReads r :
  (1 <= cap <= limit)%nat → (length body <= cap)%nat →
  let '(body', cap', _) := read_chunks fuel limit cap body emptyReads r in (length body' <= cap' <= limit)%nat.
Proof.
  revert cap body emptyReads r. induction fuel as [|fuel IH]; intros cap body emptyReads r Hc Hb; [simpl; lia|].
  cbn [read_chunks]. destruct (Nat.leb_spec limit (length body)); [lia|].
  set (cap' := if (length body =? cap)%nat then Nat.min (cap * 2) limit else cap).
  assert (Hc' : (1 <= cap' <= limit)%nat ∧ (length body <= cap')%nat).
  { unfold cap'. destruct (Nat.eqb_spec (length body) cap); lia. }
  destruct (Read (cap' - length body) r) as [[got e] r'] eqn:Er. apply read_length in Er.
  assert (Hn : (length (body ++ got)%list <= cap')%nat) by (rewrite length_app; lia).
  destruct e as [[]|]; try lia. case_bool_decide; [destruct (_ =? 100)%nat; [lia|]|]; apply IH; lia.
Qed.

Lemma read_full_bounds fuel n body r : (length body <= n)%nat → (length (fst (read_full fuel n body r)) <= n)%nat.
Proof.
  revert body r. induction fuel as [|fuel IH]; intros body r Hb; [done|]. cbn [read_full].
  destruct (n <=? length body)%nat; [done|]. destruct (Read _ r) as [[got e] r'] eqn:Er. apply read_length in Er.
  assert (Hn : (length (body ++ got)%list <= n)%nat) by (rewrite length_app; lia).
  destruct e; [destruct (_ <=? _)%nat; done|]. by apply IH.
Qed.

Lemma ingress_bounds r size chunked :
  0 <= size → let '(body, capacity, _) := readIngressBody r size chunked in Z.of_nat (length body) <= capacity <= size + 1.
Proof.
  intros Hs. unfold readIngressBody. destruct chunked.
  - pose proof (read_chunks_bounds (read_fuel r) (Z.to_nat (size + 1)) (Nat.min 4096 (Z.to_nat (size + 1))) [] 0 r ltac:(lia) ltac:(simpl; lia)) as Hb.
    destruct (read_chunks _ _ _ _ _ _) as [[body cap] e]. lia.
  - pose proof (read_full_bounds (read_fuel r) (Z.to_nat (size + 1)) [] r ltac:(simpl; lia)) as Hb.
    destruct (read_full _ _ _ _) as [body e]. simpl in Hb. lia.
Qed.

Lemma keeps_generate_reserved r proto model stream size b i :
  0 <= stream_limit c → 0 <= size → let reservation := 2 * (size + 1) + 8192 in reservation <= b →
  keeps (generate_reserved c is_print r proto model stream size reservation)
    (kept_part i b reservation) (mk_ledger i b None).
Proof.
  intros Hl Hs reservation Hb. unfold generate_reserved. pose proof (ingress_bounds (ht_Body r) size (ht_ContentLength r <? 0) Hs) as Hbody.
  destruct (readIngressBody _ _ _) as [[body capacity] e].
  assert (Href : ∀ status m, keeps (trigger (Fail status (Text m)) ;; Ret (false, reservation)) (kept_part i b reservation) (mk_ledger i b None)).
  { intros status m. effect. intros _. apply kept_all; [done|lia]. }
  cbv zeta. match goal with |- context [if ?x then _ else _] => destruct x; [apply Href|] end.
  destruct (_ <? _); [apply Href|]. set (retained := capacity + Z.of_nat (length body) + 8192). rewrite keeps_bind.
  apply (safe_mono _ _ (λ held s, 0 <= held <= reservation ∧ s = mk_ledger i (b - reservation + held) None)).
  - intros held s [Hh ->]. eapply safe_mono; [|apply keeps_generate_body; [done|lia]].
    intros out s [Ho ->]. split; [lia|]. f_equal. lia.
  - destruct (Z.ltb_spec retained reservation); [|split; [lia|f_equal; lia]]. effect; [lia|]. intros _.
    split; [lia|]. f_equal. lia.
Qed.

Lemma keeps_generate r proto model stream :
  0 <= rt_MaxBodyBytes (c_Runtime c) → 0 <= rt_MaxOutputBytes (c_Runtime c) →
  keeps (generate c is_print r proto model stream) (λ _ s, s = nothing) nothing.
Proof.
  intros Hb Ho. unfold generate. effect. intros _. effect. intros [|]; cbn [negb].
  2:{ do 2 (effect; intros _). done. }
  cbv zeta. rewrite keeps_bind. apply (safe_mono _ _ (λ _ s, s = mk_ledger true 0 None)).
  { intros aborted s ->. effect. done. }
  set (size := if ht_ContentLength r <? 0 then _ else _).
  assert (Hs : 0 <= size) by (unfold size; destruct (Z.ltb_spec (ht_ContentLength r) 0); lia). clearbody size.
  destruct (_ <? _); [effect; done|]. effect; [lia|]. intros [|]; cbn [negb].
  - rewrite keeps_bind. eapply safe_mono; [|apply keeps_generate_reserved; [unfold stream_limit; lia|done|reflexivity]].
    intros [aborted held] s [Hh ->]. simpl in Hh. effect; [simpl; lia|]. intros _. simpl. f_equal. lia.
  - do 2 (effect; intros _). done.
Qed.

End Ledger.
