(* ===== verification/GatewayDemo.v ===== *)
(** * One request, run

    A request against the pooled source of file ConfigTheorems, carried
    through the server with well-behaved surroundings. *)

From S2P Require Import Prelude GoFloat ConfigData Execution RouterData RouterPolicy RouterOps Json Request GoText ConfigTheorems Program Gateway GatewaySem.
Local Open Scope string_scope.
Local Open Scope Z_scope.

#[export] Instance no_dates : TimeParser := λ _, None.
Definition plain (z : Z) : bool := true.

Definition demo_body : bytes := js "{'model':'a/talk','max_tokens':9,'messages':[]}".
Definition demo_request : http_request :=
  {| ht_ContentLength := Z.of_nat (length demo_body); ht_Body := [(demo_body, None)]; ht_Session := ""; ht_Affinity := "" |}.
Definition demo_answer : bytes := js "{'usage':{'prompt_tokens':3,'completion_tokens':4}}".
Definition demo_response : response :=
  {| rs_StatusCode := 200; rs_Header := {["Content-Type" := "application/json"]}; rs_Body := [(demo_answer, None)] |}.

(** Surroundings that always do their part. *)
Definition some_answer {R} (e : eff R) : R :=
  match e in eff R return R with
  | Add _ _ => tt | Enter => true | Leave => tt | Reserve _ => true | AddBuffered _ => tt | CtxErr _ => false
  | Acquire _ => Err ErrUnavailable
  | CallUpstream _ _ _ _ _ => Ok demo_response | CloseBody => tt | Until _ => 0 | DoRelease _ _ _ => tt | DoRecord _ _ => tt
  | DoFirstOutput _ => tt | SetHeader _ _ => tt | WriteHeader _ => tt | Write b => (Z.of_nat (length b), true) | Flush => true | Fail _ _ => tt
  end.

Section Drive.
Context (c : Config) (rid : loc) (now : Z).

Definition drive_acquire {R} (e : eff R) : (R → prog eff bool) → world → option (world * prog eff bool) :=
  match e in eff R return (R → prog eff bool) → world → option (world * prog eff bool) with
  | Acquire q => λ k w,
      let '(h, out) := acquire_iter rid q 0 None now (w_heap w) in
      match acquired h out k with Running p => Some (set_heap h w, p) | _ => None end
  | _ => λ _ _, None
  end.

(** One handler alone, until it returns, waits or the fuel ends. *)
Definition drive_step (w : world) (p : prog eff bool) : option (world * prog eff bool) :=
  match p with
  | Ret _ => None
  | Do e k =>
      match drive_acquire e k w with
      | Some out => Some out
      | None => '(x, w') ← perform c now e (some_answer e) w; Some (w', k x)
      end
  end.

Fixpoint drive (fuel : nat) (w : world) (p : prog eff bool) : world * prog eff bool :=
  match fuel with
  | O => (w, p)
  | S fuel => match drive_step w p with Some (w', p') => drive fuel w' p' | None => (w, p) end
  end.

Lemma drive_step_ok `{TimeParser} is_print w p w' p' :
  drive_step w p = Some (w', p') →
  step c rid is_print now {| p_world := w; p_threads := [Running p] |} {| p_world := w'; p_threads := [Running p'] |}.
Proof.
  destruct p as [b|R e k]; [done|]. simpl.
  assert (Hrun : (x ← perform c now e (some_answer e) w; Some (snd x, k (fst x))) = Some (w', p') →
    step c rid is_print now {| p_world := w; p_threads := [Running (Do e k)] |} {| p_world := w'; p_threads := [Running p'] |}).
  { intros ([x w1] & Hx & [= <- <-])%bind_Some.
    exact (step_run c rid is_print now {| p_world := w; p_threads := [Running (Do e k)] |} 0 R e k (some_answer e) x w1 eq_refl Hx). }
  destruct (drive_acquire e k w) as [out|] eqn:Hacq.
  2:{ intros Hp. apply Hrun. rewrite <-Hp. by destruct (perform c now e (some_answer e) w) as [[x w1]|]. }
  intros [= ->]. destruct e; try discriminate. simpl in Hacq.
  destruct (acquire_iter _ _ _ _ _ _) as [h out] eqn:Hit. destruct (acquired h out k) as [p| |] eqn:Ha; try discriminate. injection Hacq as <- <-.
  rewrite <-Ha. exact (step_acquire c rid is_print now {| p_world := w; p_threads := [Running (Do (Acquire q) k)] |} 0 q k 0 h out eq_refl Hit).
Qed.

Lemma drive_run `{TimeParser} is_print fuel w p t0 g0 :
  run c rid is_print t0 g0 now {| p_world := w; p_threads := [Running p] |} →
  run c rid is_print t0 g0 now {| p_world := fst (drive fuel w p); p_threads := [Running (snd (drive fuel w p))] |}.
Proof.
  revert w p. induction fuel as [|fuel IH]; intros w p Hr; [done|]. simpl. destruct (drive_step w p) as [[w' p']|] eqn:E; [|done].
  apply IH. eapply run_step; [done|lia|by apply drive_step_ok].
Qed.
End Drive.

Definition demo_handler : prog eff bool := generate pool_config plain demo_request "chat" "" false.
Definition demo_end : world * prog eff bool := drive pool_config (server_rid pool_config) 5 60 (p_world (started pool_config)) demo_handler.

Example demo_returns : match snd demo_end with Ret aborted => negb aborted | Do _ _ => false end = true.
Proof. vm_compute. reflexivity. Qed.
Example demo_counts : (w_requests (fst demo_end), w_rejected (fst demo_end), w_outputBytes (fst demo_end)) = (1, 0, Z.of_nat (length demo_answer)).
Proof. vm_compute. reflexivity. Qed.
