(* ===== verification/GatewayTheorems.v ===== *)
(** * What the generation endpoint guarantees

    The ledgers of all requests add up

    The invariant of the pool: every handler in flight keeps books as the
    monitor says, the shared byte budget and ingress count are the sums of the
    ledgers, and the outstanding leases of the router are exactly the leases
    in them, each in one. *)

From S2P Require Import Prelude GoFloat ConfigData Execution RouterData RouterPolicy RouterOps RouterInv RouterReach.
From S2P Require Import RouterFacts RouterLeases Json Request ConfigTheorems Program Gateway GatewaySem GatewayFacts.
From S2P Require Import GatewayDemo.
Local Open Scope Z_scope.

(** ** Sums over the ledgers *)

Definition zsum {A} (f : A → Z) (l : list A) : Z := foldr (λ x n, f x + n) 0 l.

Lemma zsum_app {A} (f : A → Z) l1 l2 : zsum f (l1 ++ l2) = zsum f l1 + zsum f l2.
Proof. induction l1 as [|x l1 IH]; simpl; [done|]. lia. Qed.
Lemma zsum_insert {A} (f : A → Z) l i x y : l !! i = Some x → zsum f (<[i := y]> l) = zsum f l - f x + f y.
Proof.
  revert i. induction l as [|a l IH]; intros [|i] Hi; simplify_eq/=; [lia|]. rewrite (IH i) by done. lia.
Qed.
Lemma zsum_nonneg {A} (f : A → Z) l : (∀ x, x ∈ l → 0 <= f x) → 0 <= zsum f l.
Proof.
  induction l as [|a l IH]; intros Hf; simpl; [lia|]. pose proof (Hf a ltac:(by left)). pose proof (IH ltac:(intros x Hx; apply Hf; by right)). lia.
Qed.
Lemma zsum_zero {A} (f : A → Z) l : (∀ x, x ∈ l → f x = 0) → zsum f l = 0.
Proof.
  induction l as [|a l IH]; intros Hf; simpl; [done|]. rewrite (Hf a) by by left. rewrite IH; [lia|]. intros x Hx. apply Hf. by right.
Qed.

Definition slot (s : ledger) : Z := if lg_in s then 1 else 0.

Section Pool.
Context (c : Config) (rid : loc) `{TimeParser} (is_print : Z → bool).

Definition ends_empty (p : prog eff bool) (s : ledger) : Prop := keeps p (λ _ s, s = nothing) s.

Definition thread_ok (th : thread) (s : ledger) : Prop :=
  0 <= lg_buffered s ∧
  match th with
  | Running p => ends_empty p s
  | Blocked _ k => lg_lease s = None ∧ ends_empty (k (Err ErrUnavailable)) s ∧ (∀ e, ends_empty (k (Err e)) s)
                   ∧ ∀ l t, ends_empty (k (Ok (l, t))) (mk_ledger (lg_in s) (lg_buffered s) (Some l))
  | Ended _ => s = nothing
  end.

(** The leases of the ledgers are the outstanding ones, each in one ledger. *)
Record leases_in (ls : list ledger) (h : heap) : Prop := {
  li_held : ∀ i s l, ls !! i = Some s → lg_lease s = Some l → l ∈ outstanding h;
  li_known : ∀ l, l ∈ outstanding h → ∃ i s, ls !! i = Some s ∧ lg_lease s = Some l;
  li_one : ∀ i j s s' l, ls !! i = Some s → ls !! j = Some s' → lg_lease s = Some l → lg_lease s' = Some l → i = j }.

Record pool_ok (t : Z) (g : pool) (ls : list ledger) : Prop := {
  po_reach : ∃ t', t' <= t ∧ reachable t' (w_heap (p_world g));
  po_router : is_Some (h_routers (w_heap (p_world g)) !! rid);
  po_threads : Forall2 thread_ok (p_threads g) ls;
  po_buffered : w_buffered (p_world g) = zsum lg_buffered ls;
  po_ingress : w_ingress (p_world g) = zsum slot ls;
  po_leases : leases_in ls (w_heap (p_world g));
  po_budget : w_buffered (p_world g) <= rt_MaxBufferedBytes (c_Runtime c);
  po_capacity : w_ingress (p_world g) <= ingress_capacity c }.

Lemma leases_same ls i s s' h h' :
  ls !! i = Some s → lg_lease s' = lg_lease s → outstanding h' = outstanding h → leases_in ls h → leases_in (<[i := s']> ls) h'.
Proof.
  intros Hi El Eo [H1 H2 H3]. assert (Hlk : ∀ j x, <[i := s']> ls !! j = Some x → ∃ y, ls !! j = Some y ∧ lg_lease x = lg_lease y).
  { intros j x. rewrite list_lookup_insert. case_decide as Hd; [intros [= <-]; destruct Hd as [<- _]; by exists s|]. intros Hx. by exists x. }
  constructor.
  - intros j x l (y & Hy & ->)%Hlk Hl. rewrite Eo. by eapply H1.
  - intros l. rewrite Eo. intros (j & x & Hj & Hl)%H2. destruct (decide (j = i)) as [->|Hne].
    + exists i, s'. rewrite list_lookup_insert_eq by by eapply lookup_lt_Some. split; [done|]. rewrite El. congruence.
    + exists j, x. by rewrite list_lookup_insert_ne.
  - intros j j' x x' l (y & Hy & E)%Hlk (y' & Hy' & E')%Hlk. rewrite E, E'. by eapply H3.
Qed.

Lemma leases_granted ls i s s' h h' l :
  ls !! i = Some s → lg_lease s = None → lg_lease s' = Some l → l ∉ outstanding h → outstanding h' = outstanding h ∪ {[l]} →
  leases_in ls h → leases_in (<[i := s']> ls) h'.
Proof.
  intros Hi Hno Hs' Hnew Eo [H1 H2 H3]. pose proof (lookup_lt_Some _ _ _ Hi) as Hlt. constructor.
  - intros j x l'. rewrite list_lookup_insert, Eo, elem_of_union, elem_of_singleton. case_decide as Hd; [intros [= <-]; naive_solver|].
    intros Hx Hl. left. by eapply H1.
  - intros l'. rewrite Eo, elem_of_union, elem_of_singleton. intros [(j & x & Hj & Hl)%H2| ->].
    + exists j, x. rewrite list_lookup_insert_ne; [done|]. intros ->. congruence.
    + exists i, s'. by rewrite list_lookup_insert_eq.
  - assert (Hfresh : ∀ j x, ls !! j = Some x → lg_lease x ≠ Some l). { intros j x Hx Hl. by eapply Hnew, H1. }
    intros j j' x x' l'. rewrite !list_lookup_insert. repeat case_decide; intros; simplify_eq; try naive_solver.
Qed.

Lemma leases_returned ls i s s' h h' l :
  ls !! i = Some s → lg_lease s = Some l → lg_lease s' = None → outstanding h' = outstanding h ∖ {[l]} →
  leases_in ls h → leases_in (<[i := s']> ls) h'.
Proof.
  intros Hi Hs Hs' Eo [H1 H2 H3]. constructor.
  - intros j x l'. rewrite list_lookup_insert, Eo, elem_of_difference, elem_of_singleton. case_decide as Hd; [intros [= <-]; congruence|].
    intros Hx Hl. split; [by eapply H1|]. intros ->. assert (j = i) as -> by by eapply H3. apply Hd. split; [done|]. by eapply lookup_lt_Some.
  - intros l'. rewrite Eo, elem_of_difference, elem_of_singleton. intros [(j & x & Hj & Hl)%H2 Hne].
    exists j, x. rewrite list_lookup_insert_ne; [done|]. intros ->. congruence.
  - intros j j' x x' l'. rewrite !list_lookup_insert. repeat case_decide; intros; simplify_eq; try congruence. by eapply H3.
Qed.

(** Every lease in a ledger exists. *)
Lemma held_exists ls h i s l : leases_in ls h → ls !! i = Some s → lg_lease s = Some l → is_Some (h_leases h !! l).
Proof. intros Hl Hi Hs. pose proof (li_held _ _ Hl _ _ _ Hi Hs) as (x & Hx & _)%elem_of_outstanding. by exists x. Qed.

(** What one effect leaves of the shared state and the ledgers. *)
Record effect_ok (ls : list ledger) (i : nat) (s s' : ledger) (w w' : world) (now : Z) : Prop := {
  ef_stay : routers_stay (w_heap w) (w_heap w');
  ef_reach : w_heap w' = w_heap w ∨ ∃ o, w_heap w' = exec o now (w_heap w);
  ef_buffered : w_buffered w' = w_buffered w - lg_buffered s + lg_buffered s';
  ef_ingress : w_ingress w' = w_ingress w - slot s + slot s';
  ef_leases : leases_in (<[i := s']> ls) (w_heap w');
  ef_nonneg : 0 <= lg_buffered s';
  ef_budget : w_buffered w <= rt_MaxBufferedBytes (c_Runtime c) → w_buffered w' <= rt_MaxBufferedBytes (c_Runtime c);
  ef_capacity : w_ingress w <= ingress_capacity c → w_ingress w' <= ingress_capacity c }.

Lemma lease_effect ls i s w h' now o :
  ls !! i = Some s → 0 <= lg_buffered s → leases_in ls (w_heap w) → h' = exec o now (w_heap w) →
  routers_stay (w_heap w) h' → outstanding h' = outstanding (w_heap w) →
  effect_ok ls i s s w (set_heap h' w) now.
Proof.
  intros Hi Hb Hl -> Hst Eo. split; simpl; try lia; [done|right; by exists o|]. by eapply leases_same.
Qed.

Lemma perform_ok {R} (e : eff R) a x ls i s w w' now :
  ls !! i = Some s → 0 <= lg_buffered s → leases_in ls (w_heap w) → ledger_allowed e s →
  perform c now e a w = Some (x, w') → effect_ok ls i s (ledger_after e x s) w w' now.
Proof.
  intros Hi Hb Hl Hal Hp.
  assert (Hsame : ∀ w1, w_heap w1 = w_heap w → w_buffered w1 = w_buffered w → w_ingress w1 = w_ingress w → effect_ok ls i s s w w1 now).
  { intros w1 E1 E2 E3. split; rewrite ?E2, ?E3; try lia; [by apply routers_stay_same; rewrite E1|by left|].
    rewrite E1. by eapply leases_same. }
  assert (Hbudget : ∀ b n s', lg_lease s' = lg_lease s → b = w_buffered w - lg_buffered s + lg_buffered s' →
    n = w_ingress w - slot s + slot s' → 0 <= lg_buffered s' → (w_buffered w <= rt_MaxBufferedBytes (c_Runtime c) → b <= rt_MaxBufferedBytes (c_Runtime c)) →
    (w_ingress w <= ingress_capacity c → n <= ingress_capacity c) → effect_ok ls i s s' w (set_budget b n w) now).
  { intros b n s' El -> -> ? ? ?. split; simpl; try done; [by apply routers_stay_same|by left|]. by eapply leases_same. }
  pose proof (λ l, held_exists ls (w_heap w) i s l Hl Hi) as Hex.
  destruct e; cbn [perform ledger_after ledger_allowed] in *.
  - injection Hp as <- <-. by apply Hsame.
  - destruct (Z.ltb_spec (w_ingress w) (ingress_capacity c)); injection Hp as <- <-; [|by apply Hsame].
    apply Hbudget; simpl; unfold slot; rewrite ?Hal; simpl; try done; lia.
  - injection Hp as <- <-. subst s. apply Hbudget; unfold slot; simpl; try done; lia.
  - destruct (Z.ltb_spec (rt_MaxBufferedBytes (c_Runtime c) - w_buffered w) n); injection Hp as <- <-; [by apply Hsame|].
    apply Hbudget; unfold slot; simpl; try done; lia.
  - injection Hp as <- <-. apply Hbudget; unfold slot; simpl; try done; lia.
  - injection Hp as <- <-. by apply Hsame.
  - discriminate.
  - injection Hp as <- <-. by apply Hsame.
  - injection Hp as <- <-. by apply Hsame.
  - injection Hp as <- <-. by apply Hsame.
  - injection Hp as <- <-. specialize (Hex _ Hal). unfold exec. rewrite bool_decide_true by done.
    split; unfold slot; simpl; try lia.
    + apply release_stays.
    + right. exists (OpRelease l status cooldown). simpl. by rewrite bool_decide_true.
    + eapply leases_returned; [done|done|done|by apply release_returns|done].
  - injection Hp as <- <-. specialize (Hex _ Hal). destruct (record_leases l result _ Hex) as [Hst Eo].
    apply (lease_effect _ _ _ _ _ _ (OpRecord l result)); try done; by rewrite bool_decide_true.
  - injection Hp as <- <-. specialize (Hex _ Hal). destruct (first_output_leases l now _ Hex) as [Hst Eo].
    apply (lease_effect _ _ _ _ _ _ (OpFirstOutput l)); try done; by rewrite bool_decide_true.
  - injection Hp as <- <-. by apply Hsame.
  - injection Hp as <- <-. by apply Hsame.
  - injection Hp as <- <-. by apply Hsame.
  - injection Hp as <- <-. by apply Hsame.
  - injection Hp as <- <-. by apply Hsame.
Qed.

(** A thread's ledger after an acquisition. *)
Lemma acquire_ok ls i s w h' k out now :
  ls !! i = Some s → 0 <= lg_buffered s → lg_lease s = None → leases_in ls (w_heap w) →
  (∀ e, ends_empty (k (Err e)) s) → (∀ l t, ends_empty (k (Ok (l, t))) (mk_ledger (lg_in s) (lg_buffered s) (Some l))) →
  routers_stay (w_heap w) h' → (∃ o, h' = exec o now (w_heap w)) →
  match out with
  | Granted l => l ∉ outstanding (w_heap w) ∧ outstanding h' = outstanding (w_heap w) ∪ {[l]}
  | _ => outstanding h' = outstanding (w_heap w)
  end →
  ∃ s', thread_ok (acquired h' out k) s' ∧ effect_ok ls i s s' w (set_heap h' w) now.
Proof.
  intros Hi Hb Hno Hl Herr Hok Hst Hex Ho. destruct out as [l|e|wt].
  - exists (mk_ledger (lg_in s) (lg_buffered s) (Some l)). split; [split; [done|apply Hok]|].
    split; unfold slot; simpl; try lia; [done|by right|]. destruct Ho as [Hnew Eo]. by eapply leases_granted.
  - exists s. split; [split; [done|apply Herr]|]. split; simpl; try lia; [done|by right|]. by eapply leases_same.
  - exists s. split; [split; [done|by split_and!]|]. split; simpl; try lia; [done|by right|]. by eapply leases_same.
Qed.

(** ** Steps keep the invariant *)

Lemma pool_update t now g ls i s s' th' w' :
  pool_ok t g ls → t <= now → ls !! i = Some s → thread_ok th' s' → effect_ok ls i s s' (p_world g) w' now →
  pool_ok now {| p_world := w'; p_threads := <[i := th']> (p_threads g) |} (<[i := s']> ls).
Proof.
  intros [(t0 & Ht0 & Hreach) Hr Hth Hb Hin Hl Hbud Hcap] Ht Hi Hok [Hst Hre Eb Ei Hl' Hnn Hb' Hc']. constructor; cbn [p_world p_threads].
  - destruct Hre as [->|[o ->]]; [exists t0; split; [lia|done]|]. exists now. split; [lia|]. eapply reach_step; [done|lia].
  - by apply Hst.
  - by apply Forall2_insert.
  - rewrite (zsum_insert _ _ _ s), Eb; [lia|done].
  - rewrite (zsum_insert _ _ _ s), Ei; [lia|done].
  - done.
  - by apply Hb'.
  - by apply Hc'.
Qed.

Lemma exec_admin o now h :
  good h → administrative o = true → routers_stay h (exec o now h) ∧ outstanding (exec o now h) = outstanding h.
Proof.
  intros Hg Ho. assert (Hid : routers_stay h h) by by apply routers_stay_same. destruct o; try discriminate; simpl.
  - split; [by apply routers_stay_same|by apply outstanding_same].
  - case_bool_decide; [|done]. apply set_enabled_leases.
  - unfold live_router. destruct (h_routers h !! rid0) as [r|] eqn:Hr; [|done]. destruct (negb _); [|done].
    apply reconfigure_leases; [done|by exists r].
Qed.

Lemma leases_admit ls h : leases_in ls h → leases_in (ls ++ [nothing]) h.
Proof.
  intros [H1 H2 H3]. assert (Hlk : ∀ i s l, (ls ++ [nothing]) !! i = Some s → lg_lease s = Some l → ls !! i = Some s).
  { intros i s l [?|[_ Hx]]%lookup_app_Some Hl; [done|]. apply list_elem_of_lookup_2, list_elem_of_singleton in Hx. by subst. }
  constructor.
  - intros i s l Hi Hl. eapply H1; [by eapply Hlk|done].
  - intros l (i & s & Hi & Hl)%H2. exists i, s. split; [|done]. by apply lookup_app_l_Some.
  - intros i j s s' l Hi Hj Hs Hs'. eapply H3; [by eapply Hlk|by eapply Hlk|done|done].
Qed.

Lemma pool_step t now g ls g' :
  0 <= rt_MaxBodyBytes (c_Runtime c) → 0 <= rt_MaxOutputBytes (c_Runtime c) →
  pool_ok t g ls → t <= now → step c rid is_print now g g' → ∃ ls', pool_ok now g' ls'.
Proof.
  intros Hmb Hmo Hp Ht Hstep. pose proof Hp as [(t0 & Ht0 & Hreach) Hr Hth Hb Hin Hl Hbud Hcap].
  pose proof (good_reachable _ _ Hreach) as Hg.
  assert (Hin_th : ∀ i th, p_threads g !! i = Some th → ∃ s, ls !! i = Some s ∧ thread_ok th s).
  { intros i th Hi. destruct (Forall2_lookup_l _ _ _ _ _ Hth Hi) as (s & Hs & Hok). by exists s. }
  destruct Hstep as [r proto model stream|i R e k a x w' Hi Hpf|i q k ctx h' out Hi Hit|i w k cause h' out Hi Hit|i b Hi|o Ho].
  - exists (ls ++ [nothing]). constructor; cbn [p_world p_threads]; try done; [exists t0; split; [lia|done]| | | |by apply leases_admit].
    + apply Forall2_app; [done|]. constructor; [|done]. split; [done|]. by apply keeps_generate.
    + rewrite Hb, zsum_app. unfold zsum at 3, nothing. simpl. lia.
    + rewrite Hin, zsum_app. unfold zsum at 3, nothing, slot at 3. simpl. lia.
  - destruct (Hin_th _ _ Hi) as (s & Hs & Hnn & [Hal Hk]). exists (<[i := ledger_after e x s]> ls).
    pose proof (perform_ok e a x ls i s _ w' now Hs Hnn Hl Hal Hpf) as Hef. apply (pool_update t now g ls i s); try done.
    split; [apply Hef|]. by apply Hk.
  - destruct (Hin_th _ _ Hi) as (s & Hs & Hnn & [Hal Hk]). simpl in Hal.
    destruct (acquire_iter_leases _ _ _ _ _ _ _ _ Hg Hit) as [Hst Hout].
    destruct (acquire_ok ls i s (p_world g) h' k out now) as (s' & Hok & Hef); try done.
    + intros e. by apply (Hk (Err e)).
    + intros l t'. by apply (Hk (Ok (l, t'))).
    + exists (OpAcquire rid q ctx). simpl. by rewrite bool_decide_true, Hit.
    + exists (<[i := s']> ls). by eapply pool_update.
  - destruct (Hin_th _ _ Hi) as (s & Hs & Hnn & Hno & _ & Herr & Hok).
    destruct (acquire_resume_leases _ _ _ _ _ _ _ Hg Hit) as [Hst Hout].
    destruct (acquire_ok ls i s (p_world g) h' k out now) as (s' & Hok' & Hef); try done.
    + exists (OpResume rid w cause). simpl. by rewrite Hit.
    + exists (<[i := s']> ls). by eapply pool_update.
  - destruct (Hin_th _ _ Hi) as (s & Hs & Hnn & Hend). exists (<[i := s]> ls).
    eapply pool_update; try done. split; try lia; [by apply routers_stay_same|by left|]. by eapply leases_same.
  - destruct (exec_admin o now _ Hg Ho) as [Hst Eo]. exists ls. constructor; cbn [p_world p_threads set_heap w_heap w_buffered w_ingress]; try done.
    + exists now. split; [lia|]. eapply reach_step; [done|lia].
    + by apply Hst.
    + destruct Hl as [H1 H2 H3]. constructor; [|rewrite Eo; done|done]. intros. rewrite Eo. by eapply H1.
Qed.

Lemma pool_run t g t' g' ls :
  0 <= rt_MaxBodyBytes (c_Runtime c) → 0 <= rt_MaxOutputBytes (c_Runtime c) →
  run c rid is_print t g t' g' → pool_ok t g ls → ∃ ls', pool_ok t' g' ls'.
Proof.
  intros Hmb Hmo Hrun. revert ls. induction Hrun as [|t g t1 g1 t2 g2 Hrun IH Ht Hstep]; intros ls Hp; [by exists ls|].
  destruct (IH ls Hp) as [ls1 Hp1]. by eapply pool_step.
Qed.

End Pool.

Lemma pool_start c t :
  0 <= rt_MaxBufferedBytes (c_Runtime c) → 0 <= ingress_capacity c → pool_ok c (server_rid c) t (started c) [].
Proof.
  intros Hb Hc. pose proof (New_compiled c empty_heap) as [_ _ _ Hr _ _ _ Hl _]. constructor; cbn [p_world p_threads started w_heap w_buffered w_ingress]; try done.
  - exists t. split; [lia|apply reach_boot].
  - constructor; try done. intros l (x & Hx & _)%elem_of_outstanding. rewrite Hl in Hx. simpl in Hx. by rewrite lookup_empty in Hx.
Qed.

(** With no lease out, every counter of the router is zero. *)
Lemma idle_counters h :
  good h → outstanding h = ∅ →
  (∀ k st, h_states h !! k = Some st → st_active st = 0) ∧ (∀ k qt, h_quotas h !! k = Some qt → q_active qt = 0)
  ∧ (∀ k cp, h_caps h !! k = Some cp → cap_active cp = 0).
Proof.
  intros [[_ Hs Hq Hc _ _ _] _] Ho.
  assert (Honce : ∀ k l, sk_leases (skel h) !! k = Some l → ls_once l = true).
  { intros k l. simpl. rewrite lookup_fmap. intros (x & Hx & ->)%fmap_Some_1. simpl. destruct (le_once x) eqn:E; [done|].
    exfalso. assert (Hk : k ∈ outstanding h) by (apply elem_of_outstanding; by exists x). rewrite Ho in Hk. by apply elem_of_empty in Hk. }
  assert (Hz : ∀ P : lskel → bool, (∀ l, ls_once l = true → P l = false) → count P (sk_leases (skel h)) = 0).
  { intros P HP. apply count_zero. intros k l Hl. by apply HP, (Honce k). }
  split_and!; intros k x Hx.
  - rewrite (Hs k (st_active x)) by (simpl; by rewrite lookup_fmap, Hx). apply Hz. intros l El. unfold holds_state. by rewrite El.
  - rewrite (Hq k (q_active x)) by (simpl; by rewrite lookup_fmap, Hx).
    rewrite !Hz; [done|..]; intros l El; unfold holds_quota, holds_account; by rewrite El.
  - assert (Hk : sk_caps (skel h) !! k = Some (cap_skel x)) by (simpl; by rewrite lookup_fmap, Hx). apply Hc in Hk. simpl in Hk. rewrite Hk.
    apply Hz. intros l El. unfold holds_cap. by rewrite El.
Qed.

Definition has_ended (th : thread) : Prop := match th with Ended _ => True | _ => False end.

(** C23: requests take no more than the server has and give everything back.
    Whatever requests arrive, however their steps interleave, whatever the
    upstreams, the clients and the contexts do, and through reconfigurations:
    the bytes reserved stay within [max_buffered_bytes] and the requests
    admitted within the ingress capacity, neither ever negative; and once
    every handler has returned (or panicked to abort its response) no byte
    stays reserved, no ingress slot taken, no lease is out and every counter
    of the router is zero. *)
Theorem requests_return_everything c is_print `{TimeParser} t0 t g :
  0 <= rt_MaxBodyBytes (c_Runtime c) → 0 <= rt_MaxOutputBytes (c_Runtime c) → 0 <= rt_MaxBufferedBytes (c_Runtime c) →
  0 <= ingress_capacity c →
  run c (server_rid c) is_print t0 (started c) t g →
  0 <= w_buffered (p_world g) <= rt_MaxBufferedBytes (c_Runtime c)
  ∧ 0 <= w_ingress (p_world g) <= ingress_capacity c
  ∧ (Forall has_ended (p_threads g) →
     w_buffered (p_world g) = 0 ∧ w_ingress (p_world g) = 0 ∧ outstanding (w_heap (p_world g)) = ∅
     ∧ (∀ k st, h_states (w_heap (p_world g)) !! k = Some st → st_active st = 0)
     ∧ (∀ k qt, h_quotas (w_heap (p_world g)) !! k = Some qt → q_active qt = 0)
     ∧ (∀ k cp, h_caps (w_heap (p_world g)) !! k = Some cp → cap_active cp = 0)).
Proof.
  intros Hmb Hmo Hmf Hcap Hrun. destruct (pool_run _ _ _ _ _ _ _ _ Hmb Hmo Hrun (pool_start c t0 Hmf Hcap)) as
    [ls [(t' & _ & Hreach) _ Hth Hb Hi Hl Hbud Hc]].
  assert (Hnn : ∀ s, s ∈ ls → 0 <= lg_buffered s).
  { intros s (i & Hs)%list_elem_of_lookup. destruct (Forall2_lookup_r _ _ _ _ _ Hth Hs) as (th & _ & Hok). apply Hok. }
  split_and!; [rewrite Hb; by apply zsum_nonneg|done| |done|].
  { rewrite Hi. apply zsum_nonneg. intros s _. unfold slot. destruct (lg_in s); lia. }
  intros Hend. assert (Hnone : ∀ s, s ∈ ls → s = nothing).
  { intros s (i & Hs)%list_elem_of_lookup. destruct (Forall2_lookup_r _ _ _ _ _ Hth Hs) as (th & Hi' & _ & Hok).
    rewrite Forall_forall in Hend. specialize (Hend th ltac:(by eapply list_elem_of_lookup_2)). by destruct th. }
  assert (Hout : outstanding (w_heap (p_world g)) = ∅).
  { apply elem_of_equiv_empty_L. intros l Hin. destruct (li_known _ _ Hl l Hin) as (i & s & Hs & E).
    apply list_elem_of_lookup_2, Hnone in Hs. by subst s. }
  split_and!; [rewrite Hb|rewrite Hi|done|..].
  - apply zsum_zero. intros s ->%Hnone. done.
  - apply zsum_zero. intros s ->%Hnone. done.
  - apply (idle_counters _ (good_reachable _ _ Hreach) Hout).
  - apply (idle_counters _ (good_reachable _ _ Hreach) Hout).
  - apply (idle_counters _ (good_reachable _ _ Hreach) Hout).
Qed.

(** The request of file GatewayDemo has come and gone. *)
Definition demo_idle : pool := {| p_world := fst demo_end; p_threads := [Ended false] |}.

Lemma run_return c rid is_print `{TimeParser} t0 g0 t w b :
  run c rid is_print t0 g0 t {| p_world := w; p_threads := [Running (Ret b)] |} →
  run c rid is_print t0 g0 t {| p_world := w; p_threads := [Ended b] |}.
Proof.
  intros Hr. eapply run_step; [exact Hr|lia|].
  exact (step_return c rid is_print t {| p_world := w; p_threads := [Running (Ret b)] |} 0 b eq_refl).
Qed.

Lemma demo_idle_run : run pool_config (server_rid pool_config) plain 0 (started pool_config) 5 demo_idle.
Proof.
  assert (Hend : match snd demo_end with Ret aborted => negb aborted | Do _ _ => false end = true) by exact demo_returns.
  assert (Hret : snd demo_end = Ret false).
  { destruct (snd demo_end) as [[|]|]; [discriminate|reflexivity|discriminate]. }
  unfold demo_idle. apply run_return. rewrite <-Hret. apply drive_run. eapply run_step; [apply run_refl|lia|].
  exact (step_admit pool_config (server_rid pool_config) plain 5 (started pool_config) demo_request "chat" "" false).
Qed.

Lemma requests_return_everything_witness :
  w_requests (p_world demo_idle) = 1 ∧ w_buffered (p_world demo_idle) = 0 ∧ outstanding (w_heap (p_world demo_idle)) = ∅.
Proof.
  destruct (requests_return_everything pool_config plain 0 5 demo_idle) as (_ & _ & Hend);
    [vm_compute; discriminate|vm_compute; discriminate|vm_compute; discriminate|vm_compute; discriminate|exact demo_idle_run|].
  split; [vm_compute; reflexivity|]. destruct Hend as (H1 & _ & H2 & _); [repeat constructor|]. exact (conj H1 H2).
Defined.
