(* ===== verification/GatewaySafety.v ===== *)
(** * Replays and streams

    Two more monitors of the generation endpoint: one for the attempts of
    [acquireResponse], which may call a second upstream only when the first
    did not generate, and one for [streamResponse], which may send the client
    nothing but the frames of the upstream's body. *)

From S2P Require Import Prelude GoFloat ConfigData Execution RouterData RouterPolicy RouterPolicyFacts RouterOps RouterInv RouterReach RouterFacts.
From S2P Require Import Json Request Sse SseFacts Observer ObserverFacts ConfigTheorems Program Gateway GatewayDemo.
Local Open Scope string_scope.
Local Open Scope Z_scope.

Lemma safe_do {S R A} (m : monitor eff S) (e : eff R) (k : R → prog eff A) Q s :
  safe m (trigger e ≫= k) Q s ↔ allowed m e s ∧ ∀ x s', answers m e x s s' → safe m (k x) Q s'.
Proof. done. Qed.
Lemma safe_eff {S R} (m : monitor eff S) (e : eff R) Q s :
  safe m (trigger e) Q s ↔ allowed m e s ∧ ∀ x s', answers m e x s s' → Q x s'.
Proof. done. Qed.
Lemma safe_then {S A B} (m : monitor eff S) (p : prog eff A) (f : A → prog eff B) Q s :
  safe m (p ≫= f) Q s ↔ safe m p (λ a, safe m (f a) Q) s.
Proof. apply safe_bind. Qed.

(** One effect of a program. *)
Ltac run_effect := first [rewrite safe_eff | rewrite safe_do]; cbn [allowed answers]; split; [try done|].

(** ** Attempts *)

(** What the attempts are at: between two, with a lease before the call, or
    with the answer of the call. *)
Inductive phase :=
| Seeking
| Holding (l : loc) (t : Target)
| Called (l : loc) (t : Target) (out : res upstream_error response).
Record attempts := { at_left : nat; at_query : Query; at_phase : phase }.

Section Attempts.
Context (c : Config) `{TimeParser} (proto : string) (stream : bool) (payload : string → bytes).
Notation source t := (source_at c (t_Source t)).

(** Nothing was generated: the call failed before it was submitted, or a
    native interface refused it with 401, 403 or 429. *)
Definition replayable (t : Target) (out : res upstream_error response) : bool :=
  match out with
  | Err e => default false (ue_transport e)
  | Ok r => rejectedBeforeGeneration (source t) (rs_StatusCode r)
  end.
Definition call_status (out : res upstream_error response) : Z := match out with Err _ => 502 | Ok r => rs_StatusCode r end.
Definition reached (out : res upstream_error response) : bool := match out with Err _ => false | Ok _ => true end.

Definition attempt_allowed {R} (e : eff R) (s : attempts) : Prop :=
  match e with
  | Acquire q => at_phase s = Seeking ∧ q = at_query s
  | CallUpstream i p model st b => ∃ l t, at_phase s = Holding l t ∧ (0 < at_left s)%nat
      ∧ i = t_Source t ∧ p = proto ∧ model = m_Upstream (t_Model t) ∧ st = stream ∧ b = payload model
  | DoRelease l status _ => ∃ t out, at_phase s = Called l t out ∧ (0 < at_left s)%nat ∧ replayable t out = true ∧ status = call_status out
  | CtxErr _ | CloseBody | Until _ => True
  | _ => False
  end.

(** The router offers no source the query excludes. *)
Definition attempt_answers {R} (e : eff R) : R → attempts → attempts → Prop :=
  match e in eff R return R → attempts → attempts → Prop with
  | Acquire q => λ x s s', match x with
      | Ok (l, t) => s_ID (source t) ∉ qr_ExcludedSources q ∧ s' = {| at_left := at_left s; at_query := at_query s; at_phase := Holding l t |}
      | Err _ => s' = s
      end
  | CallUpstream _ _ _ _ _ => λ out s s', ∃ l t, at_phase s = Holding l t
      ∧ s' = {| at_left := pred (at_left s); at_query := at_query s; at_phase := Called l t out |}
  | DoRelease _ _ _ => λ _ s s', ∃ l t out, at_phase s = Called l t out
      ∧ s' = {| at_left := at_left s; at_query := next_attempt c t (reached out) (at_query s); at_phase := Seeking |}
  | _ => λ _ s s', s' = s
  end.

Definition attempt_monitor : monitor eff attempts := {| allowed := @attempt_allowed; answers := @attempt_answers |}.

(** The sources tried: all different. *)
Definition tried (s : attempts) : list string :=
  (qr_ExcludedSources (at_query s) ++ match at_phase s with Seeking => [] | Holding _ t | Called _ t _ => [s_ID (source t)] end)%list.

(** What is returned: the lease and the outcome of the last call, or the
    router's refusal; a call that could be replayed is only returned when no
    attempt is left or the request is over. *)
Definition attempt_done (out : option (loc * Target) * option response * option failure) (s : attempts) : Prop :=
  NoDup (tried s) ∧
  match out with
  | (Some (l, t), resp, e) => ∃ o, at_phase s = Called l t o
      ∧ match o with Ok r => resp = Some r ∧ e = None | Err u => resp = None ∧ e = Some (UpstreamFailed u) end
  | (None, resp, e) => at_phase s = Seeking ∧ resp = None ∧ ∃ a, e = Some (AcquireFailed a)
  end.

Lemma safe_retryAfter {S} (m : monitor eff S) v (Q : Z → S → Prop) s :
  (∀ t, allowed m (Until t) s) → (∀ t d s', answers m (Until t) d s s' → s' = s) → (∀ d, Q d s) → safe m (retryAfter v) Q s.
Proof.
  intros Ha Hs HQ. unfold retryAfter. destruct (Atoi v); [apply HQ|]. destruct (ParseTime v); [|apply HQ].
  run_effect. intros d s' ->%Hs. apply HQ.
Qed.

Lemma excluded_next t r q : qr_ExcludedSources (next_attempt c t r q) = (qr_ExcludedSources q ++ [s_ID (source t)])%list.
Proof. unfold next_attempt. by destruct (estimatedRequestCost _ q). Qed.
Lemma protocol_next t r q : qr_Protocol (next_attempt c t r q) = qr_Protocol q.
Proof. unfold next_attempt. by destruct (estimatedRequestCost _ q). Qed.

Lemma safe_acquire_loop left q :
  (0 < left)%nat → qr_Protocol q = proto → NoDup (qr_ExcludedSources q) →
  safe attempt_monitor (acquire_loop c left q stream payload) attempt_done {| at_left := left; at_query := q; at_phase := Seeking |}.
Proof.
  revert q. induction left as [|left IH]; intros q Hleft Hp Hnd; [lia|]. cbn [acquire_loop]. run_effect.
  intros [[l t]|e] s'; cbn [attempt_answers at_left at_query].
  2:{ intros ->. split; [unfold tried; simpl; by rewrite app_nil_r|]. split; [done|]. split; [done|]. by exists e. }
  intros [Hnew ->]. set (s1 := {| at_left := S left; at_query := q; at_phase := Holding l t |}).
  run_effect. { exists l, t. split_and!; try done; simpl; lia. }
  intros out s2 (l0 & t0 & [= <- <-] & ->). set (s2 := {| at_left := left; at_query := q; at_phase := Called l t out |}).
  change {| at_left := Nat.pred (at_left s1); at_query := at_query s1; at_phase := Called l t out |} with s2.
  assert (Htried : NoDup (tried s2)).
  { unfold tried. simpl. apply NoDup_app. split_and!; [done| |apply NoDup_singleton]. intros x Hx ->%list_elem_of_singleton. done. }
  rewrite safe_then. apply (safe_mono _ _ (λ x s, s = s2 ∧ fst (fst x) = replayable t out ∧ snd (fst x) = call_status out)).
  2:{ destruct out as [r|e]; [|done]. rewrite safe_then. by apply safe_retryAfter. }
  intros [[safe0 status] cooldown] s (-> & E1 & E2). cbn [fst snd] in E1, E2. subst safe0 status. rewrite safe_then.
  apply (safe_mono _ _ (λ stop s, s = s2 ∧ (stop = true ∨ replayable t out = true ∧ (0 < left)%nat))).
  2:{ destruct (replayable t out); cbn [negb orb]; [|split; [done|by left]]. destruct (Nat.eqb_spec left 0); [split; [done|by left]|].
      run_effect. intros stop s' ->. split; [done|]. right. split; [done|lia]. }
  intros stop s (-> & Hstop). destruct stop.
  { split; [done|]. exists out. split; [done|]. by destruct out. }
  destruct Hstop as [[=]|[Hrep Hl]]. cbv zeta. rewrite safe_then.
  apply (safe_mono _ _ (λ _ s, s = s2)); [|destruct out; [run_effect; by intros ? ? ->|done]].
  intros _ s ->. run_effect. { exists t, out. split_and!; done. }
  intros _ s' (l0 & t0 & o & [= <- <- <-] & ->). cbn [at_left at_query s2].
  replace (match out with Ok _ => true | Err _ => false end) with (reached out) by done.
  apply IH; [done|by rewrite protocol_next|]. rewrite excluded_next. exact Htried.
Qed.

End Attempts.

Lemma attempt_loop_bounds id groups :
  Forall (λ g, g_MaxAttempts g <= 8) groups → 1 <= attempt_loop id groups <= 8.
Proof.
  induction 1 as [|g l Hg _ IH]; cbn [attempt_loop]; [lia|]. destruct (_ || _); [done|].
  destruct (Z.ltb_spec 0 (g_MaxAttempts g)); [lia|]. destruct (_ =s _); [lia|done].
Qed.

Lemma attempt_limit_bounds c q : Forall (λ g, g_MaxAttempts g <= 8) (c_Groups c) → 1 <= attemptLimit c q <= 8.
Proof. intros H. unfold attemptLimit. destruct (qr_Stateful q); [lia|by apply attempt_loop_bounds]. Qed.

Lemma eligible_not_excluded h r t q : fst (eligible h r t q) = true → s_ID (src_at r (t_Source t)) ∉ qr_ExcludedSources q.
Proof.
  unfold eligible. intros H%String.eqb_eq. unfold eligible_reason in H. destruct (qr_Probe q && _); [discriminate|].
  destruct (contains (qr_ExcludedSources q) _) eqn:E; [discriminate|]. by apply contains_false in E.
Qed.

Lemma granted_not_excluded rid q ctx queued now h h' l :
  acquire_iter rid q ctx queued now h = (h', Granted l) →
  s_ID (src_at (router_at h rid) (t_Source (le_Target (lease_at h' l)))) ∉ qr_ExcludedSources q.
Proof.
  intros (idx & Hch & _ & _ & -> & ->)%acquire_granted. rewrite defer_lease_at, (proj2 (grant_lease rid q idx now h)). cbn [le_Target].
  apply choose_some in Hch as (_ & _ & (He & _)%explain_eligible). by eapply eligible_not_excluded.
Qed.

(** C24: a request is replayed only when it was not generated.  On every run,
    [acquireResponse] asks the router with the query it was given, extended by
    the sources tried and the budget they spent; calls the upstream of the
    lease with the request rewritten for its model, at most [attemptLimit]
    times (between 1 and 8, and once for a stateful request); and goes on to
    another attempt only after a call that failed before submission, or that a
    native interface refused with 401, 403 or 429, whose lease it has released
    with that status.  The sources it tries are all different, since the router
    grants none that is excluded. *)
Theorem replays_are_safe c `{TimeParser} q stream payload :
  qr_ExcludedSources q = [] → Forall (λ g, g_MaxAttempts g <= 8) (c_Groups c) →
  safe (attempt_monitor c (qr_Protocol q) stream payload) (acquireResponse c q stream payload) (attempt_done c)
    {| at_left := Z.to_nat (attemptLimit c q); at_query := q; at_phase := Seeking |}
  ∧ 1 <= attemptLimit c q <= 8 ∧ (qr_Stateful q = true → attemptLimit c q = 1)
  ∧ ∀ rid q' ctx queued now h h' l, acquire_iter rid q' ctx queued now h = (h', Granted l) → r_cfg (router_at h rid) = c →
      s_ID (source_at c (t_Source (le_Target (lease_at h' l)))) ∉ qr_ExcludedSources q'.
Proof.
  intros Hq Hg. pose proof (attempt_limit_bounds c q Hg) as Hb. split_and!; [|lia|lia| |].
  - apply safe_acquire_loop; [lia|done|]. rewrite Hq. constructor.
  - intros Hs. unfold attemptLimit. by rewrite Hs.
  - intros rid q' ctx queued now h h' l Hit Hc. apply granted_not_excluded in Hit. unfold src_at in Hit. by rewrite Hc in Hit.
Qed.

Definition demo_query : Query :=
  {| qr_Probe := false; qr_Detail := false; qr_ExcludedSources := []; qr_Affinity := ""; qr_Model := "a/talk"; qr_Protocol := "chat";
     qr_Tools := false; qr_Bytes := 100; qr_OutputTokens := 9; qr_SpentUSD := f0; qr_Stateful := true; qr_Vision := false |}.

Lemma replays_are_safe_witness :
  safe (attempt_monitor pool_config "chat" false (λ _, demo_body)) (acquireResponse pool_config demo_query false (λ _, demo_body))
    (attempt_done pool_config) {| at_left := 1; at_query := demo_query; at_phase := Seeking |}
  ∧ attemptLimit pool_config demo_query = 1.
Proof.
  destruct (replays_are_safe pool_config demo_query false (λ _, demo_body)) as (H & _ & H1 & _); [reflexivity|repeat constructor; vm_compute; discriminate|].
  split; [exact H|exact (H1 eq_refl)].
Defined.

(** ** Streams *)

(** What the client has been sent: the frames written, the length of a write
    that the metric does not count yet, whether the first output has been
    reported to the router, and whether a write or a flush has failed. *)
Record relayed := { rl_frames : list bytes; rl_due : option Z; rl_first : bool; rl_broken : bool }.

Definition fresh : relayed := {| rl_frames := []; rl_due := None; rl_first := false; rl_broken := false |}.

Section Streams.
Local Open Scope list_scope.
Context (c : Config) (body : bytes) (eof : bool) (proto : string) (lease : loc).
Notation limit := (stream_limit c).

(** The body not yet read, and the observer of the frames sent. *)
Definition unread (fs : list bytes) : bytes := drop (length (concat fs)) body.
Definition seen (fs : list bytes) : CompletionObserver := observe_all fs (new_observer proto).

Definition stream_allowed {R} (e : eff R) (s : relayed) : Prop :=
  match e with
  | Write f => rl_broken s = false ∧ rl_due s = None ∧ o_Terminal (seen (rl_frames s)) = false
      ∧ (∃ r, next_event limit eof (unread (rl_frames s)) = Ok (f, r)) ∧ len (concat (rl_frames s)) + len f <= rt_MaxOutputBytes (c_Runtime c)
      ∧ let o := Observe f (seen (rl_frames s)) in o_Error o = "" ∧ (o_SawOutput o = true → rl_first s = true)
  | DoFirstOutput l => l = lease ∧ rl_first s = false ∧ ∃ f r, next_event limit eof (unread (rl_frames s)) = Ok (f, r)
      ∧ o_SawOutput (Observe f (seen (rl_frames s))) = true
  | Add k n => k = OutputBytes ∧ rl_due s = Some n
  | Flush => rl_broken s = false
  | CtxErr _ => True
  | _ => False
  end.

Definition stream_answers {R} (e : eff R) : R → relayed → relayed → Prop :=
  match e in eff R return R → relayed → relayed → Prop with
  | Write f => λ x s s', s' = {| rl_frames := rl_frames s ++ [f]; rl_due := Some (fst x); rl_first := rl_first s; rl_broken := negb (snd x) |}
  | DoFirstOutput _ => λ _ s s', s' = {| rl_frames := rl_frames s; rl_due := rl_due s; rl_first := true; rl_broken := rl_broken s |}
  | Add _ _ => λ _ s s', s' = {| rl_frames := rl_frames s; rl_due := None; rl_first := rl_first s; rl_broken := rl_broken s |}
  | Flush => λ ok s s', s' = {| rl_frames := rl_frames s; rl_due := rl_due s; rl_first := rl_first s; rl_broken := negb ok |}
  | _ => λ _ s s', s' = s
  end.

Definition stream_monitor : monitor eff relayed := {| allowed := @stream_allowed; answers := @stream_answers |}.

(** Why the relay stopped, and the result that reports it. *)
Inductive stream_end (s : relayed) : ExecutionResult → Prop :=
| end_clean :
    rl_broken s = false → o_Terminal (seen (rl_frames s)) = false → next_event limit eof (unread (rl_frames s)) = Err SseEOF →
    let o := seen (rl_frames s) in
    stream_end s (stream_result true (o_Complete o) (if o_Complete o then "" else "missing_completion") false o)
| end_cut e canceled :
    rl_broken s = false → o_Terminal (seen (rl_frames s)) = false → next_event limit eof (unread (rl_frames s)) = Err e → e ≠ SseEOF →
    stream_end s (stream_result false false "truncated_stream" canceled (seen (rl_frames s)))
| end_limit f r :
    rl_broken s = false → o_Terminal (seen (rl_frames s)) = false → next_event limit eof (unread (rl_frames s)) = Ok (f, r) →
    rt_MaxOutputBytes (c_Runtime c) < len (concat (rl_frames s)) + len f →
    stream_end s (stream_result false false "output_limit" false (seen (rl_frames s)))
| end_reported f r :
    rl_broken s = false → o_Terminal (seen (rl_frames s)) = false → next_event limit eof (unread (rl_frames s)) = Ok (f, r) →
    let o := Observe f (seen (rl_frames s)) in
    o_Error o ≠ "" → stream_end s (stream_result false false (o_Error o) false o)
| end_broken :
    rl_broken s = true → stream_end s (stream_result false false "" true (seen (rl_frames s)))
| end_terminal :
    rl_broken s = false → rl_frames s ≠ [] → let o := seen (rl_frames s) in
    o_Terminal o = true → stream_end s (stream_result true (o_Complete o) "" false o).

Definition stream_done (out : ExecutionResult * bool) (s : relayed) : Prop :=
  stream_end s (fst out) ∧ snd out = bool_decide (rl_frames s ≠ []) ∧ rl_due s = None
  ∧ ∃ rest, body = concat (rl_frames s) ++ rest.

Lemma seen_snoc fs f : seen (fs ++ [f]) = Observe f (seen fs).
Proof. unfold seen, observe_all. by rewrite fold_left_app. Qed.
Lemma concat_snoc (fs : list bytes) f : concat (fs ++ [f]) = concat fs ++ f.
Proof. by rewrite concat_app; simpl; rewrite app_nil_r. Qed.
Lemma unread_app fs r : body = concat fs ++ r → unread fs = r.
Proof. unfold unread. intros ->. apply drop_app_length. Qed.
Lemma snoc_nonempty {A} (l : list A) x : l ++ [x] ≠ [].
Proof. by destruct l. Qed.

(** The outcome of a frame that may be sent: it is written and flushed, or
    the client is gone. *)
Lemma next_outcome l x r : Next sse_buffer limit eof l = (x, r) → match x with Ok f => next_event limit eof l = Ok (f, r) | Err e => next_event limit eof l = Err e end.
Proof. intros E. pose proof (next_spec sse_buffer limit eof l ltac:(vm_compute; lia)) as H. rewrite E in H. by destruct x. Qed.

Lemma safe_stream_loop fuel fs rest first :
  body = concat fs ++ rest → (length rest < fuel)%nat → o_Terminal (seen fs) = false → (o_SawOutput (seen fs) = true → first = true) →
  safe stream_monitor (stream_loop c fuel eof lease rest (seen fs) (bool_decide (fs ≠ [])) first (len (concat fs))) stream_done
    {| rl_frames := fs; rl_due := None; rl_first := first; rl_broken := false |}.
Proof.
  revert fs rest first. induction fuel as [|fuel IH]; intros fs rest first Hbody Hfuel Hterm Hsaw; [lia|]. cbn [stream_loop].
  set (s := {| rl_frames := fs; rl_due := None; rl_first := first; rl_broken := false |}).
  assert (Hu : unread (rl_frames s) = rest) by (by apply unread_app).
  assert (Hd : ∀ x, stream_end s x → stream_done (x, bool_decide (fs ≠ [])) s) by (intros x Hx; split_and!; [done..|by exists rest]).
  destruct (Next _ _ _ rest) as [[f|e] r] eqn:Hn; apply next_outcome in Hn; rewrite <-Hu in Hn.
  2:{ destruct e; first [apply Hd; by apply end_clean | run_effect; intros x s' ->; apply Hd; by eapply end_cut]. }
  pose proof (next_event_frame _ _ _ _ _ Hn) as (Hf & Hne & _). rewrite Hu in Hf. change (Z.of_nat (length f)) with (len f).
  destruct (Z.ltb_spec (rt_MaxOutputBytes (c_Runtime c)) (len (concat fs) + len f)); [apply Hd; by eapply end_limit|].
  destruct (_ =s _) eqn:He; cbn [negb]; [apply String.eqb_eq in He|apply String.eqb_neq in He; apply Hd; by eapply end_reported].
  rewrite safe_then. set (o := Observe f (seen fs)) in *.
  apply (safe_mono _ _ (λ _ s', s' = {| rl_frames := fs; rl_due := None; rl_first := o_SawOutput o || first; rl_broken := false |})).
  2:{ destruct (o_SawOutput o) eqn:Ho; destruct first; cbn [andb negb orb]; try done.
      run_effect; [split_and!; [done..|by exists f, r]|]. by intros _ s' ->. }
  intros _ s' ->. run_effect.
  { split_and!; [done|done|done|by exists r|done|]. cbn [rl_first rl_frames]. split; [done|]. intros Ho. fold o in Ho. by rewrite Ho. }
  intros [n ok] s' ->. run_effect. intros _ s' ->. cbn [fst snd].
  assert (Hseen : seen (fs ++ [f]) = o) by apply seen_snoc.
  assert (Hsent : bool_decide (fs ++ [f] ≠ []) = true) by (apply bool_decide_eq_true_2, snoc_nonempty).
  assert (Hsplit : body = concat (fs ++ [f]) ++ r) by (by rewrite concat_snoc, <-app_assoc, <-Hf).
  assert (Hdone : ∀ x b, stream_end {| rl_frames := fs ++ [f]; rl_due := None; rl_first := o_SawOutput o || first; rl_broken := b |} x →
    stream_done (x, true) {| rl_frames := fs ++ [f]; rl_due := None; rl_first := o_SawOutput o || first; rl_broken := b |}).
  { intros x b Hx. split_and!; [done|exact (eq_sym Hsent)|done|by exists r]. }
  clearbody o. subst o. destruct ok; cbn [negb]; [|apply Hdone; by apply end_broken].
  run_effect. intros flushed s' ->. cbn [rl_frames rl_due rl_first].
  destruct flushed; cbn [negb]; [|apply Hdone; by apply end_broken].
  destruct (o_Terminal (seen (fs ++ [f]))) eqn:Ht; [apply Hdone; by apply end_terminal; [|apply snoc_nonempty|]|].
  rewrite <-Hsent at 1. rewrite <-len_app, <-concat_snoc. apply IH; [done| |done|].
  - rewrite Hf, length_app in Hfuel. destruct f; [done|simpl in Hfuel; lia].
  - by intros ->.
Qed.

Lemma successful_result t complete err cancel o :
  Successful (stream_result t complete err cancel o) = t && complete && (err =? "")%string && negb cancel.
Proof. done. Qed.

Lemma stream_end_successful s x :
  stream_end s x →
  Successful x = true ↔ rl_broken s = false ∧ o_Complete (seen (rl_frames s)) = true
    ∧ (rl_frames s ≠ [] ∧ o_Terminal (seen (rl_frames s)) = true ∨ next_event limit eof (unread (rl_frames s)) = Err SseEOF).
Proof.
  intros [Hb Ht Hn o|e canceled Hb Ht Hn Hne|f r Hb Ht Hn Hlim|f r Hb Ht Hn o Herr|Hb|Hb Hne o Ht];
    rewrite successful_result, ?andb_false_r; try (split; [discriminate|]; naive_solver congruence).
  - fold o. destruct (o_Complete o); naive_solver.
  - fold o. rewrite !andb_true_r. naive_solver.
Qed.

End Streams.

(** C25: a stream reaches the client frame by frame and nothing else does.
    Whatever the client does, [streamResponse] writes the next frame of the
    body that has not been sent, whole and in order, only while no write or
    flush has failed and no frame so far (this one included) reported an error
    or ended the stream, and never beyond [max_output_bytes]; every write is
    counted before anything else happens; the first output is reported to the
    router once, before the frame that shows it is written.  It ends for one of
    the six reasons of [stream_end], with the token counts of the frames
    observed and with [sent] telling whether anything was written, and the
    result is successful exactly when every write arrived and the frames sent
    complete the protocol, at its end marker or at the clean end of the body. *)
Theorem stream_relays_frames c body eof proto lease :
  safe (stream_monitor c body eof proto lease) (streamResponse c body eof proto lease) (stream_done c body eof proto) fresh
  ∧ ∀ s x, stream_end c body eof proto s x →
      Successful x = true ↔ rl_broken s = false ∧ o_Complete (seen proto (rl_frames s)) = true
        ∧ (rl_frames s ≠ [] ∧ o_Terminal (seen proto (rl_frames s)) = true
           ∨ next_event (stream_limit c) eof (unread body (rl_frames s)) = Err SseEOF).
Proof.
  split; [|apply stream_end_successful].
  apply (safe_stream_loop c body eof proto lease (S (length body)) [] body false); [done|lia|done|done].
Qed.
