(* ===== verification/GatewayIngress.v ===== *)
(** * Reading an upload

    What [readIngressBody] makes of the bytes a client sends: a prefix of them
    within the declared or configured size, in a buffer within the reservation
    made before reading. *)

From S2P Require Import Prelude Json Request Gateway.
Local Open Scope Z_scope.

(** What the client sends in all, and the error that ends it. *)
Definition content (r : reader) : bytes := fst (body_bytes r).
Fixpoint body_error (r : reader) : read_error :=
  match r with
  | [] => ReadEOF
  | (_, None) :: r' => body_error r'
  | (_, Some e) :: _ => e
  end.

(** Every read delivers something. *)
Definition calm (r : reader) : Prop := Forall (λ i, fst i ≠ [] ∨ snd i ≠ None) r.

(** A measure that every read without an error decreases. *)
Definition weight (r : reader) : nat := (length r + length (concat (map fst r)))%nat.

Lemma content_more b r : content ((b, None) :: r) = b ++ content r.
Proof. unfold content. simpl. by destruct (body_bytes r). Qed.

Lemma Read_spec n r got err r' :
  Read n r = (got, err, r') → (0 < n)%nat →
  (length got <= n)%nat
  ∧ match err with
    | Some e => content r = got ∧ body_error r = e
    | None => content r = got ++ content r' ∧ body_error r = body_error r' ∧ (weight r' < weight r)%nat
        ∧ (calm r → got ≠ [] ∧ calm r')
    end.
Proof.
  destruct r as [|[b e] r]; simpl; [intros [= <- <- <-]; simpl; auto with lia|].
  destruct (Nat.ltb_spec n (length b)) as [Hn|Hn]; intros [= <- <- <-] Hpos.
  - rewrite length_take. split; [lia|]. split_and!.
    + destruct e; [symmetry; apply take_drop|]. rewrite !content_more, app_assoc, take_drop. done.
    + by destruct e.
    + unfold weight. simpl. rewrite !length_app, length_drop. lia.
    + intros [_ Hr]%Forall_cons. split.
      * destruct b; [simpl in Hn; lia|]. destruct n; [lia|done].
      * apply Forall_cons. split; [left|done]. simpl. intros H%(f_equal length). rewrite length_drop in H. simpl in H. lia.
  - split; [done|]. destruct e as [e|]; [done|]. split_and!; [apply content_more|done| |].
    + unfold weight. simpl. rewrite length_app. lia.
    + by intros [[H|H] Hr]%Forall_cons.
Qed.

(** ** Bodies of a declared length *)

Definition full_error (all : bytes) (e : read_error) : read_error :=
  match e with ReadEOF => if bool_decide (all = []) then ReadEOF else UnexpectedEOF | _ => e end.

Lemma read_full_spec fuel n body r :
  (weight r < fuel)%nat → (length body <= n)%nat →
  read_full fuel n body r
  = let all := body ++ content r in
    if (n <=? length all)%nat then (take n all, None) else (all, Some (full_error all (body_error r))).
Proof.
  revert body r. induction fuel as [|fuel IH]; intros body r Hf Hb; [lia|]. cbn [read_full]. cbv zeta.
  destruct (Nat.leb_spec n (length body)) as [Hn|Hn].
  { rewrite length_app. destruct (Nat.leb_spec n (length body + length (content r))); [|lia]. by rewrite take_app_length' by lia. }
  destruct (Read _ r) as [[got err] r'] eqn:E. apply Read_spec in E as [Hgot E]; [|lia]. destruct err as [e|].
  - destruct E as [-> ->]. destruct (Nat.leb_spec n (length (body ++ got))) as [Hl|Hl]; [|done].
    rewrite length_app in Hl. by rewrite take_ge by (rewrite length_app; lia).
  - destruct E as (-> & -> & Hw & _). rewrite IH; [|lia|rewrite length_app; lia]. by rewrite <-app_assoc.
Qed.

(** ** Chunked bodies *)

Lemma read_chunks_spec fuel limit cap body empties r body' cap' e :
  (weight r < fuel)%nat → (0 < cap <= limit)%nat → (length body <= cap)%nat →
  read_chunks fuel limit cap body empties r = (body', cap', e) →
  (length body' <= cap' <= limit)%nat
  ∧ ∃ rest, body ++ content r = body' ++ rest
    ∧ match e with
      | None => length body' = limit ∨ rest = [] ∧ body_error r = ReadEOF
      | Some x => rest = [] ∧ body_error r = x ∧ x ≠ ReadEOF ∨ x = NoProgress ∧ ¬ calm r
      end.
Proof.
  revert cap body empties r. induction fuel as [|fuel IH]; intros cap body empties r Hf Hc Hb; [lia|]. cbn [read_chunks].
  destruct (Nat.leb_spec limit (length body)) as [Hl|Hl].
  { intros [= <- <- <-]. split; [lia|]. exists (content r). split; [done|]. left. lia. }
  set (cap1 := if (length body =? cap)%nat then Nat.min (cap * 2) limit else cap).
  assert (Hc1 : (0 < cap1 <= limit)%nat ∧ (length body < cap1)%nat).
  { unfold cap1. destruct (Nat.eqb_spec (length body) cap); lia. }
  clearbody cap1. destruct (Read _ r) as [[got err] r'] eqn:E. apply Read_spec in E as [Hgot E]; [|lia].
  assert (Hlen : (length (body ++ got) <= cap1)%nat) by (rewrite length_app; lia).
  destruct err as [x|].
  - destruct E as [-> ->]. intros Hret. assert (body' = body ++ got ∧ cap' = cap1 ∧ e = match x with ReadEOF => None | _ => Some x end) as (-> & -> & ->).
    { destruct x; by injection Hret as <- <- <-. }
    split; [lia|]. exists []. rewrite app_nil_r. split; [done|]. destruct x; [by right|by left..].
  - destruct E as (-> & -> & Hw & Hcalm). rewrite app_assoc.
    assert (Hgo : ∀ k, read_chunks fuel limit cap1 (body ++ got) k r' = (body', cap', e) →
      (length body' <= cap' <= limit)%nat ∧ ∃ rest, (body ++ got) ++ content r' = body' ++ rest
      ∧ match e with None => length body' = limit ∨ rest = [] ∧ body_error r' = ReadEOF
        | Some x => rest = [] ∧ body_error r' = x ∧ x ≠ ReadEOF ∨ x = NoProgress ∧ ¬ calm r end).
    { intros k Hk. destruct (IH cap1 (body ++ got) k r' ltac:(lia) ltac:(lia) Hlen Hk) as (Hcap & rest & Hr & He).
      split; [done|]. exists rest. split; [done|]. destruct e; [|done]. destruct He as [He|[-> He]]; [by left|right]. split; [done|]. tauto. }
    destruct (bool_decide_reflect (got = [])) as [Hg|_]; [|apply Hgo].
    destruct (S empties =? 100)%nat; [|apply Hgo]. intros [= <- <- <-]. split; [lia|]. exists (content r'). split; [done|]. right. tauto.
Qed.

(** The errors [generate] lets pass. *)
Definition accepted (e : option read_error) : Prop := e = None ∨ e = Some ReadEOF ∨ e = Some UnexpectedEOF.

(** C26: an upload is read whole, within its reservation, or refused for its
    size or its error.  For every body, declared or chunked, however its bytes
    arrive, reading ends; what is read is a prefix of what was sent, of at most
    one byte more than [size], in a buffer no larger, so that the buffer and a
    rewritten copy fit the bytes reserved before reading.  Unless reading fails
    (with the error of the connection, or after a hundred reads in a row
    without a byte), the prefix is longer than [size] exactly when the body is,
    and otherwise is the whole body. *)
Theorem ingress_reads_prefix r size chunked :
  0 <= size →
  let '(body, capacity, e) := readIngressBody r size chunked in
  let n := Z.of_nat (length body) in
  (∃ rest, content r = body ++ rest)
  ∧ n <= capacity <= size + 1
  ∧ capacity + n + 8192 <= 2 * (size + 1) + 8192
  ∧ (accepted e → (size < n ↔ size < Z.of_nat (length (content r))) ∧ (n <= size → body = content r ∧ (body_error r = ReadEOF ∨ body_error r = UnexpectedEOF)))
  ∧ (¬ accepted e → e = Some (body_error r) ∨ e = Some NoProgress ∧ ¬ calm r).
Proof.
  intros Hsize. unfold readIngressBody. set (limit := Z.to_nat (size + 1)).
  assert (Hlim : Z.of_nat limit = size + 1) by lia. assert (Hw : (weight r < read_fuel r)%nat) by (unfold read_fuel, weight; lia).
  destruct chunked.
  - destruct (read_chunks _ _ _ _ _ _) as [[body cap] e] eqn:E. apply read_chunks_spec in E as (Hcap & rest & Hall & He); [|done|lia|simpl; lia].
    simpl in Hall. pose proof (f_equal length Hall) as Hn. rewrite length_app in Hn. split_and!; [by exists rest|lia|lia|lia| |].
    + intros Hacc. destruct e as [x|]; [destruct He as [(-> & Hx & _)|[-> _]]|destruct He as [Hl|[-> Hx]]]; try (by destruct Hacc as [|[|]]).
      all: try rewrite app_nil_r in Hall; simpl in Hn; split; [lia|]; intros Hle; try lia; (split; [done|]).
      * destruct Hacc as [|[|]]; naive_solver.
      * by left.
    + intros Hacc. destruct e as [x|]; [|by destruct Hacc; left]. naive_solver.
  - rewrite read_full_spec by (done || simpl; lia). cbv zeta. simpl. destruct (Nat.leb_spec limit (length (content r))) as [Hl|Hl].
    + rewrite length_take. split_and!; [exists (drop limit (content r)); by rewrite take_drop|lia|lia|lia| |].
      * intros _. split; [lia|]. intros Hle. lia.
      * intros Hacc. destruct Hacc. by left.
    + split_and!; [exists []; by rewrite app_nil_r|lia|lia|lia| |].
      * intros Hacc. split; [lia|]. intros _. split; [done|]. unfold full_error in Hacc. destruct (body_error r), Hacc as [|[|]]; naive_solver.
      * intros Hacc. left. f_equal. unfold full_error, accepted in *. destruct (body_error r); try done. case_bool_decide; tauto.
Qed.

(** An upload whose connection breaks ([UnexpectedEOF]) is accepted like one
    that ends. *)
Example cut_upload_accepted :
  readIngressBody [(js "{'model':'a'}", Some UnexpectedEOF)] 100 true = (js "{'model':'a'}", 101, Some UnexpectedEOF)
  ∧ readIngressBody [(js "{'model':'a'}", None)] 100 true = (js "{'model':'a'}", 101, None).
Proof. split; vm_compute; reflexivity. Qed.

Lemma ingress_reads_prefix_witness :
  let '(body, capacity, e) := readIngressBody [(js "{'a'", None); ([], None); (js ":1}", None)] 3 true in
  (∃ rest, js "{'a':1}" = body ++ rest) ∧ 3 < Z.of_nat (length body) ∧ capacity = 4 ∧ e = None.
Proof.
  pose proof (ingress_reads_prefix [(js "{'a'", None); ([], None); (js ":1}", None)] 3 true ltac:(lia)) as (H & _).
  split; [exact H|]. split_and!; vm_compute; reflexivity.
Defined.
