(* ===== verification/Vault.v ===== *)
(** * The credential vault ([internal/credentials/store.go], [accounts.go],
    [external.go])

    Secrets by reference, encrypted in one file that every change replaces
    atomically.  Each function below is one critical section of the store's
    mutex, on the state [Store] and the files.  The encodings, [encoding/json]
    of the records and the encryption of the platform are interfaces; a time
    is in nanoseconds and the zero time is 0; a nil map is an empty one. *)

From stdpp Require Import sorting.
From S2P Require Import Prelude ConfigData Json GoText GoNet ConfigAccounts Service.
Local Open Scope string_scope.
Local Open Scope Z_scope.

Record ExternalReference := { ex_Manager : string; ex_Reference : string; ex_Field : string }.
#[export] Instance ExternalReference_eq_dec : EqDecision ExternalReference.
Proof. solve_decision. Defined.

Record OAuthGrant := {
  og_AccessToken : string; og_RefreshToken : string; og_TokenURL : string; og_ClientID : string; og_ClientSecret : string;
  og_ExpiresAt : Z; og_Scope : string; og_AccountID : string }.
#[export] Instance OAuthGrant_eq_dec : EqDecision OAuthGrant.
Proof. solve_decision. Defined.

Record OAuthMetadata := { om_ExpiresAt : Z; om_Scope : string; om_AccountID : string; om_AutomaticRefresh : bool }.
#[export] Instance OAuthMetadata_eq_dec : EqDecision OAuthMetadata.
Proof. solve_decision. Defined.

Record Metadata := {
  md_External : option ExternalReference; md_OAuthInfo : option OAuthMetadata; md_State : string; md_Version : Z;
  md_ID : string; md_Kind : string; md_Source : string; md_Domain : string; md_CreatedAt : Z; md_UpdatedAt : Z;
  md_LastUsedAt : option Z }.
#[export] Instance Metadata_eq_dec : EqDecision Metadata.
Proof. solve_decision. Defined.

Record record := {
  rc_Metadata : Metadata; rc_Revoked : bool; rc_Value : string; rc_OAuth : option OAuthGrant; rc_ImportURL : string }.
#[export] Instance record_eq_dec : EqDecision record.
Proof. solve_decision. Defined.

Record AccountOwner := { ow_Account : string; ow_Provider : string }.
#[export] Instance AccountOwner_eq_dec : EqDecision AccountOwner.
Proof. solve_decision. Defined.

Abbreviation records := (gmap string record).
Abbreviation owners := (gmap string (list AccountOwner)).

Record accountBundle := { ab_Provider : string; ab_Materials : records }.
Record accountDocument := { ad_Format : Z; ad_Accounts : gmap string accountBundle }.

(** [refreshes] maps a reference to the refresh in flight, by its number. *)
Record Store := {
  vs_accountOwners : option owners; vs_refreshes : gmap string nat; vs_refreshBackoff : gmap string Z; vs_path : string;
  vs_records : records; vs_lastUsed : gmap string Z; vs_flights : nat }.

Definition with_records (r : records) (s : Store) : Store :=
  {| vs_accountOwners := vs_accountOwners s; vs_refreshes := vs_refreshes s; vs_refreshBackoff := vs_refreshBackoff s;
     vs_path := vs_path s; vs_records := r; vs_lastUsed := vs_lastUsed s; vs_flights := vs_flights s |}.
Definition with_lastUsed (u : gmap string Z) (s : Store) : Store :=
  {| vs_accountOwners := vs_accountOwners s; vs_refreshes := vs_refreshes s; vs_refreshBackoff := vs_refreshBackoff s;
     vs_path := vs_path s; vs_records := vs_records s; vs_lastUsed := u; vs_flights := vs_flights s |}.
Definition with_backoff (b : gmap string Z) (s : Store) : Store :=
  {| vs_accountOwners := vs_accountOwners s; vs_refreshes := vs_refreshes s; vs_refreshBackoff := b;
     vs_path := vs_path s; vs_records := vs_records s; vs_lastUsed := vs_lastUsed s; vs_flights := vs_flights s |}.
Definition with_owners (o : option owners) (s : Store) : Store :=
  {| vs_accountOwners := o; vs_refreshes := vs_refreshes s; vs_refreshBackoff := vs_refreshBackoff s;
     vs_path := vs_path s; vs_records := vs_records s; vs_lastUsed := vs_lastUsed s; vs_flights := vs_flights s |}.
Definition with_refreshes (r : gmap string nat) (flights : nat) (s : Store) : Store :=
  {| vs_accountOwners := vs_accountOwners s; vs_refreshes := r; vs_refreshBackoff := vs_refreshBackoff s;
     vs_path := vs_path s; vs_records := vs_records s; vs_lastUsed := vs_lastUsed s; vs_flights := flights |}.

(** [encoding/json] of the records and of the document by account. *)
Class VaultCodec := {
  marshal_records : records → option bytes;
  unmarshal_records : bytes → option records;
  marshal_document : accountDocument → option bytes;
  unmarshal_document : bytes → option accountDocument }.

(** [platformProtection]: sealing draws on randomness, here an argument. *)
Class Protection := {
  protect : nat → bytes → checked bytes;
  unprotect : bytes → option bytes }.

(** What the surroundings decide during a save. *)
Record save_env := { se_write : write_env; se_random : nat }.

Definition write_vault (e : write_env) (path : string) (b : bytes) (fs : files) : checked unit * list files :=
  if negb (w_mkdir e) then (Err "cannot create credential directory", [])
  else if negb (w_create e) then (Err "cannot create vault transaction", [])
  else
    let name := w_temp e in
    let created := <[name := []]> fs in
    let wrote := if w_chmod e then (if w_copy e then b else take (w_partial e) b) else [] in
    let written := <[name := wrote]> fs in
    if negb (w_chmod e && w_copy e && w_sync e) || negb (w_close e) then
      (Err "cannot write credential vault", [created; written; delete name written])
    else if negb (w_rename e) then (Err "cannot commit credential vault", [created; written; delete name written])
    else
      let renamed := <[path := wrote]> (delete name written) in
      (Ok tt, [created; written; renamed; delete name renamed]).

(** ** Grouping by account *)

Definition own_record (ref : string) (r : record) (doc : accountDocument) (owner : AccountOwner) : checked accountDocument :=
  reject (ow_Account owner =s "") || (ow_Provider owner =s "") with "invalid account material owner" ;;
  let put b := {| ad_Format := ad_Format doc;
    ad_Accounts := <[ow_Account owner := {| ab_Provider := ab_Provider b; ab_Materials := <[ref := r]> (ab_Materials b) |}]> (ad_Accounts doc) |} in
  match ad_Accounts doc !! ow_Account owner with
  | None => Ok (put {| ab_Provider := ow_Provider owner; ab_Materials := ∅ |})
  | Some b => reject negb (ab_Provider b =s ow_Provider owner) with "account material provider conflict" ;; Ok (put b)
  end.

Definition group_record (own : owners) (doc : accountDocument) (entry : string * record) : checked accountDocument :=
  let '(ref, r) := entry in
  if rc_Revoked r then Ok doc
  else
    let owned := default [] (own !! ref) in
    reject bool_decide (owned = []) with "material must belong to a provider account" ;;
    fold_res (own_record ref r) doc owned.

(** Go visits a map in any order, which only the text of an error can show. *)
Definition groupAccountRecords (rs : records) (own : owners) : checked accountDocument :=
  fold_res (group_record own) {| ad_Format := 1; ad_Accounts := ∅ |} (map_to_list rs).

Definition kinds : list string :=
  ["api_key"; "oauth"; "browser_session"; "cookie"; "username_password"; "cli_session"; "device_session"; "browser_profile"].
Definition ValidKind (kind : string) : bool := contains kinds kind.

(** [validateValue]: one JSON object with no other member, then nothing. *)
Definition material (v : json) : option (string * string) :=
  let names := ["username"; "password"] in
  let known := match v with JObj m => forallb (λ '(k, _), bool_decide (is_Some (selects names k))) m | _ => true end in
  if known then
    decode_struct names (λ '(u, p) n x,
      if (n =? "username")%string then s ← decode_string x u; Some (s, p) else s ← decode_string x p; Some (u, s)) v ("", "")
  else None.

Definition validateValue (kind value : string) : checked unit :=
  if negb (kind =s "username_password") then Ok tt
  else
    match v ← parse_json (lit value); material v with
    | Some (username, password) =>
        reject (username =s "") || (password =s "") || (1024 <? slen username) || (64 * 2 ^ 10 <? slen password)
          with "username_password credential must be JSON with non-empty username and password" ;; Ok tt
    | None => Err "username_password credential must be JSON with non-empty username and password"
    end.

(** The result of a critical section, the store after it and the states of
    the files during it. *)
Record outcome (A : Type) := { oc_result : checked A; oc_store : Store; oc_files : list files }.
Arguments Build_outcome {A}.
Arguments oc_result {A}.
Arguments oc_store {A}.
Arguments oc_files {A}.
Definition refused {A} (s : Store) (e : string) : outcome A := Build_outcome (Err e) s [].

Definition by_ref (a b : Metadata) : Prop := String.leb (md_ID a) (md_ID b) = true.
#[export] Instance by_ref_dec a b : Decision (by_ref a b).
Proof. unfold by_ref. apply _. Defined.

Section Vault.
Context `{UrlParser} `{VaultCodec} `{Protection}.

(** [Open], of a file that can be read or not. *)
Definition Open (path : string) (readable : bool) (fs : files) : checked Store :=
  let store rs := {| vs_accountOwners := None; vs_refreshes := ∅; vs_refreshBackoff := ∅; vs_path := path; vs_records := rs;
    vs_lastUsed := ∅; vs_flights := 0 |} in
  match fs !! path with
  | None => Ok (store ∅)
  | Some b =>
      reject negb readable with "cannot read credential vault" ;;
      reject 16 * 2 ^ 20 <? blen b with "credential vault exceeds size limit" ;;
      match unprotect b with
      | None => Err "cannot unlock credential vault"
      | Some plain => match unmarshal_records plain with Some rs => Ok (store rs) | None => Err "invalid credential vault" end
      end
  end.

Definition encode (s : Store) (next : records) : checked bytes :=
  match vs_accountOwners s with
  | Some own =>
      let? doc := groupAccountRecords next own in
      match marshal_document doc with Some b => Ok b | None => Err "cannot encode credential vault" end
  | None => match marshal_records next with Some b => Ok b | None => Err "cannot encode credential vault" end
  end.

Definition save (s : Store) (e : save_env) (fs : files) (next : records) : outcome unit :=
  match
    (let? plain := encode s next in
     reject 8 * 2 ^ 20 <? blen plain with "credential vault capacity exceeded" ;;
     protect (se_random e) plain)
  with
  | Err err => refused s err
  | Ok b =>
      match write_vault (se_write e) (vs_path s) b fs with
      | (Err err, trace) => Build_outcome (Err err) s trace
      | (Ok _, trace) => Build_outcome (Ok tt) (with_records next s) trace
      end
  end.

(** What follows a save that succeeded. *)
Definition saved {A} (o : outcome unit) (a : A) (f : Store → Store) : outcome A :=
  match oc_result o with
  | Err err => Build_outcome (Err err) (oc_store o) (oc_files o)
  | Ok _ => Build_outcome (Ok a) (f (oc_store o)) (oc_files o)
  end.

Definition ready_state (s : Store) (now : Z) (r : record) : string :=
  let md := rc_Metadata r in
  match md_OAuthInfo md with
  | Some info =>
      if now <? default 0 (vs_refreshBackoff s !! md_ID md) then "needs_reauthorization"
      else if bool_decide (is_Some (vs_refreshes s !! md_ID md)) then "refreshing"
      else if negb (om_ExpiresAt info =? 0) && (om_ExpiresAt info <? now) then "expired"
      else if bool_decide (is_Some (md_External md)) then "external_authorization_required" else "ready"
  | None => if bool_decide (is_Some (md_External md)) then "external_authorization_required" else "ready"
  end.

Definition listed (s : Store) (now : Z) (r : record) : Metadata :=
  let md := rc_Metadata r in
  {| md_External := md_External md; md_OAuthInfo := md_OAuthInfo md; md_State := ready_state s now r; md_Version := md_Version md;
     md_ID := md_ID md; md_Kind := md_Kind md; md_Source := md_Source md; md_Domain := md_Domain md; md_CreatedAt := md_CreatedAt md;
     md_UpdatedAt := md_UpdatedAt md;
     md_LastUsedAt := match vs_lastUsed s !! md_ID md with Some t => Some t | None => md_LastUsedAt md end |}.

Definition List (s : Store) (now : Z) : list Metadata :=
  merge_sort by_ref (map (listed s now) (filter (λ r, rc_Revoked r = false) (map snd (map_to_list (vs_records s))))).

(** ** Changes *)

Definition oauth_info (g : OAuthGrant) : OAuthMetadata :=
  {| om_ExpiresAt := og_ExpiresAt g; om_Scope := og_Scope g; om_AccountID := og_AccountID g;
     om_AutomaticRefresh := negb (og_RefreshToken g =s "") |}.

(** The record [putRecord] writes over [prior]. *)
Definition new_record (prior : option record) (now version : Z) (id kind source value : string)
    (external : option ExternalReference) (oauth : option OAuthGrant) : record :=
  let login := match prior with
    | Some p => if (md_Kind (rc_Metadata p) =s "username_password") && (kind =s md_Kind (rc_Metadata p)) then Some p else None
    | None => None
    end in
  {| rc_Metadata := {| md_External := external; md_OAuthInfo := oauth_info <$> oauth; md_State := ""; md_Version := version;
       md_ID := id; md_Kind := kind; md_Source := source;
       md_Domain := match login with Some p => md_Domain (rc_Metadata p) | None => "" end;
       md_CreatedAt := match prior with Some p => md_CreatedAt (rc_Metadata p) | None => now end; md_UpdatedAt := now;
       md_LastUsedAt := None |};
     rc_Revoked := false; rc_Value := value; rc_OAuth := oauth;
     rc_ImportURL := match login with Some p => rc_ImportURL p | None => "" end |}.

Definition putRecord (s : Store) (e : save_env) (fs : files) (now : Z) (id kind source value : string)
    (external : option ExternalReference) (oauth : option OAuthGrant) : outcome unit :=
  if (id =s "") || negb (ValidCredentialRef id) || negb (ValidKind kind) || ((value =s "") && bool_decide (external = None))
    || (2 ^ 20 <? slen value) || (256 <? slen source)
  then refused s "invalid credential reference, type or size"
  else
    match validateValue kind value with
    | Err err => refused s err
    | Ok _ =>
        let store version :=
          saved (save s e fs (<[id := new_record (vs_records s !! id) now version id kind source value external oauth]> (vs_records s))) tt
            (λ s, with_backoff (delete id (vs_refreshBackoff s)) (with_lastUsed (delete id (vs_lastUsed s)) s)) in
        match vs_records s !! id with
        | None => store 1
        | Some old =>
            if rc_Revoked old then refused s "credential reference is revoked; create a new reference"
            else
              let version := u64 (md_Version (rc_Metadata old) + 1) in
              if version =? 0 then refused s "credential version exhausted" else store version
        end
    end.

Definition Put (s : Store) (e : save_env) (fs : files) (now : Z) (id kind source value : string) : outcome unit :=
  putRecord s e fs now id kind source value None None.

(** [ExternalReference.Validate] *)
Definition manager_item (ref : string) : bool :=
  match split_on "-" (lit ref) with
  | [a; b; c; d; e] =>
      forallb (λ '(g, n), forallb is_hex g && (length g =? n)%nat) [(a, 8%nat); (b, 4%nat); (c, 4%nat); (d, 4%nat); (e, 12%nat)]
  | _ => false
  end.

Definition reference_control : string := str [newline; carriage_return; byte_of 0].

Definition ValidateExternal (ref : ExternalReference) : checked unit :=
  let other := Err "select an op:// vault/item/field or a Bitwarden item UUID and password/username field" in
  reject (1024 <? slen (ex_Reference ref)) || contains_any (ex_Reference ref) reference_control with "invalid external reference" ;;
  if ex_Manager ref =s "1password" then
    let parts := split_on "/" (lit (trim_prefix (ex_Reference ref) "op://")) in
    if negb (has_prefix (ex_Reference ref) "op://") || (negb (length parts =? 3)%nat && negb (length parts =? 4)%nat)
      || negb (ex_Field ref =s "")
    then other
    else
      reject existsb (λ p, bool_decide (p = []) || contains_any (str p) "?#") parts with "invalid selected 1Password field" ;; Ok tt
  else if ex_Manager ref =s "bitwarden" then
    if manager_item (ex_Reference ref) && ((ex_Field ref =s "password") || (ex_Field ref =s "username")) then Ok tt else other
  else other.

Definition PutExternal (s : Store) (e : save_env) (fs : files) (now : Z) (id kind : string) (ref : ExternalReference) : outcome unit :=
  match ValidateExternal ref with
  | Err err => refused s err
  | Ok _ =>
      if contains ["api_key"; "oauth"; "cookie"] kind
      then putRecord s e fs now id kind ("external:" ++ ex_Manager ref) "" (Some ref) None
      else refused s "external references require an invocation credential type"
  end.

(** A tombstone: neither the value nor anything about it. *)
Definition tombstone (now : Z) (id : string) (old : record) : record :=
  {| rc_Metadata := {| md_External := None; md_OAuthInfo := None; md_State := ""; md_Version := md_Version (rc_Metadata old);
       md_ID := id; md_Kind := ""; md_Source := ""; md_Domain := ""; md_CreatedAt := 0; md_UpdatedAt := now; md_LastUsedAt := None |};
     rc_Revoked := true; rc_Value := ""; rc_OAuth := None; rc_ImportURL := "" |}.

Definition Delete (s : Store) (e : save_env) (fs : files) (now : Z) (id : string) : outcome unit :=
  match vs_records s !! id with
  | Some old =>
      if rc_Revoked old then refused s "unknown credential"
      else saved (save s e fs (<[id := tombstone now id old]> (vs_records s))) tt (λ s, with_lastUsed (delete id (vs_lastUsed s)) s)
  | None => refused s "unknown credential"
  end.

(** ** Accounts *)

(** The first section of [PutAccount]; the second is [Put]. *)
Definition own_material (s : Store) (owner : AccountOwner) (ref : string) : outcome unit :=
  match vs_accountOwners s with
  | None => Build_outcome (Ok tt) s []
  | Some own =>
      let prior := default [] (own !! ref) in
      if bool_decide (prior ≠ []) && bool_decide (prior ≠ [owner]) then refused s "account material belongs to another owner"
      else Build_outcome (Ok tt) (with_owners (Some (<[ref := [owner]]> own)) s) []
  end.

Definition AdoptAccount (s : Store) (owner : AccountOwner) (ref : string) : outcome unit :=
  match vs_accountOwners s with
  | None => Build_outcome (Ok tt) s []
  | Some own =>
      if bool_decide (default [] (own !! ref) ≠ []) then refused s "account material already has an owner"
      else Build_outcome (Ok tt) (with_owners (Some (<[ref := [owner]]> own)) s) []
  end.

Definition with_domain (domain : string) (r : record) : record :=
  let md := rc_Metadata r in
  {| rc_Metadata := {| md_External := md_External md; md_OAuthInfo := md_OAuthInfo md; md_State := md_State md;
       md_Version := md_Version md; md_ID := md_ID md; md_Kind := md_Kind md; md_Source := md_Source md; md_Domain := domain;
       md_CreatedAt := md_CreatedAt md; md_UpdatedAt := md_UpdatedAt md; md_LastUsedAt := md_LastUsedAt md |};
     rc_Revoked := rc_Revoked r; rc_Value := rc_Value r; rc_OAuth := rc_OAuth r; rc_ImportURL := rc_ImportURL r |}.

Definition SetAccountDomain (s : Store) (e : save_env) (fs : files) (ref domain : string) : outcome unit :=
  match vs_records s !! ref with
  | None => refused s "unknown account material"
  | Some r => save s e fs (<[ref := with_domain domain r]> (vs_records s))
  end.

Definition LoginOrigin (s : Store) (ref : string) : string :=
  match url_Parse (match vs_records s !! ref with Some r => rc_ImportURL r | None => "" end) with
  | None => ""
  | Some u =>
      if negb (url_Scheme u =s "https") || (Hostname u =s "") || url_User u then "" else url_Scheme u ++ "://" ++ url_Host u
  end.

Definition owned_by (own : owners) (ref id provider : string) : bool :=
  (ref =s "") || existsb (λ o, (ow_Account o =s id) && (ow_Provider o =s provider)) (default [] (own !! ref)).

Definition ValidateAccountOwners (s : Store) (c : Config) : checked unit :=
  match vs_accountOwners s with
  | None => Ok tt
  | Some own =>
      let? _ := fold_res (λ _ a,
        reject negb (owned_by own (a_LoginCredentialRef a) (a_ID a) (a_ProviderID a))
          || negb (owned_by own (a_CredentialRef a) (a_ID a) (a_ProviderID a))
          with "material ownership does not match provider account" ;; Ok tt) tt (c_Accounts c) in
      fold_res (λ _ source,
        reject negb (owned_by own (s_CredentialRef source) (s_AccountID source) (s_Provider source))
          with "source material must belong to its provider account" ;; Ok tt) tt (c_Sources c)
  end.

(** ** Opening by account *)

Definition add_owner (ref : string) (owner : AccountOwner) (own : owners) : owners :=
  <[ref := (default [] (own !! ref) ++ [owner])%list]> own.

Definition account_owners (own : owners) (a : Account) : owners :=
  fold_left (λ own ref,
    if ref =s "" then own else add_owner ref {| ow_Account := a_ID a; ow_Provider := a_ProviderID a |} own)
    [a_LoginCredentialRef a; a_CredentialRef a] own.

Definition source_owner (own : owners) (source : Source) : checked owners :=
  if s_CredentialRef source =s "" then Ok own
  else
    reject s_AccountID source =s "" with "bind source credentials to a provider account before migrating" ;;
    Ok (add_owner (s_CredentialRef source) {| ow_Account := s_AccountID source; ow_Provider := s_Provider source |} own).

Definition configured_owners (c : Config) : checked owners :=
  fold_res source_owner (fold_left account_owners (c_Accounts c) ∅) (c_Sources c).

(** A record and its owner, read from the document. *)
Definition read_material (account provider : string) (acc : records * owners) (entry : string * record) : checked (records * owners) :=
  let '(rs, own) := acc in
  let '(ref, r) := entry in
  reject match rs !! ref with Some old => negb (bool_decide (old = r)) | None => false end
    with "conflicting shared account material" ;;
  Ok (<[ref := r]> rs, add_owner ref {| ow_Account := account; ow_Provider := provider |} own).

Definition read_bundle (acc : records * owners) (entry : string * accountBundle) : checked (records * owners) :=
  let '(id, b) := entry in
  fold_res (read_material id (ab_Provider b)) acc (map_to_list (ab_Materials b)).

Definition open_document (path : string) (b : bytes) : checked Store :=
  reject 16 * 2 ^ 20 <? blen b with "account material storage exceeds limit" ;;
  match unprotect b with
  | None => Err "cannot unlock provider account data"
  | Some plain =>
      match unmarshal_document plain with
      | None => Err "invalid provider account data"
      | Some doc =>
          reject negb (ad_Format doc =? 1) with "invalid provider account data" ;;
          let? acc := fold_res read_bundle (∅, ∅) (map_to_list (ad_Accounts doc)) in
          let '(rs, own) := acc in
          Ok {| vs_accountOwners := Some own; vs_refreshes := ∅; vs_refreshBackoff := ∅; vs_path := path; vs_records := rs;
            vs_lastUsed := ∅; vs_flights := 0 |}
      end
  end.

(** What the surroundings decide while the accounts are opened. *)
Record migration_env := {
  mg_readable : bool; mg_legacy_readable : bool; mg_save : save_env; mg_reread : bool; mg_rename : bool; mg_time : string }.

(** The document, when there is one. *)
Definition read_document (path : string) (readable : bool) (fs : files) : option (checked Store) :=
  b ← fs !! path; Some (if readable then open_document path b else Err "cannot read provider account data").

Definition keep_material (rs kept : records) (entry : string * list AccountOwner) : checked records :=
  match rs !! fst entry with
  | Some r => reject rc_Revoked r with "account references missing legacy material" ;; Ok (<[fst entry := r]> kept)
  | None => Err "account references missing legacy material"
  end.

(** The legacy file is kept, under another name, once the new one has been
    read back. *)
Definition retire_legacy (env : migration_env) (legacy : string) (fs : files) : checked string * list files :=
  match fs !! legacy with
  | None => (Ok "", [])
  | Some b =>
      let backup := legacy ++ ".legacy-backup-" ++ mg_time env in
      if mg_rename env then (Ok backup, [<[backup := b]> (delete legacy fs)])
      else (Err "account data migrated but legacy archive failed", [])
  end.

Definition migrate (env : migration_env) (path legacy : string) (c : Config) (fs : files) : checked (Store * string) * list files :=
  match
    (let? s := Open legacy (mg_legacy_readable env) fs in
     let? own := configured_owners c in
     let? kept := fold_res (keep_material (vs_records s)) ∅ (map_to_list own) in
     Ok (s, own, kept))
  with
  | Err err => (Err err, [])
  | Ok (s, own, kept) =>
      let s := {| vs_accountOwners := Some own; vs_refreshes := vs_refreshes s; vs_refreshBackoff := vs_refreshBackoff s;
        vs_path := path; vs_records := vs_records s; vs_lastUsed := vs_lastUsed s; vs_flights := vs_flights s |} in
      let o := save s (mg_save env) fs kept in
      match oc_result o with
      | Err err => (Err err, oc_files o)
      | Ok _ =>
          let fs := final fs (oc_files o) in
          match read_document path (mg_reread env) fs with
          | Some (Ok verified) =>
              if bool_decide (vs_records verified = kept) then
                let '(backup, trace) := retire_legacy env legacy fs in
                ((let? b := backup in Ok (verified, b)), (oc_files o ++ trace)%list)
              else (Err "account migration verification failed", oc_files o)
          | Some (Err err) => (Err err, oc_files o)
          | None => (Err "account migration verification failed", oc_files o)
          end
      end
  end.

Definition OpenProviderAccounts (env : migration_env) (dir : string) (c : Config) (fs : files) : checked (Store * string) * list files :=
  let path := str (Join [lit dir; lit "provider-accounts.enc"]) in
  let legacy := str (Join [lit dir; lit "credentials.vault"]) in
  match read_document path (mg_readable env) fs with
  | Some (Ok s) => (Ok (s, ""), [])
  | Some (Err err) => (Err err, [])
  | None => migrate env path legacy c fs
  end.

End Vault.
