(* ===== verification/OAuth.v ===== *)
(** * Resolving and refreshing credentials ([internal/credentials/oauth.go],
    [ResolveContext] of [store.go])

    The critical sections of a refresh, which is in flight between them, and
    the operations of the store as programs: sequences of critical sections
    with the calls to other systems, the token endpoint among them, in
    between. *)

From S2P Require Import Prelude ConfigData Json GoText GoNet ConfigAccounts Service Vault Program.
Local Open Scope string_scope.
Local Open Scope Z_scope.

Definition seconds (n : Z) : Z := n * 1000000000.

(** ** The token endpoint *)

(** What came back: nothing could be sent, nothing came, or a response with
    its status, its body and whether that could be read. *)
Inductive token_answer := BadRequest | NoAnswer | Answer (status : Z) (data : bytes) (complete : bool).

Record wire := { wi_AccessToken : string; wi_RefreshToken : string; wi_ExpiresIn : Z; wi_Scope : string; wi_TokenType : string }.

Definition decode_wire (v : json) : option wire :=
  decode_struct ["access_token"; "refresh_token"; "expires_in"; "scope"; "token_type"] (λ w n x,
    let set_access s := {| wi_AccessToken := s; wi_RefreshToken := wi_RefreshToken w; wi_ExpiresIn := wi_ExpiresIn w;
      wi_Scope := wi_Scope w; wi_TokenType := wi_TokenType w |} in
    let set_refresh s := {| wi_AccessToken := wi_AccessToken w; wi_RefreshToken := s; wi_ExpiresIn := wi_ExpiresIn w;
      wi_Scope := wi_Scope w; wi_TokenType := wi_TokenType w |} in
    let set_expires n := {| wi_AccessToken := wi_AccessToken w; wi_RefreshToken := wi_RefreshToken w; wi_ExpiresIn := n;
      wi_Scope := wi_Scope w; wi_TokenType := wi_TokenType w |} in
    let set_scope s := {| wi_AccessToken := wi_AccessToken w; wi_RefreshToken := wi_RefreshToken w; wi_ExpiresIn := wi_ExpiresIn w;
      wi_Scope := s; wi_TokenType := wi_TokenType w |} in
    let set_type s := {| wi_AccessToken := wi_AccessToken w; wi_RefreshToken := wi_RefreshToken w; wi_ExpiresIn := wi_ExpiresIn w;
      wi_Scope := wi_Scope w; wi_TokenType := s |} in
    if (n =? "access_token")%string then set_access <$> decode_string x (wi_AccessToken w)
    else if (n =? "refresh_token")%string then set_refresh <$> decode_string x (wi_RefreshToken w)
    else if (n =? "expires_in")%string then set_expires <$> decode_int64 x (wi_ExpiresIn w)
    else if (n =? "scope")%string then set_scope <$> decode_string x (wi_Scope w)
    else set_type <$> decode_string x (wi_TokenType w))
  v {| wi_AccessToken := ""; wi_RefreshToken := ""; wi_ExpiresIn := 0; wi_Scope := ""; wi_TokenType := "" |}.

(** [strings.EqualFold(t, "Bearer")]: no letter of it folds outside ASCII. *)
Definition is_bearer (t : string) : bool := bool_decide (map upper (lit t) = map upper (lit "Bearer")).

Definition grant_control : string := str [carriage_return; newline; byte_of 0].

Section OAuth.
Context `{UrlParser} `{VaultCodec} `{Protection}.

Definition validTokenURL (endpoint : string) : bool :=
  match url_Parse endpoint with
  | None => false
  | Some u =>
      if (Hostname u =s "") || url_User u || negb (url_RawQuery u =s "") || negb (url_Fragment u =s "") then false
      else
        (url_Scheme u =s "https")
        || ((url_Scheme u =s "http") && match ParseIP (Hostname u) with Some ip => IsLoopback ip | None => false end)
  end.

(** [OAuthGrant.validate] *)
Definition validate_grant (g : OAuthGrant) : checked unit :=
  reject (og_AccessToken g =s "") || (64 * 2 ^ 10 <? slen (og_AccessToken g)) || (64 * 2 ^ 10 <? slen (og_RefreshToken g))
    || (64 * 2 ^ 10 <? slen (og_ClientSecret g)) || (1024 <? slen (og_ClientID g)) || (2048 <? slen (og_Scope g))
    || (256 <? slen (og_AccountID g)) || contains_any (og_AccessToken g) grant_control
    with "invalid OAuth grant" ;;
  reject negb (og_TokenURL g =s "") && negb (validTokenURL (og_TokenURL g))
    with "OAuth token endpoint must use HTTPS outside explicit loopback" ;;
  reject negb (og_RefreshToken g =s "") && ((og_TokenURL g =s "") || (og_ClientID g =s ""))
    with "refresh token requires an explicit token endpoint and client ID" ;;
  Ok tt.

(** [refreshGrant], from the answer received at [now]. *)
Definition refreshed (now : Z) (g : OAuthGrant) (a : token_answer) : checked OAuthGrant :=
  match a with
  | BadRequest => Err "invalid OAuth refresh request"
  | NoAnswer => Err "OAuth refresh unavailable"
  | Answer status data complete =>
      reject negb complete || (2 ^ 20 <? blen data) || negb (status =? 200)
        with "OAuth refresh rejected; reauthorize the account" ;;
      match v ← parse_json data; decode_wire v with
      | None => Err "invalid OAuth refresh response"
      | Some w =>
          reject (wi_AccessToken w =s "") || (wi_ExpiresIn w <=? 0) || (365 * 24 * 3600 <? wi_ExpiresIn w)
            || (negb (wi_TokenType w =s "") && negb (is_bearer (wi_TokenType w)))
            with "invalid OAuth refresh response" ;;
          let g := {| og_AccessToken := wi_AccessToken w;
            og_RefreshToken := if negb (wi_RefreshToken w =s "") then wi_RefreshToken w else og_RefreshToken g;
            og_TokenURL := og_TokenURL g; og_ClientID := og_ClientID g; og_ClientSecret := og_ClientSecret g;
            og_ExpiresAt := now + seconds (wi_ExpiresIn w);
            og_Scope := if negb (wi_Scope w =s "") then wi_Scope w else og_Scope g; og_AccountID := og_AccountID g |} in
          let? _ := validate_grant g in
          Ok g
      end
  end.

(** ** The critical sections *)

Definition live (s : Store) (id : string) : checked record :=
  match vs_records s !! id with
  | Some r => reject rc_Revoked r with "credential is missing or revoked" ;; Ok r
  | None => Err "credential is missing or revoked"
  end.

(** The answer of an external manager counts when the record is still the
    one it was asked for. *)
Definition external_result (s : Store) (id : string) (r : record) (answer : checked string) : checked string :=
  match vs_records s !! id with
  | Some current =>
      reject rc_Revoked current || negb (md_Version (rc_Metadata current) =? md_Version (rc_Metadata r))
        with "external credential result is stale" ;; answer
  | None => Err "external credential result is stale"
  end.

Definition expiring (now : Z) (r : record) : bool :=
  match rc_OAuth r with
  | Some g => negb (og_ExpiresAt g =? 0) && (og_ExpiresAt g <? now + seconds 30)
  | None => false
  end.

Definition with_use (now : Z) (r : record) : record :=
  let md := rc_Metadata r in
  {| rc_Metadata := {| md_External := md_External md; md_OAuthInfo := md_OAuthInfo md; md_State := md_State md;
       md_Version := md_Version md; md_ID := md_ID md; md_Kind := md_Kind md; md_Source := md_Source md; md_Domain := md_Domain md;
       md_CreatedAt := md_CreatedAt md; md_UpdatedAt := md_UpdatedAt md; md_LastUsedAt := Some now |};
     rc_Revoked := rc_Revoked r; rc_Value := rc_Value r; rc_OAuth := rc_OAuth r; rc_ImportURL := rc_ImportURL r |}.

Definition touch_used (s : Store) (now : Z) (id : string) : checked string * Store :=
  match vs_records s !! id with
  | Some r =>
      if rc_Revoked r then (Err "credential is revoked", s)
      else (Ok (rc_Value r), with_records (<[id := with_use now r]> (vs_records s)) (with_lastUsed (<[id := now]> (vs_lastUsed s)) s))
  | None => (Err "credential is revoked", s)
  end.

(** What the first section of [refreshOAuth] decides: to return, to wait for
    the refresh in flight, or to refresh the grant of a record. *)
Inductive begun := Over (r : checked unit) | Joined (flight : nat) | Started (flight : nat) (r : record) (g : OAuthGrant).

Definition begin_refresh (s : Store) (now : Z) (id : string) (force : bool) : begun * Store :=
  let no := (Over (Err "credential has no OAuth lifecycle"), s) in
  match vs_records s !! id with
  | None => no
  | Some r =>
      match (if rc_Revoked r then None else rc_OAuth r) with
      | None => no
      | Some g =>
          if negb force && negb (og_ExpiresAt g =? 0) && (now + seconds 30 <? og_ExpiresAt g) then (Over (Ok tt), s)
          else
            match vs_refreshes s !! id with
            | Some flight => (Joined flight, s)
            | None =>
                if now <? default 0 (vs_refreshBackoff s !! id)
                then (Over (Err "OAuth reauthorization required or refresh is cooling down"), s)
                else if (og_RefreshToken g =s "") || (og_TokenURL g =s "") || (og_ClientID g =s "")
                then (Over (Err "OAuth requires reauthorization"), s)
                else
                  let flight := vs_flights s in
                  (Started flight r g, with_refreshes (<[id := flight]> (vs_refreshes s)) (S flight) s)
            end
      end
  end.

Definition refreshed_record (now version : Z) (g : OAuthGrant) (r : record) : record :=
  let md := rc_Metadata r in
  {| rc_Metadata := {| md_External := md_External md; md_OAuthInfo := Some (oauth_info g); md_State := md_State md;
       md_Version := version; md_ID := md_ID md; md_Kind := md_Kind md; md_Source := md_Source md; md_Domain := md_Domain md;
       md_CreatedAt := md_CreatedAt md; md_UpdatedAt := now; md_LastUsedAt := md_LastUsedAt md |};
     rc_Revoked := rc_Revoked r; rc_Value := og_AccessToken g; rc_OAuth := Some g; rc_ImportURL := rc_ImportURL r |}.

(** The last section, for the record [r] the refresh began with; the flight
    ends with its result. *)
Definition finish_refresh (s : Store) (e : save_env) (fs : files) (now : Z) (id : string) (r : record) (next : checked OAuthGrant) : outcome unit :=
  let landed (o : outcome unit) := Build_outcome (oc_result o)
    (with_refreshes (delete id (vs_refreshes (oc_store o))) (vs_flights (oc_store o)) (oc_store o)) (oc_files o) in
  landed
    match vs_records s !! id with
    | None => refused s "OAuth refresh result is stale"
    | Some current =>
        if rc_Revoked current || negb (md_Version (rc_Metadata current) =? md_Version (rc_Metadata r))
        then refused s "OAuth refresh result is stale"
        else
          match next with
          | Err err => refused (with_backoff (<[id := now + seconds 60]> (vs_refreshBackoff s)) s) err
          | Ok g =>
              let version := u64 (md_Version (rc_Metadata current) + 1) in
              if version =? 0 then refused s "credential version exhausted"
              else
                let o := save s e fs (<[id := refreshed_record now version g current]> (vs_records s)) in
                Build_outcome (oc_result o)
                  (with_backoff (delete id (vs_refreshBackoff (oc_store o)))
                    (with_lastUsed (delete id (vs_lastUsed (oc_store o))) (oc_store o)))
                  (oc_files o)
          end
    end.

End OAuth.
