(* ===== verification/VaultSem.v ===== *)
(** * Many users of the vault

    The operations of the store as programs over its critical sections, and
    any number of them at once on one store and its file: one step performs
    one section or one call to another system.  The answers of those systems,
    the clock, the randomness and the outcomes of the system calls are
    arbitrary. *)

From S2P Require Import Prelude ConfigData Json GoText GoNet ConfigAccounts Service Vault OAuth Program.
Local Open Scope string_scope.
Local Open Scope Z_scope.

(** The critical sections that change records or their owners. *)
Inductive change :=
| ChangePut (id kind source value : string) (external : option ExternalReference) (oauth : option OAuthGrant)
| ChangeDelete (id : string)
| ChangeDomain (ref domain : string)
| ChangeOwn (owner : AccountOwner) (ref : string)
| ChangeAdopt (owner : AccountOwner) (ref : string).

(** [AskGrant] is the call of the token endpoint, with the time its answer
    came; [AwaitFlight] ends with the flight or with the caller's context. *)
Inductive vault_eff : Type → Type :=
| Change (c : change) : vault_eff (checked unit)
| Peek (id : string) : vault_eff (option record)
| Live (id : string) : vault_eff (checked record)
| Clock : vault_eff Z
| AskExternal (ref : ExternalReference) : vault_eff (checked string)
| CheckExternal (id : string) (r : record) (answer : checked string) : vault_eff (checked string)
| TouchUsed (id : string) : vault_eff (checked string)
| Begin (id : string) (force : bool) : vault_eff begun
| AwaitFlight (flight : nat) : vault_eff (checked unit)
| AskGrant (id : string) (flight : nat) (r : record) (g : OAuthGrant) : vault_eff (token_answer * Z)
| Finish (id : string) (flight : nat) (r : record) (next : checked OAuthGrant) : vault_eff (checked unit).

Notation operation := (prog vault_eff).
Notation "# e" := (trigger e) (at level 8, e at level 9) : go_scope.

Section Operations.
Context `{UrlParser} `{VaultCodec} `{Protection}.

Definition refreshOAuth (id : string) (force : bool) : operation (checked unit) :=
  b ← # (Begin id force);
  match b with
  | Over r => Ret r
  | Joined flight => # (AwaitFlight flight)
  | Started flight r g =>
      '(a, now) ← # (AskGrant id flight r g);
      # (Finish id flight r (refreshed now g a))
  end.

Definition ResolveContext (id : string) : operation (checked string) :=
  got ← # (Live id);
  match got with
  | Err err => Ret (Err err)
  | Ok r =>
      match md_External (rc_Metadata r) with
      | Some ref => v ← # (AskExternal ref); # (CheckExternal id r v)
      | None =>
          now ← # Clock;
          out ← (if expiring now r then refreshOAuth id false else Ret (Ok tt));
          match out with Err err => Ret (Err err) | Ok _ => # (TouchUsed id) end
      end
  end.

Definition Resolve (id : string) : operation string :=
  v ← ResolveContext id; Ret (match v with Ok value => value | Err _ => "" end).

Definition RefreshOAuth (id : string) : operation (checked unit) := refreshOAuth id true.

Definition PutOAuth (id source : string) (g : OAuthGrant) : operation (checked unit) :=
  match validate_grant g with
  | Err err => Ret (Err err)
  | Ok _ => # (Change (ChangePut id "oauth" source (og_AccessToken g) None (Some g)))
  end.

Definition PutAccount (owner : AccountOwner) (ref kind value : string) : operation (checked unit) :=
  owned ← # (Change (ChangeOwn owner ref));
  match owned with
  | Err err => Ret (Err err)
  | Ok _ => # (Change (ChangePut ref kind "provider-account" value None None))
  end.

(** [text] is the random part of the new reference. *)
Definition CreateAccountMaterial (owner : AccountOwner) (kind value text : string) : operation (checked (option Metadata)) :=
  let ref := "cred://account-" ++ text in
  out ← PutAccount owner ref kind value;
  match out with
  | Err err => Ret (Err err)
  | Ok _ => r ← # (Peek ref); Ret (Ok (option_map rc_Metadata r))
  end.

(** ** Steps *)

(** [vw_landed]: the results of the refreshes that have ended. *)
Record vault_world := { vw_store : Store; vw_files : files; vw_landed : gmap nat (checked unit) }.

Definition set_store (s : Store) (w : vault_world) : vault_world :=
  {| vw_store := s; vw_files := vw_files w; vw_landed := vw_landed w |}.
Definition after {A} (o : outcome A) (w : vault_world) : checked A * vault_world :=
  (oc_result o, {| vw_store := oc_store o; vw_files := final (vw_files w) (oc_files o); vw_landed := vw_landed w |}).

Definition run_change (c : change) (e : save_env) (now : Z) (w : vault_world) : outcome unit :=
  let s := vw_store w in let fs := vw_files w in
  match c with
  | ChangePut id kind source value external oauth => putRecord s e fs now id kind source value external oauth
  | ChangeDelete id => Delete s e fs now id
  | ChangeDomain ref domain => SetAccountDomain s e fs ref domain
  | ChangeOwn owner ref => own_material s owner ref
  | ChangeAdopt owner ref => AdoptAccount s owner ref
  end.

(** One effect at time [now]; [a] is the answer where the surroundings give
    it. *)
Definition perform (now : Z) (env : save_env) {R} (e : vault_eff R) : R → vault_world → option (R * vault_world) :=
  match e in vault_eff R return R → vault_world → option (R * vault_world) with
  | Change c => λ _ w, Some (after (run_change c env now w) w)
  | Peek id => λ _ w, Some (vs_records (vw_store w) !! id, w)
  | Live id => λ _ w, Some (live (vw_store w) id, w)
  | Clock => λ _ w, Some (now, w)
  | AskExternal _ => λ a w, Some (a, w)
  | CheckExternal id r v => λ _ w, Some (external_result (vw_store w) id r v, w)
  | TouchUsed id => λ _ w, let '(v, s) := touch_used (vw_store w) now id in Some (v, set_store s w)
  | Begin id force => λ _ w, let '(b, s) := begin_refresh (vw_store w) now id force in Some (b, set_store s w)
  | AwaitFlight flight => λ a w,
      match vw_landed w !! flight, a with
      | Some r, _ => Some (r, w)
      | None, Err _ => Some (a, w)
      | None, Ok _ => None
      end
  | AskGrant _ _ _ _ => λ a w, Some (a, w)
  | Finish id flight r next => λ _ w,
      let '(x, w') := after (finish_refresh (vw_store w) env (vw_files w) now id r next) w in
      Some (x, {| vw_store := vw_store w'; vw_files := vw_files w'; vw_landed := <[flight := x]> (vw_landed w') |})
  end.

(** What the gateway asks of the vault. *)
Inductive request : operation unit → Prop :=
| ask_change c : request (# (Change c) ;; Ret tt)
| ask_put_oauth id source g : request (PutOAuth id source g ;; Ret tt)
| ask_put_account owner ref kind value : request (PutAccount owner ref kind value ;; Ret tt)
| ask_create owner kind value text : request (CreateAccountMaterial owner kind value text ;; Ret tt)
| ask_resolve id : request (Resolve id ;; Ret tt)
| ask_refresh id : request (RefreshOAuth id ;; Ret tt).

Record users := { u_world : vault_world; u_threads : list (operation unit) }.

(** A temporary file has a name of its own. *)
Definition fresh_name (env : save_env) (w : vault_world) : Prop :=
  w_temp (se_write env) ≠ vs_path (vw_store w) ∧ vw_files w !! w_temp (se_write env) = None.

Inductive vault_step (g : users) : users → Prop :=
| vault_ask p : request p → vault_step g {| u_world := u_world g; u_threads := u_threads g ++ [p] |}
| vault_run i R (e : vault_eff R) k a x w' now env :
    u_threads g !! i = Some (Do e k) → fresh_name env (u_world g) → perform now env e a (u_world g) = Some (x, w') →
    vault_step g {| u_world := w'; u_threads := <[i := k x]> (u_threads g) |}.

Definition opened (s : Store) (fs : files) : users :=
  {| u_world := {| vw_store := s; vw_files := fs; vw_landed := ∅ |}; u_threads := [] |}.

End Operations.
