(* ===== verification/VaultFacts.v ===== *)
(** * Versions and refreshes

    Every critical section of the vault moves each record forward: its version
    grows whenever what it holds is replaced, and a revoked reference stays
    revoked.  A refresh in flight belongs to one operation. *)

From S2P Require Import Prelude ConfigData Json GoText GoNet ConfigAccounts Service Vault OAuth Program VaultSem.
Local Open Scope Z_scope.

Definition version (r : record) : Z := md_Version (rc_Metadata r).

(** What a reference stands for. *)
Definition held (r : record) : string * option OAuthGrant * option ExternalReference :=
  (rc_Value r, rc_OAuth r, md_External (rc_Metadata r)).
Definition nothing_held : string * option OAuthGrant * option ExternalReference := (""%string, None, None).

(** [r'] may follow [r] under the same reference. *)
Record succeeds (r r' : record) : Prop := {
  su_version : version r <= version r';
  su_revoked : rc_Revoked r = true → rc_Revoked r' = true ∧ version r' = version r ∧ held r' = held r;
  su_held : version r = version r' → rc_Revoked r' = rc_Revoked r → held r' = held r;
  su_tombstone : rc_Revoked r = false → rc_Revoked r' = true → held r' = nothing_held }.

Definition later (rs rs' : records) : Prop := ∀ id r, rs !! id = Some r → ∃ r', rs' !! id = Some r' ∧ succeeds r r'.
Definition versions_fit (rs : records) : Prop := ∀ id r, rs !! id = Some r → is_u64 (version r).

Lemma succeeds_same r r' : version r = version r' → rc_Revoked r = rc_Revoked r' → held r = held r' → succeeds r r'.
Proof. intros Hv Hr Hh. split; [lia|intros ?; split_and!; congruence|done|congruence]. Qed.
Lemma succeeds_replaced r r' : rc_Revoked r = false → rc_Revoked r' = false → version r < version r' → succeeds r r'.
Proof. intros Hr Hr' Hv. split; [lia|congruence|lia|congruence]. Qed.
#[export] Instance succeeds_refl : Reflexive succeeds.
Proof. intros r. by apply succeeds_same. Qed.

(** A version that stays between two records held it all along. *)
#[export] Instance succeeds_trans : Transitive succeeds.
Proof.
  intros a b c [Hv1 Hr1 Hh1 Ht1] [Hv2 Hr2 Hh2 Ht2]. split; [lia| | |].
  - intros Ha. destruct (Hr1 Ha) as (Hb & <- & <-). apply Hr2, Hb.
  - intros Hv Hr. destruct (rc_Revoked b) eqn:Eb.
    + destruct (Hr2 eq_refl) as (Hc & _ & ->). apply Hh1; [lia|congruence].
    + destruct (rc_Revoked c) eqn:Ec; [destruct (Hr1 (eq_sym Hr)); congruence|]. rewrite Hh2, Hh1 by (lia || congruence). done.
  - intros Ha Hc. destruct (rc_Revoked b) eqn:Eb; [|by apply Ht2]. destruct (Hr2 eq_refl) as (_ & _ & ->). by apply Ht1.
Qed.
#[export] Instance later_refl : Reflexive later.
Proof. intros rs id r H. by exists r. Qed.
#[export] Instance later_trans : Transitive later.
Proof.
  intros r1 r2 r3 H1 H2 id r Hr. destruct (H1 id r Hr) as (r' & Hr' & Hs). destruct (H2 id r' Hr') as (r'' & Hr'' & Hs').
  exists r''. split; [done|]. by transitivity r'.
Qed.

Lemma later_insert id r rs : (∀ old, rs !! id = Some old → succeeds old r) → later rs (<[id := r]> rs).
Proof.
  intros H id' r' Hr'. destruct (decide (id = id')) as [<-|Hne].
  - exists r. rewrite lookup_insert_eq. auto.
  - exists r'. by rewrite lookup_insert_ne.
Qed.
Lemma versions_insert id r rs : is_u64 (version r) → versions_fit rs → versions_fit (<[id := r]> rs).
Proof.
  intros Hr Hrs id' r' H. destruct (decide (id = id')) as [<-|Hne].
  - rewrite lookup_insert_eq in H. by injection H as <-.
  - rewrite lookup_insert_ne in H by done. by eapply Hrs.
Qed.

(** A next version that is not zero is greater. *)
Lemma next_version v : is_u64 v → u64 (v + 1) ≠ 0 → v < u64 (v + 1) ∧ is_u64 (u64 (v + 1)).
Proof.
  unfold is_u64, u64. intros Hv Hne. destruct (decide (v + 1 = two64)) as [E|E].
  - rewrite E, Z.mod_same in Hne; [done|]. unfold two64. lia.
  - rewrite Z.mod_small in * by lia. lia.
Qed.

Section Facts.
Context `{UrlParser} `{VaultCodec} `{Protection}.

(** What a section does to the records: replaces one, or nothing. *)
Definition moves (s s' : Store) : Prop :=
  vs_refreshes s' = vs_refreshes s ∧ vs_flights s' = vs_flights s
  ∧ (versions_fit (vs_records s) → later (vs_records s) (vs_records s') ∧ versions_fit (vs_records s')).

Lemma moves_same s s' : vs_refreshes s' = vs_refreshes s → vs_flights s' = vs_flights s → vs_records s' = vs_records s → moves s s'.
Proof. intros E1 E2 E3. split_and!; [done|done|]. by rewrite E3. Qed.

Lemma save_store s e fs next :
  oc_result (save s e fs next) = Ok tt ∧ oc_store (save s e fs next) = with_records next s
  ∨ (∃ err, oc_result (save s e fs next) = Err err) ∧ oc_store (save s e fs next) = s.
Proof.
  unfold save. destruct (res_bind _ _) as [b|err]; [|right; split; [by eexists|done]].
  destruct (write_vault _ _ _ _) as [[[]|err] trace]; [by left|right; split; [by eexists|done]].
Qed.

Lemma save_moves s e fs id r :
  (versions_fit (vs_records s) → is_u64 (version r) ∧ ∀ old, vs_records s !! id = Some old → succeeds old r) →
  moves s (oc_store (save s e fs (<[id := r]> (vs_records s)))).
Proof.
  intros Hr. destruct (save_store s e fs (<[id := r]> (vs_records s))) as [[_ ->]|[_ ->]]; [|by apply moves_same].
  split_and!; [done|done|]. intros Hv. destruct (Hr Hv). split; [by apply later_insert|by apply versions_insert].
Qed.

Lemma saved_moves {A} s o (a : A) f :
  moves s (oc_store o) → (∀ s, vs_refreshes (f s) = vs_refreshes s ∧ vs_flights (f s) = vs_flights s ∧ vs_records (f s) = vs_records s) →
  moves s (oc_store (saved o a f)).
Proof.
  intros Ho Hf. unfold saved. destruct (oc_result o); [|done]. simpl. unfold moves. destruct (Hf (oc_store o)) as (-> & -> & ->). done.
Qed.

Lemma putRecord_moves s e fs now id kind source value external oauth :
  moves s (oc_store (putRecord s e fs now id kind source value external oauth)).
Proof.
  assert (Hno : ∀ err, moves s (oc_store (refused (A:=unit) s err))) by (intros; by apply moves_same).
  unfold putRecord. destruct (_ || _); [done|]. destruct (validateValue kind value); [|done]. cbv zeta.
  destruct (vs_records s !! id) as [old|] eqn:Hold.
  - destruct (rc_Revoked old) eqn:Hrev; [done|]. destruct (Z.eqb_spec (u64 (md_Version (rc_Metadata old) + 1)) 0) as [|Hne]; [done|].
    apply saved_moves; [|done]. apply save_moves. intros Hv. destruct (next_version _ (Hv _ _ Hold) Hne). split; [done|].
    rewrite Hold. intros ? [= <-]. by apply succeeds_replaced.
  - apply saved_moves; [|done]. apply save_moves. intros Hv. split; [done|]. by rewrite Hold.
Qed.

Lemma run_change_moves c e now w : moves (vw_store w) (oc_store (run_change c e now w)).
Proof.
  destruct c as [id kind source value external oauth|id|ref domain|owner ref|owner ref]; simpl.
  - apply putRecord_moves.
  - unfold Delete. destruct (vs_records _ !! id) as [old|] eqn:Hold; [|by apply moves_same].
    destruct (rc_Revoked old) eqn:Hrev; [by apply moves_same|]. apply saved_moves; [|done]. apply save_moves. intros Hv.
    split; [exact (Hv _ _ Hold)|]. rewrite Hold. intros ? [= <-]. split; [reflexivity|congruence|by rewrite Hrev|done].
  - unfold SetAccountDomain. destruct (vs_records _ !! ref) as [old|] eqn:Hold; [|by apply moves_same]. apply save_moves. intros Hv.
    split; [exact (Hv _ _ Hold)|]. rewrite Hold. intros ? [= <-]. by apply succeeds_same.
  - unfold own_material. destruct (vs_accountOwners _); [|by apply moves_same]. destruct (_ && _); by apply moves_same.
  - unfold AdoptAccount. destruct (vs_accountOwners _); [|by apply moves_same]. destruct (bool_decide _); by apply moves_same.
Qed.

Lemma touch_used_moves s now id : moves s (snd (touch_used s now id)).
Proof.
  unfold touch_used. destruct (vs_records s !! id) as [r|] eqn:Hr; [|by apply moves_same].
  destruct (rc_Revoked r); [by apply moves_same|]. split_and!; [done|done|]. simpl. intros Hv. split.
  - apply later_insert. rewrite Hr. intros ? [= <-]. by apply succeeds_same.
  - apply versions_insert; [exact (Hv _ _ Hr)|done].
Qed.

(** The last section of a refresh: a move, and the end of its flight. *)
Lemma finish_refresh_moves s e fs now id r next :
  let s' := oc_store (finish_refresh s e fs now id r next) in
  vs_refreshes s' = delete id (vs_refreshes s) ∧ vs_flights s' = vs_flights s
  ∧ (versions_fit (vs_records s) → later (vs_records s) (vs_records s') ∧ versions_fit (vs_records s')).
Proof.
  assert (Hland : ∀ o : outcome unit, moves s (oc_store o) → let s' := with_refreshes (delete id (vs_refreshes (oc_store o))) (vs_flights (oc_store o)) (oc_store o) in
    vs_refreshes s' = delete id (vs_refreshes s) ∧ vs_flights s' = vs_flights s
    ∧ (versions_fit (vs_records s) → later (vs_records s) (vs_records s') ∧ versions_fit (vs_records s'))).
  { intros o (E1 & E2 & E3). simpl. by rewrite E1, E2. }
  unfold finish_refresh. cbv zeta. apply Hland. destruct (vs_records s !! id) as [cur|] eqn:Hcur; [|by apply moves_same].
  destruct (rc_Revoked cur) eqn:Hrev; [by apply moves_same|]. destruct (_ =? _) eqn:Hver; [|by apply moves_same]. simpl.
  destruct next as [g|err]; [|by apply moves_same]. destruct (Z.eqb_spec (u64 (md_Version (rc_Metadata cur) + 1)) 0) as [|Hne]; [by apply moves_same|].
  simpl. assert (Hs : moves s (oc_store (save s e fs (<[id := refreshed_record now (u64 (md_Version (rc_Metadata cur) + 1)) g cur]> (vs_records s))))).
  { apply save_moves. intros Hv. destruct (next_version _ (Hv _ _ Hcur) Hne). split; [done|]. rewrite Hcur. intros ? [= <-]. by apply succeeds_replaced. }
  exact Hs.
Qed.

End Facts.

(** ** Many operations at once *)

(** The refresh an operation has in flight: the reference, the flight and the
    record it began with. *)
Abbreviation refresh := (option (string * nat * record)).

Section Monitor.
Context `{UrlParser} `{VaultCodec} `{Protection}.

Definition refresh_allowed {R} (e : vault_eff R) (st : refresh) : Prop :=
  match e with
  | Begin _ _ => st = None
  | AskGrant id flight r g => st = Some (id, flight, r) ∧ rc_OAuth r = Some g
  | Finish id flight r _ => st = Some (id, flight, r)
  | _ => True
  end.

Definition refresh_answers {R} (e : vault_eff R) : R → refresh → refresh → Prop :=
  match e in vault_eff R return R → refresh → refresh → Prop with
  | Begin id _ => λ b _ st', match b with
      | Started flight r g => st' = Some (id, flight, r) ∧ rc_OAuth r = Some g
      | _ => st' = None
      end
  | Finish _ _ _ _ => λ _ _ st', st' = None
  | _ => λ _ st st', st' = st
  end.

Definition refresh_monitor : monitor vault_eff refresh := {| allowed := @refresh_allowed; answers := @refresh_answers |}.

(** Operations end without a refresh in flight. *)
Notation tidy p := (safe refresh_monitor p (λ _ st, st = None)).

Lemma tidy_refresh id force : tidy (refreshOAuth id force) None.
Proof.
  unfold refreshOAuth. simpl. split; [done|]. intros b st' Hb. destruct b as [r|flight|flight r g]; simpl.
  - done.
  - split; [done|]. by intros _ ? ->.
  - destruct Hb as [-> Hg]. split; [done|]. intros [a now] st ->. simpl. split; [done|]. by intros _ ? ->.
Qed.

Lemma tidy_then {A B} (p : operation A) (f : A → operation B) : tidy p None → (∀ a, tidy (f a) None) → tidy (p ≫= f) None.
Proof. intros Hp Hf. apply safe_bind. eapply safe_mono; [|exact Hp]. intros a st ->. apply Hf. Qed.

(** One section that is not a refresh. *)
Lemma tidy_effect {R} (e : vault_eff R) :
  refresh_allowed e None → (∀ x st, refresh_answers e x None st → st = None) → tidy (trigger e) None.
Proof. intros Ha He. split; [done|]. intros x st Hx. simpl. by eapply He. Qed.

Ltac tidy_up := repeat match goal with
  | |- safe _ (Ret _) _ _ => reflexivity
  | |- safe _ (trigger _) _ _ => apply tidy_effect; [done|by intros ? ? ->]
  | |- safe _ (refreshOAuth _ _) _ _ => apply tidy_refresh
  | |- safe _ (_ ≫= _) _ _ => apply tidy_then; [|intros ?]
  | |- safe _ (match ?x with _ => _ end) _ _ => destruct x
  end.

Lemma tidy_request p : request p → tidy p None.
Proof. intros [c|id source g|owner ref kind value|owner kind value text|id|id]; unfold PutOAuth, CreateAccountMaterial, PutAccount, RefreshOAuth, Resolve, ResolveContext; tidy_up. Qed.

(** ** The pool *)

(** A refresh in flight has its entry, and its record lies in the past. *)
Definition in_flight (s : Store) (st : refresh) : Prop :=
  match st with
  | None => True
  | Some (id, flight, r) => vs_refreshes s !! id = Some flight ∧ ∃ cur, vs_records s !! id = Some cur ∧ succeeds r cur
  end.
Definition at_work (sts : list refresh) (i : nat) (id : string) : Prop := ∃ flight r, sts !! i = Some (Some (id, flight, r)).

Record pool_ok (g : users) (sts : list refresh) : Prop := {
  po_threads : Forall2 (λ p st, tidy p st ∧ in_flight (vw_store (u_world g)) st) (u_threads g) sts;
  po_apart : ∀ i j id, at_work sts i id → at_work sts j id → i = j;
  po_known : ∀ id, is_Some (vs_refreshes (vw_store (u_world g)) !! id) → ∃ i, at_work sts i id;
  po_fit : versions_fit (vs_records (vw_store (u_world g))) }.

(** What one effect does to the refreshes of the store and to that of its
    operation. *)
Inductive turns (rf rf' : gmap string nat) : refresh → refresh → Prop :=
| turn_keep st : rf' = rf → turns rf rf' st st
| turn_begin id flight r : rf !! id = None → rf' = <[id := flight]> rf → turns rf rf' None (Some (id, flight, r))
| turn_end id flight r : rf' = delete id rf → turns rf rf' (Some (id, flight, r)) None.

Record advanced {R} (e : vault_eff R) (x : R) (s s' : Store) (st st' : refresh) : Prop := {
  ad_fit : versions_fit (vs_records s');
  ad_later : later (vs_records s) (vs_records s');
  ad_answers : refresh_answers e x st st';
  ad_flight : in_flight s' st';
  ad_turns : turns (vs_refreshes s) (vs_refreshes s') st st' }.

Lemma in_flight_later s s' st :
  vs_refreshes s' = vs_refreshes s → later (vs_records s) (vs_records s') → in_flight s st → in_flight s' st.
Proof.
  intros E Hl. destruct st as [[[id fl] r]|]; [|done]. intros (Hfl & cur & Hcur & Hs). simpl. rewrite E. split; [done|].
  destruct (Hl _ _ Hcur) as (cur' & Hcur' & Hs'). exists cur'. split; [done|]. by transitivity cur.
Qed.

(** An effect that moves the records and keeps the refreshes. *)
Lemma advanced_moves {R} (e : vault_eff R) x s s' st :
  versions_fit (vs_records s) → in_flight s st → moves s s' → refresh_answers e x st st → advanced e x s s' st st.
Proof.
  intros Hv Hf (E & _ & Hm) He. destruct (Hm Hv) as [Hl Hv']. split; [done|done|done|by eapply in_flight_later|by apply turn_keep].
Qed.

Lemma begin_refresh_spec s now id force b s' :
  begin_refresh s now id force = (b, s') →
  match b with
  | Started flight r g => vs_refreshes s !! id = None ∧ s' = with_refreshes (<[id := flight]> (vs_refreshes s)) (S flight) s
      ∧ vs_records s !! id = Some r ∧ rc_OAuth r = Some g
  | _ => s' = s
  end.
Proof.
  unfold begin_refresh. destruct (vs_records s !! id) as [r|]; [|by intros [= <- <-]].
  destruct (rc_Revoked r); [by intros [= <- <-]|]. destruct (rc_OAuth r) as [g|] eqn:Hg; [|by intros [= <- <-]].
  destruct (_ && _); [by intros [= <- <-]|]. destruct (vs_refreshes s !! id) eqn:Hf; [by intros [= <- <-]|].
  destruct (_ <? _); [by intros [= <- <-]|]. destruct (_ || _); [by intros [= <- <-]|]. by intros [= <- <-].
Qed.

Lemma perform_advances now env {R} (e : vault_eff R) a x w w' st :
  versions_fit (vs_records (vw_store w)) → refresh_allowed e st → in_flight (vw_store w) st → perform now env e a w = Some (x, w') →
  ∃ st', advanced e x (vw_store w) (vw_store w') st st'.
Proof.
  intros Hv Ha Hf Hp.
  assert (Hmoves : moves (vw_store w) (vw_store w') → refresh_answers e x st st → ∃ st', advanced e x (vw_store w) (vw_store w') st st').
  { intros Hm Hans. exists st. by apply advanced_moves. }
  assert (Hstay : vw_store w' = vw_store w → refresh_answers e x st st → ∃ st', advanced e x (vw_store w) (vw_store w') st st').
  { intros E. apply Hmoves. rewrite E. by apply moves_same. }
  destruct e as [c|id|id| |ref|id r v|id|id force|fl|id fl r g|id fl r next]; cbn [perform] in Hp; try (injection Hp as <- <-; by apply Hstay).
  - injection Hp as <- <-. apply Hmoves; [apply run_change_moves|done].
  - pose proof (touch_used_moves (vw_store w) now id) as Hm. destruct (touch_used _ _ _) as [v s]. injection Hp as <- <-. by apply Hmoves.
  - destruct (begin_refresh _ _ _ _) as [b s] eqn:Hb. injection Hp as <- <-. apply begin_refresh_spec in Hb. simpl in Ha. subst st.
    destruct b as [r|fl|fl r g]; [subst s; by apply Hstay..|]. destruct Hb as (Hnone & -> & Hr & Hg). exists (Some (id, fl, r)).
    split; [done|done|done| |by apply turn_begin]. simpl. rewrite lookup_insert_eq. split; [done|]. by exists r.
  - destruct (vw_landed w !! fl); [|destruct a; [done|]]; injection Hp as <- <-; by apply Hstay.
  - unfold after in Hp. injection Hp as <- <-. simpl in Ha. subst st. exists None.
    destruct (finish_refresh_moves (vw_store w) env (vw_files w) now id r next) as (E1 & _ & E3). destruct (E3 Hv) as [Hl Hv'].
    split; [done|done|done|done|]. by apply turn_end.
Qed.

Lemma at_work_insert sts i st id j : (i < length sts)%nat → at_work (<[i := st]> sts) j id ↔ (if decide (i = j) then ∃ flight r, st = Some (id, flight, r) else at_work sts j id).
Proof.
  intros Hi. unfold at_work. case_decide as E; [subst j|].
  - rewrite list_lookup_insert_eq by done. naive_solver.
  - by rewrite list_lookup_insert_ne.
Qed.

(** The refreshes stay apart whatever turn one of them takes. *)
Lemma turns_apart rf rf' sts i st st' :
  turns rf rf' st st' → sts !! i = Some st →
  (∀ j id flight r, sts !! j = Some (Some (id, flight, r)) → rf !! id = Some flight) →
  (∀ j k id, at_work sts j id → at_work sts k id → j = k) → (∀ id, is_Some (rf !! id) → ∃ j, at_work sts j id) →
  (∀ j k id, at_work (<[i := st']> sts) j id → at_work (<[i := st']> sts) k id → j = k)
  ∧ (∀ id, is_Some (rf' !! id) → ∃ j, at_work (<[i := st']> sts) j id)
  ∧ (∀ j id flight r, i ≠ j → sts !! j = Some (Some (id, flight, r)) → rf' !! id = Some flight).
Proof.
  intros Ht Hi Hrf Hap Hkn. pose proof (lookup_lt_Some _ _ _ Hi) as Hlt. destruct Ht as [st ->|id fl r Hnone ->|id fl r ->].
  - rewrite list_insert_id by done. split_and!; [done|done|]. intros j id fl r _. apply Hrf.
  - assert (Hnew : ∀ j, at_work sts j id → False) by (intros j (fl' & r' & Hj); apply Hrf in Hj; congruence). split_and!.
    + intros j k id'. rewrite !at_work_insert by done. destruct (decide (i = j)), (decide (i = k)); [intros _ _; congruence| | |apply Hap].
      * intros (? & ? & [= <- _ _]) []%Hnew.
      * intros Hj (? & ? & [= <- _ _]). by apply Hnew in Hj.
    + intros id' Hs. destruct (decide (id = id')) as [<-|Hne].
      * exists i. rewrite at_work_insert, decide_True by done. eauto.
      * rewrite lookup_insert_ne in Hs by done. destruct (Hkn _ Hs) as (j & Hj). exists j. rewrite at_work_insert by done.
        rewrite decide_False; [done|]. intros <-. destruct Hj as (? & ? & Hj). congruence.
    + intros j id' fl' r' _ Hj. rewrite lookup_insert_ne; [by eapply Hrf|]. intros <-. apply (Hnew j). by exists fl', r'.
  - split_and!.
    + intros j k id'. rewrite !at_work_insert by done. destruct (decide (i = j)), (decide (i = k)); [intros _ _; congruence|naive_solver..|apply Hap].
    + intros id' Hs. rewrite lookup_delete_is_Some in Hs. destruct Hs as [Hne Hs]. destruct (Hkn _ Hs) as (j & Hj). exists j.
      rewrite at_work_insert by done. rewrite decide_False; [done|]. intros <-. destruct Hj as (? & ? & Hj). congruence.
    + intros j id' fl' r' Hij Hj. rewrite lookup_delete_ne; [by eapply Hrf|]. intros <-. apply Hij, (Hap i j id); [by exists fl, r|by exists fl', r'].
Qed.

Lemma vault_pool_step g g' sts :
  pool_ok g sts → vault_step g g' →
  (∃ sts', pool_ok g' sts') ∧ later (vs_records (vw_store (u_world g))) (vs_records (vw_store (u_world g'))).
Proof.
  intros [Hth Hap Hkn Hv] Hstep. destruct Hstep as [p Hp|i R e k a x w' now env Hi Hfresh Hperf]; simpl in *.
  - split; [|done]. exists (sts ++ [None]). assert (Hw : ∀ j id, at_work (sts ++ [None]) j id ↔ at_work sts j id).
    { intros j id. unfold at_work. split; intros (fl & r & Hj); exists fl, r; [|by apply lookup_app_l_Some].
      apply lookup_app_Some in Hj as [Hj|[_ Hj]]; [done|]. apply list_lookup_singleton_Some in Hj as [_ [=]]. }
    split; simpl; [|intros j j' id; rewrite !Hw; apply Hap|intros id Hs; destruct (Hkn _ Hs) as (j & Hj); exists j; by apply Hw|done].
    apply Forall2_app; [done|]. constructor; [|constructor]. split; [by apply tidy_request|done].
  - destruct (Forall2_lookup_l _ _ _ _ _ Hth Hi) as (st & Hst & Hsafe & Hfl). simpl in Hsafe. destruct Hsafe as [Hall Hk].
    destruct (perform_advances now env e a x _ _ st Hv Hall Hfl Hperf) as (st' & [Hv' Hl Hans Hfl' Ht]). split; [|done].
    assert (Hrf : ∀ j id flight r, sts !! j = Some (Some (id, flight, r)) → vs_refreshes (vw_store (u_world g)) !! id = Some flight).
    { intros j id fl r Hj. destruct (Forall2_lookup_r _ _ _ _ _ Hth Hj) as (p & _ & _ & Hf & _). exact Hf. }
    destruct (turns_apart _ _ _ _ _ _ Ht Hst Hrf Hap Hkn) as (Hap' & Hkn' & Hrf').
    exists (<[i := st']> sts). split; simpl; [|done|done|done]. apply Forall2_same_length_lookup. split; [rewrite !length_insert; by eapply Forall2_length|].
    intros j p stj Hp Hj. apply list_lookup_insert_Some in Hp as [(<- & <- & _)|[Hne Hp]].
    + rewrite list_lookup_insert_eq in Hj by (by eapply lookup_lt_Some). injection Hj as <-. split; [by apply Hk|done].
    + rewrite list_lookup_insert_ne in Hj by done. destruct (Forall2_lookup_lr _ _ _ _ _ _ Hth Hp Hj) as [Hs Hf]. split; [done|].
      destruct stj as [[[id fl] r]|]; [|done]. split; [by eapply Hrf'|]. destruct Hf as (_ & cur & Hcur & Hsu).
      destruct (Hl _ _ Hcur) as (cur' & Hcur' & Hsu'). exists cur'. split; [done|]. by transitivity cur.
Qed.

Lemma vault_pool_run g g' sts :
  pool_ok g sts → rtc vault_step g g' →
  (∃ sts', pool_ok g' sts') ∧ later (vs_records (vw_store (u_world g))) (vs_records (vw_store (u_world g'))).
Proof.
  intros Hg Hrun. revert sts Hg. induction Hrun as [g|g g1 g2 Hs _ IH]; intros sts Hg; [split; [by exists sts|done]|].
  destruct (vault_pool_step _ _ _ Hg Hs) as [[sts1 Hg1] Hl]. destruct (IH _ Hg1) as [H2 Hl2]. split; [done|]. by etransitivity.
Qed.

Lemma pool_opened s fs : vs_refreshes s = ∅ → versions_fit (vs_records s) → pool_ok (opened s fs) [].
Proof.
  intros Hr Hv. split; simpl; [constructor| | |done].
  - intros i j id (? & ? & Hi). by rewrite lookup_nil in Hi.
  - intros id Hs. rewrite Hr, lookup_empty in Hs. by destruct Hs.
Qed.

End Monitor.
