(* ===== verification/VaultDisk.v ===== *)
(** * The vault and its file

    What a save writes and what opening the file reads back: all the records,
    or, when material belongs to accounts, all that are not revoked with their
    owners.  A record's last use is kept in memory and reaches the file with
    the next change. *)

From S2P Require Import Prelude ConfigData Json GoText GoNet ConfigAccounts Service ServiceFacts Vault OAuth Program VaultSem VaultFacts.
Local Open Scope string_scope.
Local Open Scope Z_scope.

(** ** Documents *)

(** The document files [r] under [ref] with an owner. *)
Definition files_under (doc : accountDocument) (o : AccountOwner) (ref : string) (r : record) : Prop :=
  ∃ b, ad_Accounts doc !! ow_Account o = Some b ∧ ab_Provider b = ow_Provider o ∧ ab_Materials b !! ref = Some r.

Definition owners_of (own : owners) (ref : string) : list AccountOwner := default [] (own !! ref).

Section Grouping.
Context (rs : records) (own : owners).

(** Everything in the document is a record of [rs]. *)
Definition drawn (doc : accountDocument) : Prop := ∀ o ref r, files_under doc o ref r → rs !! ref = Some r.

Lemma own_record_spec ref r doc o doc' :
  rs !! ref = Some r → drawn doc → own_record ref r doc o = Ok doc' →
  ad_Format doc' = ad_Format doc ∧ ∀ o' ref' r', files_under doc' o' ref' r' ↔ files_under doc o' ref' r' ∨ (o' = o ∧ ref' = ref ∧ r' = r).
Proof.
  intros Hr Hd. unfold own_record. destruct (_ || _); [done|]. cbv zeta.
  destruct (ad_Accounts doc !! ow_Account o) as [b|] eqn:Hb.
  - destruct (negb _) eqn:Hp; [done|]. apply negb_false_iff, String.eqb_eq in Hp. intros [= <-]. split; [done|]. intros o' ref' r'.
    unfold files_under. simpl. destruct (decide (ow_Account o' = ow_Account o)) as [E|E].
    + rewrite E, lookup_insert_eq, Hb. split.
      * intros (b' & [= <-] & Hp' & Hl). simpl in Hp', Hl. apply lookup_insert_Some in Hl as [[<- <-]|[Hne Hl]]; [|left; by exists b].
        right. split_and!; [|done|done]. destruct o', o; simpl in *; congruence.
      * intros [(b' & [= <-] & Hp' & Hl)|(-> & -> & ->)]; eexists; (split; [done|]); simpl; (split; [done|]); [|apply lookup_insert_eq].
        apply lookup_insert_Some. destruct (decide (ref = ref')) as [<-|]; [left|by right]. split; [done|].
        assert (rs !! ref = Some r') by (apply (Hd o'); exists b; by rewrite E). congruence.
    + rewrite lookup_insert_ne by congruence. naive_solver.
  - intros [= <-]. split; [done|]. intros o' ref' r'. unfold files_under. simpl.
    destruct (decide (ow_Account o' = ow_Account o)) as [E|E].
    + rewrite E, lookup_insert_eq, Hb. split.
      * intros (b' & [= <-] & Hp' & Hl). simpl in Hp', Hl. apply lookup_insert_Some in Hl as [[<- <-]|[_ Hl]]; [|by rewrite lookup_empty in Hl].
        right. split_and!; [|done|done]. destruct o', o; simpl in *; congruence.
      * intros [(b' & [=] & _)|(-> & -> & ->)]. eexists. split; [done|]. simpl. split; [done|apply lookup_insert_eq].
    + rewrite lookup_insert_ne by congruence. naive_solver.
Qed.

Lemma own_records_spec ref r l doc doc' :
  rs !! ref = Some r → drawn doc → fold_res (own_record ref r) doc l = Ok doc' →
  ad_Format doc' = ad_Format doc ∧ ∀ o' ref' r', files_under doc' o' ref' r' ↔ files_under doc o' ref' r' ∨ (o' ∈ l ∧ ref' = ref ∧ r' = r).
Proof.
  intros Hr. revert doc. induction l as [|o l IH]; intros doc Hd; cbn [fold_res].
  - intros [= <-]. split; [done|]. intros. rewrite elem_of_nil. tauto.
  - destruct (own_record ref r doc o) as [d|] eqn:Ho; [|done]. cbn [res_bind]. intros Hf.
    destruct (own_record_spec _ _ _ _ _ Hr Hd Ho) as [Hfmt Hw].
    assert (Hd' : drawn d) by (intros o' ref' r' [Hx|(-> & -> & ->)]%Hw; [by eapply Hd|done]).
    destruct (IH _ Hd' Hf) as [Hfmt' Hw']. split; [congruence|]. intros o' ref' r'. rewrite Hw', Hw, elem_of_cons. tauto.
Qed.

Lemma group_records_spec l doc doc' :
  (∀ ref r, (ref, r) ∈ l → rs !! ref = Some r) → drawn doc → fold_res (group_record own) doc l = Ok doc' →
  ad_Format doc' = ad_Format doc
  ∧ (∀ o ref r, files_under doc' o ref r ↔ files_under doc o ref r ∨ ((ref, r) ∈ l ∧ rc_Revoked r = false ∧ o ∈ owners_of own ref))
  ∧ ∀ ref r, (ref, r) ∈ l → rc_Revoked r = false → owners_of own ref ≠ [].
Proof.
  revert doc. induction l as [|[ref r] l IH]; intros doc Hl Hd; cbn [fold_res].
  - intros [= <-]. split_and!; [done| |by intros ? ? ?%not_elem_of_nil]. intros. rewrite elem_of_nil. tauto.
  - assert (Hr : rs !! ref = Some r) by (apply Hl; by left). assert (Hl' : ∀ ref r, (ref, r) ∈ l → rs !! ref = Some r) by (intros; apply Hl; by right).
    cbn [group_record]. destruct (rc_Revoked r) eqn:Hrev; cbn [res_bind].
    + intros Hf. destruct (IH _ Hl' Hd Hf) as (Hfmt & Hw & Hne). split_and!; [done| |].
      * intros o ref' r'. rewrite Hw, elem_of_cons. split; [tauto|]. intros [?|([[= -> ->]|?] & ? & ?)]; [tauto|congruence|tauto].
      * intros ref' r' [[= -> ->]|Hin]%elem_of_cons Hr'; [congruence|by eapply Hne].
    + cbv zeta. destruct (bool_decide_reflect (default [] (own !! ref) = [])) as [|Hown]; [done|]. cbn [res_bind].
      destruct (fold_res (own_record ref r) doc _) as [d|] eqn:Ho; [|done]. cbn [res_bind]. intros Hf.
      destruct (own_records_spec _ _ _ _ _ Hr Hd Ho) as [Hfmt Hw].
      assert (Hd' : drawn d) by (intros o' ref' r' [Hx|(_ & -> & ->)]%Hw; [by eapply Hd|done]).
      destruct (IH _ Hl' Hd' Hf) as (Hfmt' & Hw' & Hne). split_and!; [congruence| |].
      * intros o ref' r'. rewrite Hw', Hw, elem_of_cons. fold (owners_of own ref). split.
        -- intros [[?|(? & -> & ->)]|?]; tauto.
        -- intros [?|([[= -> ->]|?] & ? & ?)]; tauto.
      * intros ref' r' [[= -> ->]|Hin]%elem_of_cons Hr'; [done|by eapply Hne].
Qed.

Lemma group_spec doc :
  groupAccountRecords rs own = Ok doc →
  ad_Format doc = 1
  ∧ (∀ o ref r, files_under doc o ref r ↔ rs !! ref = Some r ∧ rc_Revoked r = false ∧ o ∈ owners_of own ref)
  ∧ ∀ ref r, rs !! ref = Some r → rc_Revoked r = false → owners_of own ref ≠ [].
Proof.
  intros Hg. apply group_records_spec in Hg as (Hfmt & Hw & Hne).
  - split_and!; [done| |].
    + intros o ref r. rewrite Hw, elem_of_map_to_list. split; [|tauto]. intros [(b & Hb & _)|Hx]; [|done]. simpl in Hb. by rewrite lookup_empty in Hb.
    + intros ref r Hr. apply Hne. by apply elem_of_map_to_list.
  - intros ref r. apply elem_of_map_to_list.
  - intros o ref r (b & Hb & _). simpl in Hb. by rewrite lookup_empty in Hb.
Qed.

(** Every account of a document has material. *)
Definition inhabited (doc : accountDocument) : Prop := ∀ a b, ad_Accounts doc !! a = Some b → ∃ ref r, ab_Materials b !! ref = Some r.

Lemma own_record_inhabited ref r doc o doc' : inhabited doc → own_record ref r doc o = Ok doc' → inhabited doc'.
Proof.
  intros Hd. unfold own_record. destruct (_ || _); [done|]. cbv zeta.
  destruct (ad_Accounts doc !! ow_Account o) as [b|]; [destruct (negb _); [done|]|]; intros [= <-] a b'; cbn [ad_Accounts];
    (intros [[<- <-]|[_ Hb']]%lookup_insert_Some; [exists ref, r; apply lookup_insert_eq|by eapply Hd]).
Qed.

Lemma group_inhabited doc : groupAccountRecords rs own = Ok doc → inhabited doc.
Proof.
  intros Hg. refine (fold_res_inv _ (λ _ d, inhabited d) _ _ _ _ _ Hg); [intros a b Hb; simpl in Hb; by rewrite lookup_empty in Hb|].
  intros _ [ref r] d d' _ Hd Hs. cbn [group_record] in Hs. destruct (rc_Revoked r); [by injection Hs as <-|]. cbv zeta in Hs.
  destruct (bool_decide _); [done|]. refine (fold_res_inv _ (λ _ d, inhabited d) _ _ _ Hd _ Hs).
  intros _ o d1 d2 _. apply own_record_inhabited.
Qed.

(** Reading a document whose materials are records of [rs]. *)
Lemma read_materials_ok a p l acc :
  (∀ ref r, (ref, r) ∈ l → rs !! ref = Some r) → (∀ ref r, fst acc !! ref = Some r → rs !! ref = Some r) →
  ∃ acc', fold_res (read_material a p) acc l = Ok acc'
    ∧ (∀ ref r, fst acc' !! ref = Some r ↔ fst acc !! ref = Some r ∨ (ref, r) ∈ l)
    ∧ (∀ ref o, o ∈ owners_of (snd acc') ref ↔ o ∈ owners_of (snd acc) ref ∨ (o = {| ow_Account := a; ow_Provider := p |} ∧ ∃ r, (ref, r) ∈ l)).
Proof.
  revert acc. induction l as [|[ref r] l IH]; intros [rs' own'] Hl Hacc; cbn [fold_res].
  - exists (rs', own'). split_and!; [done| |]; intros; rewrite ?elem_of_nil; [tauto|]. split; [by left|]. intros [?|(_ & ? & []%not_elem_of_nil)]. done.
  - assert (Hr : rs !! ref = Some r) by (apply Hl; by left). cbn [read_material].
    replace (match rs' !! ref with Some old => negb (bool_decide (old = r)) | None => false end) with false.
    2:{ destruct (rs' !! ref) as [old|] eqn:Eo; [|done]. assert (old = r) as ->; [|by rewrite bool_decide_true]. specialize (Hacc ref old Eo). congruence. }
    cbn [res_bind]. destruct (IH (<[ref := r]> rs', add_owner ref {| ow_Account := a; ow_Provider := p |} own')) as (acc' & Hf & Hrec & Hown).
    { intros; apply Hl; by right. }
    { intros ref' r'. simpl. rewrite lookup_insert_Some. intros [[<- <-]|[_ Hx]]; [done|by apply Hacc]. }
    exists acc'. split_and!; [done| |].
    + intros ref' r'. rewrite Hrec, elem_of_cons. simpl. rewrite lookup_insert_Some. split; [naive_solver|].
      intros [Hx|[[= -> ->]|Hx]]; [|by left; left|by right]. left. destruct (decide (ref = ref')) as [<-|]; [left|by right].
      specialize (Hacc _ _ Hx). simpl in Hacc. split; [done|congruence].
    + intros ref' o. rewrite Hown. unfold owners_of, add_owner. simpl. setoid_rewrite elem_of_cons.
      destruct (decide (ref = ref')) as [<-|Hne]; [rewrite lookup_insert_eq; simpl; rewrite elem_of_app, list_elem_of_singleton; naive_solver|].
      rewrite lookup_insert_ne by done. naive_solver.
Qed.

Lemma read_bundles_ok l acc :
  (∀ a b ref r, (a, b) ∈ l → ab_Materials b !! ref = Some r → rs !! ref = Some r) → (∀ ref r, fst acc !! ref = Some r → rs !! ref = Some r) →
  ∃ acc', fold_res read_bundle acc l = Ok acc'
    ∧ (∀ ref r, fst acc' !! ref = Some r ↔ fst acc !! ref = Some r ∨ ∃ a b, (a, b) ∈ l ∧ ab_Materials b !! ref = Some r)
    ∧ (∀ ref o, o ∈ owners_of (snd acc') ref ↔ o ∈ owners_of (snd acc) ref
        ∨ ∃ a b r, (a, b) ∈ l ∧ o = {| ow_Account := a; ow_Provider := ab_Provider b |} ∧ ab_Materials b !! ref = Some r).
Proof.
  revert acc. induction l as [|[a b] l IH]; intros acc Hl Hacc; cbn [fold_res].
  - exists acc. split_and!; [done| |]; intros; (split; [by left|]); intros [?|(? & ? & Hx)]; try done; [by destruct Hx as [[]%not_elem_of_nil _]|].
    by destruct Hx as (? & []%not_elem_of_nil & _).
  - cbn [read_bundle]. destruct (read_materials_ok a (ab_Provider b) (map_to_list (ab_Materials b)) acc) as (acc1 & -> & Hrec1 & Hown1); [|done|].
    { intros ref r Hin%elem_of_map_to_list. apply (Hl a b); [by left|done]. }
    cbn [res_bind]. destruct (IH acc1) as (acc' & Hf & Hrec & Hown).
    { intros a' b' ref r Hin. apply (Hl a' b'). by right. }
    { intros ref r [Hx|Hx%elem_of_map_to_list]%Hrec1; [by apply Hacc|]. apply (Hl a b); [by left|done]. }
    exists acc'. split_and!; [done| |].
    + intros ref r. rewrite Hrec, Hrec1, elem_of_map_to_list. setoid_rewrite elem_of_cons. split.
      * intros [[?|?]|(a' & b' & ? & ?)]; [by left|right; exists a, b; auto|right; exists a', b'; auto].
      * intros [?|(a' & b' & [[= -> ->]|?] & ?)]; [by left; left|by left; right|right; by exists a', b'].
    + intros ref o. rewrite Hown, Hown1. setoid_rewrite elem_of_map_to_list. setoid_rewrite elem_of_cons. split.
      * intros [[?|(-> & r & ?)]|(a' & b' & r & ? & ? & ?)]; [by left|right; exists a, b, r; auto|right; exists a', b', r; auto].
      * intros [?|(a' & b' & r & [[= -> ->]|?] & -> & ?)]; [by left; left|left; right; eauto|right; by exists a', b', r].
Qed.

(** What is not revoked comes back, with its owners. *)
Definition unrevoked (rs : records) : records := filter (λ '(_, r), rc_Revoked r = false) rs.

Lemma document_reads_back doc :
  groupAccountRecords rs own = Ok doc →
  ∃ own', fold_res read_bundle (∅, ∅) (map_to_list (ad_Accounts doc)) = Ok (unrevoked rs, own')
    ∧ ∀ ref o, o ∈ owners_of own' ref ↔ is_Some (unrevoked rs !! ref) ∧ o ∈ owners_of own ref.
Proof.
  intros (_ & Hw & Hne)%group_spec.
  assert (Hun : ∀ ref r, unrevoked rs !! ref = Some r ↔ rs !! ref = Some r ∧ rc_Revoked r = false) by (intros; apply map_lookup_filter_Some).
  assert (Hin : ∀ a b ref r, (a, b) ∈ map_to_list (ad_Accounts doc) → ab_Materials b !! ref = Some r →
    files_under doc {| ow_Account := a; ow_Provider := ab_Provider b |} ref r).
  { intros a b ref r Hb%elem_of_map_to_list Hr. by exists b. }
  destruct (read_bundles_ok (map_to_list (ad_Accounts doc)) (∅, ∅)) as ([rs' own'] & Hf & Hrec & Hown).
  { intros a b ref r Hb Hr. by eapply Hw, Hin. }
  { intros ref r. simpl. by rewrite lookup_empty. }
  simpl in Hrec, Hown. exists own'. split.
  - rewrite Hf. f_equal. f_equal. apply map_eq. intros ref. apply option_eq. intros r. rewrite Hun, Hrec, lookup_empty. split.
    + intros [?|(a & b & Hb & Hr)]; [done|]. eapply Hw in Hin; [|done..]. tauto.
    + intros [Hr Hrev]. right. pose proof (Hne _ _ Hr Hrev) as Hown0. destruct (owners_of own ref) as [|o l] eqn:Eo; [done|].
      destruct (proj2 (Hw o ref r)) as (b & Hb & _ & Hm); [split_and!; [done|done|]; rewrite Eo; by left|].
      exists (ow_Account o), b. split; [by apply elem_of_map_to_list|done].
  - intros ref o. rewrite Hown. unfold owners_of at 1. rewrite lookup_empty. simpl. split.
    + intros [[]%not_elem_of_nil|(a & b & r & Hb & -> & Hr)]. pose proof (Hin _ _ _ _ Hb Hr) as (Hr' & Hrev & Ho)%Hw.
      split; [exists r; by apply Hun|done].
    + intros [[r [Hr Hrev]%Hun] Ho]. right. destruct (proj2 (Hw o ref r)) as (b & Hb & Hp & Hm); [done|].
      exists (ow_Account o), b, r. split_and!; [by apply elem_of_map_to_list|by destruct o; simpl in *; subst|done].
Qed.

End Grouping.

(** ** The file *)

(** Texts that survive an encoding: valid UTF-8. *)
Definition plain_text (s : string) : Prop := ValidString s = true.
Definition plain_texts (l : list string) : Prop := Forall plain_text l.
Definition plain_record (r : record) : Prop :=
  let md := rc_Metadata r in
  plain_texts [md_State md; md_ID md; md_Kind md; md_Source md; md_Domain md; rc_Value r; rc_ImportURL r]
  ∧ (∀ x, md_External md = Some x → plain_texts [ex_Manager x; ex_Reference x; ex_Field x])
  ∧ (∀ x, md_OAuthInfo md = Some x → plain_texts [om_Scope x; om_AccountID x])
  ∧ (∀ x, rc_OAuth r = Some x → plain_texts [og_AccessToken x; og_RefreshToken x; og_TokenURL x; og_ClientID x; og_ClientSecret x; og_Scope x; og_AccountID x]).
Definition plain_records (rs : records) : Prop := map_Forall (λ ref r, plain_text ref ∧ plain_record r) rs.
Definition plain_owners (own : owners) : Prop := ∀ ref o, o ∈ owners_of own ref → plain_text (ow_Account o) ∧ plain_text (ow_Provider o).
Definition plain_document (doc : accountDocument) : Prop :=
  map_Forall (λ a b, plain_text a ∧ plain_text (ab_Provider b) ∧ plain_records (ab_Materials b)) (ad_Accounts doc).

(** What the encodings and the encryption are relied on for. *)
Class VaultLaws `{VaultCodec} `{Protection} : Prop := {
  protect_roundtrip n p b : protect n p = Ok b → unprotect b = Some p;
  protect_fits n p b : protect n p = Ok b → blen p <= 8 * 2 ^ 20 → blen b <= 16 * 2 ^ 20;
  records_roundtrip rs b : marshal_records rs = Some b → plain_records rs → unmarshal_records b = Some rs;
  document_roundtrip doc b : marshal_document doc = Some b → plain_document doc → unmarshal_document b = Some doc }.

(** The last use, which only the next change writes. *)
Definition forget_use (r : record) : record :=
  let md := rc_Metadata r in
  {| rc_Metadata := {| md_External := md_External md; md_OAuthInfo := md_OAuthInfo md; md_State := md_State md;
       md_Version := md_Version md; md_ID := md_ID md; md_Kind := md_Kind md; md_Source := md_Source md; md_Domain := md_Domain md;
       md_CreatedAt := md_CreatedAt md; md_UpdatedAt := md_UpdatedAt md; md_LastUsedAt := None |};
     rc_Revoked := rc_Revoked r; rc_Value := rc_Value r; rc_OAuth := rc_OAuth r; rc_ImportURL := rc_ImportURL r |}.
Definition forget (rs : records) : records := forget_use <$> rs.

Section Disk.
Context `{UrlParser} `{VaultCodec} `{Protection}.

(** Opening the file of a store again. *)
Definition reopen (s : Store) (fs : files) : checked Store :=
  match vs_accountOwners s with
  | None => Open (vs_path s) true fs
  | Some _ => default (Err "no account data") (read_document (vs_path s) true fs)
  end.

(** What a file can bring back. *)
Definition lasting (s : Store) : records :=
  match vs_accountOwners s with None => vs_records s | Some own => unrevoked (vs_records s) end.

(** The owners in memory and those the file was written with. *)
Definition same_owners (rs : records) (own own0 : option owners) : Prop :=
  match own, own0 with
  | None, None => True
  | Some own, Some own0 => ∀ ref r, rs !! ref = Some r → rc_Revoked r = false → own !! ref = own0 !! ref
  | _, _ => False
  end.

(** The file holds the store: it was written from its records as they are,
    the last uses apart, or there is none and nothing to hold. *)
Inductive on_disk (s : Store) (fs : files) : Prop :=
| disk_none : fs !! vs_path s = None → vs_accountOwners s = None → vs_records s = ∅ → on_disk s fs
| disk_file b n plain rs own :
    fs !! vs_path s = Some b → protect n plain = Ok b → blen plain <= 8 * 2 ^ 20 →
    encode (with_owners own s) rs = Ok plain → forget rs = forget (vs_records s) → same_owners rs (vs_accountOwners s) own →
    on_disk s fs.

Lemma same_owners_refl rs own : same_owners rs own own.
Proof. by destruct own. Qed.

Lemma on_disk_same s s' fs fs' :
  vs_path s' = vs_path s → vs_accountOwners s' = vs_accountOwners s → forget (vs_records s') = forget (vs_records s) →
  fs' !! vs_path s = fs !! vs_path s → on_disk s fs → on_disk s' fs'.
Proof.
  intros Hp Ho Hr Hf [Hn Ho' Hr'|b n plain rs own Hb Hpr Hlen Henc Hrs Hown].
  - apply disk_none; rewrite ?Hp; [congruence..|]. rewrite Hr' in Hr. apply (f_equal (λ m, fmap (M:=gmap string) (λ _, tt) m)) in Hr.
    unfold forget in Hr. rewrite !fmap_empty, <-map_fmap_compose in Hr. by apply fmap_empty_inv in Hr.
  - apply (disk_file s' fs' b n plain rs own); try done; [by rewrite Hp, Hf|congruence|by rewrite Ho].
Qed.

Lemma write_vault_atomic e path b fs :
  ∃ r, atomicWrite e path b fs = (r, snd (write_vault e path b fs)) ∧ is_ok r = is_ok (fst (write_vault e path b fs)).
Proof.
  unfold write_vault, atomicWrite. destruct (negb (w_mkdir e)); [by eexists|]. destruct (negb (w_create e)); [by eexists|]. cbv zeta.
  destruct (negb _ || _); [by eexists|]. destruct (negb (w_rename e)); by eexists.
Qed.

(** A save leaves the file written from the new records, or as it was; at
    every moment the file is the old one or the new one. *)
Lemma save_files s e fs next :
  w_temp (se_write e) ≠ vs_path s →
  let o := save s e fs next in
  match oc_result o with
  | Ok _ => ∃ plain b, encode s next = Ok plain ∧ blen plain <= 8 * 2 ^ 20 ∧ protect (se_random e) plain = Ok b
      ∧ final fs (oc_files o) !! vs_path s = Some b ∧ ∀ fs', fs' ∈ oc_files o → fs' !! vs_path s = fs !! vs_path s ∨ fs' !! vs_path s = Some b
  | Err _ => final fs (oc_files o) !! vs_path s = fs !! vs_path s ∧ ∀ fs', fs' ∈ oc_files o → fs' !! vs_path s = fs !! vs_path s
  end.
Proof.
  intros Hne. unfold save. cbv zeta. destruct (encode s next) as [plain|err] eqn:He; cbn [res_bind]; [|by split; [|intros ? ?%not_elem_of_nil]].
  destruct (Z.ltb_spec (8 * 2 ^ 20) (blen plain)) as [|Hlen]; [by split; [|intros ? ?%not_elem_of_nil]|].
  destruct (protect _ plain) as [b|err] eqn:Hp; cbn [res_bind]; [|by split; [|intros ? ?%not_elem_of_nil]].
  destruct (write_vault_atomic (se_write e) (vs_path s) b fs) as (r & Hw & Hok).
  destruct (atomicWrite_spec _ _ _ _ _ _ Hne Hw) as [Hfin Htr].
  assert (Hpath : vs_path s ≠ w_temp (se_write e)) by congruence. specialize (Hfin _ Hpath).
  destruct (write_vault _ _ _ _) as [[[]|err] trace]; cbn [fst snd oc_result oc_files] in *; destruct r; try done.
  - exists plain, b. rewrite Hfin. simpl. rewrite bool_decide_true by done. split_and!; try done. intros fs' Hin. destruct (Htr _ Hin _ Hpath) as [->|(_ & _ & ->)]; auto.
  - rewrite Hfin. simpl. split; [done|]. intros fs' Hin. destruct (Htr _ Hin _ Hpath) as [->|([=] & _)]; done.
Qed.

Lemma on_disk_save s e fs next :
  w_temp (se_write e) ≠ vs_path s → on_disk s fs → on_disk (oc_store (save s e fs next)) (final fs (oc_files (save s e fs next))).
Proof.
  intros Hne Hd. pose proof (save_files s e fs next Hne) as Hf. cbv zeta in Hf.
  destruct (save_store s e fs next) as [[Hok Hst]|[[err Hok] Hst]]; rewrite Hok in Hf; rewrite Hst.
  - destruct Hf as (plain & b & He & Hlen & Hp & Hfin & _).
    apply (disk_file (with_records next s) _ b (se_random e) plain next (vs_accountOwners s)); try done. apply same_owners_refl.
  - eapply on_disk_same; [done|done|done|exact (proj1 Hf)|exact Hd].
Qed.

(** Bookkeeping beside the records. *)
Definition beside (s s' : Store) : Prop :=
  vs_path s' = vs_path s ∧ vs_accountOwners s' = vs_accountOwners s ∧ vs_records s' = vs_records s.

Lemma on_disk_beside s s' fs : beside s s' → on_disk s fs → on_disk s' fs.
Proof. intros (E1 & E2 & E3). apply on_disk_same; [done|done|by rewrite E3|done]. Qed.

Lemma on_disk_saved {A} o (a : A) f fs :
  (∀ s, beside s (f s)) → on_disk (oc_store o) (final fs (oc_files o)) →
  on_disk (oc_store (saved o a f)) (final fs (oc_files (saved o a f))).
Proof. intros Hf Hd. unfold saved. destruct (oc_result o); [|done]. by eapply on_disk_beside; [apply Hf|]. Qed.

(** New owners, of a reference whose material has none. *)
Lemma on_disk_owners s fs own ref l :
  vs_accountOwners s = Some own → (owners_of own ref ≠ [] → own !! ref = Some l) → on_disk s fs →
  on_disk (with_owners (Some (<[ref := l]> own)) s) fs.
Proof.
  intros Ho Hl [_ Hn _|b n plain rs own0 Hb Hp Hlen Henc Hrs Hown]; [congruence|].
  apply (disk_file _ _ b n plain rs own0); [done..|]. rewrite Ho in Hown. destruct own0 as [own0|]; [|done]. simpl. intros ref' r Hr Hrev.
  rewrite <-(Hown _ _ Hr Hrev). destruct (decide (ref = ref')) as [<-|]; [|by rewrite lookup_insert_ne]. rewrite lookup_insert_eq. symmetry. apply Hl.
  unfold owners_of. rewrite (Hown _ _ Hr Hrev). unfold encode in Henc. simpl in Henc.
  destruct (groupAccountRecords rs own0) as [doc|] eqn:Hg; [|done]. apply group_spec in Hg as (_ & _ & Hne). by eapply Hne.
Qed.

Lemma run_change_on_disk c e now w :
  w_temp (se_write e) ≠ vs_path (vw_store w) → on_disk (vw_store w) (vw_files w) →
  on_disk (oc_store (run_change c e now w)) (final (vw_files w) (oc_files (run_change c e now w))).
Proof.
  intros Hne Hd. destruct c as [id kind source value external oauth|id|ref domain|owner ref|owner ref]; cbn [run_change].
  - unfold putRecord. destruct (_ || _); [done|]. destruct (validateValue kind value); [|done]. cbv zeta.
    destruct (vs_records _ !! id) as [old|]; [destruct (rc_Revoked old); [done|]; destruct (_ =? 0); [done|]|];
      (apply on_disk_saved; [done|by apply on_disk_save]).
  - unfold Delete. destruct (vs_records _ !! id) as [old|]; [|done]. destruct (rc_Revoked old); [done|].
    apply on_disk_saved; [done|by apply on_disk_save].
  - unfold SetAccountDomain. destruct (vs_records _ !! ref); [|done]. by apply on_disk_save.
  - unfold own_material. destruct (vs_accountOwners _) as [own|] eqn:Ho; [|done]. destruct (bool_decide_reflect (default [] (own !! ref) ≠ [])) as [Hx|Hx].
    + destruct (bool_decide_reflect (default [] (own !! ref) ≠ [owner])) as [|Heq]; [done|]. apply dec_stable in Heq.
      apply on_disk_owners; [done| |done]. intros _. destruct (own !! ref); simpl in *; congruence.
    + apply on_disk_owners; [done| |done]. intros Hc. by destruct Hx.
  - unfold AdoptAccount. destruct (vs_accountOwners _) as [own|] eqn:Ho; [|done]. destruct (bool_decide_reflect (default [] (own !! ref) ≠ [])) as [|Hx]; [done|].
    apply on_disk_owners; [done| |done]. intros Hc. by destruct Hx.
Qed.

(** At every moment of a change the file is the old one or the new one. *)
Lemma saved_files s e fs next (f : Store → Store) fs' :
  w_temp (se_write e) ≠ vs_path s → let o := saved (save s e fs next) tt f in
  fs' ∈ oc_files o → fs' !! vs_path s = fs !! vs_path s ∨ fs' !! vs_path s = final fs (oc_files o) !! vs_path s.
Proof.
  intros Hne o. assert (Hof : oc_files o = oc_files (save s e fs next)) by (unfold o, saved; by destruct (oc_result _)). rewrite Hof.
  pose proof (save_files s e fs next Hne) as Hf. cbv zeta in Hf. destruct (oc_result (save s e fs next)) as [[]|err].
  - destruct Hf as (plain & b & _ & _ & _ & Hfin & Hin). intros [?|?]%Hin; [by left|right; congruence].
  - intros ?%(proj2 Hf). by left.
Qed.

Lemma run_change_files c e now w fs' :
  w_temp (se_write e) ≠ vs_path (vw_store w) → fs' ∈ oc_files (run_change c e now w) →
  fs' !! vs_path (vw_store w) = vw_files w !! vs_path (vw_store w)
  ∨ fs' !! vs_path (vw_store w) = final (vw_files w) (oc_files (run_change c e now w)) !! vs_path (vw_store w).
Proof.
  intros Hne. destruct c as [id kind source value external oauth|id|ref domain|owner ref|owner ref]; cbn [run_change].
  - unfold putRecord. destruct (_ || _); [by intros ?%not_elem_of_nil|]. destruct (validateValue kind value); [|by intros ?%not_elem_of_nil]. cbv zeta.
    destruct (vs_records _ !! id) as [old|]; [destruct (rc_Revoked old); [by intros ?%not_elem_of_nil|]; destruct (_ =? 0); [by intros ?%not_elem_of_nil|]|];
      by apply saved_files.
  - unfold Delete. destruct (vs_records _ !! id) as [old|]; [|by intros ?%not_elem_of_nil]. destruct (rc_Revoked old); [by intros ?%not_elem_of_nil|].
    by apply saved_files.
  - unfold SetAccountDomain. destruct (vs_records _ !! ref) as [r|]; [|by intros ?%not_elem_of_nil].
    pose proof (saved_files (vw_store w) e (vw_files w) (<[ref := with_domain domain r]> (vs_records (vw_store w))) (λ s, s) fs' Hne) as Hs.
    cbv zeta in Hs. unfold saved in Hs. by destruct (oc_result _).
  - unfold own_material. destruct (vs_accountOwners _); [destruct (_ && _)|]; by intros ?%not_elem_of_nil.
  - unfold AdoptAccount. destruct (vs_accountOwners _); [destruct (bool_decide _)|]; by intros ?%not_elem_of_nil.
Qed.

Lemma forget_with_use now r : forget_use (with_use now r) = forget_use r.
Proof. done. Qed.

Lemma perform_on_disk now env {R} (e : vault_eff R) a x w w' :
  fresh_name env w → perform now env e a w = Some (x, w') → on_disk (vw_store w) (vw_files w) → on_disk (vw_store w') (vw_files w').
Proof.
  intros [Hne _] Hp Hd. destruct e as [c|id|id| |ref|id r v|id|id force|fl|id fl r g|id fl r next]; cbn [perform] in Hp; try (injection Hp as <- <-; done).
  - injection Hp as <- <-. by apply run_change_on_disk.
  - unfold touch_used in Hp. destruct (vs_records _ !! id) as [r|] eqn:Hr; [|by injection Hp as <- <-].
    destruct (rc_Revoked r); injection Hp as <- <-; [done|]. apply (on_disk_same (vw_store w) _ (vw_files w)); [done|done| |done|done].
    unfold forget. simpl. rewrite fmap_insert, forget_with_use, <-fmap_insert. by rewrite insert_id.
  - destruct (begin_refresh _ _ _ _) as [b s] eqn:Hb. injection Hp as <- <-. apply (on_disk_beside (vw_store w)); [|exact Hd].
    unfold begin_refresh in Hb. repeat case_match; injection Hb as <- <-; done.
  - destruct (vw_landed w !! fl); [|destruct a; [done|]]; injection Hp as <- <-; done.
  - unfold after in Hp. injection Hp as <- <-. cbn [vw_store vw_files]. unfold finish_refresh. cbn [oc_store oc_files].
    match goal with |- on_disk (with_refreshes _ _ (oc_store ?o)) _ => assert (Ho : on_disk (oc_store o) (final (vw_files w) (oc_files o))) end.
    2:{ by eapply on_disk_beside; [|exact Ho]. }
    destruct (vs_records _ !! id) as [cur|]; [|done]. destruct (_ || _); [done|]. destruct next as [g|err]; [|by apply (on_disk_beside (vw_store w))].
    destruct (_ =? 0); [done|]. cbn [oc_store oc_files]. by eapply on_disk_beside; [|by apply on_disk_save].
Qed.

Lemma run_on_disk g g' :
  rtc vault_step g g' → on_disk (vw_store (u_world g)) (vw_files (u_world g)) → on_disk (vw_store (u_world g')) (vw_files (u_world g')).
Proof.
  induction 1 as [g|g g1 g2 Hs _ IH]; [done|]. intros Hd. apply IH. destruct Hs as [p Hp|i R e k a x w' now env Hi Hfresh Hperf]; [done|].
  by eapply perform_on_disk.
Qed.

(** ** Reading back *)

Lemma forget_lookup rs ref : forget rs !! ref = forget_use <$> rs !! ref.
Proof. apply lookup_fmap. Qed.

Lemma forget_same rs rs' ref r :
  forget rs = forget rs' → rs !! ref = Some r → ∃ r', rs' !! ref = Some r' ∧ forget_use r' = forget_use r.
Proof.
  intros E Hr. apply (f_equal (lookup ref)) in E. rewrite !forget_lookup, Hr in E. destruct (rs' !! ref) as [r'|]; [|done].
  exists r'. split; [done|]. exact (eq_sym (Some_inj _ _ E)).
Qed.

Lemma forget_use_fields r r' :
  forget_use r' = forget_use r → rc_Revoked r' = rc_Revoked r ∧ (plain_record r' → plain_record r).
Proof.
  intros E. split; [exact (f_equal rc_Revoked E)|]. intros Hp. change (plain_record (forget_use r)). rewrite <-E. exact Hp.
Qed.

Lemma forget_plain rs rs' : forget rs = forget rs' → plain_records rs' → plain_records rs.
Proof.
  intros E Hp ref r Hr. destruct (forget_same _ _ _ _ E Hr) as (r' & Hr' & Eu). destruct (Hp _ _ Hr') as [H1' H2'].
  split; [done|]. by apply (forget_use_fields _ _ Eu).
Qed.

Lemma forget_unrevoked rs rs' : forget rs = forget rs' → forget (unrevoked rs) = forget (unrevoked rs').
Proof.
  intros E. assert (Hle : ∀ rs rs', forget rs = forget rs' → ∀ ref u, forget (unrevoked rs) !! ref = Some u → forget (unrevoked rs') !! ref = Some u).
  { clear. intros rs rs' E ref u. rewrite !forget_lookup. destruct (unrevoked rs !! ref) as [r|] eqn:Hr; [|done]. intros [= <-].
    apply map_lookup_filter_Some in Hr as [Hr Hrev]. destruct (forget_same _ _ _ _ E Hr) as (r' & Hr' & Eu).
    assert (Hu : unrevoked rs' !! ref = Some r'); [|by rewrite Hu; simpl; rewrite Eu].
    apply map_lookup_filter_Some. split; [done|]. by rewrite (proj1 (forget_use_fields _ _ Eu)). }
  apply map_eq. intros ref. apply option_eq. intros u. split; by apply Hle.
Qed.

(** A file opens according to what is at the path of the store. *)
Lemma reopen_at s fs fs' : fs !! vs_path s = fs' !! vs_path s → reopen s fs = reopen s fs'.
Proof. unfold reopen, Open, read_document. by intros ->. Qed.

Lemma plain_grouped rs own doc :
  plain_records rs → (∀ ref r o, rs !! ref = Some r → rc_Revoked r = false → o ∈ owners_of own ref → plain_text (ow_Account o) ∧ plain_text (ow_Provider o)) →
  groupAccountRecords rs own = Ok doc → plain_document doc.
Proof.
  intros Hrs Hown Hg. pose proof (group_inhabited _ _ _ Hg) as Hin. apply group_spec in Hg as (_ & Hw & _).
  assert (Hf : ∀ a b ref r, ad_Accounts doc !! a = Some b → ab_Materials b !! ref = Some r →
    rs !! ref = Some r ∧ plain_text a ∧ plain_text (ab_Provider b)).
  { intros a b ref r Hb Hr. destruct (proj1 (Hw {| ow_Account := a; ow_Provider := ab_Provider b |} ref r)) as (Hr' & Hrev & Ho); [by exists b|].
    split; [done|]. exact (Hown _ _ _ Hr' Hrev Ho). }
  intros a b Hb. destruct (Hin _ _ Hb) as (ref & r & Hr). destruct (Hf _ _ _ _ Hb Hr) as (_ & Ha & Hp). split_and!; [done|done|].
  intros ref' r' Hr'. apply Hrs. eapply Hf; done.
Qed.

Lemma on_disk_reopens `{!VaultLaws} s fs :
  on_disk s fs → plain_records (vs_records s) → (∀ own, vs_accountOwners s = Some own → plain_owners own) →
  ∃ s', reopen s fs = Ok s' ∧ forget (vs_records s') = forget (lasting s)
    ∧ match vs_accountOwners s, vs_accountOwners s' with
      | None, None => True
      | Some own, Some own' => ∀ ref o, is_Some (lasting s !! ref) → o ∈ owners_of own' ref ↔ o ∈ owners_of own ref
      | _, _ => False
      end.
Proof.
  intros [Hn Ho Hr|b n plain rs own0 Hb Hp Hlen Henc Hrs Hown] Hplain Hpo; unfold reopen, lasting.
  { rewrite Ho. unfold Open. rewrite Hn, Hr. by eexists. }
  apply (forget_plain _ _ Hrs) in Hplain. pose proof (protect_fits _ _ _ Hp Hlen) as Hfit. pose proof (protect_roundtrip _ _ _ Hp) as Hun.
  assert (Hsize : (16 * 2 ^ 20 <? blen b) = false) by (apply Z.ltb_ge; lia). unfold encode in Henc.
  destruct (vs_accountOwners s) as [own|] eqn:Eo; destruct own0 as [own0|]; try done; cbn [vs_accountOwners with_owners] in Henc.
  - destruct (groupAccountRecords rs own0) as [doc|] eqn:Hg; [|done]. cbn [res_bind] in Henc.
    destruct (marshal_document doc) as [b'|] eqn:Hm; [|done]. injection Henc as ->.
    assert (Hpd : plain_document doc).
    { apply (plain_grouped rs own0); [done| |done]. intros ref r o Hr Hrev Ho. apply (Hpo own eq_refl ref). unfold owners_of. by rewrite (Hown _ _ Hr Hrev). }
    destruct (document_reads_back _ _ _ Hg) as (own' & Hread & Hown'). apply group_spec in Hg as (Hfmt & _).
    unfold read_document. rewrite Hb. simpl. unfold open_document. rewrite Hsize, Hun, (document_roundtrip _ _ Hm Hpd), Hfmt, Hread. simpl.
    eexists. split; [done|]. split; [by apply forget_unrevoked|]. simpl. intros ref o [r Hr].
    apply map_lookup_filter_Some in Hr as [Hr Hrev]. symmetry in Hrs. destruct (forget_same _ _ _ _ Hrs Hr) as (r0 & Hr0 & Eu).
    assert (Hrev0 : rc_Revoked r0 = false) by (by rewrite (proj1 (forget_use_fields _ _ Eu))).
    rewrite Hown'. unfold owners_of. rewrite (Hown _ _ Hr0 Hrev0). split; [tauto|]. split; [|done]. exists r0. by apply map_lookup_filter_Some.
  - destruct (marshal_records rs) as [b'|] eqn:Hm; [|done]. injection Henc as ->. unfold Open. rewrite Hb. simpl.
    rewrite Hsize, Hun, (records_roundtrip _ _ Hm Hplain). by eexists.
Qed.

End Disk.

(** A tombstone is not filed under any account: after the vault has been
    opened again its reference is as good as new. *)
Lemma tombstone_not_filed rs own doc ref r :
  groupAccountRecords rs own = Ok doc → rs !! ref = Some r → rc_Revoked r = true →
  ∃ own' rs', fold_res read_bundle (∅, ∅) (map_to_list (ad_Accounts doc)) = Ok (rs', own') ∧ rs' !! ref = None.
Proof.
  intros Hg Hr Hrev. destruct (document_reads_back _ _ _ Hg) as (own' & Hread & _). exists own', (unrevoked rs). split; [done|].
  apply map_lookup_filter_None. right. intros r' Hr'. congruence.
Qed.
