(* ===== verification/VaultTheorems.v ===== *)
(** * What the vault guarantees its users *)

From S2P Require Import Prelude ConfigData Json GoText GoNet ConfigAccounts Service Vault OAuth Program VaultSem VaultFacts VaultDisk.
Local Open Scope Z_scope.

Section Refreshes.
Context `{UrlParser} `{VaultCodec} `{Protection}.

(** The reference an operation is refreshing: between the two ends. *)
Definition refresh_target {R} (e : vault_eff R) : option string :=
  match e with AskGrant id _ _ _ => Some id | Finish id _ _ _ => Some id | _ => None end.
Definition refreshing_op (p : operation unit) : option string :=
  match p with Do e _ => refresh_target e | Ret _ => None end.
Definition refreshing (g : users) (i : nat) (id : string) : Prop := (u_threads g !! i : option (operation unit)) ≫= refreshing_op = Some id.

Definition returned (p : operation unit) : Prop := match p with Ret _ => True | Do _ _ => False end.

Lemma refreshing_at_work g sts i id : pool_ok g sts → refreshing g i id → at_work sts i id.
Proof.
  intros [Hth _ _ _] Hr. unfold refreshing in Hr. destruct (u_threads g !! i) as [[|R e k]|] eqn:Hi; [done| |done]. simpl in Hr.
  destruct (Forall2_lookup_l _ _ _ _ _ Hth Hi) as (st & Hst & [Hs _] & _).
  destruct e as [| | | | | | | | |id' fl r gr|id' fl r next]; try done; injection Hr as ->; exists fl, r; rewrite Hst; f_equal; [apply Hs|exact Hs].
Qed.

Lemma finish_ok s e fs now id r next :
  oc_result (finish_refresh s e fs now id r next) = Ok tt →
  ∃ cur gr new, vs_records s !! id = Some cur ∧ rc_Revoked cur = false ∧ version cur = version r ∧ next = Ok gr
    ∧ vs_records (oc_store (finish_refresh s e fs now id r next)) = <[id := new]> (vs_records s)
    ∧ version new = u64 (version cur + 1) ∧ held new = (og_AccessToken gr, Some gr, md_External (rc_Metadata cur)).
Proof.
  unfold finish_refresh. cbn [oc_result oc_store]. destruct (vs_records s !! id) as [cur|] eqn:Hcur; [|done].
  destruct (rc_Revoked cur) eqn:Hrev; [done|]. cbn [orb]. destruct (Z.eqb_spec (md_Version (rc_Metadata cur)) (md_Version (rc_Metadata r))) as [Ev|]; [|done].
  cbn [negb]. destruct next as [gr|]; [|done]. destruct (_ =? 0); [done|]. cbn [oc_result oc_store].
  match goal with |- oc_result (save s e fs ?n) = _ → _ => destruct (save_store s e fs n) as [[_ ->]|[[err ->] _]]; [|done] end.
  intros _. exists cur, gr, (refreshed_record now (u64 (md_Version (rc_Metadata cur) + 1)) gr cur). split_and!; done.
Qed.

Lemma finish_failed s e fs now id r next err :
  oc_result (finish_refresh s e fs now id r next) = Err err → vs_records (oc_store (finish_refresh s e fs now id r next)) = vs_records s.
Proof.
  unfold finish_refresh. cbn [oc_result oc_store]. destruct (vs_records s !! id) as [cur|]; [|done].
  destruct (_ || _); [done|]. destruct next as [gr|]; [|done]. destruct (_ =? 0); [done|]. cbn [oc_result oc_store].
  match goal with |- oc_result (save s e fs ?n) = _ → _ => destruct (save_store s e fs n) as [[-> _]|[_ ->]]; done end.
Qed.

(** C27: secrets only move forward, and a refresh replaces only what it began
    with.  However the operations on a vault interleave, whatever the token
    endpoint and the external managers answer and whichever saves fail: the
    version of a reference never decreases and grows with every replacement of
    what it holds, a revoked reference stays revoked and holds nothing new; no
    two operations refresh the same reference at once; a refresh that ends in
    success found the very version, token and grant it began with and replaced
    it by the new grant under the next version, and one that fails changed no
    record; and once every operation has returned no refresh is in flight. *)
Theorem secrets_only_move_forward s fs g g' :
  vs_refreshes s = ∅ → versions_fit (vs_records s) → rtc vault_step (opened s fs) g → rtc vault_step g g' →
  later (vs_records (vw_store (u_world g))) (vs_records (vw_store (u_world g')))
  ∧ (∀ i j id, refreshing g i id → refreshing g j id → i = j)
  ∧ (∀ i id flight r next k env fs' now, u_threads g !! i = Some (Do (Finish id flight r next) k) →
      let o := finish_refresh (vw_store (u_world g)) env fs' now id r next in
      vs_refreshes (vw_store (u_world g)) !! id = Some flight
      ∧ (oc_result o = Ok tt → ∃ cur gr new, vs_records (vw_store (u_world g)) !! id = Some cur ∧ held cur = held r
          ∧ next = Ok gr ∧ vs_records (oc_store o) = <[id := new]> (vs_records (vw_store (u_world g)))
          ∧ version cur < version new ∧ held new = (og_AccessToken gr, Some gr, md_External (rc_Metadata cur)))
      ∧ (oc_result o ≠ Ok tt → vs_records (oc_store o) = vs_records (vw_store (u_world g))))
  ∧ (Forall returned (u_threads g) → vs_refreshes (vw_store (u_world g)) = ∅).
Proof.
  intros Hr Hv Hrun Hrun'. destruct (vault_pool_run _ _ _ (pool_opened s fs Hr Hv) Hrun) as [[sts Hok] _].
  destruct (vault_pool_run _ _ _ Hok Hrun') as [_ Hl]. split_and!; [done| | |].
  - intros i j id Hi Hj. eapply (po_apart _ _ Hok); by eapply refreshing_at_work.
  - intros i id flight r next k env fs' now Hi o. destruct (Forall2_lookup_l _ _ _ _ _ (po_threads _ _ Hok) Hi) as (st & _ & [Hst _] & Hf).
    simpl in Hst. subst st. destruct Hf as (Hfl & cur & Hcur & Hsu). split_and!; [done| |].
    + intros Hres. destruct (finish_ok _ _ _ _ _ _ _ Hres) as (cur' & gr & new & Hcur' & Hrev & Hver & Hn & Hrec & Hnew & Hheld).
      assert (cur' = cur) as -> by congruence. exists cur, gr, new. split_and!; try done.
      * apply (su_held _ _ Hsu); [done|]. destruct (rc_Revoked r) eqn:Er; [|done]. destruct (su_revoked _ _ Hsu Er). congruence.
      * rewrite Hnew. apply next_version; [exact (po_fit _ _ Hok _ _ Hcur)|]. intros E.
        revert Hres. unfold o, finish_refresh. cbn [oc_result]. rewrite Hcur, Hrev. cbn [orb]. unfold version in *.
        destruct (negb _); [done|]. rewrite Hn, E. done.
    + intros Hres. destruct (oc_result o) as [[]|err] eqn:E; [done|]. by eapply finish_failed.
  - intros Hret. apply map_empty. intros id. destruct (_ !! id) eqn:E; [|done]. destruct (po_known _ _ Hok id) as (i & fl & r & Hi); [by eexists|].
    destruct (Forall2_lookup_r _ _ _ _ _ (po_threads _ _ Hok) Hi) as (p & Hp & Hs & _). rewrite Forall_forall in Hret.
    specialize (Hret p ltac:(by eapply list_elem_of_lookup_2)). by destruct p.
Qed.


End Refreshes.

(** ** A vault in use *)

Definition demo_grant : OAuthGrant :=
  {| og_AccessToken := "access"; og_RefreshToken := "refresh"; og_TokenURL := "https://id.example/token"; og_ClientID := "gateway";
     og_ClientSecret := ""; og_ExpiresAt := 5; og_Scope := ""; og_AccountID := "" |}.
Definition demo_ref : string := "cred://work".
Definition demo_records : records :=
  {[ demo_ref := new_record None 7 1 demo_ref "oauth" "import" "access" None (Some demo_grant) ]}.
Definition demo_store (rs : records) : Store :=
  {| vs_accountOwners := None; vs_refreshes := ∅; vs_refreshBackoff := ∅; vs_path := "credentials.vault"; vs_records := rs;
     vs_lastUsed := ∅; vs_flights := 0 |}.
Definition demo_save : save_env :=
  {| se_write := {| w_temp := ".vault-1"; w_mkdir := true; w_create := true; w_chmod := true; w_copy := true; w_partial := 0;
       w_sync := true; w_close := true; w_rename := true |}; se_random := 0 |}.

(** Encodings of the records used here, and no encryption. *)
#[local] Instance demo_urls : UrlParser := λ _, None.
#[local] Instance demo_codec : VaultCodec := {
  marshal_records rs := if bool_decide (rs = demo_records) then Some (lit "1") else if bool_decide (rs = ∅) then Some (lit "0") else None;
  unmarshal_records b := if bool_decide (b = lit "1") then Some demo_records else if bool_decide (b = lit "0") then Some ∅ else None;
  marshal_document _ := None;
  unmarshal_document _ := None }.
#[local] Instance demo_protection : Protection := { protect _ b := Ok b; unprotect := Some }.

#[local] Instance demo_laws : VaultLaws.
Proof.
  split; cbn [protect unprotect demo_protection marshal_records unmarshal_records marshal_document demo_codec]; [by intros _ p b [= ->]|intros _ p b [= ->]; lia| |done].
  intros rs b. case_bool_decide; [intros [= <-] _; by subst|]. case_bool_decide; [intros [= <-] _; by subst|done].
Qed.

(** One effect of the only operation. *)
Lemma one_step {R} (e : vault_eff R) k a x now w w' :
  perform now demo_save e a w = Some (x, w') → fresh_name demo_save w →
  vault_step {| u_world := w; u_threads := [Do e k] |} {| u_world := w'; u_threads := [k x] |}.
Proof. intros Hp Hf. exact (vault_run {| u_world := w; u_threads := [Do e k] |} 0 R e k a x w' now demo_save eq_refl Hf Hp). Qed.

Definition demo_world (rs : records) : vault_world := {| vw_store := demo_store rs; vw_files := ∅; vw_landed := ∅ |}.
Definition demo_begun : begun * Store := begin_refresh (demo_store demo_records) 10 demo_ref true.
Definition demo_rest (b : begun) : operation unit :=
  (match b with
   | Over r => Ret r
   | Joined flight => trigger (AwaitFlight flight)
   | Started flight r g => '(a, now) ← trigger (AskGrant demo_ref flight r g); trigger (Finish demo_ref flight r (refreshed now g a))
   end) ;; Ret tt.
Definition demo_refreshing : users :=
  {| u_world := set_store (snd demo_begun) (demo_world demo_records); u_threads := [demo_rest (fst demo_begun)] |}.

Lemma demo_refreshing_run : rtc vault_step (opened (demo_store demo_records) ∅) demo_refreshing.
Proof.
  eapply rtc_l; [exact (vault_ask (opened (demo_store demo_records) ∅) _ (ask_refresh demo_ref))|].
  eapply rtc_l; [|apply rtc_refl].
  apply (one_step (Begin demo_ref true) demo_rest (Over (Ok tt)) (fst demo_begun) 10 (demo_world demo_records)); [|by split].
  cbn [perform vw_store demo_world]. fold demo_begun. by destruct demo_begun.
Qed.

Lemma secrets_only_move_forward_witness :
  refreshing demo_refreshing 0 demo_ref ∧ later (vs_records (vw_store (u_world demo_refreshing))) (vs_records (vw_store (u_world demo_refreshing)))
  ∧ ∀ i, refreshing demo_refreshing i demo_ref → i = 0%nat.
Proof.
  destruct (secrets_only_move_forward (demo_store demo_records) ∅ demo_refreshing demo_refreshing) as (Hl & Hone & _);
    [reflexivity| |exact demo_refreshing_run|apply rtc_refl|].
  - unfold versions_fit, demo_store, demo_records. cbn [vs_records]. intros id r [<- <-]%lookup_singleton_Some. split; vm_compute; [discriminate|reflexivity].
  - assert (H0 : refreshing demo_refreshing 0 demo_ref) by (vm_compute; reflexivity). split; [exact H0|]. split; [exact Hl|].
    intros i Hi. exact (Hone i 0%nat demo_ref Hi H0).
Defined.




