(* ===== verification/Evidence.v ===== *)
(** * Operational evidence ([internal/evidence/store.go])

    A bounded history of facts about checks, in one file that every append
    replaces.  The JSON text of the entries is an interface; a time is in
    nanoseconds and the zero time is 0. *)

From S2P Require Import Prelude ConfigData Json GoText GoNet ConfigAccounts Service ServiceFacts.
Local Open Scope string_scope.
Local Open Scope Z_scope.

Record Entry := {
  en_Binding : string; en_Sequence : Z; en_Revision : Z; en_Kind : string; en_Resource : string; en_Model : string;
  en_Protocol : string; en_CheckedAt : Z; en_Method : string; en_Status : string; en_UpstreamStatus : Z;
  en_ProtocolComplete : bool; en_OutputObserved : bool; en_Count : Z }.

Record Evidence := { ev_path : string; ev_entries : list Entry }.

(** [json.Marshal] of the entries, and the entries a file decodes to: one
    array of objects without unknown members, and nothing after it. *)
Class EntryCodec := { marshal_entries : list Entry → option bytes; decode_entries : bytes → option (list Entry) }.

Definition max_entries : nat := 1000.
Definition max_evidence : Z := 2 * 2 ^ 20.
#[local] Arguments max_entries : simpl never.
#[local] Arguments max_evidence : simpl never.

Definition with_sequence (sequence checkedAt : Z) (e : Entry) : Entry :=
  {| en_Binding := en_Binding e; en_Sequence := sequence; en_Revision := en_Revision e; en_Kind := en_Kind e;
     en_Resource := en_Resource e; en_Model := en_Model e; en_Protocol := en_Protocol e; en_CheckedAt := checkedAt;
     en_Method := en_Method e; en_Status := en_Status e; en_UpstreamStatus := en_UpstreamStatus e;
     en_ProtocolComplete := en_ProtocolComplete e; en_OutputObserved := en_OutputObserved e; en_Count := en_Count e |}.

Definition oversized (e : Entry) : bool :=
  (64 <? slen (en_Binding e)) || (512 <? slen (en_Resource e)) || (512 <? slen (en_Model e)) || (128 <? slen (en_Method e))
  || (128 <? slen (en_Status e)) || (64 <? slen (en_Kind e)).

Definition next_sequence (entries : list Entry) : Z :=
  match last entries with Some e => u64 (en_Sequence e + 1) | None => 1 end.

Definition retain (entries : list Entry) : list Entry := drop (length entries - max_entries) entries.

Definition write_evidence (e : write_env) (path : string) (b : bytes) (fs : files) : checked unit * list files :=
  if negb (w_mkdir e) then (Err "cannot create evidence directory", [])
  else if negb (w_create e) then (Err "cannot create evidence transaction", [])
  else
    let name := w_temp e in
    let created := <[name := []]> fs in
    let wrote := if w_chmod e then (if w_copy e then b else take (w_partial e) b) else [] in
    let written := <[name := wrote]> fs in
    if negb (w_chmod e && w_copy e && w_sync e) || negb (w_close e) then
      (Err "cannot write evidence history", [created; written; delete name written])
    else if negb (w_rename e) then (Err "cannot commit evidence history", [created; written; delete name written])
    else
      let renamed := <[path := wrote]> (delete name written) in
      (Ok tt, [created; written; renamed; delete name renamed]).

Section Store.
Context `{EntryCodec}.

Definition Open (path : string) (readable : bool) (fs : files) : checked Evidence :=
  match fs !! path with
  | None => Ok {| ev_path := path; ev_entries := [] |}
  | Some b =>
      reject negb readable with "cannot open evidence history" ;;
      reject max_evidence <? blen b with "evidence history exceeds size limit" ;;
      match decode_entries b with
      | None => Err "invalid evidence history"
      | Some entries =>
          reject (max_entries <? length entries)%nat with "invalid evidence history" ;;
          Ok {| ev_path := path; ev_entries := entries |}
      end
  end.

Definition List (s : Evidence) : list Entry := ev_entries s.

(** The entries after an append that succeeds. *)
Definition appended (now : Z) (entry : Entry) (entries : list Entry) : list Entry :=
  let checkedAt := if en_CheckedAt entry =? 0 then now else en_CheckedAt entry in
  retain (entries ++ [with_sequence (next_sequence entries) checkedAt entry])%list.

Definition Append (s : Evidence) (e : write_env) (fs : files) (now : Z) (entry : Entry) : checked unit * Evidence * list files :=
  if oversized entry then (Err "invalid evidence field size", s, [])
  else
    let next := appended now entry (ev_entries s) in
    match marshal_entries next with
    | None => (Err "evidence history capacity exceeded", s, [])
    | Some data =>
        if max_evidence <? blen data then (Err "evidence history capacity exceeded", s, [])
        else
          match write_evidence e (ev_path s) data fs with
          | (Err err, trace) => (Err err, s, trace)
          | (Ok _, trace) => (Ok tt, {| ev_path := ev_path s; ev_entries := next |}, trace)
          end
    end.

(** ** Histories *)

(** What the encoding is relied on for: entries of valid text read back. *)
Definition plain_entry (e : Entry) : Prop :=
  Forall (λ s, ValidString s = true) [en_Binding e; en_Kind e; en_Resource e; en_Model e; en_Protocol e; en_Method e; en_Status e].
Class EntryLaws : Prop :=
  entries_roundtrip entries b : marshal_entries entries = Some b → Forall plain_entry entries → decode_entries b = Some entries.

(** Consecutive numbers, at most a thousand entries. *)
Fixpoint consecutive (l : list Entry) : Prop :=
  match l with
  | a :: (b :: _) as rest => en_Sequence b = u64 (en_Sequence a + 1) ∧ consecutive rest
  | _ => True
  end.

Lemma consecutive_snoc l e : consecutive l → (∀ a, last l = Some a → en_Sequence e = u64 (en_Sequence a + 1)) → consecutive (l ++ [e]).
Proof.
  induction l as [|a [|b l] IH]; intros Hl He; [done| |].
  - simpl. split; [by apply He|done].
  - destruct Hl as [Hb Hl]. split; [done|]. apply IH; [done|]. intros x Hx. by apply He.
Qed.

Lemma consecutive_drop n l : consecutive l → consecutive (drop n l).
Proof.
  revert l. induction n as [|n IH]; intros l Hl; [by rewrite drop_0|]. destruct l as [|a l]; [done|]. simpl. apply IH.
  destruct l; [done|]. by destruct Hl.
Qed.

Lemma write_evidence_atomic e path b fs :
  ∃ r, atomicWrite e path b fs = (r, snd (write_evidence e path b fs)) ∧ is_ok r = is_ok (fst (write_evidence e path b fs)).
Proof.
  unfold write_evidence, atomicWrite. destruct (negb (w_mkdir e)); [by eexists|]. destruct (negb (w_create e)); [by eexists|]. cbv zeta.
  destruct (negb _ || _); [by eexists|]. destruct (negb (w_rename e)); by eexists.
Qed.

Lemma appended_spec now entry entries :
  let checked_at := if en_CheckedAt entry =? 0 then now else en_CheckedAt entry in
  let all := (entries ++ [with_sequence (next_sequence entries) checked_at entry])%list in
  (∃ dropped, (dropped ++ appended now entry entries)%list = all)
  ∧ length (appended now entry entries) = Nat.min max_entries (S (length entries))
  ∧ (consecutive entries → consecutive (appended now entry entries))
  ∧ (Forall plain_entry entries → plain_entry entry → Forall plain_entry (appended now entry entries)).
Proof.
  intros checked_at all. unfold appended, retain. fold checked_at. fold all. split_and!.
  - exists (take (length all - max_entries) all). apply take_drop.
  - rewrite length_drop. unfold all. rewrite length_app. cbn [length]. lia.
  - intros Hc. apply consecutive_drop, consecutive_snoc; [done|]. intros a Ha. unfold next_sequence. by rewrite Ha.
  - intros Hp He. apply Forall_drop, Forall_app. split; [done|]. constructor; [exact He|constructor].
Qed.

(** Every way an append ends. *)
Lemma Append_cases s e fs now entry :
  w_temp e ≠ ev_path s →
  let '(r, s', trace) := Append s e fs now entry in
  (∀ fs', fs' ∈ trace → fs' !! ev_path s = fs !! ev_path s ∨ fs' !! ev_path s = final fs trace !! ev_path s)
  ∧ match r with
    | Err _ => s' = s ∧ final fs trace !! ev_path s = fs !! ev_path s
    | Ok _ => oversized entry = false ∧ s' = {| ev_path := ev_path s; ev_entries := appended now entry (ev_entries s) |}
        ∧ ∃ b, marshal_entries (ev_entries s') = Some b ∧ blen b <= max_evidence ∧ final fs trace !! ev_path s = Some b
    end.
Proof.
  intros Hne. unfold Append. destruct (oversized entry); [by split; [intros ? ?%not_elem_of_nil|]|]. cbv zeta.
  destruct (marshal_entries _) as [b|] eqn:Hm; [|by split; [intros ? ?%not_elem_of_nil|]].
  destruct (Z.ltb_spec max_evidence (blen b)); [by split; [intros ? ?%not_elem_of_nil|]|].
  destruct (write_evidence_atomic e (ev_path s) b fs) as (r & Hw & Hok). destruct (atomicWrite_spec _ _ _ _ _ _ Hne Hw) as [Hfin Htr].
  assert (Hpath : ev_path s ≠ w_temp e) by congruence. specialize (Hfin _ Hpath).
  destruct (write_evidence _ _ _ _) as [[[]|err] trace]; cbn [fst snd] in *; destruct r; try done; simpl in Hfin.
  - rewrite bool_decide_true in Hfin by done. rewrite Hfin. split; [|split_and!; [done|done|by exists b]].
    intros fs' Hin. destruct (Htr _ Hin _ Hpath) as [->|(_ & _ & ->)]; auto.
  - rewrite Hfin. split; [|done]. intros fs' Hin. destruct (Htr _ Hin _ Hpath) as [->|([=] & _)]. by left.
Qed.

(** C29: evidence is a numbered history of the last thousand facts.  An append
    either adds its entry, under the number after the last one and with the
    time it was checked, drops the oldest beyond a thousand and leaves a file
    that opens as exactly these entries, or changes neither the history nor
    its file; at every moment of it the file is the old one or the new one.
    Numbers stay consecutive and entries keep their order.  (Texts that are
    not valid UTF-8 would be altered by the encoding.) *)
Theorem evidence_is_a_numbered_history `{!EntryLaws} s e fs now entry :
  w_temp e ≠ ev_path s → consecutive (ev_entries s) → Forall plain_entry (ev_entries s) → plain_entry entry →
  let '(r, s', trace) := Append s e fs now entry in
  let checked_at := if en_CheckedAt entry =? 0 then now else en_CheckedAt entry in
  match r with
  | Ok _ => (∃ dropped, (dropped ++ ev_entries s' = ev_entries s ++ [with_sequence (next_sequence (ev_entries s)) checked_at entry])%list)
      ∧ length (ev_entries s') = Nat.min max_entries (S (length (ev_entries s)))
      ∧ Open (ev_path s) true (final fs trace) = Ok s' ∧ oversized entry = false
      ∧ consecutive (ev_entries s') ∧ Forall plain_entry (ev_entries s')
  | Err _ => s' = s ∧ final fs trace !! ev_path s = fs !! ev_path s
  end
  ∧ ∀ fs', fs' ∈ trace → fs' !! ev_path s = fs !! ev_path s ∨ fs' !! ev_path s = final fs trace !! ev_path s.
Proof.
  intros Hne Hcon Hplain Hentry. pose proof (Append_cases s e fs now entry Hne) as Hc.
  destruct (Append s e fs now entry) as [[r s'] trace]. destruct Hc as [Htr Hr]. cbv zeta. split; [|done].
  destruct r as [[]|err]; [|done]. destruct Hr as (Hov & Hs' & b & Hm & Hb & Hfin).
  destruct (appended_spec now entry (ev_entries s)) as (Hd & Hlen & Hc & Hp). specialize (Hc Hcon). specialize (Hp Hplain Hentry).
  subst s'. cbn [ev_entries] in *. split_and!; [done|done| |done|done|done].
  unfold Open. rewrite Hfin. cbn [negb]. destruct (Z.ltb_spec max_evidence (blen b)); [lia|]. rewrite (entries_roundtrip _ _ Hm Hp).
  destruct (Nat.ltb_spec max_entries (length (appended now entry (ev_entries s)))); [lia|done].
Qed.

End Store.

(** ** A history of two checks *)

Definition check_entry (kind : string) : Entry :=
  {| en_Binding := ""; en_Sequence := 0; en_Revision := 3; en_Kind := kind; en_Resource := "work"; en_Model := ""; en_Protocol := "chat";
     en_CheckedAt := 0; en_Method := "probe"; en_Status := "ok"; en_UpstreamStatus := 200; en_ProtocolComplete := true;
     en_OutputObserved := true; en_Count := 0 |}.
Definition checked_once : list Entry := [with_sequence 1 5 (check_entry "login")].
Definition checked_twice : list Entry := [with_sequence 1 5 (check_entry "login"); with_sequence 2 9 (check_entry "session")].

#[local] Instance entry_eq_dec : EqDecision Entry.
Proof. solve_decision. Defined.
#[local] Instance two_entries : EntryCodec := {
  marshal_entries l := if decide (l = checked_twice) then Some (lit "2") else None;
  decode_entries b := if decide (b = lit "2") then Some checked_twice else None }.
#[local] Instance two_entries_laws : EntryLaws.
Proof. intros l b. cbn [marshal_entries decode_entries two_entries]. case_decide; [|done]. intros [= <-] _. by subst. Qed.

Definition write_ok : write_env :=
  {| w_temp := ".evidence-1"; w_mkdir := true; w_create := true; w_chmod := true; w_copy := true; w_partial := 0; w_sync := true;
     w_close := true; w_rename := true |}.

Lemma evidence_is_a_numbered_history_witness :
  let '(r, s', trace) := Append {| ev_path := "e"; ev_entries := checked_once |} write_ok ∅ 9 (check_entry "session") in
  is_ok r = true ∧ Open "e" true (final ∅ trace) = Ok s' ∧ map en_Sequence (ev_entries s') = [1; 2].
Proof.
  pose proof (evidence_is_a_numbered_history {| ev_path := "e"; ev_entries := checked_once |} write_ok ∅ 9 (check_entry "session")) as H.
  assert (Hok : is_ok (fst (fst (Append {| ev_path := "e"; ev_entries := checked_once |} write_ok ∅ 9 (check_entry "session")))) = true) by (vm_compute; reflexivity).
  assert (Hseq : map en_Sequence (ev_entries (snd (fst (Append {| ev_path := "e"; ev_entries := checked_once |} write_ok ∅ 9 (check_entry "session"))))) = [1; 2])
    by (vm_compute; reflexivity).
  destruct (Append _ _ _ _ _) as [[r s'] trace]. cbn [fst snd] in Hok, Hseq. split; [exact Hok|]. split; [|exact Hseq].
  destruct H as [H _]; [discriminate|exact I|repeat constructor|repeat constructor|]. destruct r; [|discriminate]. apply H.
Defined.
