(* ===== verification/Jobs.v ===== *)
(** * Management jobs ([internal/api/jobs.go], and the direct operations of
    [control.go])

    Long administrative operations, run as jobs or while their request waits:
    which of them may run at once, what a job records while it runs, and the
    state it ends in.  Jobs are shared by pointer; each function below is one
    critical section of the mutex. *)

From S2P Require Import Prelude ConfigData Json GoText GoNet ConfigAccounts Service Vault.
Local Open Scope string_scope.
Local Open Scope Z_scope.

Definition maxManagementJobs : nat := 128.
Definition maxManagementActive : nat := 4.

Record managementJobEvent := { je_Sequence : Z; je_Stage : string; je_At : Z }.

(** [j_live]: the function that cancels its context is still there. *)
Record managementJob := {
  j_ID : string; j_Path : string; j_State : string; j_Revision : Z; j_CreatedAt : Z; j_FinishedAt : Z; j_Status : Z;
  j_Result : option bytes; j_Events : list managementJobEvent; j_Stage : string; j_live : bool; j_resource : string }.

Record managementJobs := {
  mj_jobs : gmap nat managementJob; mj_items : list nat; mj_closed : bool; mj_resources : gset string; mj_next : nat }.

Definition no_jobs : managementJobs := {| mj_jobs := ∅; mj_items := []; mj_closed := false; mj_resources := ∅; mj_next := 0 |}.

(** ** Which operations are long, and what they share *)

Definition trim_slashes (l : bytes) : bytes :=
  let fix drop_slashes (l : bytes) : bytes := match l with c :: l' => if Ascii.eqb c "/" then drop_slashes l' else l | [] => [] end in
  rev (drop_slashes (rev (drop_slashes l))).
Definition path_parts (path : string) : list string := map str (split_on "/" (trim_slashes (lit path))).

Definition account_operations : list string :=
  ["verify-login"; "fill-login"; "verify"; "validate"; "check-login"; "login"; "acquire-session"].
Definition other_operations : list string :=
  ["/admin/device/check"; "/admin/discovery/accounts"; "/admin/browser_profiles/status"; "/admin/browser_profiles/discover";
   "/admin/browser_profiles/setup-login"; "/admin/credentials/import-browser"].

Definition managementOperation (path : string) : bool :=
  let other := contains other_operations path in
  match path_parts path with
  | [a; kind; _; operation] =>
      if negb (a =s "admin") then other
      else if kind =s "sources" then (operation =s "validate") || (operation =s "discover")
      else if kind =s "accounts" then contains account_operations operation
      else if kind =s "providers" then operation =s "validate"
      else if kind =s "credentials" then (operation =s "check") || (operation =s "refresh")
      else other
  | _ => other
  end.

(** The profile the body of a browser operation names: its identifier, or an
    object with one. *)
Definition body_profile (body : bytes) : option string :=
  v ← parse_json body;
  raw ← decode_struct ["profile"] (λ _ _ x, Some (Some x)) v None;
  profile ← raw;
  let not_empty (id : string) := if id =s "" then None else Some id in
  match decode_string profile "" ≫= not_empty with
  | Some id => Some id
  | None => decode_struct ["id"] (λ id _ x, decode_string x id) profile "" ≫= not_empty
  end.

Definition account_resource (c : Config) (accountID : string) : string :=
  match list_find (λ a, a_ID a = accountID ∧ a_BrowserProfileID a ≠ "") (c_Accounts c) with
  | Some (_, a) => "profile:" ++ a_BrowserProfileID a
  | None => "account:" ++ accountID
  end.

Definition target_resource (c : Config) (path sourceID accountID : string) : string :=
  match list_find (λ s, s_ID s = sourceID) (c_Sources c) with
  | Some (_, s) =>
      if s_Adapter s =s "app-device" then "device"
      else if negb (s_AccountID s =s "") then account_resource c (s_AccountID s)
      else if negb (sourceID =s "") then "source:" ++ sourceID else path
  | None =>
      if negb (accountID =s "") then account_resource c accountID
      else if negb (sourceID =s "") then "source:" ++ sourceID else path
  end.

Definition provider_target (c : Config) (provider : string) : string * string :=
  let sourceID := match list_find (λ s, s_Provider s = provider) (c_Sources c) with Some (_, s) => s_ID s | None => "" end in
  if negb (sourceID =s "") then (sourceID, "")
  else ("", match list_find (λ a, a_ProviderID a = provider) (c_Accounts c) with Some (_, a) => a_ID a | None => "" end).

Definition operationResource (c : Config) (path : string) (body : bytes) : string :=
  let browser := (path =s "/admin/credentials/import-browser") || (path =s "/admin/browser_profiles/setup-login") in
  match (if browser then body_profile body else None) with
  | Some id => "profile:" ++ id
  | None =>
      match path_parts path with
      | [_; kind; id; _] =>
          if kind =s "credentials" then "credential:" ++ id
          else if kind =s "sources" then target_resource c path id ""
          else if kind =s "accounts" then target_resource c path "" id
          else if kind =s "providers" then let '(sourceID, accountID) := provider_target c id in target_resource c path sourceID accountID
          else target_resource c path "" ""
      | _ => path
      end
  end.

(** ** Jobs *)

Definition running (j : managementJob) : bool := j_State j =s "running".
Definition is_running (s : managementJobs) (p : nat) : bool := match mj_jobs s !! p with Some j => running j | None => false end.

(** The items without the first that does not run. *)
Fixpoint drop_finished (s : managementJobs) (items : list nat) : list nat :=
  match items with
  | [] => []
  | p :: items => if is_running s p then p :: drop_finished s items else items
  end.

Definition new_job (now : Z) (id path : string) (revision : Z) (resource : string) : managementJob :=
  {| j_ID := id; j_Path := path; j_State := "running"; j_Revision := revision; j_CreatedAt := now; j_FinishedAt := 0; j_Status := 0;
     j_Result := None; j_Events := [{| je_Sequence := 1; je_Stage := "accepted"; je_At := now |}]; j_Stage := "accepted";
     j_live := true; j_resource := resource |}.

(** The section of [jobsAdmin] that accepts a job, or the status it is refused
    with. *)
Definition submit (s : managementJobs) (now : Z) (id path : string) (revision : Z) (resource : string) : res Z nat * managementJobs :=
  if bool_decide (resource ∈ mj_resources s) then (Err 409, s)
  else if mj_closed s || (maxManagementActive <=? size (mj_resources s))%nat then (Err 503, s)
  else
    let p := mj_next s in
    let items := if (maxManagementJobs <=? length (mj_items s))%nat then drop_finished s (mj_items s) else mj_items s in
    (Ok p, {| mj_jobs := <[p := new_job now id path revision resource]> (mj_jobs s); mj_items := (items ++ [p])%list;
       mj_closed := mj_closed s; mj_resources := {[resource]} ∪ mj_resources s; mj_next := S p |}).

(** A long operation outside the jobs ([ControlPlane.ServeHTTP]). *)
Definition with_resources (r : gset string) (s : managementJobs) : managementJobs :=
  {| mj_jobs := mj_jobs s; mj_items := mj_items s; mj_closed := mj_closed s; mj_resources := r; mj_next := mj_next s |}.
Definition reserve_direct (s : managementJobs) (resource : string) : bool * managementJobs :=
  if mj_closed s || bool_decide (resource ∈ mj_resources s) || (maxManagementActive <=? size (mj_resources s))%nat then (false, s)
  else (true, with_resources ({[resource]} ∪ mj_resources s) s).
Definition release_direct (s : managementJobs) (resource : string) : managementJobs :=
  with_resources (mj_resources s ∖ {[resource]}) s.

Definition upd_job (p : nat) (f : managementJob → managementJob) (s : managementJobs) : managementJobs :=
  {| mj_jobs := alter f p (mj_jobs s); mj_items := mj_items s; mj_closed := mj_closed s; mj_resources := mj_resources s; mj_next := mj_next s |}.

Definition add_event (now : Z) (stage : string) (events : list managementJobEvent) : list managementJobEvent :=
  (events ++ [{| je_Sequence := Z.of_nat (length events) + 1; je_Stage := stage; je_At := now |}])%list.

(** [outcome.progress] *)
Definition progress_job (now : Z) (stage : string) (j : managementJob) : managementJob :=
  {| j_ID := j_ID j; j_Path := j_Path j; j_State := j_State j; j_Revision := j_Revision j; j_CreatedAt := j_CreatedAt j;
     j_FinishedAt := j_FinishedAt j; j_Status := j_Status j; j_Result := j_Result j;
     j_Events := if (length (j_Events j) <? 15)%nat then add_event now stage (j_Events j) else j_Events j;
     j_Stage := stage; j_live := j_live j; j_resource := j_resource j |}.
Definition progress (s : managementJobs) (p : nat) (now : Z) (stage : string) : managementJobs := upd_job p (progress_job now stage) s.

Definition close_jobs (s : managementJobs) : managementJobs :=
  {| mj_jobs := mj_jobs s; mj_items := mj_items s; mj_closed := true; mj_resources := mj_resources s; mj_next := mj_next s |}.

(** ** The end of a job *)

(** The response of the operation, kept up to a megabyte. *)
Record jobResponse := { jr_status : Z; jr_body : bytes; jr_overflow : bool }.
Definition job_WriteHeader (status : Z) (r : jobResponse) : jobResponse :=
  {| jr_status := if jr_status r =? 0 then status else jr_status r; jr_body := jr_body r; jr_overflow := jr_overflow r |}.
Definition job_Write (b : bytes) (r : jobResponse) : jobResponse :=
  let status := if jr_status r =? 0 then 200 else jr_status r in
  if 2 ^ 20 <? blen (jr_body r) + blen b then {| jr_status := status; jr_body := jr_body r; jr_overflow := true |}
  else {| jr_status := status; jr_body := (jr_body r ++ b)%list; jr_overflow := jr_overflow r |}.

(** [operationVersion]: the revision of the configuration and the digest of the
    vault's metadata. *)
Record operationVersion := { ov_revision : Z; ov_vault : bytes }.
#[export] Instance operationVersion_eq_dec : EqDecision operationVersion.
Proof. solve_decision. Defined.

Inductive context_error := DeadlineExceeded | ContextCanceled.

(** What the deferred function sees: whether the operation panicked, its
    response, the state of its context, the version it committed, the versions
    at its start and now, and the vault's list. *)
Record ending := {
  ed_panicked : bool; ed_out : jobResponse; ed_context : option context_error; ed_committed : option operationVersion;
  ed_version : operationVersion; ed_current : operationVersion; ed_vault : list Metadata }.

Definition committed (e : ending) : bool := bool_decide (is_Some (ed_committed e)) && (jr_status (ed_out e) <? 400).
Definition final_version (e : ending) : operationVersion :=
  if committed e then default (ed_version e) (ed_committed e) else ed_version e.

(** A number decoded into a [uint64]. *)
Definition decode_uint64 (v : json) (old : Z) : option Z :=
  match v with
  | JNull => Some old
  | JNum raw => if forallb is_digit raw && (digits_value raw <? two64) then Some (digits_value raw) else None
  | _ => None
  end.

Definition refresh_result (body : bytes) : option (string * Z) :=
  v ← parse_json body;
  decode_struct ["id"; "version"] (λ '(id, version) n x,
    if (n =? "id")%string then s ← decode_string x id; Some (s, version)
    else n ← decode_uint64 x version; Some (id, n)) v ("", 0).

(** The operation replaced a credential itself, which changed the version. *)
Definition ownRefresh (path : string) (e : ending) : bool :=
  ((has_prefix path "/admin/credentials/" && has_suffix path "/refresh") || (path =s "/admin/credentials/import-browser"))
  && (jr_status (ed_out e) =? 200) && (ov_revision (ed_current e) =? ov_revision (final_version e))
  && match refresh_result (jr_body (ed_out e)) with
     | Some (id, version) => existsb (λ m, (md_ID m =s id) && (md_Version m =? version)) (ed_vault e)
     | None => false
     end.

Definition final_state (path : string) (e : ending) : string * Z :=
  let status := jr_status (ed_out e) in
  if ed_panicked e || jr_overflow (ed_out e) then ("failed", 500)
  else
    match (if committed e then None else ed_context e) with
    | Some DeadlineExceeded => ("timed_out", status)
    | Some ContextCanceled => ("canceled", status)
    | None =>
        if bool_decide (ed_current e ≠ final_version e) && negb (ownRefresh path e) then ("stale", status)
        else if 400 <=? status then ("failed", status) else ("completed", status)
    end.

Definition finish_job (now : Z) (e : ending) (j : managementJob) : managementJob :=
  let '(state, status) := final_state (j_Path j) e in
  let whole := negb (ed_panicked e) && negb (jr_overflow (ed_out e)) in
  {| j_ID := j_ID j; j_Path := j_Path j; j_State := state; j_Revision := j_Revision j; j_CreatedAt := j_CreatedAt j;
     j_FinishedAt := now; j_Status := status;
     j_Result := if ((state =s "completed") || ((state =s "failed") && whole)) && Valid (jr_body (ed_out e))
       then Some (jr_body (ed_out e)) else j_Result j;
     j_Events := add_event now state (j_Events j); j_Stage := state; j_live := false; j_resource := j_resource j |}.

(** The deferred section of [runManagementJob]. *)
Definition finish (s : managementJobs) (p : nat) (now : Z) (e : ending) : managementJobs :=
  match mj_jobs s !! p with
  | Some j => upd_job p (finish_job now e) (with_resources (mj_resources s ∖ {[j_resource j]}) s)
  | None => s
  end.

(** ** Everything at once *)

(** What runs: a job, or a direct operation. *)
Inductive task := JobTask (p : nat) | DirectTask (resource : string).

Record office := { of_jobs : managementJobs; of_tasks : list task }.

Inductive job_step (o : office) : office → Prop :=
| step_submit now id path revision resource p s :
    submit (of_jobs o) now id path revision resource = (Ok p, s) →
    job_step o {| of_jobs := s; of_tasks := of_tasks o ++ [JobTask p] |}
| step_reserve resource s :
    reserve_direct (of_jobs o) resource = (true, s) →
    job_step o {| of_jobs := s; of_tasks := of_tasks o ++ [DirectTask resource] |}
| step_progress i p now stage :
    of_tasks o !! i = Some (JobTask p) →
    job_step o {| of_jobs := progress (of_jobs o) p now stage; of_tasks := of_tasks o |}
| step_finish i p now e :
    of_tasks o !! i = Some (JobTask p) →
    job_step o {| of_jobs := finish (of_jobs o) p now e; of_tasks := delete i (of_tasks o) |}
| step_release i resource :
    of_tasks o !! i = Some (DirectTask resource) →
    job_step o {| of_jobs := release_direct (of_jobs o) resource; of_tasks := delete i (of_tasks o) |}
| step_close : job_step o {| of_jobs := close_jobs (of_jobs o); of_tasks := of_tasks o |}.

Definition idle_office : office := {| of_jobs := no_jobs; of_tasks := [] |}.

Example job_paths :
  map managementOperation ["/admin/accounts/work/login"; "admin/sources/a/discover/"; "/admin/sources/a/delete"; "/admin/device/check"]
  = [true; true; false; true].
Proof. vm_compute. reflexivity. Qed.
