(* ===== verification/JobsFacts.v ===== *)
(** * Jobs exclude each other and end once *)

From S2P Require Import Prelude ConfigData Json GoText Service Vault Jobs.
Local Open Scope string_scope.
Local Open Scope Z_scope.

Definition task_resource (s : managementJobs) (t : task) : option string :=
  match t with JobTask p => j_resource <$> mj_jobs s !! p | DirectTask r => Some r end.

Definition final_states : list string := ["completed"; "failed"; "timed_out"; "canceled"; "stale"].

(** The events are numbered from one; a job that runs can be canceled and has
    room for its last event, and one that ended says how. *)
Record job_ok (j : managementJob) : Prop := {
  jo_numbers : ∀ i e, j_Events j !! i = Some e → je_Sequence e = Z.of_nat i + 1;
  jo_length : (1 ≤ length (j_Events j) ≤ 16)%nat;
  jo_running : running j = true → (length (j_Events j) ≤ 15)%nat ∧ j_live j = true;
  jo_ended : running j = false → j_State j ∈ final_states ∧ j_live j = false ∧ j_Stage j = j_State j
    ∧ je_Stage <$> last (j_Events j) = Some (j_State j) }.

Record office_ok (o : office) : Prop := {
  oo_resources : ∃ rs, Forall2 (λ t r, task_resource (of_jobs o) t = Some r) (of_tasks o) rs ∧ NoDup rs ∧ mj_resources (of_jobs o) = list_to_set rs;
  oo_active : (size (mj_resources (of_jobs o)) ≤ maxManagementActive)%nat;
  oo_running : ∀ p, is_running (of_jobs o) p = true ↔ JobTask p ∈ of_tasks o;
  oo_items : NoDup (mj_items (of_jobs o)) ∧ (length (mj_items (of_jobs o)) ≤ maxManagementJobs)%nat;
  oo_listed : ∀ p, is_running (of_jobs o) p = true → p ∈ mj_items (of_jobs o);
  oo_fresh : ∀ p, (mj_next (of_jobs o) ≤ p)%nat → mj_jobs (of_jobs o) !! p = None;
  oo_known : ∀ p, p ∈ mj_items (of_jobs o) → is_Some (mj_jobs (of_jobs o) !! p);
  oo_jobs : ∀ p j, mj_jobs (of_jobs o) !! p = Some j → job_ok j }.

Lemma tasks_active o : office_ok o → (length (of_tasks o) ≤ maxManagementActive)%nat.
Proof.
  intros H. destruct (oo_resources _ H) as (rs & Hf & Hnd & E). pose proof (oo_active _ H) as Ha.
  rewrite E, size_list_to_set in Ha by done. by rewrite (Forall2_length _ _ _ Hf).
Qed.

(** Two tasks at different places hold different resources. *)
Lemma tasks_apart o i j r : office_ok o →
  (of_tasks o !! i ≫= task_resource (of_jobs o)) = Some r → (of_tasks o !! j ≫= task_resource (of_jobs o)) = Some r → i = j.
Proof.
  intros H. destruct (oo_resources _ H) as (rs & Hf & Hnd & _).
  intros (t1 & H1 & R1)%bind_Some (t2 & H2 & R2)%bind_Some.
  destruct (Forall2_lookup_l _ _ _ _ _ Hf H1) as (r1 & E1 & Hr1). destruct (Forall2_lookup_l _ _ _ _ _ Hf H2) as (r2 & E2 & Hr2).
  assert (r1 = r) as -> by congruence. assert (r2 = r) as -> by congruence. by eapply NoDup_lookup.
Qed.

Lemma tasks_nodup o : office_ok o → NoDup (of_tasks o).
Proof.
  intros H. apply NoDup_alt. intros i j t Hi Hj. destruct (oo_resources _ H) as (rs & Hf & _).
  destruct (Forall2_lookup_l _ _ _ _ _ Hf Hi) as (r & _ & Hr). apply (tasks_apart o i j r H); by rewrite ?Hi, ?Hj.
Qed.

(** ** One job *)

Lemma add_event_ok now stage events :
  (∀ i e, events !! i = Some e → je_Sequence e = Z.of_nat i + 1) →
  (∀ i e, add_event now stage events !! i = Some e → je_Sequence e = Z.of_nat i + 1)
  ∧ length (add_event now stage events) = S (length events) ∧ je_Stage <$> last (add_event now stage events) = Some stage.
Proof.
  intros He. unfold add_event. split_and!.
  - intros i e [Hi|[Hi Hx]]%lookup_app_Some; [by apply He|]. apply list_lookup_singleton_Some in Hx as [Hx <-]. simpl. lia.
  - rewrite length_app. simpl. lia.
  - by rewrite last_snoc.
Qed.

Lemma new_job_ok now id path revision resource : job_ok (new_job now id path revision resource).
Proof.
  split; simpl; [|lia|by split; [lia|]|by intros [=]]. intros [|i] e; simpl; [intros [= <-]; done|]. by rewrite lookup_nil.
Qed.

Lemma progress_job_ok now stage j : running j = true → job_ok j → job_ok (progress_job now stage j).
Proof.
  intros Hr [Hn Hl Hrun _]. destruct (Hrun Hr) as [Hlen Hlive]. destruct (add_event_ok now stage (j_Events j) Hn) as (Ha & Hb & _).
  split; cbn [progress_job j_Events j_live]; [| |intros _|intros Hx; change (running j = false) in Hx; congruence].
  all: destruct (Nat.ltb_spec (length (j_Events j)) 15); [rewrite ?Hb|]; try done; try lia.
Qed.

Lemma final_state_in path e : fst (final_state path e) ∈ final_states.
Proof.
  unfold final_state, final_states. destruct (_ || _); [simpl; set_solver|].
  destruct (if committed e then None else ed_context e) as [[]|]; [simpl; set_solver..|].
  destruct (_ && _); [simpl; set_solver|]. destruct (_ <=? _); simpl; set_solver.
Qed.

Lemma final_not_running s : s ∈ final_states → (s =s "running") = false.
Proof. unfold final_states. rewrite !elem_of_cons. intros [->|[->|[->|[->|[->|[]%not_elem_of_nil]]]]]; done. Qed.

Lemma finish_job_ok now e j : running j = true → job_ok j → job_ok (finish_job now e j) ∧ running (finish_job now e j) = false.
Proof.
  intros Hr [Hn Hl Hrun _]. destruct (Hrun Hr) as [Hlen _]. unfold finish_job. pose proof (final_state_in (j_Path j) e) as Hin.
  destruct (final_state (j_Path j) e) as [state status]. simpl in Hin. destruct (add_event_ok now state (j_Events j) Hn) as (Ha & Hb & Hc).
  assert (Hnr : (state =s "running") = false) by (by apply final_not_running). split; [|exact Hnr].
  split; cbn [j_Events j_State j_Stage j_live]; [done|rewrite Hb; lia|unfold running; cbn [j_State]; congruence|done].
Qed.

(** ** The list *)

Lemma drop_finished_sublist s items : drop_finished s items `sublist_of` items.
Proof. induction items as [|p items IH]; simpl; [done|]. destruct (is_running s p); [by apply sublist_skip|]. by apply sublist_cons. Qed.

Lemma drop_finished_keeps s items p : p ∈ items → is_running s p = true → p ∈ drop_finished s items.
Proof.
  induction items as [|q items IH]; [done|]. intros Hin Hp. simpl. destruct (is_running s q) eqn:Hq.
  - apply elem_of_cons in Hin as [->|Hin]; [by left|right; auto].
  - apply elem_of_cons in Hin as [->|Hin]; [congruence|done].
Qed.

Lemma drop_finished_length s items : (∃ p, p ∈ items ∧ is_running s p = false) → S (length (drop_finished s items)) = length items.
Proof.
  induction items as [|q items IH]; [intros (p & []%not_elem_of_nil & _)|]. intros (p & Hin & Hp). simpl. destruct (is_running s q) eqn:Hq; [|done].
  simpl. f_equal. apply IH. exists p. split; [|done]. apply elem_of_cons in Hin as [->|Hin]; [congruence|done].
Qed.

(** A full list holds a job that has ended. *)
Lemma finished_exists o : office_ok o → (maxManagementJobs ≤ length (mj_items (of_jobs o)))%nat →
  ∃ p, p ∈ mj_items (of_jobs o) ∧ is_running (of_jobs o) p = false.
Proof.
  intros H Hlen. destruct (decide (Exists (λ p, is_running (of_jobs o) p = false) (mj_items (of_jobs o)))) as [Hex|Hno]; [by apply Exists_exists in Hex|].
  exfalso. apply not_Exists_Forall in Hno; [|solve_decision]. pose proof (tasks_active o H) as Ha. destruct (oo_items _ H) as [Hnd _].
  assert (Hsub : (JobTask <$> mj_items (of_jobs o)) ⊆+ of_tasks o).
  { apply NoDup_submseteq; [apply NoDup_fmap_2; [by intros ? ? [=]|done]|]. intros t (p & -> & Hp)%list_elem_of_fmap. apply (oo_running _ H).
    rewrite Forall_forall in Hno. specialize (Hno p Hp). simpl in Hno. by destruct (is_running _ p). }
  apply submseteq_length in Hsub. rewrite length_fmap in Hsub. unfold maxManagementJobs, maxManagementActive in *. lia.
Qed.

(** ** Steps *)

Lemma resources_kept s s' ts rs :
  (∀ p j, mj_jobs s !! p = Some j → ∃ j', mj_jobs s' !! p = Some j' ∧ j_resource j' = j_resource j) →
  Forall2 (λ t r, task_resource s t = Some r) ts rs → Forall2 (λ t r, task_resource s' t = Some r) ts rs.
Proof.
  intros H Hf. eapply Forall2_impl; [exact Hf|]. intros [p|r0] r; simpl; [|done]. intros (j & Hj & ->)%fmap_Some. destruct (H p j Hj) as (j' & -> & Ej). simpl. by rewrite Ej.
Qed.

(** The resources without those of one task. *)
Lemma resources_removed rs i r : NoDup rs → rs !! i = Some r → (list_to_set (delete i rs) : gset string) = list_to_set rs ∖ {[r]} ∧ NoDup (delete i rs).
Proof.
  intros Hnd Hi. pose proof (delete_Permutation _ _ _ Hi) as Hp. rewrite Hp in Hnd. apply NoDup_cons in Hnd as [Hr Hnd]. split; [|done].
  rewrite (list_to_set_perm_L _ _ Hp). simpl. rewrite <-(elem_of_list_to_set (C:=gset string)) in Hr. set_solver.
Qed.

Lemma resources_added rs r (s : gset string) : NoDup rs → s = list_to_set rs → r ∉ s → NoDup (rs ++ [r]) ∧ {[r]} ∪ s = list_to_set (rs ++ [r]) ∧ size ({[r]} ∪ s) = S (size s).
Proof.
  intros Hnd -> Hr. split_and!.
  - apply NoDup_app. split_and!; [done| |apply NoDup_singleton]. intros x Hx ->%list_elem_of_singleton. apply Hr. by apply elem_of_list_to_set.
  - rewrite list_to_set_app_L. simpl. set_solver.
  - rewrite size_union, size_singleton by set_solver. lia.
Qed.

Lemma is_running_lookup s p : is_running s p = true ↔ ∃ j, mj_jobs s !! p = Some j ∧ running j = true.
Proof. unfold is_running. destruct (mj_jobs s !! p); naive_solver. Qed.

Lemma submit_ok o now id path revision resource p s :
  office_ok o → submit (of_jobs o) now id path revision resource = (Ok p, s) → office_ok {| of_jobs := s; of_tasks := of_tasks o ++ [JobTask p] |}.
Proof.
  intros H. unfold submit. case_bool_decide as Hres; [done|]. destruct (_ || _) eqn:Hcap; [done|]. apply orb_false_iff in Hcap as [_ Hsize].
  apply Nat.leb_gt in Hsize. cbv zeta.
  set (items := if (maxManagementJobs <=? length (mj_items (of_jobs o)))%nat then drop_finished (of_jobs o) (mj_items (of_jobs o)) else mj_items (of_jobs o)). set (q := mj_next (of_jobs o)). intros [= <- <-].
  assert (Hq : mj_jobs (of_jobs o) !! q = None) by (by apply (oo_fresh _ H)).
  assert (Hold : ∀ p, is_Some (mj_jobs (of_jobs o) !! p) → p ≠ q) by (intros p Hp ->; rewrite Hq in Hp; by destruct Hp).
  assert (Hsub : items `sublist_of` mj_items (of_jobs o)) by (unfold items; destruct (Nat.leb _ _); [apply drop_finished_sublist|done]).
  assert (Hlen : (length items < maxManagementJobs)%nat).
  { unfold items. destruct (Nat.leb_spec maxManagementJobs (length (mj_items (of_jobs o)))) as [Hle|]; [|done].
    pose proof (drop_finished_length _ _ (finished_exists o H Hle)). destruct (oo_items _ H). lia. }
  assert (Hrun : ∀ s p, mj_jobs s = <[q := new_job now id path revision resource]> (mj_jobs (of_jobs o)) →
    is_running s p = true ↔ p = q ∨ is_running (of_jobs o) p = true).
  { intros s p E. unfold is_running. rewrite E. destruct (decide (p = q)) as [->|Hne]; [rewrite lookup_insert_eq; naive_solver|].
    rewrite lookup_insert_ne by done. naive_solver. }
  destruct (oo_resources _ H) as (rs & Hf & Hnd & E). destruct (resources_added rs resource _ Hnd E Hres) as (Hnd' & E' & Hsz).
  split; cbn [of_jobs of_tasks].
  - exists (rs ++ [resource])%list. split_and!; [|done|done]. apply Forall2_app; [|repeat constructor; simpl; by rewrite lookup_insert_eq].
    eapply resources_kept; [|exact Hf]. intros p j Hj. exists j. simpl. rewrite lookup_insert_ne; [done|]. intros <-. by apply (Hold q); [by exists j|].
  - simpl. rewrite Hsz. lia.
  - intros p. rewrite Hrun by done. rewrite elem_of_app, list_elem_of_singleton, (oo_running _ H). naive_solver.
  - cbn [mj_items]. split; [|rewrite length_app; cbn [length]; lia]. apply NoDup_app. split_and!; [by eapply sublist_NoDup; [|exact Hsub]; apply (oo_items _ H)| |apply NoDup_singleton].
    intros p Hp ->%list_elem_of_singleton. apply (Hold q); [|done]. apply (oo_known _ H). by eapply elem_of_sublist.
  - intros p. rewrite Hrun by done. cbn [mj_items]. rewrite elem_of_app, list_elem_of_singleton. intros [->|Hp]; [by right|left].
    pose proof (oo_listed _ H p Hp) as Hin. unfold items. destruct (Nat.leb _ _); [by apply drop_finished_keeps|done].
  - cbn [mj_next mj_jobs]. intros p Hp. rewrite lookup_insert_ne by lia. apply (oo_fresh _ H). lia.
  - cbn [mj_items mj_jobs]. intros p [Hp| ->%list_elem_of_singleton]%elem_of_app; [|rewrite lookup_insert_eq; by eexists].
    rewrite lookup_insert_is_Some'. right. apply (oo_known _ H). by eapply elem_of_sublist.
  - cbn [mj_jobs]. intros p j [[<- <-]|[_ Hj]]%lookup_insert_Some; [apply new_job_ok|by apply (oo_jobs _ H p)].
Qed.

Lemma reserve_ok o resource s :
  office_ok o → reserve_direct (of_jobs o) resource = (true, s) → office_ok {| of_jobs := s; of_tasks := of_tasks o ++ [DirectTask resource] |}.
Proof.
  intros H. unfold reserve_direct. destruct (_ || _) eqn:Hcap; [done|]. apply orb_false_iff in Hcap as [Hcap Hsize].
  apply orb_false_iff in Hcap as [_ Hres]. apply bool_decide_eq_false in Hres. apply Nat.leb_gt in Hsize. intros [= <-].
  destruct (oo_resources _ H) as (rs & Hf & Hnd & E). destruct (resources_added rs resource _ Hnd E Hres) as (Hnd' & E' & Hsz).
  destruct H as [_ _ H3 H4 H5 H6 H7 H8]. split; cbn [of_jobs of_tasks with_resources mj_items mj_jobs mj_next mj_resources]; try done.
  - exists (rs ++ [resource])%list. split_and!; [|done|done]. apply Forall2_app; [exact Hf|by repeat constructor].
  - rewrite Hsz. lia.
  - intros p. change (is_running (of_jobs o) p = true ↔ JobTask p ∈ (of_tasks o ++ [DirectTask resource])%list). rewrite H3, elem_of_app, list_elem_of_singleton. naive_solver.
Qed.

(** One running job is replaced by another state of it that still runs. *)
Lemma progress_ok o i p now stage :
  office_ok o → of_tasks o !! i = Some (JobTask p) → office_ok {| of_jobs := progress (of_jobs o) p now stage; of_tasks := of_tasks o |}.
Proof.
  intros H Hi. apply list_elem_of_lookup_2, (oo_running _ H), is_running_lookup in Hi as (j & Hj & Hr).
  assert (Hlook : ∀ p', mj_jobs (progress (of_jobs o) p now stage) !! p' = (if decide (p = p') then progress_job now stage else id) <$> mj_jobs (of_jobs o) !! p').
  { intros p'. unfold progress, upd_job. simpl. rewrite lookup_alter. destruct (decide (p = p')) as [<-|]; [done|]. by destruct (mj_jobs (of_jobs o) !! p'). }
  assert (Hrun : ∀ p', is_running (progress (of_jobs o) p now stage) p' = is_running (of_jobs o) p').
  { intros p'. unfold is_running. rewrite Hlook. destruct (mj_jobs (of_jobs o) !! p'); [|done]. simpl. by destruct (decide (p = p')). }
  destruct H as [H1 H2 H3 H4 H5 H6 H7 H8]. split; cbn [of_jobs of_tasks]; try done.
  - destruct H1 as (rs & Hf & Hnd & E). exists rs. split_and!; [|done|done]. eapply resources_kept; [|exact Hf]. intros p' j' Hj'.
    rewrite Hlook, Hj'. eexists. split; [done|]. by destruct (decide (p = p')).
  - intros p'. by rewrite Hrun.
  - intros p'. rewrite Hrun. apply H5.
  - intros p' Hp'. rewrite Hlook, H6 by done. done.
  - intros p' Hp'. rewrite Hlook, fmap_is_Some. by apply H7.
  - intros p' j'. rewrite Hlook. intros (j0 & Hj0 & ->)%fmap_Some. destruct (decide (p = p')) as [<-|]; [|by apply (H8 p')].
    rewrite Hj in Hj0. injection Hj0 as <-. apply progress_job_ok; [done|by apply (H8 p)].
Qed.

(** The task at [i] gives its resource back. *)
Lemma removed_resources o i t r : office_ok o → of_tasks o !! i = Some t → task_resource (of_jobs o) t = Some r →
  ∃ rs, Forall2 (λ t r, task_resource (of_jobs o) t = Some r) (delete i (of_tasks o)) rs ∧ NoDup rs
    ∧ mj_resources (of_jobs o) ∖ {[r]} = list_to_set rs.
Proof.
  intros H Hi Ht. destruct (oo_resources _ H) as (rs & Hf & Hnd & E). destruct (Forall2_lookup_l _ _ _ _ _ Hf Hi) as (r' & Hr & Ht').
  assert (r' = r) as -> by congruence. destruct (resources_removed rs i r Hnd Hr) as [E' Hnd']. exists (delete i rs).
  split_and!; [by apply Forall2_delete|done|]. by rewrite E, E'.
Qed.

Lemma elem_of_without {A} (l : list A) i t x : l !! i = Some t → x ∈ l ↔ x = t ∨ x ∈ delete i l.
Proof. intros Hi. pose proof (delete_Permutation _ _ _ Hi) as Hp. rewrite Hp at 1. apply elem_of_cons. Qed.

Lemma smaller (s : gset string) r : (size (s ∖ {[r]}) ≤ size s)%nat.
Proof. apply subseteq_size. set_solver. Qed.

Lemma release_ok o i resource :
  office_ok o → of_tasks o !! i = Some (DirectTask resource) →
  office_ok {| of_jobs := release_direct (of_jobs o) resource; of_tasks := delete i (of_tasks o) |}.
Proof.
  intros H Hi. destruct (removed_resources o i _ resource H Hi eq_refl) as (rs & Hf & Hnd & E).
  destruct H as [_ H2 H3 H4 H5 H6 H7 H8]. unfold release_direct.
  split; cbn [of_jobs of_tasks with_resources mj_items mj_jobs mj_next mj_resources]; try done.
  - exists rs. split_and!; [exact Hf|done|done].
  - etransitivity; [apply smaller|done].
  - intros p. change (is_running (of_jobs o) p = true ↔ JobTask p ∈ delete i (of_tasks o)). rewrite H3, (elem_of_without _ _ _ _ Hi). naive_solver.
Qed.

Lemma office_finish_ok o i p now e :
  office_ok o → of_tasks o !! i = Some (JobTask p) → office_ok {| of_jobs := finish (of_jobs o) p now e; of_tasks := delete i (of_tasks o) |}.
Proof.
  intros H Hi. pose proof (list_elem_of_lookup_2 _ _ _ Hi) as Hin. apply (oo_running _ H), is_running_lookup in Hin as (j & Hj & Hr).
  destruct (finish_job_ok now e j Hr (oo_jobs _ H _ _ Hj)) as [Hjob Hended].
  assert (Hres : j_resource (finish_job now e j) = j_resource j) by (unfold finish_job; by destruct (final_state _ _)).
  destruct (removed_resources o i _ (j_resource j) H Hi) as (rs & Hf & Hnd & E); [simpl; by rewrite Hj|].
  assert (Hlook : ∀ p', mj_jobs (finish (of_jobs o) p now e) !! p' = if decide (p = p') then Some (finish_job now e j) else mj_jobs (of_jobs o) !! p').
  { intros p'. unfold finish. rewrite Hj. simpl. rewrite lookup_alter. destruct (decide (p = p')) as [<-|]; [by rewrite Hj|done]. }
  assert (Hrun : ∀ p', is_running (finish (of_jobs o) p now e) p' = true ↔ p ≠ p' ∧ is_running (of_jobs o) p' = true).
  { intros p'. unfold is_running. rewrite Hlook. destruct (decide (p = p')) as [<-|]; [|naive_solver]. rewrite Hended. naive_solver. }
  assert (Hrest : mj_items (finish (of_jobs o) p now e) = mj_items (of_jobs o) ∧ mj_next (finish (of_jobs o) p now e) = mj_next (of_jobs o)
    ∧ mj_resources (finish (of_jobs o) p now e) = mj_resources (of_jobs o) ∖ {[j_resource j]}) by (unfold finish; by rewrite Hj).
  destruct Hrest as (Ei & En & Er). pose proof (oo_running _ H) as Hiff.
  split; cbn [of_jobs of_tasks]; rewrite ?Ei, ?En, ?Er.
  - exists rs. split_and!; [|done|done]. eapply resources_kept; [|exact Hf]. intros p' j' Hj'. rewrite Hlook.
    destruct (decide (p = p')) as [<-|]; [|by exists j']. exists (finish_job now e j). split; [done|]. congruence.
  - etransitivity; [apply smaller|apply (oo_active _ H)].
  - intros p'. rewrite Hrun, Hiff. split.
    + intros [Hne Hin]. rewrite (elem_of_without _ _ _ _ Hi) in Hin. naive_solver.
    + intros Hin. split; [|rewrite (elem_of_without _ _ _ _ Hi); by right]. intros <-.
      pose proof (tasks_nodup o H) as Hnodup. rewrite (delete_Permutation _ _ _ Hi) in Hnodup. by apply NoDup_cons in Hnodup as [].
  - apply (oo_items _ H).
  - intros p' [_ Hp']%Hrun. by apply (oo_listed _ H).
  - intros p' Hp'. rewrite Hlook. destruct (decide (p = p')) as [<-|]; [|by apply (oo_fresh _ H)]. rewrite (oo_fresh _ H) in Hj by done. done.
  - intros p' Hp'. rewrite Hlook. destruct (decide (p = p')); [by eexists|by apply (oo_known _ H)].
  - intros p' j'. rewrite Hlook. destruct (decide (p = p')) as [<-|]; [by intros [= <-]|apply (oo_jobs _ H)].
Qed.

Lemma job_step_ok o o' : office_ok o → job_step o o' → office_ok o'.
Proof.
  intros H [now id path revision resource p s Hs|resource s Hs|i p now stage Hi|i p now e Hi|i resource Hi|].
  - by eapply submit_ok.
  - by eapply reserve_ok.
  - by eapply progress_ok.
  - by eapply office_finish_ok.
  - by apply release_ok.
  - by destruct H.
Qed.

Lemma idle_ok : office_ok idle_office.
Proof.
  assert (Hno : ∀ p, is_running no_jobs p = false) by (intros p; unfold is_running; simpl; by rewrite lookup_empty).
  split; cbn [of_jobs of_tasks idle_office].
  - exists []. split_and!; [constructor|constructor|done].
  - cbn [mj_resources no_jobs]. rewrite size_empty. lia.
  - intros p. rewrite Hno. split; [done|]. by intros ?%not_elem_of_nil.
  - split; [constructor|]. simpl. lia.
  - intros p. by rewrite Hno.
  - done.
  - by intros p ?%not_elem_of_nil.
  - intros p j. simpl. by rewrite lookup_empty.
Qed.

Lemma reachable_ok o : rtc job_step idle_office o → office_ok o.
Proof.
  assert (Hgen : ∀ o1 o2, rtc job_step o1 o2 → office_ok o1 → office_ok o2) by (induction 1; eauto using job_step_ok).
  intros Hr. exact (Hgen _ _ Hr idle_ok).
Qed.

(** A job that has ended stays as it is. *)
Lemma ended_stays o o' p j : office_ok o → job_step o o' → mj_jobs (of_jobs o) !! p = Some j → running j = false → mj_jobs (of_jobs o') !! p = Some j.
Proof.
  intros H Hs Hj Hr. assert (Hother : ∀ i q, of_tasks o !! i = Some (JobTask q) → q ≠ p).
  { intros i q Hi ->. apply list_elem_of_lookup_2, (oo_running _ H), is_running_lookup in Hi as (j0 & Hj0 & Hr0). congruence. }
  destruct Hs as [now id path revision resource q s Hs|resource s Hs|i q now stage Hi|i q now e Hi|i resource Hi|]; cbn [of_jobs]; try done.
  - unfold submit in Hs. case_bool_decide; [done|]. destruct (_ || _); [done|]. injection Hs as <- <-. cbn [mj_jobs].
    rewrite lookup_insert_ne; [done|]. intros <-. rewrite (oo_fresh _ H) in Hj by done. done.
  - unfold reserve_direct in Hs. destruct (_ || _); [done|]. by injection Hs as <-.
  - unfold progress, upd_job. cbn [mj_jobs]. rewrite lookup_alter_ne; [done|]. exact (Hother _ _ Hi).
  - unfold finish. destruct (mj_jobs (of_jobs o) !! q); [|done]. cbn [mj_jobs upd_job with_resources]. rewrite lookup_alter_ne; [done|]. exact (Hother _ _ Hi).
Qed.

Lemma ended_final o o' p j :
  office_ok o → rtc job_step o o' → mj_jobs (of_jobs o) !! p = Some j → running j = false → mj_jobs (of_jobs o') !! p = Some j.
Proof. intros H Hr Hj Hn. induction Hr as [|o o1 o2 Hs _ IH]; [done|]. apply IH; [by eapply job_step_ok|by eapply ended_stays]. Qed.

Lemma completed_exactly path e :
  fst (final_state path e) = "completed" ↔
  ed_panicked e = false ∧ jr_overflow (ed_out e) = false ∧ jr_status (ed_out e) < 400
  ∧ (ed_context e = None ∨ is_Some (ed_committed e)) ∧ (ed_current e = final_version e ∨ ownRefresh path e = true).
Proof.
  unfold final_state. destruct (ed_panicked e), (jr_overflow (ed_out e)); cbn [orb]; try naive_solver.
  destruct (Z.leb_spec 400 (jr_status (ed_out e))) as [Hs|Hs].
  - split; [|lia]. destruct (if committed e then None else ed_context e) as [[]|]; [done..|]. by destruct (_ && _).
  - destruct (if committed e then None else ed_context e) as [ce|] eqn:Ec.
    + split; [by destruct ce|]. intros (_ & _ & _ & [Hc|Hc] & _); destruct (committed e) eqn:Eco; try done; [congruence|].
      unfold committed in Eco. rewrite bool_decide_true in Eco by done. destruct (Z.ltb_spec (jr_status (ed_out e)) 400); [done|lia].
    + assert (Hctx : ed_context e = None ∨ is_Some (ed_committed e)).
      { destruct (committed e) eqn:Eco; [|by left]. right. unfold committed in Eco. apply andb_true_iff in Eco as [Eco _]. by apply bool_decide_eq_true in Eco. }
      destruct (bool_decide_reflect (ed_current e ≠ final_version e)) as [Hne|Heq].
      * destruct (ownRefresh path e); simpl; naive_solver.
      * simpl. apply dec_stable in Heq. naive_solver.
Qed.

(** C30: management operations exclude each other, are bounded, and end once.
    However jobs and direct operations are accepted, progress, end and are
    closed down: at most four run at once and no two on the same resource, the
    resources taken are exactly theirs, and none is taken when nothing runs;
    the list holds every job that runs and at most 128 jobs, each once; a job's
    events are numbered from one and never more than sixteen; a job that runs
    can be canceled, and one that ended has one of five final states, reported
    by its last event, and never changes again.  The final state is
    "completed" exactly when the operation neither panicked nor overflowed its
    response, answered below 400, was not cut off before it committed, and the
    versions it depended on changed by its own hand only. *)
Theorem jobs_exclude_and_end_once o o' :
  rtc job_step idle_office o → rtc job_step o o' →
  (length (of_tasks o) ≤ 4)%nat
  ∧ (∀ i j r, (of_tasks o !! i ≫= task_resource (of_jobs o)) = Some r → (of_tasks o !! j ≫= task_resource (of_jobs o)) = Some r → i = j)
  ∧ (∀ r, r ∈ mj_resources (of_jobs o) ↔ ∃ t, t ∈ of_tasks o ∧ task_resource (of_jobs o) t = Some r)
  ∧ (∀ p, is_running (of_jobs o) p = true ↔ JobTask p ∈ of_tasks o)
  ∧ (NoDup (mj_items (of_jobs o)) ∧ (length (mj_items (of_jobs o)) ≤ 128)%nat ∧ ∀ p, is_running (of_jobs o) p = true → p ∈ mj_items (of_jobs o))
  ∧ (∀ p j, mj_jobs (of_jobs o) !! p = Some j → job_ok j ∧ (running j = false → mj_jobs (of_jobs o') !! p = Some j))
  ∧ ∀ path e, fst (final_state path e) = "completed" ↔
      ed_panicked e = false ∧ jr_overflow (ed_out e) = false ∧ jr_status (ed_out e) < 400
      ∧ (ed_context e = None ∨ is_Some (ed_committed e)) ∧ (ed_current e = final_version e ∨ ownRefresh path e = true).
Proof.
  intros Hr Hr'. pose proof (reachable_ok o Hr) as H. split_and!; [by apply tasks_active|intros i j r; exact (tasks_apart o i j r H)| |apply (oo_running _ H)|apply (oo_items _ H)|apply (oo_items _ H)| | |].
  - intros r. destruct (oo_resources _ H) as (rs & Hf & _ & E). rewrite E, elem_of_list_to_set, list_elem_of_lookup. split.
    + intros (i & Hi). destruct (Forall2_lookup_r _ _ _ _ _ Hf Hi) as (t & Ht & Hres). exists t. split; [by eapply list_elem_of_lookup_2|done].
    + intros (t & (i & Hi)%list_elem_of_lookup & Hres). destruct (Forall2_lookup_l _ _ _ _ _ Hf Hi) as (r' & Hr2 & Hres'). exists i. congruence.
  - apply (oo_listed _ H).
  - intros p j Hj. split; [by apply (oo_jobs _ H p)|]. intros Hn. by eapply ended_final.
  - apply completed_exactly.
Qed.

(** One job, accepted and ended. *)
Definition demo_ending : ending :=
  {| ed_panicked := false; ed_out := {| jr_status := 200; jr_body := js "{'ok':true}"; jr_overflow := false |}; ed_context := None;
     ed_committed := None; ed_version := {| ov_revision := 3; ov_vault := [] |}; ed_current := {| ov_revision := 3; ov_vault := [] |};
     ed_vault := [] |}.
Definition demo_submitted : res Z nat * managementJobs := submit no_jobs 5 "J" "/admin/accounts/work/login" 3 "account:work".
Definition demo_accepted : office := {| of_jobs := snd demo_submitted; of_tasks := [JobTask 0] |}.
Definition demo_ended : office := {| of_jobs := finish (of_jobs demo_accepted) 0 9 demo_ending; of_tasks := [] |}.

Lemma demo_ended_run : rtc job_step idle_office demo_ended.
Proof.
  eapply rtc_l; [apply (step_submit idle_office 5 "J" "/admin/accounts/work/login" 3 "account:work" 0 (snd demo_submitted)); vm_compute; reflexivity|].
  eapply rtc_l; [|apply rtc_refl]. exact (step_finish demo_accepted 0 0 9 demo_ending eq_refl).
Qed.

Lemma jobs_exclude_and_end_once_witness :
  (length (of_tasks demo_ended) ≤ 4)%nat ∧ (mj_resources (of_jobs demo_ended) = ∅)
  ∧ (j_State <$> mj_jobs (of_jobs demo_ended) !! 0%nat) = Some "completed".
Proof.
  destruct (jobs_exclude_and_end_once demo_ended demo_ended demo_ended_run (rtc_refl _ _)) as (Hlen & _ & Hres & _).
  split; [exact Hlen|]. split; [|vm_compute; reflexivity]. apply elem_of_equiv_empty_L. intros r (t & Ht & _)%Hres. by apply not_elem_of_nil in Ht.
Defined.
