(* ===== verification/Catalog.v ===== *)
(** * The catalogue ([catalog/catalog.go], [catalog/credentials.go])

    The providers the program knows, the hosts a credential may belong to, and
    the source a preset builds.  The entries are the embedded file
    [providers.json], which is an argument. *)

From S2P Require Import Prelude ConfigData Json Request GoText GoNet Providerdef.
Local Open Scope string_scope.
Local Open Scope Z_scope.

Record CredentialPolicy := { cp_Domains : list string; cp_Accepted : list string }.
Record Entry := {
  en_Credentials : CredentialPolicy; en_ID : string; en_Adapter : string; en_BaseURL : string; en_Protocols : list string;
  en_Kind : string; en_Implementation : string; en_Reference : string; en_Notes : string; en_LiveVerified : bool;
  en_Anonymous : bool; en_TextOnly : bool }.
Record CredentialMatch := { cm_Provider : string; cm_Compatible : bool; cm_Reason : string }.

(** ** Letters *)

(** [unicode.ToLower] and [unicode.ToUpper] of a rune that is not ASCII *)
Class Unicode := { unicode_lower : Z → Z; unicode_upper : Z → Z }.

Definition ascii_lower (r : Z) : Z := if (65 <=? r) && (r <=? 90) then r + 32 else r.
Definition ascii_upper (r : Z) : Z := if (97 <=? r) && (r <=? 122) then r - 32 else r.

(** [strings.Map]: an invalid byte is the error rune. *)
Fixpoint map_runes (fuel : nat) (f : Z → Z) (l : bytes) : bytes :=
  match fuel, l with
  | S fuel, _ :: _ =>
      let '(r, n) := decode_rune l in (encode_rune (f r) ++ map_runes fuel f (drop (Nat.max 1 n) l))%list
  | _, _ => []
  end.

Definition is_ascii (l : bytes) : bool := forallb (λ c, code c <? 128) l.

Section Catalog.
Context `{Unicode} `{UrlParser}.

Definition ToLower (s : string) : string :=
  if is_ascii (lit s) then str (map (λ c, byte_of (ascii_lower (code c))) (lit s))
  else str (map_runes (String.length s) (λ r, if r <? 128 then ascii_lower r else unicode_lower r) (lit s)).
Definition ToUpper (s : string) : string :=
  if is_ascii (lit s) then str (map (λ c, byte_of (ascii_upper (code c))) (lit s))
  else str (map_runes (String.length s) (λ r, if r <? 128 then ascii_upper r else unicode_upper r) (lit s)).

(** ** The entries *)

Definition domainAliases : list (string * list string) :=
  [("openai", ["chat.openai.com"; "chatgpt.com"; "platform.openai.com"]);
   ("anthropic", ["claude.ai"; "console.anthropic.com"]);
   ("gemini", ["gemini.google.com"; "aistudio.google.com"; "ai.google.dev"]);
   ("deepseek", ["chat.deepseek.com"; "platform.deepseek.com"]);
   ("moonshot", ["platform.moonshot.cn"; "kimi.moonshot.cn"]);
   ("moonshot-cn", ["platform.moonshot.cn"; "kimi.moonshot.cn"]);
   ("minimax", ["platform.minimaxi.com"]);
   ("bigmodel", ["open.bigmodel.cn"; "www.bigmodel.cn"]);
   ("zai", ["z.ai"; "chat.z.ai"]);
   ("qwen-code", ["chat.qwen.ai"; "dashscope.aliyuncs.com"]);
   ("dashscope", ["dashscope.aliyuncs.com"; "bailian.console.aliyun.com"]);
   ("siliconflow", ["siliconflow.cn"]);
   ("huggingface", ["huggingface.co"]);
   ("groq", ["console.groq.com"]);
   ("mistral", ["chat.mistral.ai"; "console.mistral.ai"]);
   ("xai", ["console.x.ai"; "grok.com"]);
   ("perplexity-api", ["perplexity.ai"]);
   ("volcengine-ark", ["console.volcengine.com"; "ark.cn-beijing.volces.com"]);
   ("tencent-hunyuan", ["console.cloud.tencent.com"; "hunyuan.cloud.tencent.com"]);
   ("baidu-qianfan", ["console.bce.baidu.com"; "qianfan.baidubce.com"]);
   ("openrouter", ["openrouter.ai"]);
   ("poe-api", ["poe.com"]);
   ("poe-web", ["poe.com"]);
   ("copilot", ["copilot.microsoft.com"]);
   ("copilot-web", ["copilot.microsoft.com"]);
   ("cursor", ["cursor.com"]);
   ("windsurf", ["windsurf.com"])].

Definition aliases (id : string) : list string :=
  match list_find (λ a, a.1 = id) domainAliases with Some (_, (_, ds)) => ds | None => [] end.

Definition with_Credentials (p : CredentialPolicy) (e : Entry) : Entry :=
  {| en_Credentials := p; en_ID := en_ID e; en_Adapter := en_Adapter e; en_BaseURL := en_BaseURL e;
     en_Protocols := en_Protocols e; en_Kind := en_Kind e; en_Implementation := en_Implementation e;
     en_Reference := en_Reference e; en_Notes := en_Notes e; en_LiveVerified := en_LiveVerified e;
     en_Anonymous := en_Anonymous e; en_TextOnly := en_TextOnly e |}.

Definition entry_policy (e : Entry) : CredentialPolicy :=
  {| cp_Domains :=
       match url_Parse (en_BaseURL e) with
       | Some u =>
           if negb (Hostname u =s "") && (url_Scheme u =s "https") then ToLower (Hostname u) :: aliases (en_ID e)
           else cp_Domains (en_Credentials e)
       | None => cp_Domains (en_Credentials e)
       end;
     cp_Accepted := ds_CredentialModes (fst (Lookup (en_Adapter e))) |}.

(** [All], of the decoded [data]. *)
Definition entries (data : list Entry) : list Entry := map (λ e, with_Credentials (entry_policy e) e) data.

(** ** Hosts *)

Definition host_stops : string := str (lit "/?#" ++ [carriage_return; newline; byte_of 0]).

(** The host of an explicit URL; [None] is a refusal. *)
Definition explicit_host (value : string) : option string :=
  if contains_bytes (lit value) (lit "://") then
    match url_Parse value with
    | Some u =>
        if negb (url_Scheme u =s "http") && negb (url_Scheme u =s "https") || (Hostname u =s "") || url_User u then None
        else Some (Hostname u)
    | None => None
    end
  else Some value.

Definition normalizeHost (value : string) : string :=
  match explicit_host (TrimSpace (ToLower value)) with
  | Some host => if contains_any host host_stops then "" else trim_suffix host "."
  | None => ""
  end.

Definition MatchCredentials (data : list Entry) (domain kind : string) : list CredentialMatch :=
  let domain := normalizeHost domain in
  if domain =s "" then []
  else
    map (λ p,
      let compatible := contains (cp_Accepted (en_Credentials p)) kind in
      {| cm_Provider := en_ID p; cm_Compatible := compatible;
         cm_Reason := if compatible then "domain_and_credential_type" else "domain_only_requires_login_or_different_credential" |})
      (List.filter (λ p, contains (cp_Domains (en_Credentials p)) domain) (entries data)).

(** ** Presets *)

Definition replace_byte (old new : ascii) (s : string) : string := str (map (λ c, if Ascii.eqb c old then new else c) (lit s)).

Definition preset_kind (p : Entry) : string * string * string * string :=
  let '(kind, inference, billing, mode) := ("product_reverse", "unknown", "unknown", "api_key") in
  let k := en_Kind p in
  let '(kind, inference, billing, mode) :=
    if k =s "api" then ("vendor_api", "remote", "metered", mode)
    else if k =s "cloud" then ("cloud_api", "remote", "metered", mode)
    else if k =s "aggregator" then ("aggregator_api", "remote", "metered", mode)
    else if k =s "subscription" then (kind, inference, "subscription", mode)
    else if k =s "device" then ("app_reverse", inference, billing, "device_session")
    else (kind, inference, billing, mode) in
  let d := fst (Lookup (en_Adapter p)) in
  let '(kind, mode) :=
    if (k =s "web") && (ds_BrowserRequired d || ds_BrowserAuthCheck d) then ("browser_reverse", "browser_session") else (kind, mode) in
  let '(kind, inference, billing) :=
    if (k =s "local") && contains ["openai"; "anthropic"; "gemini"] (en_Adapter p) then ("local_model", "local", "local")
    else (kind, inference, billing) in
  let '(kind, mode) :=
    if contains ["devin-cli"; "zcode"] (en_Adapter p) then ("cli_reverse", "cli_session") else (kind, mode) in
  (kind, inference, billing, if en_Anonymous p then "anonymous" else mode).

Definition selectors : list (string * string) :=
  [("meituan-xiaotuan", "meituan_xiaotuan"); ("wangzhe-lingbao", "wangzhe_lingbao"); ("douyin-xiaohuoren", "douyin_xiaohuoren")].
Definition selector (id : string) : string := match list_find (λ s, s.1 = id) selectors with Some (_, (_, s)) => s | None => "" end.

(** The fields the adapter overrides: the model, its tools, its input and the
    quota domain. *)
Definition page_adapters : list string := ["gemini-web"; "gigachat-web"; "duckduckgo-web"].
Definition preset_model (p : Entry) (model : string) : string * string * Z * string :=
  let a := en_Adapter p in
  let '(m, bytes, domain) := (model, 2 ^ 20, (en_ID p ++ "-account")%string) in
  let '(m, bytes, domain) := if a =s "app-device" then (selector (en_ID p), 2 ^ 16, "android-device") else (m, bytes, domain) in
  let tools := if en_TextOnly p then "none" else "unknown" in
  let m := if contains ["promptql"; "copilot-m365"; "weread-ai"] a then "web" else m in
  let '(id, tools, bytes) := if a =s "chatgpt-web" then ("web", "none", 2 ^ 16) else (m, tools, bytes) in
  let '(id, tools, bytes) := if contains page_adapters a then ("web", "none", 2 ^ 16) else (id, tools, bytes) in
  (id, tools, bytes, domain).

(** [chatgpt-web] renames its model only for the gateway: the upstream keeps
    the name. *)
Definition preset_upstream (p : Entry) (model : string) : string :=
  let a := en_Adapter p in
  let m := if a =s "app-device" then selector (en_ID p) else model in
  if contains ["promptql"; "copilot-m365"; "weread-ai"] a || contains page_adapters a then "web" else m.

Definition keyless : list string := (["aistudio-build"; "zcode"; "devin-cli"; "chatgpt-web"; "doubao"] ++ page_adapters)%list.

Definition preset_source (p : Entry) (id model : string) : Source :=
  let '(kind, inference, billing, mode) := preset_kind p in
  let '(m, tools, bytes, domain) := preset_model p model in
  {| s_Weight := 0; s_AccountID := ""; s_CredentialRef := ""; s_CredentialTypeOverride := false; s_SourceKind := kind;
     s_ExecutionLocation := "local"; s_InferenceLocation := inference; s_BillingMode := billing; s_CredentialMode := mode;
     s_ID := id; s_Provider := id; s_Adapter := en_Adapter p; s_BaseURL := en_BaseURL p;
     s_KeyEnv := if en_Anonymous p || contains keyless (en_Adapter p) then ""
       else ("COT_" ++ ToUpper (replace_byte "-" "_" id) ++ "_KEY")%string;
     s_AccountIDEnv := ""; s_Organization := ""; s_Project := ""; s_Enabled := false; s_AutoApproved := false;
     s_Local := en_Kind p =s "local"; s_Anonymous := en_Anonymous p;
     s_Paid := (billing =s "metered") || (billing =s "subscription"); s_MaxInflight := 1; s_QuotaDomain := domain;
     s_QuotaMaxInflight := 1;
     s_Models := [{| m_InputUSDPerMillion := None; m_OutputUSDPerMillion := None; m_Enabled := None; m_AutoApproved := None;
       m_DeclaredModel := ""; m_CanonicalModel := ""; m_ID := m; m_Upstream := preset_upstream p model;
       m_Protocols := en_Protocols p; m_Tier := "unrated"; m_RatingBasis := ""; m_Tools := tools; m_Vision := false;
       m_MaxInputBytes := bytes |}] |}.

Definition with_BaseURL (url : string) (p : Entry) : Entry :=
  {| en_Credentials := en_Credentials p; en_ID := en_ID p; en_Adapter := en_Adapter p; en_BaseURL := url;
     en_Protocols := en_Protocols p; en_Kind := en_Kind p; en_Implementation := en_Implementation p;
     en_Reference := en_Reference p; en_Notes := en_Notes p; en_LiveVerified := en_LiveVerified p;
     en_Anonymous := en_Anonymous p; en_TextOnly := en_TextOnly p |}.

Definition Preset (data : list Entry) (id model : string) (baseOverride : option string) : res string Source :=
  match list_find (λ p, en_ID p = id) (entries data) with
  | None => Err "unknown provider"
  | Some (_, p) =>
      reject en_Implementation p =s "not_implemented" with "research-only" ;;
      reject model =s "" with "-model must be the account's real upstream model id" ;;
      let url := TrimSpace (match baseOverride with Some url => url | None => "" end) in
      let p := if url =s "" then p else with_BaseURL url p in
      reject (en_ID p =s "augment") && (en_BaseURL p =s "") with "Augment requires -base-url" ;;
      reject (en_ID p =s "aistudio-build") && (en_BaseURL p =s "") with "AI Studio Build requires -base-url" ;;
      Ok (preset_source p id model)
  end.

(** ** What they promise *)

(** Matching is exact: only an entry that lists the host itself is suggested. *)
Lemma match_exact data domain kind m :
  m ∈ MatchCredentials data domain kind →
  ∃ e, e ∈ data ∧ cm_Provider m = en_ID e ∧ normalizeHost domain ≠ ""
    ∧ normalizeHost domain ∈ cp_Domains (entry_policy e)
    ∧ cm_Compatible m = contains (ds_CredentialModes (fst (Lookup (en_Adapter e)))) kind.
Proof.
  unfold MatchCredentials. destruct (String.eqb_spec (normalizeHost domain) "") as [|Hne]; [by intros ?%not_elem_of_nil|].
  intros (e' & -> & Hin)%list_elem_of_fmap. apply list_elem_of_In, filter_In in Hin as [Hin Hd].
  apply list_elem_of_In, list_elem_of_fmap in Hin as (e & -> & He). apply contains_spec in Hd. by exists e.
Qed.

Lemma key_empty (b k : bool) s : (if b || k then "" else "COT_" ++ s) = "" ↔ b = true ∨ k = true.
Proof. destruct b, k; simpl; split; try tauto; try done; intros [|]; done. Qed.

(** A preset is inert until somebody enables it, is paid exactly where its
    billing says so, and asks for a key unless it is anonymous or its adapter
    brings its own session. *)
Lemma preset_inert data id model url s :
  Preset data id model url = Ok s →
  s_ID s = id ∧ s_Enabled s = false ∧ s_AutoApproved s = false ∧ length (s_Models s) = 1%nat
  ∧ (s_Paid s = true ↔ s_BillingMode s = "metered" ∨ s_BillingMode s = "subscription")
  ∧ (s_KeyEnv s = "" ↔ s_Anonymous s = true ∨ s_Adapter s ∈ keyless).
Proof.
  unfold Preset. destruct (list_find _ _) as [[i p]|]; [|done].
  destruct (en_Implementation p =s _); [done|]. destruct (model =s ""); [done|]. set (p' := if (_ : bool) then p else with_BaseURL _ p).
  destruct (_ && _); [done|]. destruct (_ && _); [done|]. intros [= <-]. clearbody p'. unfold preset_source.
  destruct (preset_kind p') as [[[kind inference] billing] mode]. destruct (preset_model p' model) as [[[m tools] bytes] domain]. simpl.
  split_and!; [done..| |].
  - rewrite orb_true_iff, !String.eqb_eq. done.
  - etrans; [|apply or_iff_compat_l, (contains_spec keyless)]. apply key_empty.
Qed.
End Catalog.
