(* ===== verification/Bindings.v ===== *)
(** * Credential bindings and account policy ([internal/api/credential_binding.go],
    [account_material.go], [credentials.go])

    What a configuration may bind to the material of the vault, and the
    accounts a stored verification still covers.  The encoding of the proof by
    [encoding/json] is an interface; the entries of the catalogue are its
    embedded data. *)

From S2P Require Import Prelude Sha256 ConfigData Json GoNet Providerdef ConfigAccounts ConfigValidate Vault Catalog.
Local Open Scope string_scope.
Local Open Scope Z_scope.

(** ** Bindings *)

Section Bindings.
Context `{Unicode} `{UrlParser} (data : list Entry).

(** The maps by identifier; a later element of the same name wins. *)
Definition by_key {A B} (key : A → string) (value : A → B) (l : list A) : gmap string B :=
  fold_left (λ m x, <[key x := value x]> m) l ∅.

Definition providerAdapters : gmap string string := by_key en_ID en_Adapter (entries data).

Definition check_login (byRef : gmap string Metadata) (a : Account) : checked unit :=
  if a_LoginCredentialRef a =s "" then Ok tt
  else
    match byRef !! a_LoginCredentialRef a with
    | None => Err "login reference requires protected username_password material"
    | Some m =>
        reject negb (md_Kind m =s "username_password") with "login reference requires protected username_password material" ;;
        let '(d, ok) := Lookup (default "" (providerAdapters !! a_ProviderID a)) in
        if negb ok || negb (contains (ds_LoginMaterials d) (md_Kind m)) then
          let matched := existsb (λ x, cm_Provider x =s a_ProviderID a) (MatchCredentials data (md_Domain m) (md_Kind m)) in
          reject negb ok || negb matched with "provider does not support this login material" ;; Ok tt
        else Ok tt
    end.

Definition check_invocation (byRef : gmap string Metadata) (a : Account) : checked unit :=
  if a_CredentialRef a =s "" then Ok tt
  else
    match byRef !! a_CredentialRef a with
    | None => Err "credential reference does not exist"
    | Some m =>
        reject md_Kind m =s "username_password" with "password material belongs in login_credential_ref, never credential_ref" ;;
        match providerAdapters !! a_ProviderID a with
        | None => Ok tt
        | Some adapter =>
            let '(d, known) := Lookup adapter in
            reject negb known || (negb (a_CredentialTypeOverride a) && negb (contains (ds_InvokeCredentials d) (md_Kind m)))
              with "credential is incompatible with provider" ;; Ok tt
        end
    end.

Definition source_binding (accounts : gmap string (string * bool)) (s : Source) : string * bool :=
  if s_CredentialRef s =s "" then default ("", false) (accounts !! s_AccountID s)
  else (s_CredentialRef s, s_CredentialTypeOverride s).

Definition check_source_binding (byRef : gmap string Metadata) (accounts : gmap string (string * bool)) (s : Source) : checked unit :=
  let '(ref, override) := source_binding accounts s in
  if ref =s "" then Ok tt
  else
    match byRef !! ref with
    | None => Err "credential reference does not exist"
    | Some m =>
        reject md_Kind m =s "username_password" with "login material cannot be used as an invocation credential" ;;
        let '(d, ok) := Lookup (s_Adapter s) in
        reject negb ok || (negb override && negb (contains (ds_InvokeCredentials d) (md_Kind m)))
          with "credential is incompatible with adapter" ;; Ok tt
    end.

Definition validateCredentialBindings (c : Config) (metadata : list Metadata) : checked unit :=
  let byRef := by_key md_ID (λ m, m) metadata in
  let accounts := by_key a_ID (λ a, (a_CredentialRef a, a_CredentialTypeOverride a)) (c_Accounts c) in
  let? _ := fold_res (λ _ a, let? _ := check_login byRef a in check_invocation byRef a) tt (c_Accounts c) in
  fold_res (λ _ s, check_source_binding byRef accounts s) tt (c_Sources c).
End Bindings.

(** ** The policy of verified accounts *)

(** [json.Marshal] of the account, its sources, the versions of their
    material, its profile and the run of the browser. *)
Class ProofCodec := marshal_proof : Account → list Source → list Z → BrowserProfile → string → bytes.

Definition with_verification (state : string) (version : Z) (binding : string) (at_ : option Z) (enabled approved : bool) (a : Account) : Account :=
  {| a_VerificationState := state; a_VerificationVersion := version; a_VerificationBinding := binding; a_VerificationAt := at_;
     a_ID := a_ID a; a_ProviderID := a_ProviderID a; a_DisplayName := a_DisplayName a; a_Enabled := enabled;
     a_AutoApproved := approved; a_CredentialRef := a_CredentialRef a; a_LoginCredentialRef := a_LoginCredentialRef a;
     a_ExpectedIdentity := a_ExpectedIdentity a; a_CredentialTypeOverride := a_CredentialTypeOverride a;
     a_BrowserProfileID := a_BrowserProfileID a; a_BaseURL := a_BaseURL a; a_Organization := a_Organization a;
     a_Project := a_Project a; a_QuotaDomain := a_QuotaDomain a; a_MaxInflight := a_MaxInflight a; a_Weight := a_Weight a;
     a_CreatedAt := a_CreatedAt a |}.
Definition disable_account (a : Account) : Account :=
  with_verification (a_VerificationState a) (a_VerificationVersion a) (a_VerificationBinding a) (a_VerificationAt a) false (a_AutoApproved a) a.

Definition zero_Metadata : Metadata :=
  {| md_External := None; md_OAuthInfo := None; md_State := ""; md_Version := 0; md_ID := ""; md_Kind := ""; md_Source := "";
     md_Domain := ""; md_CreatedAt := 0; md_UpdatedAt := 0; md_LastUsedAt := None |}.
Definition zero_BrowserProfile : BrowserProfile :=
  {| bp_External := false; bp_ID := ""; bp_Enabled := false; bp_Engine := ""; bp_CDPURL := "" |}.

Definition credentialMetadata (vault : list Metadata) (ref : string) : Metadata :=
  match list_find (λ m, md_ID m = ref) vault with Some (_, m) => m | None => zero_Metadata end.

Definition digest (b : bytes) : string := hex_encode (sha256 (map code b)).

Section Policy.
Context `{ProofCodec} (runtimeID : string) (vault : list Metadata).

Definition accountProofConfig (c : Config) (a : Account) : string :=
  let a := with_verification "" 0 "" None false false a in
  let version ref := md_Version (credentialMetadata vault ref) in
  let sources := List.filter (λ s, s_AccountID s =s a_ID a) (c_Sources c) in
  let versions := ([version (a_CredentialRef a); version (a_LoginCredentialRef a)] ++ map (λ s, version (s_CredentialRef s)) sources)%list in
  let '(profile, run) :=
    match list_find (λ b, bp_ID b = a_BrowserProfileID a) (c_BrowserProfiles c) with
    | Some (_, b) => (b, runtimeID)
    | None => (zero_BrowserProfile, "")
    end in
  digest (marshal_proof a sources versions profile run).

Definition unusable (ref : string) : bool :=
  negb (ref =s "") && ((md_ID (credentialMetadata vault ref) =s "") || (md_State (credentialMetadata vault ref) =s "expired")).

Definition verified_account (c : Config) (a : Account) : Account :=
  if a_VerificationState a =s "" then a
  else if negb (a_VerificationState a =s "verified") || negb (a_VerificationBinding a =s accountProofConfig c a)
       || existsb unusable [a_CredentialRef a; a_LoginCredentialRef a]
  then disable_account a else a.

Definition with_accounts (accounts : list Account) (c : Config) : Config :=
  {| c_BrowserProfiles := c_BrowserProfiles c; c_Providers := c_Providers c; c_Accounts := accounts;
     c_SchemaVersion := c_SchemaVersion c; c_Listen := c_Listen c; c_APIKeyEnv := c_APIKeyEnv c; c_AdminKeyEnv := c_AdminKeyEnv c;
     c_Runtime := c_Runtime c; c_Browser := c_Browser c; c_Device := c_Device c; c_Sources := c_Sources c; c_Groups := c_Groups c |}.

Definition withVerifiedAccountPolicy (c : Config) : Config := with_accounts (map (verified_account c) (c_Accounts c)) c.
End Policy.

(** ** What a server is built from *)

Definition with_CredentialRef (ref : string) (s : Source) : Source :=
  {| s_Weight := s_Weight s; s_AccountID := s_AccountID s; s_CredentialRef := ref;
     s_CredentialTypeOverride := s_CredentialTypeOverride s; s_SourceKind := s_SourceKind s;
     s_ExecutionLocation := s_ExecutionLocation s; s_InferenceLocation := s_InferenceLocation s;
     s_BillingMode := s_BillingMode s; s_CredentialMode := s_CredentialMode s; s_ID := s_ID s;
     s_Provider := s_Provider s; s_Adapter := s_Adapter s; s_BaseURL := s_BaseURL s; s_KeyEnv := s_KeyEnv s;
     s_AccountIDEnv := s_AccountIDEnv s; s_Organization := s_Organization s; s_Project := s_Project s;
     s_Enabled := s_Enabled s; s_AutoApproved := s_AutoApproved s; s_Local := s_Local s; s_Anonymous := s_Anonymous s;
     s_Paid := s_Paid s; s_MaxInflight := s_MaxInflight s; s_QuotaDomain := s_QuotaDomain s;
     s_QuotaMaxInflight := s_QuotaMaxInflight s; s_Models := s_Models s |}.

Definition with_startup (startup : Config) (sources : list Source) (c : Config) : Config :=
  {| c_BrowserProfiles := c_BrowserProfiles c; c_Providers := c_Providers c; c_Accounts := c_Accounts c;
     c_SchemaVersion := c_SchemaVersion c; c_Listen := c_Listen startup; c_APIKeyEnv := c_APIKeyEnv startup;
     c_AdminKeyEnv := c_AdminKeyEnv startup; c_Runtime := c_Runtime startup; c_Browser := c_Browser startup;
     c_Device := c_Device startup; c_Sources := sources; c_Groups := c_Groups c |}.

(** [NewWithCredentials]: the sources with the reference they inherit, if the
    result is valid. *)
Definition bound_config `{UrlParser} (c : Config) : checked Config :=
  let c := with_startup c (map (λ s, with_CredentialRef (SourceCredentialRef c s) s) (c_Sources c)) c in
  let? _ := Validate c in Ok c.

(** [NewWithVault], up to the server itself; [now] is when the vault is read. *)
Definition server_config `{Unicode} `{UrlParser} (data : list Entry) (vault : Store) (now : Z) (c : Config) : checked Config :=
  let? _ := ValidateAccountOwners vault c in
  let? _ := validateCredentialBindings data c (List vault now) in
  bound_config c.

(** ** Reading [Ok] *)

Lemma fold_unit_ok {A} (f : A → checked unit) l :
  fold_res (λ _ x, f x) tt l = Ok tt ↔ ∀ x, x ∈ l → f x = Ok tt.
Proof.
  induction l as [|x l IH]; simpl; [split; [by intros _ x ?%not_elem_of_nil|done]|].
  destruct (f x) as [[]|e] eqn:E; simpl.
  - rewrite IH. setoid_rewrite elem_of_cons. naive_solver.
  - split; [done|]. intros Hx. rewrite Hx in E by left. done.
Qed.

Lemma by_key_found {A B} (key : A → string) (value : A → B) l k v :
  by_key key value l !! k = Some v → ∃ x, x ∈ l ∧ key x = k ∧ value x = v.
Proof.
  unfold by_key. rewrite <-fold_left_rev_right. intros Hk.
  cut (∃ x, x ∈ rev l ∧ key x = k ∧ value x = v).
  { intros (x & Hx & ?). exists x. by rewrite list_elem_of_In, in_rev, <-list_elem_of_In. }
  induction (rev l) as [|x r IH]; simpl in *; [by rewrite lookup_empty in Hk|].
  apply lookup_insert_Some in Hk as [[<- <-]|[_ Hk]]; [exists x; split; [left|done]|].
  destruct (IH Hk) as (y & Hy & ?). exists y. split; [by right|done].
Qed.

Lemma by_key_some {A B} (key : A → string) (value : A → B) l x : x ∈ l → is_Some (by_key key value l !! key x).
Proof.
  unfold by_key. rewrite <-fold_left_rev_right, list_elem_of_In, in_rev, <-list_elem_of_In.
  induction (rev l) as [|y r IH]; [by intros ?%not_elem_of_nil|]. simpl. rewrite lookup_insert_is_Some, elem_of_cons.
  intros [->|Hx]; [by left|]. destruct (decide (key y = key x)); [by left|right]. by auto.
Qed.
