(* ===== verification/BindingsTheorems.v ===== *)
(** * Theorems on credential bindings

    What a server may send: only material of the vault that is live, of a kind
    its adapter takes, and owned by the account and provider that use it. *)

From stdpp Require Import sorting.
From S2P Require Import Prelude ConfigData Json GoNet Providerdef ConfigAccounts ConfigValidate ConfigSpec ValidateSpec Vault Catalog Bindings.
Local Open Scope string_scope.
Local Open Scope Z_scope.



Section Theorems.
Context `{Unicode} `{UrlParser} (data : list Entry).













End Theorems.

(** ** A server with a stored key *)

#[local] Existing Instance simple_parser.
#[local] Instance plain_letters : Unicode := {| unicode_lower := λ r, r; unicode_upper := λ r, r |}.

Definition bound_account (ref : string) : Account :=
  {| a_VerificationState := ""; a_VerificationVersion := 0; a_VerificationBinding := "";
     a_VerificationAt := None; a_ID := "acct"; a_ProviderID := "prov"; a_DisplayName := "Account";
     a_Enabled := true; a_AutoApproved := true; a_CredentialRef := ref; a_LoginCredentialRef := "";
     a_ExpectedIdentity := ""; a_CredentialTypeOverride := false; a_BrowserProfileID := "";
     a_BaseURL := ""; a_Organization := ""; a_Project := ""; a_QuotaDomain := "pool";
     a_MaxInflight := 1; a_Weight := 1; a_CreatedAt := 0 |}.
Definition key_model : Model :=
  {| m_InputUSDPerMillion := None; m_OutputUSDPerMillion := None; m_Enabled := None; m_AutoApproved := None; m_DeclaredModel := "";
     m_CanonicalModel := ""; m_ID := "talk"; m_Upstream := "up-talk"; m_Protocols := ["chat"]; m_Tier := "gold";
     m_RatingBasis := "manual"; m_Tools := "native"; m_Vision := false; m_MaxInputBytes := 1000 |}.
Definition key_source : Source :=
  {| s_Weight := 1; s_AccountID := "acct"; s_CredentialRef := ""; s_CredentialTypeOverride := false;
     s_SourceKind := "vendor_api"; s_ExecutionLocation := "remote"; s_InferenceLocation := "remote";
     s_BillingMode := "metered"; s_CredentialMode := "api_key"; s_ID := "a"; s_Provider := "prov";
     s_Adapter := "openai"; s_BaseURL := "https://api.example.com"; s_KeyEnv := "";
     s_AccountIDEnv := ""; s_Organization := ""; s_Project := ""; s_Enabled := true;
     s_AutoApproved := true; s_Local := false; s_Anonymous := false; s_Paid := true;
     s_MaxInflight := 2; s_QuotaDomain := "pool"; s_QuotaMaxInflight := 1; s_Models := [key_model] |}.
Definition bound_demo (ref : string) : Config :=
  {| c_BrowserProfiles := [];
     c_Providers := [{| p_ID := "prov"; p_Enabled := true; p_AutoApproved := true; p_PoolStrategy := "" |}];
     c_Accounts := [bound_account ref]; c_SchemaVersion := 1; c_Listen := c_Listen Default; c_APIKeyEnv := "";
     c_AdminKeyEnv := ""; c_Runtime := c_Runtime Default; c_Browser := c_Browser Default; c_Device := c_Device Default;
     c_Sources := [key_source]; c_Groups := c_Groups Default |}.

Definition stored (kind : string) : record :=
  {| rc_Metadata := {| md_External := None; md_OAuthInfo := None; md_State := ""; md_Version := 1; md_ID := "cred://one"; md_Kind := kind;
       md_Source := "manual"; md_Domain := ""; md_CreatedAt := 1; md_UpdatedAt := 1; md_LastUsedAt := None |};
     rc_Revoked := false; rc_Value := "secret"; rc_OAuth := None; rc_ImportURL := "" |}.
Definition demo_vault (kind owner : string) : Store :=
  {| vs_accountOwners := Some {["cred://one" := [{| ow_Account := owner; ow_Provider := "prov" |}]]}; vs_refreshes := ∅;
     vs_refreshBackoff := ∅; vs_path := "vault"; vs_records := {["cred://one" := stored kind]}; vs_lastUsed := ∅; vs_flights := 0 |}.

(** A password, a credential of another account and one that does not exist
    are refused. *)
Example refused_bindings :
  (server_config [] (demo_vault "username_password" "acct") 5 (bound_demo "cred://one"),
   server_config [] (demo_vault "api_key" "other") 5 (bound_demo "cred://one"),
   server_config [] (demo_vault "api_key" "acct") 5 (bound_demo ""))
  = (Err "password material belongs in login_credential_ref, never credential_ref",
     Err "material ownership does not match provider account", Err "source a: key_env required").
Proof. vm_compute. reflexivity. Qed.


