(* ===== verification/Control.v ===== *)
(** * Generations of the gateway ([internal/api/control.go], and the servers of
    [server.go])

    Every request pins the server it started on: a change of the
    configuration builds a new server, publishes it and retires the old one,
    which is closed by whoever returns it last.  Servers, generations and the
    clients of their sources are shared; each function below is one critical
    section. *)

From S2P Require Import Prelude ConfigData RouterData RouterOps RouterInv Json GoText GoNet ConfigAccounts ConfigValidate Vault Catalog Bindings.
Local Open Scope Z_scope.

(** ** The state *)

(** [clientSlot]: whether its [sync.Once] has run, and the client it made. *)
Record clientSlot := { sl_once : bool; sl_client : option nat }.

(** The counters and the ingress channel are shared by reference. *)
Record Server := {
  srv_cfg : Config; srv_Router : loc; srv_metrics : nat; srv_ingress : nat; srv_clients : list clientSlot }.

Record generation := { gn_server : nat; gn_refs : Z; gn_retired : bool }.

(** [pl_clients]: how often each client has been closed. *)
Record ControlPlane := {
  pl_heap : heap; pl_servers : gmap nat Server; pl_generations : gmap nat generation; pl_clients : gmap nat nat;
  pl_current : nat; pl_closed : bool; pl_startup : Config; pl_next : nat }.

Definition with_heap (h : heap) (p : ControlPlane) : ControlPlane :=
  {| pl_heap := h; pl_servers := pl_servers p; pl_generations := pl_generations p; pl_clients := pl_clients p;
     pl_current := pl_current p; pl_closed := pl_closed p; pl_startup := pl_startup p; pl_next := pl_next p |}.
Definition with_servers (m : gmap nat Server) (p : ControlPlane) : ControlPlane :=
  {| pl_heap := pl_heap p; pl_servers := m; pl_generations := pl_generations p; pl_clients := pl_clients p;
     pl_current := pl_current p; pl_closed := pl_closed p; pl_startup := pl_startup p; pl_next := pl_next p |}.
Definition with_generations (m : gmap nat generation) (p : ControlPlane) : ControlPlane :=
  {| pl_heap := pl_heap p; pl_servers := pl_servers p; pl_generations := m; pl_clients := pl_clients p;
     pl_current := pl_current p; pl_closed := pl_closed p; pl_startup := pl_startup p; pl_next := pl_next p |}.
Definition with_clients (m : gmap nat nat) (p : ControlPlane) : ControlPlane :=
  {| pl_heap := pl_heap p; pl_servers := pl_servers p; pl_generations := pl_generations p; pl_clients := m;
     pl_current := pl_current p; pl_closed := pl_closed p; pl_startup := pl_startup p; pl_next := pl_next p |}.
Definition with_current (g : nat) (p : ControlPlane) : ControlPlane :=
  {| pl_heap := pl_heap p; pl_servers := pl_servers p; pl_generations := pl_generations p; pl_clients := pl_clients p;
     pl_current := g; pl_closed := pl_closed p; pl_startup := pl_startup p; pl_next := pl_next p |}.
Definition with_closed (b : bool) (p : ControlPlane) : ControlPlane :=
  {| pl_heap := pl_heap p; pl_servers := pl_servers p; pl_generations := pl_generations p; pl_clients := pl_clients p;
     pl_current := pl_current p; pl_closed := b; pl_startup := pl_startup p; pl_next := pl_next p |}.
Definition with_next (n : nat) (p : ControlPlane) : ControlPlane :=
  {| pl_heap := pl_heap p; pl_servers := pl_servers p; pl_generations := pl_generations p; pl_clients := pl_clients p;
     pl_current := pl_current p; pl_closed := pl_closed p; pl_startup := pl_startup p; pl_next := n |}.

Definition zero_slot : clientSlot := {| sl_once := false; sl_client := None |}.
Definition zero_generation : generation := {| gn_server := 0; gn_refs := 0; gn_retired := false |}.

Definition gen_at (p : ControlPlane) (g : nat) : generation := default zero_generation (pl_generations p !! g).
Definition upd_gen (g : nat) (f : generation → generation) (p : ControlPlane) : ControlPlane :=
  with_generations (<[g := f (gen_at p g)]> (pl_generations p)) p.
Definition add_refs (d : Z) (g : generation) : generation :=
  {| gn_server := gn_server g; gn_refs := gn_refs g + d; gn_retired := gn_retired g |}.
Definition retire (g : generation) : generation :=
  {| gn_server := gn_server g; gn_refs := gn_refs g; gn_retired := true |}.

(** ** Servers *)

Definition with_slots (l : list clientSlot) (s : Server) : Server :=
  {| srv_cfg := srv_cfg s; srv_Router := srv_Router s; srv_metrics := srv_metrics s; srv_ingress := srv_ingress s; srv_clients := l |}.
Definition with_shared (metrics ingress : nat) (s : Server) : Server :=
  {| srv_cfg := srv_cfg s; srv_Router := srv_Router s; srv_metrics := metrics; srv_ingress := ingress; srv_clients := srv_clients s |}.

(** [Server.client]: the slot makes its client once; [None] is a nil client. *)
Definition client (sid i : nat) (p : ControlPlane) : option nat * ControlPlane :=
  match pl_servers p !! sid with
  | None => (None, p)
  | Some s =>
      match srv_clients s !! i with
      | None => (None, p)
      | Some slot =>
          if sl_once slot then (sl_client slot, p)
          else
            let k := pl_next p in
            let s := with_slots (<[i := {| sl_once := true; sl_client := Some k |}]> (srv_clients s)) s in
            (Some k, with_next (S k) (with_clients (<[k := 0%nat]> (pl_clients p)) (with_servers (<[sid := s]> (pl_servers p)) p)))
      end
  end.

Definition close_client (m : gmap nat nat) (slot : clientSlot) : gmap nat nat :=
  match sl_client slot with Some k => alter S k m | None => m end.
Definition close_slot (slot : clientSlot) : clientSlot := {| sl_once := true; sl_client := sl_client slot |}.

(** [Server.Close] *)
Definition Close (sid : nat) (p : ControlPlane) : ControlPlane :=
  match pl_servers p !! sid with
  | None => p
  | Some s =>
      with_clients (fold_left close_client (srv_clients s) (pl_clients p))
        (with_servers (<[sid := with_slots (map close_slot (srv_clients s)) s]> (pl_servers p)) p)
  end.

(** [NewWithVault] of a configuration that is bound and valid. *)
Definition new_server (c : Config) (p : ControlPlane) : nat * ControlPlane :=
  let '(h, rid) := New c (pl_heap p) in
  let sid := pl_next p in
  let s := {| srv_cfg := c; srv_Router := rid; srv_metrics := S sid; srv_ingress := S (S sid);
              srv_clients := map (λ _, zero_slot) (c_Sources c) |} in
  (sid, with_next (S (S (S sid))) (with_servers (<[sid := s]> (pl_servers p)) (with_heap h p))).

(** A plane with one generation. *)
Definition first_plane (startup c : Config) : ControlPlane :=
  let '(sid, p) := new_server c {| pl_heap := empty_heap; pl_servers := ∅; pl_generations := ∅; pl_clients := ∅; pl_current := 0;
    pl_closed := false; pl_startup := startup; pl_next := 1 |} in
  with_generations {[0%nat := {| gn_server := sid; gn_refs := 0; gn_retired := false |}]} p.

Section Plane.
Context `{Unicode} `{UrlParser} `{ProofCodec} (data : list Entry) (runtimeID : string).

(** [prepare]: the server of a wanted configuration, with the settings of the
    process as they were at startup. *)
Definition prepare (vault : Store) (now : Z) (desired : Config) (p : ControlPlane) : res string (nat * ControlPlane) :=
  let effective := withVerifiedAccountPolicy runtimeID (List vault now) desired in
  let effective := with_startup (pl_startup p) (c_Sources effective) effective in
  let? c := server_config data vault now effective in
  Ok (new_server c p).

(** [NewControlPlane], once the configuration [desired] is read. *)
Definition new_plane (vault : Store) (now : Z) (desired : Config) : res string ControlPlane :=
  let? c := server_config data vault now (withVerifiedAccountPolicy runtimeID (List vault now) desired) in
  Ok (first_plane desired c).
End Plane.

(** ** Publication *)

(** The commit of a prepared server; [true]: the old one is to be closed. *)
Definition commit (sid : nat) (now : Z) (p : ControlPlane) : bool * ControlPlane :=
  let old := pl_current p in
  let old_server := pl_servers p !! gn_server (gen_at p old) in
  match old_server, pl_servers p !! sid with
  | Some o, Some next =>
      let g := pl_next p in
      let p := with_servers (<[sid := with_shared (srv_metrics o) (srv_ingress o) next]> (pl_servers p)) p in
      let p := with_heap (Adopt (srv_Router o) (srv_Router next) now (pl_heap p)) p in
      let p := upd_gen old retire p in
      let p := with_generations (<[g := {| gn_server := sid; gn_refs := 0; gn_retired := false |}]> (pl_generations p)) p in
      (gn_refs (gen_at p old) =? 0, with_next (S g) (with_current g p))
  | _, _ => (false, p)
  end.

(** ** Holding a generation *)

Definition acquire (p : ControlPlane) : option nat * ControlPlane :=
  if pl_closed p then (None, p)
  else (Some (pl_current p), upd_gen (pl_current p) (add_refs 1) p).

Definition release (g : nat) (p : ControlPlane) : bool * ControlPlane :=
  let p := upd_gen g (add_refs (-1)) p in
  (gn_retired (gen_at p g) && (gn_refs (gen_at p g) =? 0), p).

(** [ControlPlane.Close]; [true]: the current server is to be closed. *)
Definition close_plane (p : ControlPlane) : bool * ControlPlane :=
  if pl_closed p then (false, p)
  else
    let g := pl_current p in
    let p := upd_gen g retire (with_closed true p) in
    (gn_refs (gen_at p g) =? 0, p).

(** ** Everything at once *)

(** A request holds a generation: an ordinary one, an administrative change
    (which also holds the mutex [changes]), or a long operation with the
    revision it started from. *)
Inductive request_kind := Plain | Mutation | Operation (revision : Z).
Record request := { rq_generation : nat; rq_kind : request_kind }.

(** [wd_closing] and [wd_closed]: the servers on which [Close] is about to be
    called, and has been called; [wd_prepared]: the servers built and neither
    published nor discarded. *)
Record world := {
  wd_plane : ControlPlane; wd_revision : Z; wd_busy : bool; wd_prepared : list nat; wd_requests : list request;
  wd_closing : list nat; wd_closed : list nat }.

Definition with_plane (p : ControlPlane) (w : world) : world :=
  {| wd_plane := p; wd_revision := wd_revision w; wd_busy := wd_busy w; wd_prepared := wd_prepared w; wd_requests := wd_requests w;
     wd_closing := wd_closing w; wd_closed := wd_closed w |}.

Definition request_of (g : nat) (k : request_kind) : request := {| rq_generation := g; rq_kind := k |}.
Definition is_mutation (k : request_kind) : bool := match k with Mutation => true | _ => false end.
Definition server_of (p : ControlPlane) (g : nat) : nat := gn_server (gen_at p g).
Definition if_closing (b : bool) (sid : nat) (l : list nat) : list nat := if b then sid :: l else l.

(** How a request enters ([ServeHTTP]): a change takes [changes] first, a long
    operation takes it for a moment and keeps the revision it was given. *)
Definition may_enter (k : request_kind) (w : world) : Prop :=
  match k with
  | Plain => True
  | Mutation => wd_busy w = false
  | Operation v => wd_busy w = false ∧ v <= wd_revision w
  end.

(** Who may publish: the change that holds [changes]; a long operation, under
    [changes], whose revision is still current ([commitOperation]); a batch
    of logins, under [changes], before the plane is closed
    ([saveScannedSession]). *)
Inductive publisher := ByRequest (i : nat) | ByBatch.
Definition may_publish (b : publisher) (w : world) : Prop :=
  match b with
  | ByRequest i =>
      match wd_requests w !! i with
      | Some {| rq_kind := Mutation |} => True
      | Some {| rq_kind := Operation v |} => wd_busy w = false ∧ v = wd_revision w
      | _ => False
      end
  | ByBatch => wd_busy w = false ∧ pl_closed (wd_plane w) = false
  end.

(** The router a request works on is that of its generation. *)
Definition routes (p : ControlPlane) (g : nat) (o : op) : Prop :=
  let rid := srv_Router <$> pl_servers p !! server_of p g in
  match o with
  | OpAcquire r _ _ | OpResume r _ _ | OpSetEnabled r _ _ => rid = Some r
  | OpReconfigure _ _ => False
  | _ => True
  end.

Inductive plane_step (w : world) : world → Prop :=
| ps_enter k g p :
    may_enter k w → acquire (wd_plane w) = (Some g, p) →
    plane_step w {| wd_plane := p; wd_revision := wd_revision w; wd_busy := wd_busy w || is_mutation k; wd_prepared := wd_prepared w;
      wd_requests := wd_requests w ++ [request_of g k]; wd_closing := wd_closing w; wd_closed := wd_closed w |}
| ps_leave i r b p :
    wd_requests w !! i = Some r → release (rq_generation r) (wd_plane w) = (b, p) →
    plane_step w {| wd_plane := p; wd_revision := wd_revision w; wd_busy := wd_busy w && negb (is_mutation (rq_kind r));
      wd_prepared := wd_prepared w; wd_requests := delete i (wd_requests w);
      wd_closing := if_closing b (server_of p (rq_generation r)) (wd_closing w); wd_closed := wd_closed w |}
| ps_client i r slot k p :
    wd_requests w !! i = Some r → client (server_of (wd_plane w) (rq_generation r)) slot (wd_plane w) = (k, p) →
    plane_step w (with_plane p w)
| ps_route i r o now :
    wd_requests w !! i = Some r → routes (wd_plane w) (rq_generation r) o →
    plane_step w (with_plane (with_heap (exec o now (pl_heap (wd_plane w))) (wd_plane w)) w)
| ps_prepare c sid p :
    new_server c (wd_plane w) = (sid, p) →
    plane_step w {| wd_plane := p; wd_revision := wd_revision w; wd_busy := wd_busy w; wd_prepared := sid :: wd_prepared w;
      wd_requests := wd_requests w; wd_closing := wd_closing w; wd_closed := wd_closed w |}
| ps_discard i sid :
    wd_prepared w !! i = Some sid →
    plane_step w {| wd_plane := Close sid (wd_plane w); wd_revision := wd_revision w; wd_busy := wd_busy w;
      wd_prepared := delete i (wd_prepared w); wd_requests := wd_requests w; wd_closing := wd_closing w;
      wd_closed := sid :: wd_closed w |}
| ps_publish by_ i sid now b p :
    may_publish by_ w → wd_prepared w !! i = Some sid → commit sid now (wd_plane w) = (b, p) →
    plane_step w {| wd_plane := p; wd_revision := wd_revision w + 1; wd_busy := wd_busy w; wd_prepared := delete i (wd_prepared w);
      wd_requests := wd_requests w;
      wd_closing := if_closing b (server_of (wd_plane w) (pl_current (wd_plane w))) (wd_closing w); wd_closed := wd_closed w |}
| ps_close b p :
    wd_busy w = false → close_plane (wd_plane w) = (b, p) →
    plane_step w {| wd_plane := p; wd_revision := wd_revision w; wd_busy := wd_busy w; wd_prepared := wd_prepared w;
      wd_requests := wd_requests w; wd_closing := if_closing b (server_of (wd_plane w) (pl_current (wd_plane w))) (wd_closing w);
      wd_closed := wd_closed w |}
| ps_finish i sid :
    wd_closing w !! i = Some sid →
    plane_step w {| wd_plane := Close sid (wd_plane w); wd_revision := wd_revision w; wd_busy := wd_busy w;
      wd_prepared := wd_prepared w; wd_requests := wd_requests w; wd_closing := delete i (wd_closing w);
      wd_closed := sid :: wd_closed w |}.

Definition boot_world (startup c : Config) (revision : Z) : world :=
  {| wd_plane := first_plane startup c; wd_revision := revision; wd_busy := false; wd_prepared := []; wd_requests := [];
     wd_closing := []; wd_closed := [] |}.
