(* ===== verification/ControlFacts.v ===== *)
(** * Who holds which generation

    The counters of the generations, the mutex of changes and the revisions of
    long operations: whoever publishes, the current generation is in use. *)

From S2P Require Import Prelude ConfigData RouterData RouterPolicy RouterOps RouterInv RouterReach RouterLeases Control.
Local Open Scope Z_scope.

(** ** Holders *)

Definition holders (l : list request) (g : nat) : nat := length (filter (λ r, rq_generation r = g) l).
Definition mutations (l : list request) : nat := length (filter (λ r, is_mutation (rq_kind r) = true) l).

Section Count.
Context {A} (P : A → Prop) `{∀ x, Decision (P x)}.

Lemma count_snoc l x : length (filter P (l ++ [x])) = (length (filter P l) + if decide (P x) then 1 else 0)%nat.
Proof. rewrite filter_app, length_app, filter_cons, filter_nil. by case_decide. Qed.

Lemma count_delete l i x : l !! i = Some x → length (filter P l) = (length (filter P (delete i l)) + if decide (P x) then 1 else 0)%nat.
Proof.
  intros Hi. rewrite (delete_Permutation l i x Hi) at 1. rewrite filter_cons. case_decide; simpl; lia.
Qed.
End Count.

Record refs_ok (w : world) : Prop := {
  ro_refs : ∀ g gen, pl_generations (wd_plane w) !! g = Some gen → gn_refs gen = Z.of_nat (holders (wd_requests w) g);
  ro_requests : ∀ r, r ∈ wd_requests w → is_Some (pl_generations (wd_plane w) !! rq_generation r);
  ro_current : is_Some (pl_generations (wd_plane w) !! pl_current (wd_plane w));
  ro_retired : ∀ g gen, pl_generations (wd_plane w) !! g = Some gen → g ≠ pl_current (wd_plane w) → gn_retired gen = true;
  ro_closed : gn_retired (gen_at (wd_plane w) (pl_current (wd_plane w))) = true → pl_closed (wd_plane w) = true;
  ro_next : ∀ g, is_Some (pl_generations (wd_plane w) !! g) → (g < pl_next (wd_plane w))%nat;
  ro_busy : mutations (wd_requests w) = if wd_busy w then 1%nat else 0%nat;
  ro_open : wd_busy w = true → pl_closed (wd_plane w) = false;
  ro_operations : ∀ r v, r ∈ wd_requests w → rq_kind r = Operation v →
    v <= wd_revision w ∧ (v = wd_revision w → rq_generation r = pl_current (wd_plane w)) }.

Lemma gen_at_lookup p g gen : pl_generations p !! g = Some gen → gen_at p g = gen.
Proof. unfold gen_at. by intros ->. Qed.

Lemma holders_pos l i r : l !! i = Some r → (0 < holders l (rq_generation r))%nat.
Proof. intros Hi. unfold holders. rewrite (count_delete _ _ _ _ Hi). rewrite decide_True by done. lia. Qed.

Lemma holders_out l g : (∀ r, r ∈ l → rq_generation r ≠ g) → holders l g = 0%nat.
Proof.
  intros Hl. unfold holders. induction l as [|r l IH]; [done|]. rewrite filter_cons, decide_False by (apply Hl; by left).
  apply IH. intros x Hx. apply Hl. by right.
Qed.

(** Whoever publishes, the current generation is not done with. *)
Lemma publish_live b w :
  refs_ok w → may_publish b w →
  gn_retired (gen_at (wd_plane w) (pl_current (wd_plane w))) = false ∨ gn_refs (gen_at (wd_plane w) (pl_current (wd_plane w))) ≠ 0.
Proof.
  intros Hw Hp. destruct (gn_retired _) eqn:Hr; [right|by left]. pose proof (ro_closed _ Hw Hr) as Hc.
  destruct b as [i|]; simpl in Hp; [|destruct Hp; congruence].
  destruct (wd_requests w !! i) as [[g [| |v]]|] eqn:Hi; [done| | |done].
  - exfalso. pose proof (ro_busy _ Hw) as Hb. unfold mutations in Hb. rewrite (count_delete _ _ _ _ Hi), decide_True in Hb by done.
    destruct (wd_busy w) eqn:Eb; [|lia]. pose proof (ro_open _ Hw Eb). congruence.
  - destruct Hp as [_ ->]. destruct (ro_operations _ Hw _ _ (list_elem_of_lookup_2 _ _ _ Hi) eq_refl) as [_ Hg].
    specialize (Hg eq_refl). simpl in Hg. destruct (ro_current _ Hw) as [gen Hgen]. rewrite (gen_at_lookup _ _ _ Hgen), (ro_refs _ Hw _ _ Hgen).
    pose proof (holders_pos _ _ _ Hi) as Hpos. simpl in Hpos. rewrite Hg in Hpos. lia.
Qed.

(** Steps that leave generations and requests alone. *)
Lemma refs_same w w' :
  pl_generations (wd_plane w') = pl_generations (wd_plane w) → pl_current (wd_plane w') = pl_current (wd_plane w) →
  pl_closed (wd_plane w') = pl_closed (wd_plane w) → (pl_next (wd_plane w) ≤ pl_next (wd_plane w'))%nat →
  wd_requests w' = wd_requests w → wd_busy w' = wd_busy w → wd_revision w' = wd_revision w → refs_ok w → refs_ok w'.
Proof.
  intros Eg Ec Ed Hn Er Eb Ev [H1 H2 H3 H4 H5 H6 H7 H8 H9]. unfold gen_at in *.
  constructor; unfold gen_at; rewrite ?Eg, ?Ec, ?Ed, ?Er, ?Eb, ?Ev; try done.
  intros g Hg. specialize (H6 g Hg). lia.
Qed.

Lemma gen_upd p g f g' :
  pl_generations (upd_gen g f p) !! g' = if decide (g = g') then Some (f (gen_at p g)) else pl_generations p !! g'.
Proof. unfold upd_gen. simpl. by rewrite lookup_insert. Qed.

Lemma gen_upd_at p g f g' : gen_at (upd_gen g f p) g' = if decide (g = g') then f (gen_at p g) else gen_at p g'.
Proof. unfold gen_at at 1. rewrite gen_upd. by case_decide. Qed.

Lemma holders_snoc l g k g' : holders (l ++ [request_of g k]) g' = (holders l g' + if decide (g = g') then 1 else 0)%nat.
Proof. unfold holders. by rewrite count_snoc. Qed.

Lemma refs_enter w k g p :
  refs_ok w → may_enter k w → acquire (wd_plane w) = (Some g, p) →
  refs_ok {| wd_plane := p; wd_revision := wd_revision w; wd_busy := wd_busy w || is_mutation k; wd_prepared := wd_prepared w;
    wd_requests := wd_requests w ++ [request_of g k]; wd_closing := wd_closing w; wd_closed := wd_closed w |}.
Proof.
  intros Hw Hk. pose proof Hw as [H1 H2 H3 H4 H5 H6 H7 H8 H9]. unfold acquire. destruct (pl_closed (wd_plane w)) eqn:Hc; [done|].
  intros [= <- <-]. destruct H3 as [gen Hgen]. pose proof (gen_at_lookup _ _ _ Hgen) as Eg.
  constructor; cbn [wd_plane wd_requests wd_busy wd_revision].
  - intros g' gen'. rewrite gen_upd, holders_snoc, Eg. case_decide as E.
    + intros [= <-]. subst g'. simpl. rewrite (H1 _ _ Hgen). lia.
    + intros Hg'. rewrite (H1 _ _ Hg'). lia.
  - intros r Hr. rewrite gen_upd. case_decide; [by eexists|]. apply elem_of_app in Hr as [Hr| ->%list_elem_of_singleton]; [by apply H2|done].
  - rewrite gen_upd, decide_True by done. by eexists.
  - intros g' gen'. rewrite gen_upd. case_decide as E; [subst g'; intros _ Hne; by destruct (Hne eq_refl)|]. apply H4.
  - rewrite gen_upd_at. cbn [upd_gen with_generations pl_current pl_closed]. rewrite decide_True by done. intros Hr. by rewrite <-(H5 Hr).
  - intros g'. rewrite gen_upd. case_decide as E; [subst g'; intros _|]; apply H6. by eexists.
  - unfold mutations. rewrite count_snoc. fold (mutations (wd_requests w)). rewrite H7. simpl. destruct k; simpl in *; [by destruct (wd_busy w)|by rewrite Hk|].
    by destruct (wd_busy w).
  - intros _. exact Hc.
  - intros r v [Hr| ->%list_elem_of_singleton]%elem_of_app Hv; [by apply (H9 r v)|]. simpl in Hv. subst k. simpl in Hk. split; [apply Hk|done].
Qed.

Lemma refs_leave w i r b p l :
  refs_ok w → wd_requests w !! i = Some r → release (rq_generation r) (wd_plane w) = (b, p) →
  refs_ok {| wd_plane := p; wd_revision := wd_revision w; wd_busy := wd_busy w && negb (is_mutation (rq_kind r)); wd_prepared := wd_prepared w;
    wd_requests := delete i (wd_requests w); wd_closing := l; wd_closed := wd_closed w |}.
Proof.
  intros [H1 H2 H3 H4 H5 H6 H7 H8 H9] Hi. unfold release. intros [= _ <-].
  pose proof (list_elem_of_lookup_2 _ _ _ Hi) as Hin. destruct (H2 r Hin) as [gen Hgen]. pose proof (gen_at_lookup _ _ _ Hgen) as Eg.
  assert (Hsub : ∀ x, x ∈ delete i (wd_requests w) → x ∈ wd_requests w).
  { intros x Hx. rewrite (delete_Permutation _ _ _ Hi). by right. }
  constructor; cbn [wd_plane wd_requests wd_busy wd_revision].
  - intros g' gen'. rewrite gen_upd, Eg. unfold holders. case_decide as E.
    + intros [= <-]. subst g'. simpl. rewrite (H1 _ _ Hgen). unfold holders. rewrite (count_delete _ _ _ _ Hi), decide_True by done. lia.
    + intros Hg'. rewrite (H1 _ _ Hg'). unfold holders. rewrite (count_delete _ _ _ _ Hi), decide_False by done. lia.
  - intros x Hx. rewrite gen_upd. case_decide; [by eexists|]. by apply H2, Hsub.
  - rewrite gen_upd. case_decide; [by eexists|done].
  - intros g' gen'. rewrite gen_upd, Eg. case_decide as E; [subst g'; intros [= <-] Hne; simpl; by apply (H4 _ _ Hgen)|]. apply H4.
  - rewrite gen_upd_at. cbn [upd_gen with_generations pl_current pl_closed]. intros Hr. apply H5. by case_decide as E; [rewrite <-E|].
  - intros g'. rewrite gen_upd. case_decide as E; [subst g'; intros _|]; apply H6. by eexists.
  - unfold mutations in *. rewrite (count_delete _ _ _ _ Hi) in H7. destruct (is_mutation (rq_kind r)) eqn:Em; simpl in H7;
      destruct (wd_busy w); simpl; lia.
  - intros [Hb _]%andb_true_iff. by apply H8.
  - intros x v Hx Hv. by apply (H9 x v (Hsub x Hx)).
Qed.

Lemma refs_close w b p l :
  refs_ok w → wd_busy w = false → close_plane (wd_plane w) = (b, p) →
  refs_ok {| wd_plane := p; wd_revision := wd_revision w; wd_busy := wd_busy w; wd_prepared := wd_prepared w;
    wd_requests := wd_requests w; wd_closing := l; wd_closed := wd_closed w |}.
Proof.
  intros Hw Hb. pose proof Hw as [H1 H2 H3 H4 H5 H6 H7 H8 H9]. unfold close_plane. destruct (pl_closed (wd_plane w)) eqn:Hc.
  { intros [= _ <-]. by apply (refs_same w). }
  intros [= _ <-]. destruct H3 as [gen Hgen]. pose proof (gen_at_lookup _ _ _ Hgen) as Eg.
  assert (Eg' : gen_at (with_closed true (wd_plane w)) (pl_current (wd_plane w)) = gen) by done.
  constructor; cbn [wd_plane wd_requests wd_busy wd_revision].
  - intros g' gen'. rewrite gen_upd, Eg'. case_decide as E; [subst g'; intros [= <-]; exact (H1 _ _ Hgen)|apply H1].
  - intros r Hr. rewrite gen_upd. case_decide; [by eexists|]. by apply H2.
  - rewrite gen_upd, decide_True by done. by eexists.
  - intros g' gen'. rewrite gen_upd. case_decide as E; [subst g'; intros _ Hne; by destruct (Hne eq_refl)|]. apply H4.
  - done.
  - intros g'. rewrite gen_upd. case_decide as E; [subst g'; intros _|]; apply H6. by eexists.
  - done.
  - by rewrite Hb.
  - done.
Qed.

(** The parts of a commit that matters here. *)
Lemma commit_generations sid now p b p' g' :
  commit sid now p = (b, p') → is_Some (pl_servers p !! sid) → is_Some (pl_servers p !! gn_server (gen_at p (pl_current p))) →
  (is_Some (pl_generations p !! pl_current p) → pl_current p < pl_next p)%nat →
  is_Some (pl_generations p !! pl_current p) →
  pl_generations p' !! g' = (if decide (pl_next p = g') then Some {| gn_server := sid; gn_refs := 0; gn_retired := false |}
    else if decide (pl_current p = g') then Some (retire (gen_at p (pl_current p))) else pl_generations p !! g')
  ∧ pl_current p' = pl_next p ∧ pl_next p' = S (pl_next p) ∧ pl_closed p' = pl_closed p
  ∧ b = (gn_refs (gen_at p (pl_current p)) =? 0).
Proof.
  intros Hc [s Hs] [o Ho] Hlt Hcur. unfold commit in Hc. rewrite Hs, Ho in Hc. injection Hc as <- <-.
  split_and!; try done.
  - cbn [with_next with_current with_generations pl_generations]. rewrite lookup_insert. case_decide; [done|].
    cbn [upd_gen with_generations with_heap with_servers pl_generations]. by rewrite lookup_insert.
  - unfold gen_at at 1. simpl. rewrite lookup_insert_ne by (apply Hlt in Hcur; lia). by rewrite lookup_insert_eq.
Qed.

Lemma refs_publish w by_ sid now b p l l' :
  refs_ok w → may_publish by_ w → is_Some (pl_servers (wd_plane w) !! sid) →
  is_Some (pl_servers (wd_plane w) !! server_of (wd_plane w) (pl_current (wd_plane w))) → commit sid now (wd_plane w) = (b, p) →
  refs_ok {| wd_plane := p; wd_revision := wd_revision w + 1; wd_busy := wd_busy w; wd_prepared := l';
    wd_requests := wd_requests w; wd_closing := l; wd_closed := wd_closed w |}.
Proof.
  intros [H1 H2 H3 H4 H5 H6 H7 H8 H9] Hp Hs Ho Hc. pose proof H3 as [gen Hgen]. pose proof (gen_at_lookup _ _ _ Hgen) as Eg.
  assert (Hg : ∀ g', _) by exact (λ g', proj1 (commit_generations _ _ _ _ _ g' Hc Hs Ho (H6 _) H3)).
  destruct (commit_generations _ _ _ _ _ 0%nat Hc Hs Ho (H6 _) H3) as (_ & Ec & En & Ed & _). clear Hc.
  assert (Hfresh : holders (wd_requests w) (pl_next (wd_plane w)) = 0%nat).
  { apply holders_out. intros r Hr E. specialize (H6 _ (H2 r Hr)). lia. }
  constructor; cbn [wd_plane wd_requests wd_busy wd_revision]; rewrite ?Ec, ?En, ?Ed.
  - intros g' gen'. rewrite Hg, Eg. case_decide as E; [subst g'; intros [= <-]; by rewrite Hfresh|].
    case_decide as E'; [subst g'; intros [= <-]; exact (H1 _ _ Hgen)|apply H1].
  - intros r Hr. rewrite Hg. repeat case_decide; try by eexists. by apply H2.
  - rewrite Hg, decide_True by done. by eexists.
  - intros g' gen'. rewrite Hg. case_decide as E; [subst g'; intros _ Hne; by destruct (Hne eq_refl)|].
    case_decide as E'; [subst g'; by intros [= <-]|]. intros Hg' _. by apply (H4 g').
  - unfold gen_at. by rewrite Hg, decide_True.
  - intros g'. rewrite Hg. repeat case_decide; subst; intros Hi; [lia| |]; [specialize (H6 _ H3)|specialize (H6 _ Hi)]; lia.
  - done.
  - done.
  - intros r v Hr Hv. destruct (H9 r v Hr Hv) as [Hle _]. split; lia.
Qed.
