(* ===== verification/ControlServers.v ===== *)
(** * Which servers are closed, and whose clients are open

    A server is closed once, when its generation is done with or it was never
    published; a client is closed with its server, once. *)

From S2P Require Import Prelude ConfigData RouterData RouterPolicy RouterOps RouterInv RouterReach RouterLeases Control ControlFacts.
Local Open Scope Z_scope.

(** ** Servers *)

(** A generation nobody will hold again. *)
Definition done_with (g : generation) : Prop := gn_retired g = true ∧ gn_refs g = 0.

Record servers_ok (gs : gmap nat generation) (ss : gmap nat Server) (prepared closing closed : list nat) (next : nat) : Prop := {
  so_server : ∀ g gen, gs !! g = Some gen → is_Some (ss !! gn_server gen);
  so_inj : ∀ g gen g' gen', gs !! g = Some gen → gs !! g' = Some gen' → gn_server gen = gn_server gen' → g = g';
  so_prepared : ∀ sid, sid ∈ prepared →
    is_Some (ss !! sid) ∧ sid ∉ closing ++ closed ∧ ∀ g gen, gs !! g = Some gen → gn_server gen ≠ sid;
  so_nodup : NoDup prepared;
  so_once : NoDup (closing ++ closed);
  so_done : ∀ g gen, gs !! g = Some gen → (gn_server gen ∈ closing ++ closed ↔ done_with gen);
  so_closing : ∀ sid, sid ∈ closing ++ closed → is_Some (ss !! sid);
  so_all : ∀ sid, is_Some (ss !! sid) → sid ∈ prepared ∨ sid ∈ closed ∨ ∃ g gen, gs !! g = Some gen ∧ gn_server gen = sid;
  so_next : ∀ sid, is_Some (ss !! sid) → (sid < next)%nat }.

(** The counter or the retirement of a generation still in use changes; when
    that ends its use, its server is about to be closed. *)
Lemma servers_gen gs ss prepared closing closed next g gen gen' (b : bool) :
  servers_ok gs ss prepared closing closed next →
  gs !! g = Some gen → gn_server gen' = gn_server gen → ¬ done_with gen → (b = true ↔ done_with gen') →
  servers_ok (<[g := gen']> gs) ss prepared (if_closing b (gn_server gen) closing) closed next.
Proof.
  intros [H1 H2 H3 H4 H5 H6 H7 H8 H9] Hg Es Hnd Hb.
  assert (Hnew : gn_server gen ∉ closing ++ closed) by (intros Hin; by apply Hnd, (H6 _ _ Hg)).
  assert (Hin : ∀ x, x ∈ if_closing b (gn_server gen) closing ++ closed ↔ (b = true ∧ x = gn_server gen) ∨ x ∈ closing ++ closed).
  { intros x. unfold if_closing. destruct b; simpl; [rewrite elem_of_cons|]; naive_solver. }
  assert (Hlook : ∀ g' x, <[g := gen']> gs !! g' = Some x → (g' = g ∧ x = gen') ∨ (g' ≠ g ∧ gs !! g' = Some x)).
  { intros g' x. rewrite lookup_insert. case_decide; [subst; intros [= <-]; by left|]. intros ?. right. by split. }
  constructor.
  - intros g' x [[-> ->]|[_ Hx]]%Hlook; [rewrite Es|]; eauto.
  - intros g1 x1 g2 x2 [[-> ->]|[_ Hx1]]%Hlook [[-> ->]|[_ Hx2]]%Hlook; rewrite ?Es; intros E; eauto.
  - intros sid Hs. destruct (H3 sid Hs) as (P1 & P2 & P3). split_and!; [done| |].
    + rewrite Hin. intros [[_ ->]|?]; [by apply (P3 g gen)|done].
    + intros g' x [[-> ->]|[_ Hx]]%Hlook; [rewrite Es|]; eauto.
  - done.
  - unfold if_closing. destruct b; [|done]. simpl. by constructor.
  - intros g' x [[-> ->]|[Hne Hx]]%Hlook; rewrite Hin.
    + rewrite Es. rewrite <-Hb. split; [by intros [[? _]|?]|intros ->; by left].
    + rewrite <-(H6 _ _ Hx). split; [intros [[_ E]|?]; [by destruct (Hne (H2 _ _ _ _ Hx Hg E))|done]|by right].
  - intros sid [[_ ->]|Hs]%Hin; eauto.
  - intros sid Hs. destruct (H8 sid Hs) as [?|[?|(g' & x & Hx & E)]]; [by left|by right; left|]. right. right.
    destruct (decide (g' = g)) as [->|Hne]; [exists g, gen'|exists g', x]; rewrite lookup_insert; [rewrite decide_True by done|rewrite decide_False by done];
      split; congruence.
  - done.
Qed.

(** A new server waits to be published. *)
Lemma servers_prepare gs ss prepared closing closed next sid s next' :
  servers_ok gs ss prepared closing closed next → (next ≤ sid < next')%nat →
  servers_ok gs (<[sid := s]> ss) (sid :: prepared) closing closed next'.
Proof.
  intros [H1 H2 H3 H4 H5 H6 H7 H8 H9] Hn.
  assert (Hfresh : ¬ is_Some (ss !! sid)) by (intros Hs; apply H9 in Hs; lia).
  assert (Hmono : ∀ x, is_Some (ss !! x) → is_Some (<[sid := s]> ss !! x)) by (intros; rewrite lookup_insert_is_Some'; by right).
  constructor; try done.
  - intros g gen Hg. eauto.
  - intros x [->|Hx]%elem_of_cons.
    + split_and!; [rewrite lookup_insert_eq; by eexists|intros Hc; by apply Hfresh, H7|]. intros g gen Hg <-. eauto.
    + destruct (H3 x Hx) as (P1 & P2 & P3). eauto.
  - constructor; [|done]. intros Hx. by apply Hfresh, H3.
  - intros x Hx. eauto.
  - intros x. rewrite lookup_insert_is_Some'. intros [->|Hx]; [left; by left|]. destruct (H8 x Hx) as [?|?]; [left; by right|by right].
  - intros x. rewrite lookup_insert_is_Some'. intros [->|Hx]; [lia|]. apply H9 in Hx. lia.
Qed.

(** A prepared server is published as a generation of its own. *)
Lemma servers_publish gs ss prepared closing closed next i sid g next' :
  servers_ok gs ss prepared closing closed next → prepared !! i = Some sid → gs !! g = None → (next ≤ next')%nat →
  servers_ok (<[g := {| gn_server := sid; gn_refs := 0; gn_retired := false |}]> gs) ss (delete i prepared) closing closed next'.
Proof.
  intros [H1 H2 H3 H4 H5 H6 H7 H8 H9] Hi Hg Hn.
  pose proof (delete_Permutation _ _ _ Hi) as Hperm. destruct (H3 sid (list_elem_of_lookup_2 _ _ _ Hi)) as (P1 & P2 & P3).
  assert (Hnd : NoDup (sid :: delete i prepared)) by by rewrite <-Hperm. apply NoDup_cons in Hnd as [Hnin Hnd].
  set (new := {| gn_server := sid; gn_refs := 0; gn_retired := false |}).
  assert (Hlook : ∀ g' x, <[g := new]> gs !! g' = Some x → (g' = g ∧ x = new) ∨ gs !! g' = Some x).
  { intros g' x. rewrite lookup_insert. case_decide; [subst; intros [= <-]; by left|]. by right. }
  assert (Hsub : ∀ x, x ∈ delete i prepared → x ∈ prepared) by (intros x Hx; rewrite Hperm; by right).
  constructor; try done.
  - intros g' x [[-> ->]|Hx]%Hlook; eauto.
  - intros g1 x1 g2 x2 [[-> ->]|Hx1]%Hlook [[-> ->]|Hx2]%Hlook E; [done| | |eauto]; simpl in E; [by destruct (P3 _ _ Hx2)|by destruct (P3 _ _ Hx1)].
  - intros x Hx. destruct (H3 x (Hsub x Hx)) as (Q1 & Q2 & Q3). split_and!; [done..|].
    intros g' y [[-> ->]|Hy]%Hlook; [simpl; intros ->; done|eauto].
  - intros g' x [[-> ->]|Hx]%Hlook; [|eauto]. unfold done_with. simpl. split; [done|by intros [? _]].
  - intros x Hx. destruct (H8 x Hx) as [Hp|[?|(g' & y & Hy & E)]]; [|by right; left|].
    + rewrite Hperm in Hp. apply elem_of_cons in Hp as [->|?]; [right; right|by left]. exists g, new. by rewrite lookup_insert_eq.
    + right. right. exists g', y. split; [|done]. rewrite lookup_insert_ne; [done|]. intros ->. congruence.
  - intros x Hx. specialize (H9 x Hx). lia.
Qed.

(** A server prepared or about to be closed is closed. *)
Lemma servers_discard gs ss prepared closing closed next i sid :
  servers_ok gs ss prepared closing closed next → prepared !! i = Some sid →
  servers_ok gs ss (delete i prepared) closing (sid :: closed) next.
Proof.
  intros [H1 H2 H3 H4 H5 H6 H7 H8 H9] Hi. pose proof (delete_Permutation _ _ _ Hi) as Hperm.
  destruct (H3 sid (list_elem_of_lookup_2 _ _ _ Hi)) as (P1 & P2 & P3).
  assert (Hnd : NoDup (sid :: delete i prepared)) by by rewrite <-Hperm. apply NoDup_cons in Hnd as [Hnin Hnd].
  assert (Hin : ∀ x, x ∈ closing ++ sid :: closed ↔ x = sid ∨ x ∈ closing ++ closed).
  { intros x. rewrite !elem_of_app, elem_of_cons. tauto. }
  constructor; try done.
  - intros x Hx. destruct (H3 x) as (Q1 & Q2 & Q3); [rewrite Hperm; by right|]. split_and!; [done| |done].
    rewrite Hin. intros [->|?]; done.
  - rewrite <-Permutation_middle. by constructor.
  - intros g gen Hg. rewrite Hin, <-(H6 _ _ Hg). split; [intros [E|?]; [by destruct (P3 _ _ Hg)|done]|by right].
  - intros x [->|Hx]%Hin; eauto.
  - intros x Hx. destruct (H8 x Hx) as [Hp|[?|?]]; [|right; left; by right|by right; right].
    rewrite Hperm in Hp. apply elem_of_cons in Hp as [->|?]; [right; left; by left|by left].
Qed.

Lemma servers_finish gs ss prepared closing closed next i sid :
  servers_ok gs ss prepared closing closed next → closing !! i = Some sid →
  servers_ok gs ss prepared (delete i closing) (sid :: closed) next.
Proof.
  intros [H1 H2 H3 H4 H5 H6 H7 H8 H9] Hi. pose proof (delete_Permutation _ _ _ Hi) as Hperm.
  assert (E : delete i closing ++ sid :: closed ≡ₚ closing ++ closed) by (rewrite <-Permutation_middle; exact (Permutation_app_tail closed (symmetry Hperm))).
  constructor; try done.
  - intros x Hx. destruct (H3 x Hx) as (Q1 & Q2 & Q3). split_and!; [done| |done]. by rewrite E.
  - by rewrite E.
  - intros g gen Hg. rewrite E. eauto.
  - intros x. rewrite E. eauto.
  - intros x Hx. destruct (H8 x Hx) as [?|[?|?]]; [by left|right; left; by right|by right; right].
Qed.

Lemma servers_same gs ss ss' prepared closing closed next next' :
  servers_ok gs ss prepared closing closed next → (∀ sid, is_Some (ss' !! sid) ↔ is_Some (ss !! sid)) → (next ≤ next')%nat →
  servers_ok gs ss' prepared closing closed next'.
Proof.
  intros [H1 H2 H3 H4 H5 H6 H7 H8 H9] E Hn. constructor; try done.
  - intros g gen Hg. rewrite E. eauto.
  - intros sid Hs. rewrite E. by apply H3.
  - intros sid Hs. rewrite E. eauto.
  - intros sid. rewrite E. apply H8.
  - intros sid. rewrite E. intros Hs. specialize (H9 sid Hs). lia.
Qed.

(** ** Clients *)

Definition owns (ss : gmap nat Server) (k sid i : nat) : Prop :=
  ∃ s slot, ss !! sid = Some s ∧ srv_clients s !! i = Some slot ∧ sl_client slot = Some k.

Record clients_ok (ss : gmap nat Server) (cl : gmap nat nat) (closed : list nat) (next : nat) : Prop := {
  co_slot : ∀ sid s i slot, ss !! sid = Some s → srv_clients s !! i = Some slot →
    (sid ∈ closed → sl_once slot = true) ∧ (sid ∉ closed → sl_once slot = true ↔ is_Some (sl_client slot));
  co_count : ∀ k sid i, owns ss k sid i → cl !! k = Some (if decide (sid ∈ closed) then 1 else 0)%nat;
  co_inj : ∀ k sid i sid' i', owns ss k sid i → owns ss k sid' i' → sid = sid' ∧ i = i';
  co_all : ∀ k, is_Some (cl !! k) → ∃ sid i, owns ss k sid i;
  co_next : ∀ k, is_Some (cl !! k) → (k < next)%nat }.

Lemma fold_close l m k :
  NoDup (omap sl_client l) → fold_left close_client l m !! k = if decide (k ∈ omap sl_client l) then S <$> m !! k else m !! k.
Proof.
  revert m. induction l as [|slot l IH]; intros m; cbn [omap list_omap]; [done|]. simpl. unfold close_client at 2.
  destruct (sl_client slot) as [k'|]; [|apply IH]. intros [Hn Hnd]%NoDup_cons. rewrite IH by done. rewrite lookup_alter.
  destruct (decide (k' = k)) as [->|Hne].
  - rewrite decide_False by done. by rewrite decide_True by (by left).
  - destruct (decide (k ∈ omap sl_client l)); [rewrite decide_True by (by right)|rewrite decide_False by (rewrite elem_of_cons; naive_solver)]; done.
Qed.

(** The clients of one server are different. *)
Lemma server_clients_nodup ss cl closed next sid s :
  clients_ok ss cl closed next → ss !! sid = Some s → NoDup (omap sl_client (srv_clients s)).
Proof.
  intros Hc Hs. assert (Hall : ∀ i j a b k, srv_clients s !! i = Some a → srv_clients s !! j = Some b →
    sl_client a = Some k → sl_client b = Some k → i = j).
  { intros i j a b k Ha Hb Ea Eb. by apply (co_inj _ _ _ _ Hc k sid i sid j); [exists s, a|exists s, b]. }
  clear Hc Hs. induction (srv_clients s) as [|slot l IH]; [constructor|]. cbn [omap list_omap].
  assert (Htl : NoDup (omap sl_client l)).
  { apply IH. intros i j a b k Ha Hb Ea Eb. by injection (Hall (S i) (S j) a b k Ha Hb Ea Eb). }
  destruct (sl_client slot) as [k|] eqn:Ek; [|done]. constructor; [|done].
  intros (x & Hx & Ex)%list_elem_of_omap. apply list_elem_of_lookup in Hx as [j Hj].
  discriminate (Hall 0%nat (S j) slot x k eq_refl Hj Ek Ex).
Qed.

Lemma owns_slots ss sid s l k sid' i :
  ss !! sid = Some s → (∀ i, sl_client <$> l !! i = sl_client <$> srv_clients s !! i) →
  owns (<[sid := with_slots l s]> ss) k sid' i ↔ owns ss k sid' i.
Proof.
  intros Hs Hl. unfold owns. setoid_rewrite lookup_insert. case_decide as E; [subst sid'|done]. specialize (Hl i). split.
  - intros (x & slot & [= <-] & Hi & Hk). simpl in Hi. rewrite Hi in Hl. destruct (srv_clients s !! i) as [a|] eqn:Ha; [|done].
    exists s, a. injection Hl as Hl. by rewrite <-Hl.
  - intros (x & slot & Hx & Hi & Hk). rewrite Hs in Hx. injection Hx as <-. rewrite Hi in Hl.
    destruct (l !! i) as [a|] eqn:Ha; [|done]. exists (with_slots l s), a. injection Hl as Hl. by rewrite Hl.
Qed.

(** A client made in an empty slot is the only new one. *)
Lemma owns_slot_new ss sid s i slot k0 :
  ss !! sid = Some s → srv_clients s !! i = Some slot → sl_client slot = None →
  ∀ k x j, owns (<[sid := with_slots (<[i := {| sl_once := true; sl_client := Some k0 |}]> (srv_clients s)) s]> ss) k x j
  ↔ (k = k0 ∧ x = sid ∧ j = i) ∨ owns ss k x j.
Proof.
  intros Hs Hi Ek k x j. assert (Hlt : (i < length (srv_clients s))%nat) by (apply lookup_lt_is_Some; by eexists).
  set (s' := with_slots _ s). unfold owns. setoid_rewrite lookup_insert. destruct (decide (sid = x)) as [<-|Hne]; [|naive_solver].
  destruct (decide (j = i)) as [->|Hj].
  - split; [|intros [(-> & _ & _)|(y & a & Hy & Ha & Ea)]; [|congruence]].
    + intros (y & a & [= <-] & Ha & Ea). simpl in Ha. rewrite list_lookup_insert_eq in Ha by done. injection Ha as <-. left.
      injection Ea as <-. done.
    + exists s', {| sl_once := true; sl_client := Some k0 |}. split_and!; [done| |done]. simpl. by rewrite list_lookup_insert_eq.
  - split; [|intros [(_ & _ & ->)|(y & a & Hy & Ha & Ea)]; [done|]].
    + intros (y & a & [= <-] & Ha & Ea). simpl in Ha. rewrite list_lookup_insert_ne in Ha by done. right. by exists s, a.
    + exists s', a. split_and!; [done| |done]. simpl. rewrite list_lookup_insert_ne by done. congruence.
Qed.

Lemma owns_same ss ss' k sid i :
  (∀ sid, srv_clients <$> ss' !! sid = srv_clients <$> ss !! sid) → owns ss' k sid i ↔ owns ss k sid i.
Proof.
  intros E. unfold owns. specialize (E sid). split; intros (s & a & Hs & Ha & Ek); rewrite Hs in E; simpl in E.
  - destruct (ss !! sid) as [t|]; [|done]. injection E as E. exists t, a. by rewrite <-E.
  - destruct (ss' !! sid) as [t|]; [|done]. injection E as E. exists t, a. by rewrite E.
Qed.

Lemma owns_new ss sid s :
  ss !! sid = None → (∀ slot, slot ∈ srv_clients s → slot = zero_slot) → ∀ k x i, owns (<[sid := s]> ss) k x i ↔ owns ss k x i.
Proof.
  intros Hf Hz k x i. unfold owns. setoid_rewrite lookup_insert. case_decide as E; [|done]. subst x. rewrite Hf.
  split; [|by intros (? & ? & ? & _)]. intros (t & a & [= <-] & Ha & Ek). apply list_elem_of_lookup_2, Hz in Ha as ->. done.
Qed.

Lemma owns_close sid p k x i : owns (pl_servers (Close sid p)) k x i ↔ owns (pl_servers p) k x i.
Proof.
  unfold Close. destruct (pl_servers p !! sid) as [s|] eqn:Hs; [|done]. apply owns_slots; [done|]. intros j.
  rewrite list_lookup_fmap. by destruct (srv_clients s !! j).
Qed.

Lemma clients_close p closed sid :
  clients_ok (pl_servers p) (pl_clients p) closed (pl_next p) → is_Some (pl_servers p !! sid) → sid ∉ closed →
  clients_ok (pl_servers (Close sid p)) (pl_clients (Close sid p)) (sid :: closed) (pl_next (Close sid p)).
Proof.
  intros Hc [s Hs] Hn. pose proof (owns_close sid p) as Ho. unfold Close in *. rewrite Hs in *. cbn [with_clients with_servers pl_servers pl_clients pl_next] in *.
  pose proof (server_clients_nodup _ _ _ _ _ _ Hc Hs) as Hnd.
  assert (Hin : ∀ k, k ∈ omap sl_client (srv_clients s) ↔ ∃ i, owns (pl_servers p) k sid i).
  { intros k. rewrite list_elem_of_omap. split.
    - intros (a & Ha & Ek). apply list_elem_of_lookup in Ha as [i Hi]. by exists i, s, a.
    - intros (i & x & a & Hx & Hi & Ek). rewrite Hs in Hx. injection Hx as <-. exists a. split; [by eapply list_elem_of_lookup_2|done]. }
  destruct Hc as [H1 H2 H3 H4 H5]. constructor.
  - intros x sx i slot. rewrite lookup_insert, not_elem_of_cons, elem_of_cons. case_decide as E.
    + subst x. intros [= <-]. simpl. rewrite list_lookup_fmap. intros (a & Ha & ->)%fmap_Some_1. split; [done|]. by intros [? _].
    + intros Hx Hi. destruct (H1 _ _ _ _ Hx Hi) as [P1 P2]. split; [intros [->|?]; [done|by apply P1]|intros [_ ?]; by apply P2].
  - intros k x i Hk. apply Ho in Hk. rewrite fold_close by done. rewrite (H2 _ _ _ Hk).
    destruct (decide (x = sid)) as [->|Hne].
    + rewrite decide_True by (apply Hin; by exists i). rewrite decide_False by done. rewrite decide_True by (by left). done.
    + rewrite decide_False by (intros (j & Hj)%Hin; by destruct (H3 _ _ _ _ _ Hk Hj)).
      destruct (decide (x ∈ closed)); [rewrite decide_True by (by right)|rewrite decide_False by (rewrite elem_of_cons; naive_solver)]; done.
  - intros k x i x' i' Hk Hk'. apply Ho in Hk, Hk'. eauto.
  - intros k Hk. setoid_rewrite Ho. apply H4. rewrite fold_close in Hk by done. case_decide; [by apply fmap_is_Some in Hk|done].
  - intros k Hk. apply H5. rewrite fold_close in Hk by done. case_decide; [by apply fmap_is_Some in Hk|done].
Qed.

(** A slot of an open server makes its client, or has made it. *)
Lemma clients_client p closed sid i k p' :
  clients_ok (pl_servers p) (pl_clients p) closed (pl_next p) → sid ∉ closed → client sid i p = (k, p') →
  clients_ok (pl_servers p') (pl_clients p') closed (pl_next p')
  ∧ (∀ s, pl_servers p !! sid = Some s → (i < length (srv_clients s))%nat → ∃ k', k = Some k' ∧ pl_clients p' !! k' = Some 0%nat)
  ∧ (∀ x, is_Some (pl_servers p' !! x) ↔ is_Some (pl_servers p !! x)).
Proof.
  intros Hc Hn. unfold client. destruct (pl_servers p !! sid) as [s|] eqn:Hs; [|by intros [= <- <-]].
  destruct (srv_clients s !! i) as [slot|] eqn:Hi.
  2:{ intros [= <- <-]. split; [done|]. split; [|done]. intros x [= <-] Hlt%lookup_lt_is_Some. rewrite Hi in Hlt. by destruct Hlt. }
  destruct (co_slot _ _ _ _ Hc _ _ _ _ Hs Hi) as [_ Honce]. specialize (Honce Hn). destruct (sl_once slot) eqn:Eo.
  { intros [= <- <-]. split; [done|]. split; [|done]. intros _ _ _. destruct (proj1 Honce eq_refl) as [k' Hk']. exists k'. split; [done|].
    rewrite (co_count _ _ _ _ Hc k' sid i) by (by exists s, slot). by rewrite decide_False. }
  assert (Ek : sl_client slot = None) by (destruct (sl_client slot); [by apply proj2 in Honce; discriminate Honce; eexists|done]).
  set (k0 := pl_next p). intros [= <- <-]. cbn [with_next with_clients with_servers pl_servers pl_clients pl_next].
  set (s' := with_slots _ s).
  split; [|split; [intros _ _ _; exists k0; by rewrite lookup_insert_eq|]].
  2:{ intros x. rewrite lookup_insert_is_Some'. split; [intros [<-|?]; [by eexists|done]|by right]. }
  pose proof (owns_slot_new _ _ _ _ _ k0 Hs Hi Ek) as Ho. fold s' in Ho.
  assert (Hlt : (i < length (srv_clients s))%nat) by (apply lookup_lt_is_Some; by eexists).
  assert (Hfresh : ∀ x j, ¬ owns (pl_servers p) k0 x j).
  { intros x j Hk. apply (co_count _ _ _ _ Hc) in Hk. pose proof (co_next _ _ _ _ Hc k0 ltac:(by eexists)). unfold k0 in *. lia. }
  destruct Hc as [H1 H2 H3 H4 H5]. constructor.
  - intros x sx j a. rewrite lookup_insert. case_decide as E; [|eauto]. subst x. intros [= <-]. simpl.
    destruct (decide (j = i)) as [->|Hj]; [rewrite list_lookup_insert_eq by done; intros [= <-]; split; [done|]; intros _; split; [by eexists|done]|].
    rewrite list_lookup_insert_ne by done. eauto.
  - intros k x j [(-> & -> & _)|Hk]%Ho; [rewrite lookup_insert_eq; by rewrite decide_False|].
    rewrite lookup_insert_ne; [eauto|]. intros <-. by apply Hfresh in Hk.
  - intros k x j x' j' [(-> & -> & ->)|Hk]%Ho [(E1 & E2 & E3)|Hk']%Ho; subst; eauto; exfalso; [by apply Hfresh in Hk'|by apply Hfresh in Hk].
  - intros k. rewrite lookup_insert_is_Some'. setoid_rewrite Ho. intros [<-|Hk]; [exists sid, i; by left|].
    destruct (H4 k Hk) as (x & j & ?). exists x, j. by right.
  - intros k. rewrite lookup_insert_is_Some'. intros [<-|Hk]; [unfold k0; lia|]. specialize (H5 k Hk). lia.
Qed.

(** ** The leases of routers *)

(** ** Routers *)

Definition leases_from (P : loc → Prop) (h : heap) : Prop := ∀ j l, h_leases h !! j = Some l → P (le_router l).

Lemma leases_from_upd P k f h :
  is_Some (h_leases h !! k) → (∀ x, le_router (f x) = le_router x) → leases_from P h → leases_from P (upd_lease k f h).
Proof.
  intros [x Hx] Hf Hh j l. unfold upd_lease. simpl. rewrite (lease_at_lookup _ _ _ Hx), lookup_insert. case_decide; [|apply Hh].
  intros [= <-]. rewrite Hf. by apply (Hh k).
Qed.

Lemma leases_from_same P h h' : h_leases h' = h_leases h → leases_from P h → leases_from P h'.
Proof. unfold leases_from. by intros ->. Qed.

Lemma leases_from_iter (P : loc → Prop) rid q ctx queued now h :
  P rid → leases_from P h → leases_from P (fst (acquire_iter rid q ctx queued now h)).
Proof.
  intros Hp Hh. unfold acquire_iter. destruct (is_done h ctx); [by apply (leases_from_same _ h), Hh; rewrite <-(defer_leases rid queued now h)|].
  destruct (choose h (router_at h rid) q now) as [idx eligible].
  set (wait := if negb eligible then _ else _).
  assert (Hw : leases_from P (fst wait)).
  { apply (leases_from_same _ h); [|done]. unfold wait. destruct (negb eligible); [apply defer_leases|]. destruct queued; [done|].
    by destruct (_ <=? _). }
  destruct idx as [idx|]; [|exact Hw]. destruct (turn h _ now queued); [|exact Hw].
  destruct (grant rid q idx now h) as [h' l] eqn:Hg. cbn [fst]. apply (leases_from_same _ h'); [apply defer_leases|].
  assert (E : h' = fst (grant rid q idx now h)) by by rewrite Hg. rewrite E. intros j x. unfold grant, alloc_lease. simpl.
  rewrite lookup_insert. case_decide; [intros [= <-]; exact Hp|]. destruct (account_loc _ _); apply Hh.
Qed.

Lemma leases_from_release P lid status ra now h :
  is_Some (h_leases h !! lid) → leases_from P h → leases_from P (Release lid status ra now h).
Proof.
  intros Hl Hh. unfold Release. destruct (le_once _); [done|].
  apply (leases_from_same _ (upd_lease lid (with_le_once true) h)); [|by apply leases_from_upd].
  assert (E : ∀ h', h_leases (release_counters (lease_at h lid) h') = h_leases h').
  { intros h'. unfold release_counters, upd_quota_opt. by destruct (le_account _). }
  destruct (status =? -1); simpl; apply E.
Qed.

(** The routers an operation of a request may lease from. *)
Definition op_router (o : op) : option loc :=
  match o with OpAcquire r _ _ | OpResume r _ _ | OpReconfigure r _ => Some r | _ => None end.

Lemma leases_from_exec (P : loc → Prop) o now h :
  (∀ r, op_router o = Some r → P r) → (match o with OpReconfigure _ _ => False | _ => True end) →
  leases_from P h → leases_from P (exec o now h).
Proof.
  intros Hp Hn Hh. destruct o; simpl in *; try case_bool_decide; try done.
  - by apply leases_from_iter; [apply Hp|].
  - unfold acquire_resume. destruct (find_waiter _ _) as [w|]; [|done]. set (h' := match cause with WakeReady => _ | _ => h end).
    assert (Hh' : leases_from P h') by (apply (leases_from_same _ h); [by destruct cause|done]).
    match goal with |- context [if ?b then _ else _] => destruct b; [|done] end.
    match goal with |- context [acquire_iter ?r ?q ?c ?wd ?n ?x] =>
      pose proof (leases_from_iter P r q c wd n x (Hp _ eq_refl) Hh') as Hi; by destruct (acquire_iter r q c wd n x) end.
  - by apply leases_from_release.
  - unfold RecordExecution. apply leases_from_upd; [|done|]; [|by apply (leases_from_same _ h); [by destruct (le_execution _)|]].
    by destruct (le_execution _).
  - unfold FirstOutput. destruct (le_firstOutput _); [done|]. apply (leases_from_same _ (upd_lease lease
      (λ l, with_le_firstOutput true (with_le_ttftMS (micros_ms (now - le_started (RouterData.lease_at h lease))) l)) h)); [done|].
    by apply leases_from_upd.
  - unfold SetEnabled. by destruct (list_find _ _) as [[i s]|].
Qed.

Lemma routers_stay_exec o now h :
  good h → (match o with OpReconfigure _ _ => False | _ => True end) → routers_stay h (exec o now h).
Proof.
  intros Hg Hn. destruct o; simpl in *; try case_bool_decide; try done; try by apply routers_stay_same.
  - destruct (acquire_iter rid q ctx None now h) as [h' out] eqn:E. exact (proj1 (acquire_iter_leases _ _ _ _ _ _ _ _ Hg E)).
  - destruct (acquire_resume rid waiter cause now h) as [h' [out|]] eqn:E; [exact (proj1 (acquire_resume_leases _ _ _ _ _ _ _ Hg E))|].
    revert E. unfold acquire_resume. destruct (find_waiter _ _) as [w|]; [|intros [= <-]; by apply routers_stay_same].
    match goal with |- context [if ?b then _ else _] => destruct b end; [|intros [= <-]; by apply routers_stay_same].
    match goal with |- context [acquire_iter ?r ?q ?c ?wd ?n ?x] => by destruct (acquire_iter r q c wd n x) end.
  - apply release_stays.
  - by apply record_leases.
  - by apply first_output_leases.
  - apply set_enabled_leases.
Qed.

Record routers_ok (h : heap) (ss : gmap nat Server) (prepared : list nat) : Prop := {
  ho_good : good h;
  ho_router : ∀ sid s, ss !! sid = Some s → is_Some (h_routers h !! srv_Router s);
  ho_inj : ∀ sid s sid' s', ss !! sid = Some s → ss !! sid' = Some s' → srv_Router s = srv_Router s' → sid = sid';
  ho_fresh : ∀ sid s, sid ∈ prepared → ss !! sid = Some s → leases_from (λ r, r ≠ srv_Router s) h }.

Lemma adopt_keeps rid nrid now h :
  is_Some (h_routers h !! nrid) → h_leases (Adopt rid nrid now h) = h_leases h ∧ routers_stay h (Adopt rid nrid now h).
Proof.
  intros Hn. unfold Adopt. set (cl := r_capacity _). set (h1 := upd_router nrid (with_r_capacity cl) h).
  set (sources := c_Sources _). pose proof (adopt_sources_frame cl nrid sources 0 h1) as [El Er].
  set (h2 := adopt_sources cl nrid 0 sources h1) in *. split; [cbn; exact El|].
  apply (routers_stay_trans _ h2).
  - apply (routers_stay_trans _ h1); [apply routers_stay_upd|]. intros k Hk. destruct (decide (k = nrid)) as [->|Hne]; [|by rewrite Er].
    assert (Hg : ∀ l i x, is_Some (h_routers x !! nrid) → is_Some (h_routers (adopt_sources cl nrid i l x) !! nrid)).
    { clear. intros l. induction l as [|s l IH]; intros i x Hx; [done|]. simpl. apply IH. unfold adopt_source.
      repeat case_match; simpl; rewrite lookup_insert_eq; by eexists. }
    by apply Hg.
  - set (h3 := upd_cap _ _ h2). apply (routers_stay_trans _ h3); [by apply routers_stay_same|].
    eapply routers_stay_trans; [|apply routers_stay_signal]. eapply routers_stay_trans; [|apply routers_stay_upd].
    eapply routers_stay_trans; [apply (routers_stay_upd rid (with_r_retired true))|]. by apply routers_stay_same.
Qed.

(** Servers that keep their routers. *)
Lemma routers_same h ss ss' prepared prepared' :
  routers_ok h ss prepared →
  (∀ sid s', ss' !! sid = Some s' → ∃ s, ss !! sid = Some s ∧ srv_Router s' = srv_Router s) →
  (∀ sid, sid ∈ prepared' → sid ∈ prepared) → routers_ok h ss' prepared'.
Proof.
  intros [H1 H2 H3 H4] Hs Hp. constructor; [done| | |].
  - intros sid s' (s & Hs' & ->)%Hs. eauto.
  - intros sid s' sid' t' (s & Hs1 & E1)%Hs (t & Ht1 & E2)%Hs E. apply (H3 sid s sid' t); congruence.
  - intros sid s' Hin (s & Hs' & ->)%Hs. eauto.
Qed.

Lemma routers_prepare c p prepared sid p' :
  routers_ok (pl_heap p) (pl_servers p) prepared → new_server c p = (sid, p') → pl_servers p !! sid = None →
  routers_ok (pl_heap p') (pl_servers p') (sid :: prepared).
Proof.
  intros [H1 H2 H3 H4] Hn Hfresh. unfold new_server in Hn. pose proof (New_compiled c (pl_heap p)) as [N1 [N2 _] _ N4 _ _ N7 N8 _].
  destruct (New c (pl_heap p)) as [h rid] eqn:E. cbn [fst snd] in *. injection Hn as <- <-.
  cbn [with_next with_servers with_heap pl_heap pl_servers]. set (new := {| srv_cfg := c; srv_Router := rid |}).
  assert (Hlt : ∀ k, is_Some (h_routers (pl_heap p) !! k) → k ≠ rid).
  { intros k [r Hr] ->. destruct (si_next _ (good_inv _ H1) rid N2) as (_ & _ & _ & Er & _). simpl in Er. by rewrite lookup_fmap, Hr in Er. }
  assert (Hlook : ∀ x s, <[pl_next p := new]> (pl_servers p) !! x = Some s → (x = pl_next p ∧ s = new) ∨ pl_servers p !! x = Some s).
  { intros x s. rewrite lookup_insert. case_decide; [subst; intros [= <-]; by left|by right]. }
  constructor.
  - by apply N1.
  - intros x s [[-> ->]|Hs]%Hlook; [done|]. rewrite N7; eauto.
  - intros x s y t [[-> ->]|Hs]%Hlook [[-> ->]|Ht]%Hlook; [done| | |eauto]; intros E'; simpl in E'; exfalso.
    + apply (Hlt (srv_Router t)); eauto.
    + apply (Hlt (srv_Router s)); eauto.
  - intros x s Hx [[-> ->]|Hs]%Hlook j l; simpl; rewrite N8; intros Hl.
    + apply Hlt. destruct (si_leases _ (good_inv _ H1) j (lease_skel l)) as [Hr _ _ _]; [simpl; by rewrite lookup_fmap, Hl|].
      cbn in Hr. by apply in_routers in Hr.
    + apply elem_of_cons in Hx as [->|Hx]; [congruence|]. exact (H4 x s Hx Hs j l Hl).
Qed.

Lemma routers_route p prepared g o now :
  routers_ok (pl_heap p) (pl_servers p) prepared → routes p g o → server_of p g ∉ prepared →
  routers_ok (exec o now (pl_heap p)) (pl_servers p) prepared.
Proof.
  intros [H1 H2 H3 H4] Ho Hg. assert (Hn : match o with OpReconfigure _ _ => False | _ => True end) by by destruct o.
  constructor; [by apply good_exec| |done|].
  - intros sid s Hs. apply routers_stay_exec; eauto.
  - intros sid s Hin Hs. apply leases_from_exec; [|done|eauto]. intros r Hr E. subst r.
    assert (Hr' : srv_Router <$> pl_servers p !! server_of p g = Some (srv_Router s)).
    { destruct o; simpl in *; try done; by injection Hr as ->. }
    apply fmap_Some in Hr' as (t & Ht & Et). apply Hg. by rewrite (H3 _ _ _ _ Ht Hs (eq_sym Et)).
Qed.

Lemma routers_publish p sid now b p' prepared i :
  routers_ok (pl_heap p) (pl_servers p) prepared → prepared !! i = Some sid → NoDup prepared → commit sid now p = (b, p') →
  routers_ok (pl_heap p') (pl_servers p') (delete i prepared).
Proof.
  intros Hh Hi Hnd Hc. pose proof Hh as [H1 H2 H3 H4]. unfold commit in Hc.
  assert (Hsub : ∀ x, x ∈ delete i prepared → x ∈ prepared) by (intros x Hx; rewrite (delete_Permutation _ _ _ Hi); by right).
  destruct (pl_servers p !! gn_server _) as [o|] eqn:Ho, (pl_servers p !! sid) as [s|] eqn:Hs;
    try by (injection Hc as <- <-; apply (routers_same _ _ _ _ _ Hh); eauto).
  injection Hc as <- <-. cbn [with_next with_current with_generations upd_gen with_heap with_servers pl_heap pl_servers].
  pose proof (adopt_keeps (srv_Router o) (srv_Router s) now (pl_heap p) (H2 _ _ Hs)) as [El Er].
  set (h' := Adopt _ _ now _) in *.
  assert (Hh' : routers_ok h' (pl_servers p) (delete i prepared)).
  { constructor; [|eauto|done|].
    - apply good_adopt; [done|by eapply H2|by eapply H2|]. apply (H4 sid); [by eapply list_elem_of_lookup_2|done].
    - intros x t Hx Ht. eapply leases_from_same; [exact El|]. eauto. }
  apply (routers_same _ _ _ _ _ Hh'); [|done]. intros x t. rewrite lookup_insert. case_decide as E; [|eauto].
  subst x. intros [= <-]. by exists s.
Qed.
