(* ===== verification/ControlTheorems.v ===== *)
(** * Theorems on the generations of the gateway

    Every reachable world of the control plane is well formed *)

From S2P Require Import Prelude ConfigData RouterData RouterPolicy RouterOps RouterInv RouterReach RouterDemo RouterLeases.
From S2P Require Import Control ControlFacts ControlServers.
Local Open Scope Z_scope.

(** ** Reachable worlds *)

Record world_ok (w : world) : Prop := {
  wo_refs : refs_ok w;
  wo_servers : servers_ok (pl_generations (wd_plane w)) (pl_servers (wd_plane w)) (wd_prepared w) (wd_closing w) (wd_closed w)
    (pl_next (wd_plane w));
  wo_clients : clients_ok (pl_servers (wd_plane w)) (pl_clients (wd_plane w)) (wd_closed w) (pl_next (wd_plane w));
  wo_routers : routers_ok (pl_heap (wd_plane w)) (pl_servers (wd_plane w)) (wd_prepared w) }.

Lemma clients_same ss ss' cl closed next next' :
  clients_ok ss cl closed next → (next ≤ next')%nat →
  (∀ sid, srv_clients <$> ss' !! sid = srv_clients <$> ss !! sid) → clients_ok ss' cl closed next'.
Proof.
  intros [H1 H2 H3 H4 H5] Hn E.
  assert (Ho : ∀ k sid i, owns ss' k sid i ↔ owns ss k sid i) by (intros; by apply owns_same).
  constructor.
  - intros sid s i a Hs Ha. specialize (E sid). rewrite Hs in E. simpl in E. destruct (ss !! sid) as [t|] eqn:Ht; [|done].
    injection E as E. apply (H1 sid t i a Ht). by rewrite <-E.
  - intros k sid i Hk%Ho. eauto.
  - intros k sid i sid' i' Hk%Ho Hk'%Ho. eauto.
  - intros k Hk. setoid_rewrite Ho. eauto.
  - intros k Hk. specialize (H5 k Hk). lia.
Qed.

(** A new server has made no client. *)
Lemma clients_prepare ss cl closed next sid s next' :
  clients_ok ss cl closed next → ss !! sid = None → sid ∉ closed → (next ≤ next')%nat →
  (∀ slot, slot ∈ srv_clients s → slot = zero_slot) → clients_ok (<[sid := s]> ss) cl closed next'.
Proof.
  intros [H1 H2 H3 H4 H5] Hf Hc Hn Hz.
  pose proof (owns_new ss sid s Hf Hz) as Ho.
  constructor.
  - intros x t i a. rewrite lookup_insert. case_decide as E; [|eauto]. subst x. intros [= <-] Ha%list_elem_of_lookup_2.
    rewrite (Hz a Ha). split; [done|]. intros _. simpl. split; [done|by intros [? ?]].
  - intros k x i Hk%Ho. eauto.
  - intros k x i x' i' Hk%Ho Hk'%Ho. eauto.
  - intros k Hk. setoid_rewrite Ho. eauto.
  - intros k Hk. specialize (H5 k Hk). lia.
Qed.

Lemma close_same sid p :
  pl_generations (Close sid p) = pl_generations p ∧ pl_current (Close sid p) = pl_current p ∧ pl_closed (Close sid p) = pl_closed p
  ∧ pl_next (Close sid p) = pl_next p ∧ pl_heap (Close sid p) = pl_heap p
  ∧ (∀ x, is_Some (pl_servers (Close sid p) !! x) ↔ is_Some (pl_servers p !! x))
  ∧ ∀ x s', pl_servers (Close sid p) !! x = Some s' → ∃ s, pl_servers p !! x = Some s ∧ srv_Router s' = srv_Router s.
Proof.
  unfold Close. destruct (pl_servers p !! sid) as [s|] eqn:Hs; [|split_and!; try done; eauto]. split_and!; try done.
  - intros x. cbn. rewrite lookup_insert_is_Some'. split; [intros [<-|?]; [by eexists|done]|by right].
  - intros x s'. cbn. rewrite lookup_insert. case_decide as E; [|eauto]. subst x. intros [= <-]. by exists s.
Qed.

Lemma world_close w sid prepared closing :
  world_ok w → sid ∉ wd_closed w →
  servers_ok (pl_generations (wd_plane w)) (pl_servers (wd_plane w)) prepared closing (sid :: wd_closed w) (pl_next (wd_plane w)) →
  (∀ x, x ∈ prepared → x ∈ wd_prepared w) →
  world_ok {| wd_plane := Close sid (wd_plane w); wd_revision := wd_revision w; wd_busy := wd_busy w; wd_prepared := prepared;
    wd_requests := wd_requests w; wd_closing := closing; wd_closed := sid :: wd_closed w |}.
Proof.
  intros [Hr _ Hc Hh] Hn Hs Hsub. destruct (close_same sid (wd_plane w)) as (E1 & E2 & E3 & E4 & E5 & E6 & E7).
  constructor; cbn [wd_plane wd_prepared wd_closing wd_closed].
  - apply (refs_same w); try done. cbn. by rewrite E4.
  - rewrite E1, E4. by apply (servers_same _ (pl_servers (wd_plane w)) _ _ _ _ (pl_next (wd_plane w))).
  - apply clients_close; [done| |done]. apply (so_closing _ _ _ _ _ _ Hs), elem_of_app. right. by left.
  - rewrite E5. by apply (routers_same _ _ _ _ _ Hh).
Qed.

(** A generation a request holds is in use. *)
Lemma held w i r :
  world_ok w → wd_requests w !! i = Some r →
  ∃ gen, pl_generations (wd_plane w) !! rq_generation r = Some gen ∧ gen_at (wd_plane w) (rq_generation r) = gen
    ∧ 0 < gn_refs gen ∧ ¬ done_with gen ∧ gn_server gen ∉ wd_closing w ++ wd_closed w ∧ gn_server gen ∉ wd_prepared w.
Proof.
  intros [Hr Hs _ _] Hi. destruct (ro_requests _ Hr r (list_elem_of_lookup_2 _ _ _ Hi)) as [gen Hg]. exists gen.
  pose proof (holders_pos _ _ _ Hi) as Hpos. pose proof (ro_refs _ Hr _ _ Hg) as Hrefs.
  assert (Hnd : ¬ done_with gen) by (intros [_ ?]; lia). split_and!; [done|by apply gen_at_lookup|lia|done| |].
  - by rewrite (so_done _ _ _ _ _ _ Hs _ _ Hg).
  - intros Hp. by destruct (so_prepared _ _ _ _ _ _ Hs _ Hp) as (_ & _ & Hno); apply (Hno _ _ Hg).
Qed.

Lemma ok_enter w k g p :
  world_ok w → may_enter k w → acquire (wd_plane w) = (Some g, p) →
  world_ok {| wd_plane := p; wd_revision := wd_revision w; wd_busy := wd_busy w || is_mutation k; wd_prepared := wd_prepared w;
    wd_requests := wd_requests w ++ [request_of g k]; wd_closing := wd_closing w; wd_closed := wd_closed w |}.
Proof.
  intros [Hr Hs Hc Hh] Hk Ha. pose proof (refs_enter _ _ _ _ Hr Hk Ha) as Hr'. unfold acquire in Ha.
  destruct (pl_closed (wd_plane w)) eqn:Ec; [done|]. injection Ha as <- <-. constructor; [done| |done|done].
  destruct (ro_current _ Hr) as [gen Hg]. pose proof (gen_at_lookup _ _ _ Hg) as Eg.
  assert (Hnr : gn_retired gen = false).
  { destruct (gn_retired gen) eqn:E; [|done]. rewrite <-Eg in E. apply (ro_closed _ Hr) in E. congruence. }
  cbn [wd_plane wd_prepared wd_closing wd_closed upd_gen with_generations pl_generations pl_servers pl_next]. rewrite Eg.
  apply (servers_gen _ _ _ _ _ _ _ gen (add_refs 1 gen) false Hs Hg); [done| |].
  - intros [? _]. congruence.
  - split; [done|]. intros [E _]. simpl in E. congruence.
Qed.

Lemma ok_leave w i r b p :
  world_ok w → wd_requests w !! i = Some r → release (rq_generation r) (wd_plane w) = (b, p) →
  world_ok {| wd_plane := p; wd_revision := wd_revision w; wd_busy := wd_busy w && negb (is_mutation (rq_kind r));
    wd_prepared := wd_prepared w; wd_requests := delete i (wd_requests w);
    wd_closing := if_closing b (server_of p (rq_generation r)) (wd_closing w); wd_closed := wd_closed w |}.
Proof.
  intros Hw Hi Hl. pose proof Hw as [Hr Hs Hc Hh]. destruct (held _ _ _ Hw Hi) as (gen & Hg & Eg & Hpos & Hnd & _).
  pose proof (refs_leave _ _ _ _ _ (if_closing b (server_of p (rq_generation r)) (wd_closing w)) Hr Hi Hl) as Hr'.
  unfold release in Hl. injection Hl as Eb <-. constructor; [done| |done|done].
  unfold server_of in *. rewrite gen_upd_at, decide_True, Eg in * by done.
  cbn [wd_plane wd_prepared wd_closing wd_closed upd_gen with_generations pl_generations pl_servers pl_next]. rewrite Eg.
  apply (servers_gen _ _ _ _ _ _ _ gen (add_refs (-1) gen) b Hs Hg); [done..|]. rewrite <-Eb. unfold done_with.
  rewrite andb_true_iff, Z.eqb_eq. done.
Qed.

Lemma client_same sid i p k p' :
  client sid i p = (k, p') →
  pl_generations p' = pl_generations p ∧ pl_current p' = pl_current p ∧ pl_closed p' = pl_closed p ∧ pl_heap p' = pl_heap p
  ∧ (pl_next p ≤ pl_next p')%nat
  ∧ ∀ x s', pl_servers p' !! x = Some s' → ∃ s, pl_servers p !! x = Some s ∧ srv_Router s' = srv_Router s.
Proof.
  unfold client. destruct (pl_servers p !! sid) as [s|] eqn:Hs; [|intros [= <- <-]; split_and!; eauto].
  destruct (srv_clients s !! i) as [slot|]; [|intros [= <- <-]; split_and!; eauto].
  destruct (sl_once slot); [intros [= <- <-]; split_and!; eauto|]. intros [= <- <-]. split_and!; try done; [simpl; lia|].
  intros x s'. cbn. rewrite lookup_insert. case_decide as E; [|eauto]. subst x. intros [= <-]. by exists s.
Qed.

Lemma ok_client w i r slot k p :
  world_ok w → wd_requests w !! i = Some r → client (server_of (wd_plane w) (rq_generation r)) slot (wd_plane w) = (k, p) →
  world_ok (with_plane p w).
Proof.
  intros Hw Hi Hk. destruct (held _ _ _ Hw Hi) as (gen & Hg & Eg & _ & _ & Hopen & _). destruct Hw as [Hr Hs Hc Hh].
  destruct (client_same _ _ _ _ _ Hk) as (E1 & E2 & E3 & E4 & E5 & E6).
  unfold server_of in Hk. rewrite Eg in Hk. rewrite not_elem_of_app in Hopen.
  destruct (clients_client _ _ _ _ _ _ Hc (proj2 Hopen) Hk) as (Hc' & _ & Hdom). constructor; [by apply (refs_same w)| |done|].
  - simpl. rewrite E1. by apply (servers_same _ (pl_servers (wd_plane w)) _ _ _ _ (pl_next (wd_plane w))).
  - simpl. rewrite E4. by apply (routers_same _ _ _ _ _ Hh).
Qed.

Lemma ok_prepare w c sid p :
  world_ok w → new_server c (wd_plane w) = (sid, p) →
  world_ok {| wd_plane := p; wd_revision := wd_revision w; wd_busy := wd_busy w; wd_prepared := sid :: wd_prepared w;
    wd_requests := wd_requests w; wd_closing := wd_closing w; wd_closed := wd_closed w |}.
Proof.
  intros [Hr Hs Hc Hh] Hn.
  assert (Hf : pl_servers (wd_plane w) !! pl_next (wd_plane w) = None).
  { destruct (pl_servers _ !! _) eqn:E; [|done]. pose proof (so_next _ _ _ _ _ _ Hs _ (ex_intro _ _ E)). lia. }
  assert (Esid : sid = pl_next (wd_plane w)) by (unfold new_server in Hn; destruct (New c _); by injection Hn).
  pose proof (routers_prepare _ _ _ _ _ Hh Hn ltac:(by subst)) as Hh'. unfold new_server in Hn. destruct (New c (pl_heap _)) as [h rid].
  injection Hn as _ <-. subst sid. constructor; [by apply (refs_same w); try done; simpl; lia| | |done]; simpl.
  - apply (servers_prepare _ _ _ _ _ _ _ _ _ Hs). lia.
  - apply (clients_prepare _ _ _ _ _ _ _ Hc Hf); [|lia|].
    + intros Hin. assert (Hi : pl_next (wd_plane w) ∈ wd_closing w ++ wd_closed w) by (apply elem_of_app; by right).
      destruct (so_closing _ _ _ _ _ _ Hs _ Hi). congruence.
    + intros slot. simpl. intros (s & -> & _)%list_elem_of_fmap. done.
Qed.

Lemma ok_publish w by_ i sid now b p :
  world_ok w → may_publish by_ w → wd_prepared w !! i = Some sid → commit sid now (wd_plane w) = (b, p) →
  world_ok {| wd_plane := p; wd_revision := wd_revision w + 1; wd_busy := wd_busy w; wd_prepared := delete i (wd_prepared w);
    wd_requests := wd_requests w;
    wd_closing := if_closing b (server_of (wd_plane w) (pl_current (wd_plane w))) (wd_closing w); wd_closed := wd_closed w |}.
Proof.
  intros [Hr Hs Hc Hh] Hp Hi Hcm. pose proof (publish_live _ _ Hr Hp) as Hlive.
  destruct (ro_current _ Hr) as [gen Hg]. pose proof (gen_at_lookup _ _ _ Hg) as Eg. pose proof (so_server _ _ _ _ _ _ Hs _ _ Hg) as Ho.
  assert (Hsid : is_Some (pl_servers (wd_plane w) !! sid)) by (apply (so_prepared _ _ _ _ _ _ Hs); by eapply list_elem_of_lookup_2).
  pose proof (routers_publish _ _ _ _ _ _ _ Hh Hi (so_nodup _ _ _ _ _ _ Hs) Hcm) as Hh'.
  pose proof (refs_publish _ _ _ _ _ _ (if_closing b (server_of (wd_plane w) (pl_current (wd_plane w))) (wd_closing w))
    (delete i (wd_prepared w)) Hr Hp Hsid ltac:(by unfold server_of; rewrite Eg) Hcm) as Hr'.
  rewrite <-Eg in Ho. destruct (commit_generations _ _ _ _ _ 0%nat Hcm Hsid Ho (ro_next _ Hr _) (ro_current _ Hr)) as (_ & _ & _ & _ & Eb).
  destruct Hsid as [s Hsid]. destruct Ho as [o Ho]. unfold commit in Hcm. rewrite Hsid, Ho in Hcm. injection Hcm as _ <-.
  unfold server_of in *. rewrite Eg in *.
  constructor; [done| | |done]; cbn [wd_plane wd_prepared wd_closing wd_closed with_next with_current with_generations upd_gen with_heap
    with_servers pl_generations pl_servers pl_next pl_clients gen_at].
  - assert (Hs1 : servers_ok (<[pl_current (wd_plane w) := retire gen]> (pl_generations (wd_plane w))) (pl_servers (wd_plane w))
      (wd_prepared w) (if_closing b (gn_server gen) (wd_closing w)) (wd_closed w) (pl_next (wd_plane w))).
    { apply (servers_gen _ _ _ _ _ _ _ gen (retire gen) b Hs Hg); [done| |].
      - intros [E1 E2]. destruct Hlive as [?|?]; congruence.
      - rewrite Eb, Z.eqb_eq. unfold done_with. simpl. tauto. }
    pose proof (ro_next _ Hr _ (ro_current _ Hr)) as Hlt.
    apply (servers_publish _ _ _ _ _ _ i sid (pl_next (wd_plane w)) (S (pl_next (wd_plane w)))) in Hs1; [|done| |lia].
    + unfold gen_at in Eg |- *. cbn [pl_generations with_heap with_servers] in *. rewrite Eg.
      apply (servers_same _ (pl_servers (wd_plane w)) _ _ _ _ _ _ Hs1); [|lia].
      intros x. rewrite lookup_insert_is_Some'. split; [intros [<-|?]; [by eexists|done]|by right].
    + rewrite lookup_insert_ne by lia. destruct (_ !! pl_next _) eqn:E; [|done].
      pose proof (ro_next _ Hr _ (ex_intro _ _ E)). lia.
  - apply (clients_same _ _ _ _ _ _ Hc); [lia|]. intros x. rewrite lookup_insert. case_decide as E; [|done]. subst x. by rewrite Hsid.
Qed.

Lemma ok_close w b p :
  world_ok w → wd_busy w = false → close_plane (wd_plane w) = (b, p) →
  world_ok {| wd_plane := p; wd_revision := wd_revision w; wd_busy := wd_busy w; wd_prepared := wd_prepared w;
    wd_requests := wd_requests w; wd_closing := if_closing b (server_of (wd_plane w) (pl_current (wd_plane w))) (wd_closing w);
    wd_closed := wd_closed w |}.
Proof.
  intros Hw Hb Hcl. pose proof Hw as [Hr Hs Hc Hh].
  pose proof (refs_close _ _ _ (if_closing b (server_of (wd_plane w) (pl_current (wd_plane w))) (wd_closing w)) Hr Hb Hcl) as Hr'.
  unfold close_plane in Hcl. destruct (pl_closed (wd_plane w)) eqn:Ec; [by injection Hcl as <- <-|]. injection Hcl as Eb <-.
  constructor; [done| |done|done].
  destruct (ro_current _ Hr) as [gen Hg]. pose proof (gen_at_lookup _ _ _ Hg) as Eg.
  assert (Hnr : gn_retired gen = false).
  { destruct (gn_retired gen) eqn:E; [|done]. rewrite <-Eg in E. apply (ro_closed _ Hr) in E. congruence. }
  rewrite gen_upd_at, decide_True in Eb by done. change (gen_at (with_closed true (wd_plane w))) with (gen_at (wd_plane w)) in Eb.
  unfold server_of. rewrite Eg in *.
  cbn [wd_plane wd_prepared wd_closing wd_closed upd_gen with_generations with_closed pl_generations pl_servers pl_next].
  change (gen_at (with_closed true (wd_plane w))) with (gen_at (wd_plane w)). rewrite Eg.
  apply (servers_gen _ _ _ _ _ _ _ gen (retire gen) b Hs Hg); [done| |].
  - intros [? _]. congruence.
  - rewrite <-Eb, Z.eqb_eq. unfold done_with. simpl. tauto.
Qed.

Lemma ok_step w w' : world_ok w → plane_step w w' → world_ok w'.
Proof.
  intros Hw. destruct 1 as [k g p Hk Ha|i r b p Hi Hl|i r slot k p Hi Hk|i r o now Hi Ho|c sid p Hn|i sid Hi|by_ i sid now b p Hp Hi Hc|b p Hb Hc|i sid Hi].
  - by apply ok_enter.
  - by apply ok_leave.
  - by eapply ok_client.
  - destruct (held _ _ _ Hw Hi) as (gen & _ & Eg & _ & _ & _ & Hp). destruct Hw as [Hr Hs Hc Hh].
    constructor; [by apply (refs_same w)|done|done|]. refine (routers_route _ _ _ _ now Hh Ho _). unfold server_of. by rewrite Eg.
  - by eapply ok_prepare.
  - pose proof (so_prepared _ _ _ _ _ _ (wo_servers _ Hw) sid (list_elem_of_lookup_2 _ _ _ Hi)) as (_ & Hn & _).
    apply world_close; [done| | |].
    + intros Hin. apply Hn, elem_of_app. by right.
    + by apply servers_discard, Hi; apply Hw.
    + intros x Hx. rewrite (delete_Permutation _ _ _ Hi). by right.
  - by eapply ok_publish.
  - by apply ok_close.
  - apply world_close; [done| | |done].
    + intros Hin. pose proof (so_once _ _ _ _ _ _ (wo_servers _ Hw)) as Hnd. apply NoDup_app in Hnd as (_ & Hd & _).
      apply (Hd sid); [by eapply list_elem_of_lookup_2|done].
    + eapply servers_finish; [apply Hw|done].
Qed.

Lemma clients_none closed next : clients_ok ∅ ∅ closed next.
Proof.
  constructor.
  - intros sid s i slot Hs. by rewrite lookup_empty in Hs.
  - intros k sid i (s & a & Hs & _). by rewrite lookup_empty in Hs.
  - intros k sid i sid' i' (s & a & Hs & _). by rewrite lookup_empty in Hs.
  - intros k [x Hk]. by rewrite lookup_empty in Hk.
  - intros k [x Hk]. by rewrite lookup_empty in Hk.
Qed.

Lemma ok_boot startup c revision : world_ok (boot_world startup c revision).
Proof.
  unfold boot_world, first_plane, new_server. simpl. pose proof (New_compiled c empty_heap) as [N1 _ _ N4 _ _ _ N8 _].
  destruct (New c empty_heap) as [h rid]. cbn [fst snd] in *. constructor.
  - constructor; simpl; try done.
    + intros g gen [<- <-]%lookup_singleton_Some. done.
    + intros r ?%not_elem_of_nil. done.
    + intros g gen [<- _]%lookup_singleton_Some. done.
    + intros g [x [<- _]%lookup_singleton_Some]. lia.
    + intros r v ?%not_elem_of_nil. done.
  - constructor; simpl.
    + intros g gen [<- <-]%lookup_singleton_Some. simpl. by rewrite lookup_insert_eq.
    + intros g gen g' gen' [<- <-]%lookup_singleton_Some [<- <-]%lookup_singleton_Some. done.
    + by intros sid ?%not_elem_of_nil.
    + constructor.
    + constructor.
    + intros g gen [<- <-]%lookup_singleton_Some. split; [by intros ?%not_elem_of_nil|by intros [? _]].
    + by intros sid ?%not_elem_of_nil.
    + intros sid [x [<- _]%lookup_singleton_Some]. right. right. by exists 0%nat, {| gn_server := 1; gn_refs := 0; gn_retired := false |}.
    + intros sid [x [<- _]%lookup_singleton_Some]. lia.
  - apply (clients_prepare ∅ ∅ [] 1); [|apply lookup_empty|apply not_elem_of_nil|simpl; lia|].
    + apply clients_none.
    + intros slot. simpl. intros (x & -> & _)%list_elem_of_fmap. done.
  - constructor; simpl.
    + apply N1, good_empty.
    + intros sid s [<- <-]%lookup_singleton_Some. done.
    + intros sid s sid' s' [<- <-]%lookup_singleton_Some [<- <-]%lookup_singleton_Some. done.
    + intros sid s ?%not_elem_of_nil. done.
Qed.

(** A server nobody can reach has made no client: a prepared one, and the one
    a long operation publishes after the plane is closed. *)
Record unused_ok (w : world) : Prop := {
  uo_prepared : ∀ sid k i, sid ∈ wd_prepared w → ¬ owns (pl_servers (wd_plane w)) k sid i;
  uo_current : pl_closed (wd_plane w) = true → gn_retired (gen_at (wd_plane w) (pl_current (wd_plane w))) = false →
    holders (wd_requests w) (pl_current (wd_plane w)) = 0%nat
    ∧ ∀ k i, ¬ owns (pl_servers (wd_plane w)) k (server_of (wd_plane w) (pl_current (wd_plane w))) i }.

Lemma unused_same w w' :
  unused_ok w → (∀ k x i, owns (pl_servers (wd_plane w')) k x i ↔ owns (pl_servers (wd_plane w)) k x i) →
  (∀ sid, sid ∈ wd_prepared w' → sid ∈ wd_prepared w) → pl_closed (wd_plane w') = pl_closed (wd_plane w) →
  pl_current (wd_plane w') = pl_current (wd_plane w) →
  (∀ g, gn_retired (gen_at (wd_plane w') g) = gn_retired (gen_at (wd_plane w) g) ∧ server_of (wd_plane w') g = server_of (wd_plane w) g) →
  (∀ g, holders (wd_requests w') g ≤ holders (wd_requests w) g)%nat → unused_ok w'.
Proof.
  intros [H1 H2] Ho Hp Ec Eu Eg Hl. constructor.
  - intros sid k i Hs Hk%Ho. by apply (H1 sid k i), Hk; apply Hp.
  - rewrite Ec, Eu, (proj1 (Eg _)), (proj2 (Eg _)). intros Hc Hr. destruct (H2 Hc Hr) as [E Hn]. split.
    + specialize (Hl (pl_current (wd_plane w))). lia.
    + intros k i Hk%Ho. by apply (Hn k i).
Qed.

Lemma owns_client sid i p k p' k' x j : client sid i p = (k, p') → owns (pl_servers p') k' x j → x = sid ∨ owns (pl_servers p) k' x j.
Proof.
  unfold client. destruct (pl_servers p !! sid) as [s|] eqn:Hs; [|intros [= <- <-]; by right].
  destruct (srv_clients s !! i) as [slot|]; [|intros [= <- <-]; by right]. destruct (sl_once slot); [intros [= <- <-]; by right|].
  intros [= <- <-]. cbn. unfold owns at 1. setoid_rewrite lookup_insert. case_decide as E; [by left|by right].
Qed.

(** A step of a request is not on a server nobody can reach. *)
Lemma unused_client w i r slot k p :
  world_ok w → unused_ok w → wd_requests w !! i = Some r → client (server_of (wd_plane w) (rq_generation r)) slot (wd_plane w) = (k, p) →
  unused_ok (with_plane p w).
Proof.
  intros Hw [H1 H2] Hi Hk. destruct (held _ _ _ Hw Hi) as (gen & Hg & Eg & _ & _ & _ & Hp).
  destruct (client_same _ _ _ _ _ Hk) as (E1 & E2 & E3 & _).
  assert (Egen : ∀ g, gen_at p g = gen_at (wd_plane w) g) by (intros g; unfold gen_at; by rewrite E1).
  constructor; cbn [with_plane wd_plane wd_prepared wd_requests].
  - intros sid k' j Hs Ho. destruct (owns_client _ _ _ _ _ _ _ _ Hk Ho) as [->|?]; [|by apply (H1 sid k' j)].
    unfold server_of in Hs. by rewrite Eg in Hs.
  - unfold server_of. rewrite E2, E3, !Egen. intros Hc Hr. destruct (H2 Hc Hr) as [E Hn]. split; [done|]. intros k' j Ho.
    destruct (owns_client _ _ _ _ _ _ _ _ Hk Ho) as [Es|Ho']; [|by apply (Hn k' j)]. destruct Hw as [Hwr Hws _ _].
    destruct (ro_current _ Hwr) as [cur Hcur]. unfold server_of in Es. rewrite Eg, (gen_at_lookup _ _ _ Hcur) in Es.
    pose proof (so_inj _ _ _ _ _ _ Hws _ _ _ _ Hcur Hg Es) as Egen'. pose proof (holders_pos _ _ _ Hi) as Hpos. rewrite <-Egen' in Hpos. lia.
Qed.

Lemma unused_publish w by_ i sid now b p l :
  world_ok w → unused_ok w → wd_prepared w !! i = Some sid → commit sid now (wd_plane w) = (b, p) →
  unused_ok {| wd_plane := p; wd_revision := wd_revision w + 1; wd_busy := by_; wd_prepared := delete i (wd_prepared w);
    wd_requests := wd_requests w; wd_closing := l; wd_closed := wd_closed w |}.
Proof.
  intros [Hr Hs _ _] [H1 _] Hi Hcm. pose proof (list_elem_of_lookup_2 _ _ _ Hi) as Hin.
  assert (Hsid : is_Some (pl_servers (wd_plane w) !! sid)) by by apply (so_prepared _ _ _ _ _ _ Hs).
  destruct (ro_current _ Hr) as [gen Hg]. pose proof (gen_at_lookup _ _ _ Hg) as Eg. pose proof (so_server _ _ _ _ _ _ Hs _ _ Hg) as Ho.
  rewrite <-Eg in Ho. pose proof (λ g', commit_generations _ _ _ _ _ g' Hcm Hsid Ho (ro_next _ Hr _) (ro_current _ Hr)) as Hc.
  destruct (Hc 0%nat) as (_ & Ecur & _ & _ & _). pose proof (proj1 (Hc (pl_next (wd_plane w)))) as Enew. rewrite decide_True in Enew by done.
  clear Hc. assert (Hsame : ∀ k x j, owns (pl_servers p) k x j ↔ owns (pl_servers (wd_plane w)) k x j).
  { intros k x j. destruct Hsid as [s Hsid], Ho as [o Ho]. unfold commit in Hcm. rewrite Hsid, Ho in Hcm. injection Hcm as _ <-.
    apply owns_same. intros y. cbn. rewrite lookup_insert. case_decide as E; [|done]. subst y. by rewrite Hsid. }
  constructor; cbn [wd_plane wd_prepared wd_requests].
  - intros x k j Hx Hk%Hsame. apply (H1 x k j); [|done]. rewrite (delete_Permutation _ _ _ Hi). by right.
  - intros _ _. rewrite Ecur. split.
    + apply holders_out. intros r Hr' E. pose proof (ro_next _ Hr _ (ro_requests _ Hr r Hr')). lia.
    + intros k j Hk%Hsame. unfold server_of in Hk. rewrite (gen_at_lookup _ _ _ Enew) in Hk. by apply (H1 sid k j).
Qed.

Lemma unused_prepare w c sid p l :
  world_ok w → unused_ok w → new_server c (wd_plane w) = (sid, p) →
  unused_ok {| wd_plane := p; wd_revision := wd_revision w; wd_busy := wd_busy w; wd_prepared := sid :: wd_prepared w;
    wd_requests := wd_requests w; wd_closing := l; wd_closed := wd_closed w |}.
Proof.
  intros [Hr Hs _ _] [H1 H2] Hn.
  assert (Hf : pl_servers (wd_plane w) !! pl_next (wd_plane w) = None).
  { destruct (pl_servers _ !! _) eqn:E; [|done]. pose proof (so_next _ _ _ _ _ _ Hs _ (ex_intro _ _ E)). lia. }
  unfold new_server in Hn. destruct (New c (pl_heap _)) as [h rid]. injection Hn as <- <-.
  match goal with |- context [<[_ := ?s]> (pl_servers _)] => pose proof (owns_new (pl_servers (wd_plane w)) _ s Hf) as Ho end.
  assert (Hz : ∀ slot, slot ∈ map (λ _, zero_slot) (c_Sources c) → slot = zero_slot) by (by intros slot (s & -> & _)%list_elem_of_fmap).
  specialize (Ho Hz). constructor; cbn [wd_plane wd_prepared wd_requests].
  - intros x k j Hx Hk%Ho. apply elem_of_cons in Hx as [->|Hx]; [|by apply (H1 x k j)].
    destruct Hk as (s & a & Hs' & _). congruence.
  - intros Hc Hr'. destruct (H2 Hc Hr') as [E Hno]. split; [done|]. intros k j Hk%Ho. by apply (Hno k j).
Qed.

Lemma unused_step w w' : world_ok w → unused_ok w → plane_step w w' → unused_ok w'.
Proof.
  intros Hw Hu. destruct 1 as [k g p Hk Ha|i r b p Hi Hl|i r slot k p Hi Hk|i r o now Hi Ho|c sid p Hn|i sid Hi|by_ i sid now b p Hp Hi Hc|b p Hb Hc|i sid Hi].
  - unfold acquire in Ha. destruct (pl_closed (wd_plane w)) eqn:Ec; [done|]. injection Ha as <- <-. destruct Hu as [H1 H2].
    constructor; [exact H1|]. cbn. congruence.
  - unfold release in Hl. injection Hl as <- <-. apply (unused_same w); try done; cbn.
    + intros g. unfold server_of. rewrite gen_upd_at. by case_decide; subst.
    + intros g. unfold holders. rewrite (count_delete _ _ _ _ Hi). lia.
  - by eapply unused_client.
  - by apply (unused_same w).
  - by eapply unused_prepare.
  - destruct (close_same sid (wd_plane w)) as (E1 & E2 & E3 & _). apply (unused_same w); try done.
    + intros k x j. apply owns_close.
    + intros x Hx. rewrite (delete_Permutation _ _ _ Hi). by right.
    + intros g. cbn. unfold server_of, gen_at. by rewrite E1.
  - by eapply unused_publish.
  - unfold close_plane in Hc. destruct (pl_closed (wd_plane w)).
    { injection Hc as <- <-. by apply (unused_same w). }
    injection Hc as _ <-. destruct Hu as [H1 H2]. constructor; [exact H1|]. intros _. cbn [wd_plane]. rewrite gen_upd_at, decide_True by done. done.
  - destruct (close_same sid (wd_plane w)) as (E1 & E2 & E3 & _). apply (unused_same w); try done.
    + intros k x j. apply owns_close.
    + intros g. cbn. unfold server_of, gen_at. by rewrite E1.
Qed.

Lemma ok_reachable startup c revision w : rtc plane_step (boot_world startup c revision) w → world_ok w ∧ unused_ok w.
Proof.
  apply (rtc_ind_r (λ w, world_ok w ∧ unused_ok w) (boot_world startup c revision)).
  - split; [apply ok_boot|]. constructor; [by intros sid k i ?%not_elem_of_nil|]. unfold boot_world, first_plane.
    by destruct (new_server _ _) as [sid p] eqn:E; unfold new_server in E; destruct (New _ _); injection E as _ <-.
  - intros x y _ Hs [Hx Hu]. split; [by eapply ok_step|by eapply unused_step].
Qed.

(** Nothing is under way. *)
Definition quiet (w : world) : Prop := wd_requests w = [] ∧ wd_prepared w = [] ∧ wd_closing w = [].

(** A client still open when nothing is under way is one of the current server. *)
Lemma quiet_client w k :
  world_ok w → quiet w → pl_clients (wd_plane w) !! k = Some 0%nat →
  ∃ i, owns (pl_servers (wd_plane w)) k (server_of (wd_plane w) (pl_current (wd_plane w))) i.
Proof.
  intros [Hr Hs Hc _] (Eq & Ep & El) Hk. destruct (co_all _ _ _ _ Hc k (ex_intro _ _ Hk)) as (sid & i & Ho). exists i.
  rewrite (co_count _ _ _ _ Hc k sid i Ho) in Hk. case_decide as Hcl; [done|].
  destruct Ho as (s & slot & Hsid & Hslot). rewrite Ep, El in Hs.
  destruct (so_all _ _ _ _ _ _ Hs sid (ex_intro _ _ Hsid)) as [Hp|[?|(g & gen & Hg & Eg)]]; [by apply not_elem_of_nil in Hp|done|].
  destruct (decide (g = pl_current (wd_plane w))) as [->|Hne].
  - unfold server_of. rewrite (gen_at_lookup _ _ _ Hg), Eg. by exists s, slot.
  - destruct Hcl. rewrite <-Eg. apply (so_done _ _ _ _ _ _ Hs _ _ Hg). split; [by apply (ro_retired _ Hr g)|].
    rewrite (ro_refs _ Hr _ _ Hg), Eq. done.
Qed.

(** C32: the gateway closes what it no longer uses, and nothing else.  However
    requests, changes of the configuration, long operations, login batches and
    the end of the process interleave: the counter of every generation is the
    number of requests that hold it; a request keeps a server that is neither
    closed nor about to be, and each of its sources gives it an open client;
    so does the current server until the plane is closed; no server and no
    client is ever closed twice; once nothing is under way every open client
    belongs to the current server, and none is left when the plane is closed;
    and the capacity the generations share stays accounted for. *)
Theorem generations_close_what_they_leave startup c revision w :
  rtc plane_step (boot_world startup c revision) w →
  let p := wd_plane w in
  (∀ g gen, pl_generations p !! g = Some gen → gn_refs gen = Z.of_nat (holders (wd_requests w) g))
  ∧ (∀ i r, wd_requests w !! i = Some r →
      server_of p (rq_generation r) ∉ wd_closing w ++ wd_closed w
      ∧ ∀ s slot, pl_servers p !! server_of p (rq_generation r) = Some s → (slot < length (srv_clients s))%nat →
        ∃ k, fst (client (server_of p (rq_generation r)) slot p) = Some k
          ∧ pl_clients (snd (client (server_of p (rq_generation r)) slot p)) !! k = Some 0%nat)
  ∧ (pl_closed p = false → server_of p (pl_current p) ∉ wd_closing w ++ wd_closed w)
  ∧ NoDup (wd_closing w ++ wd_closed w) ∧ (∀ k n, pl_clients p !! k = Some n → (n ≤ 1)%nat)
  ∧ (quiet w → ∀ k, pl_clients p !! k = Some 0%nat → pl_closed p = false ∧ ∃ i, owns (pl_servers p) k (server_of p (pl_current p)) i)
  ∧ good (pl_heap p).
Proof.
  cbv zeta. intros [Hw Hu]%ok_reachable. pose proof Hw as [Hr Hs Hc Hh]. destruct (ro_current _ Hr) as [cur Hcur].
  pose proof (gen_at_lookup _ _ _ Hcur) as Ecur. split_and!.
  - apply (ro_refs _ Hr).
  - intros i r Hi. destruct (held _ _ _ Hw Hi) as (gen & _ & Eg & _ & _ & Hopen & _).
    assert (Es : server_of (wd_plane w) (rq_generation r) = gn_server gen) by (unfold server_of; by rewrite Eg). rewrite Es. split; [done|].
    intros s slot Hsv Hlt. apply not_elem_of_app in Hopen as [_ Hn].
    destruct (client (gn_server gen) slot (wd_plane w)) as [k p'] eqn:Ek.
    destruct (clients_client _ _ _ _ _ _ Hc Hn Ek) as (_ & Hk & _). destruct (Hk s Hsv Hlt) as (k' & -> & ?). by exists k'.
  - unfold server_of. rewrite Ecur, (so_done _ _ _ _ _ _ Hs _ _ Hcur). intros Hcl [Hret _].
    rewrite <-Ecur in Hret. apply (ro_closed _ Hr) in Hret. congruence.
  - apply Hs.
  - intros k n Hk. destruct (co_all _ _ _ _ Hc k (ex_intro _ _ Hk)) as (sid & i & Ho).
    rewrite (co_count _ _ _ _ Hc k sid i Ho) in Hk. injection Hk as <-. case_decide; lia.
  - intros Hq k Hk. destruct (quiet_client w k Hw Hq Hk) as [i Ho]. split; [|by exists i].
    destruct (pl_closed (wd_plane w)) eqn:Ecl; [|done]. exfalso. destruct (gn_retired cur) eqn:Eret.
    + rewrite (co_count _ _ _ _ Hc k _ i Ho) in Hk. case_decide as Hn; [done|]. destruct Hq as (Eq & _ & El). apply Hn.
      unfold server_of. rewrite Ecur. pose proof (so_done _ _ _ _ _ _ Hs _ _ Hcur) as Hd. rewrite El in Hd. apply Hd. split; [done|].
      rewrite (ro_refs _ Hr _ _ Hcur), Eq. done.
    + rewrite <-Ecur in Eret. destruct (uo_current _ Hu Ecl Eret) as [_ Hno]. by apply (Hno k i).
  - apply Hh.
Qed.

(** ** A change under a running request *)

(** A request on the first generation makes its client, a batch publishes the
    second generation under it, and the request closes what it leaves. *)
Section Demo.
Abbreviation c := demo_config.

Definition demo_prepared : world :=
  let w := boot_world c c 1 in
  let s := new_server c (wd_plane w) in
  {| wd_plane := snd s; wd_revision := wd_revision w; wd_busy := wd_busy w; wd_prepared := fst s :: wd_prepared w;
     wd_requests := wd_requests w; wd_closing := wd_closing w; wd_closed := wd_closed w |}.
Definition demo_entered : world :=
  let w := demo_prepared in
  {| wd_plane := snd (acquire (wd_plane w)); wd_revision := wd_revision w; wd_busy := wd_busy w || is_mutation Plain;
     wd_prepared := wd_prepared w; wd_requests := wd_requests w ++ [request_of (pl_current (wd_plane w)) Plain];
     wd_closing := wd_closing w; wd_closed := wd_closed w |}.
Definition demo_client : world :=
  with_plane (snd (client (server_of (wd_plane demo_entered) (pl_current (wd_plane demo_prepared))) 0 (wd_plane demo_entered))) demo_entered.
Definition demo_published : world :=
  let w := demo_client in
  let s := commit (fst (new_server c (wd_plane (boot_world c c 1)))) 2 (wd_plane w) in
  {| wd_plane := snd s; wd_revision := wd_revision w + 1; wd_busy := wd_busy w; wd_prepared := delete 0%nat (wd_prepared w);
     wd_requests := wd_requests w; wd_closing := if_closing (fst s) (server_of (wd_plane w) (pl_current (wd_plane w))) (wd_closing w);
     wd_closed := wd_closed w |}.
Definition demo_left : world :=
  let w := demo_published in
  let r := request_of (pl_current (wd_plane demo_prepared)) Plain in
  let s := release (rq_generation r) (wd_plane w) in
  {| wd_plane := snd s; wd_revision := wd_revision w; wd_busy := wd_busy w && negb (is_mutation (rq_kind r));
     wd_prepared := wd_prepared w; wd_requests := delete 0%nat (wd_requests w);
     wd_closing := if_closing (fst s) (server_of (snd s) (rq_generation r)) (wd_closing w); wd_closed := wd_closed w |}.
Definition demo_quiet : world :=
  let w := demo_left in
  {| wd_plane := Close 1 (wd_plane w); wd_revision := wd_revision w; wd_busy := wd_busy w; wd_prepared := wd_prepared w;
     wd_requests := wd_requests w; wd_closing := delete 0%nat (wd_closing w); wd_closed := 1%nat :: wd_closed w |}.
End Demo.

Lemma demo_quiet_run : rtc plane_step (boot_world demo_config demo_config 1) demo_quiet.
Proof.
  apply (rtc_l _ _ demo_prepared).
  { exact (ps_prepare (boot_world demo_config demo_config 1) demo_config _ _ (surjective_pairing _)). }
  apply (rtc_l _ _ demo_entered).
  { assert (E : acquire (wd_plane demo_prepared) = (Some (pl_current (wd_plane demo_prepared)), snd (acquire (wd_plane demo_prepared)))).
    { unfold acquire. assert (Ec : pl_closed (wd_plane demo_prepared) = false) by (vm_compute; reflexivity). by rewrite Ec. }
    exact (ps_enter demo_prepared Plain _ _ I E). }
  apply (rtc_l _ _ demo_client).
  { exact (ps_client demo_entered 0 (request_of (pl_current (wd_plane demo_prepared)) Plain) 0 _ _ eq_refl (surjective_pairing _)). }
  apply (rtc_l _ _ demo_published).
  { assert (Hp : may_publish ByBatch demo_client) by (split; vm_compute; reflexivity).
    exact (ps_publish demo_client ByBatch 0 _ 2 _ _ Hp eq_refl (surjective_pairing _)). }
  apply (rtc_l _ _ demo_left).
  { exact (ps_leave demo_published 0 (request_of (pl_current (wd_plane demo_prepared)) Plain) _ _ eq_refl (surjective_pairing _)). }
  apply rtc_once. assert (Hc : wd_closing demo_left !! 0%nat = Some 1%nat) by (vm_compute; reflexivity).
  exact (ps_finish demo_left 0 1 Hc).
Qed.

Lemma generations_close_what_they_leave_witness :
  quiet demo_quiet ∧ wd_closed demo_quiet = [1%nat] ∧ wd_revision demo_quiet = 2
  ∧ map snd (map_to_list (pl_clients (wd_plane demo_quiet))) = [1%nat] ∧ good (pl_heap (wd_plane demo_quiet)).
Proof.
  split; [vm_compute; done|]. split; [vm_compute; done|]. split; [vm_compute; done|]. split; [vm_compute; done|].
  apply (generations_close_what_they_leave demo_config demo_config 1 demo_quiet demo_quiet_run).
Defined.
