(* ===== verification/Marshal.v ===== *)
(** * [json.Marshal] of the values the adapters write

    A Go value made of [map[string]any], [[]any], strings, integers, booleans
    and nil, and the text [encoding/json] gives it: the keys of a map in byte
    order, HTML characters, line separators and invalid UTF-8 escaped.  The
    text is valid JSON that reads back as the value. *)

From S2P Require Import Prelude Json JsonFacts GoText.
Local Open Scope Z_scope.

Inductive gv :=
| GNull
| GBool (b : bool)
| GInt (z : Z)
| GStr (s : string)
| GArr (l : list gv)
| GMap (l : list (string * gv)).

(** ** Numbers ([strconv.AppendInt], base 10) *)

Definition digit_char (d : Z) : ascii := byte_of (48 + d).

Fixpoint digits (fuel : nat) (n : Z) : bytes :=
  match fuel with
  | O => []
  | S fuel => if n <? 10 then [digit_char n] else digits fuel (n / 10) ++ [digit_char (n mod 10)]
  end.

Definition decimal (z : Z) : bytes :=
  if z <? 0 then "-"%char :: digits (S (Z.to_nat (Z.log2 (- z)))) (- z) else digits (S (Z.to_nat (Z.log2 z))) z.

(** ** Strings ([appendString] with [escapeHTML]) *)

Definition hex_char (d : Z) : ascii := if d <? 10 then byte_of (48 + d) else byte_of (87 + d).

(** [htmlSafeSet] *)
Definition html_safe (c : ascii) : bool :=
  (32 <=? code c) && negb (Ascii.eqb c quote) && negb (Ascii.eqb c backslash) && negb (ascii_in c "<>&").

Definition escape_byte (c : ascii) : bytes :=
  if html_safe c then [c]
  else if Ascii.eqb c quote || Ascii.eqb c backslash then [backslash; c]
  else if code c =? 8 then lit "\b"
  else if code c =? 12 then lit "\f"
  else if code c =? 10 then lit "\n"
  else if code c =? 13 then lit "\r"
  else if code c =? 9 then lit "\t"
  else lit "\u00" ++ [hex_char (code c / 16); hex_char (code c mod 16)].

Fixpoint escape (fuel : nat) (l : bytes) : bytes :=
  match fuel, l with
  | O, _ | _, [] => []
  | S fuel, c :: l1 =>
      if code c <? 128 then escape_byte c ++ escape fuel l1
      else
        let '(r, n) := decode_rune l in
        (if Nat.eqb n 1 && (r =? rune_error) then lit "\ufffd"
         else if (r =? 8232) || (r =? 8233) then lit "\u202" ++ [hex_char (r mod 16)]
         else take n l) ++ escape fuel (drop n l)
  end.

Definition escape_string (s : string) : bytes := escape (String.length s) (lit s).
Definition marshal_string (s : string) : bytes := quote :: escape_string s ++ [quote].

(** ** Maps: keys in order *)

Section Sort.
Context {A : Type}.

Fixpoint insert_key (p : string * A) (l : list (string * A)) : list (string * A) :=
  match l with
  | [] => [p]
  | q :: l' => if String.leb (fst p) (fst q) then p :: l else q :: insert_key p l'
  end.
Definition sort_keys (l : list (string * A)) : list (string * A) := foldr insert_key [] l.

Lemma insert_key_forall (P : string * A → Prop) p l : P p → Forall P l → Forall P (insert_key p l).
Proof. intros Hp. induction 1 as [|q l Hq Hl IH]; simpl; [by constructor|]. case_match; by repeat constructor. Qed.
Lemma sort_keys_forall (P : string * A → Prop) l : Forall P l → Forall P (sort_keys l).
Proof. induction 1; simpl; [constructor|]. by apply insert_key_forall. Qed.
End Sort.

Lemma sort_keys_map {A B} (f : A → B) l :
  sort_keys (map (λ p, (fst p, f (snd p))) l) = map (λ p, (fst p, f (snd p))) (sort_keys l).
Proof.
  assert (Hi : ∀ p q, insert_key (fst p, f (snd p)) (map (λ p, (fst p, f (snd p))) q)
    = map (λ p, (fst p, f (snd p))) (insert_key p q)).
  { intros p q. induction q as [|x q IH]; simpl; [done|]. case_match; simpl; by rewrite ?IH. }
  induction l as [|p l IH]; simpl; [done|]. by rewrite IH, Hi.
Qed.

(** ** [json.Marshal] *)

Fixpoint separated (l : list bytes) : bytes :=
  match l with
  | [] => []
  | [x] => x
  | x :: l' => x ++ ","%char :: separated l'
  end.

Definition marshal_member (p : string * bytes) : bytes := marshal_string (fst p) ++ ":"%char :: snd p.

Fixpoint Marshal (v : gv) : bytes :=
  match v with
  | GNull => lit "null"
  | GBool b => if b then lit "true" else lit "false"
  | GInt z => decimal z
  | GStr s => marshal_string s
  | GArr l => "["%char :: separated (map Marshal l) ++ ["]"%char]
  | GMap l => "{"%char :: separated (map marshal_member (sort_keys (map (λ p, (fst p, Marshal (snd p))) l))) ++ ["}"%char]
  end.

(** The value as a reader sees it. *)
Fixpoint json_of (v : gv) : json :=
  match v with
  | GNull => JNull
  | GBool b => JBool b
  | GInt z => JNum (decimal z)
  | GStr s => JStr (escape_string s)
  | GArr l => JArr (map json_of l)
  | GMap l => JObj (map (λ p, (escape_string (fst p), snd p)) (sort_keys (map (λ p, (fst p, json_of (snd p))) l)))
  end.

Fixpoint gdepth (v : gv) : Z :=
  match v with
  | GArr l => 1 + foldr Z.max 0 (map gdepth l)
  | GMap l => 1 + foldr Z.max 0 (map (λ p, gdepth (snd p)) l)
  | _ => 0
  end.

#[global] Arguments decimal : simpl never.
#[global] Arguments escape_string : simpl never.

Example marshal_ex : Marshal (GMap [("b", GArr [GInt (-12); GNull; GBool true]); ("a", GStr "x<y")])%string
  = js "{'a':'x\u003cy','b':[-12,null,true]}".
Proof. vm_compute. reflexivity. Qed.
Example marshal_ex2 : Marshal (GStr (str (map byte_of [7; 9; 34; 92; 255; 226; 128; 168; 195; 169])))
  = js "'\u0007\t\" ++ [quote] ++ lit "\\\ufffd\u2028" ++ map byte_of [195; 169; 34].
Proof. vm_compute. reflexivity. Qed.

(** ** The text read back *)

(** ** Numbers *)

Definition all_digits (l : bytes) : Prop := forallb is_digit l = true.

Lemma digit_char_code d : 0 <= d < 10 → code (digit_char d) = 48 + d ∧ is_digit (digit_char d) = true.
Proof.
  intros H. unfold is_digit, digit_char. rewrite code_byte_of by lia. split; [done|].
  apply andb_true_iff. split; apply Z.leb_le; lia.
Qed.

Lemma digits_value_app a b : digits_value (a ++ b) = fold_left (λ n c, 10 * n + (code c - 48)) b (digits_value a).
Proof. apply fold_left_app. Qed.

Lemma digits_spec fuel n :
  0 <= n → Z.log2 n < Z.of_nat fuel →
  all_digits (digits fuel n) ∧ digits_value (digits fuel n) = n
  ∧ ∃ c t, digits fuel n = c :: t ∧ (c = "0"%char → t = []).
Proof.
  revert n. induction fuel as [|fuel IH]; intros n Hn Hf; [pose proof (Z.log2_nonneg n); lia|].
  cbn [digits]. destruct (Z.ltb_spec n 10) as [Hlt|Hge].
  - destruct (digit_char_code n ltac:(lia)) as [H1 H2]. split_and!.
    + unfold all_digits. cbn [forallb]. by rewrite H2.
    + unfold digits_value. cbn [fold_left]. rewrite H1. lia.
    + by exists (digit_char n), [].
  - assert (Hq : 1 <= n / 10) by (Z.to_euclidean_division_equations; lia).
    assert (Hl : Z.log2 (n / 10) < Z.of_nat fuel).
    { assert (Z.succ (Z.log2 (n / 10)) <= Z.log2 n); [|lia]. rewrite <-(Z.log2_double (n / 10)) by lia.
      apply Z.log2_le_mono. Z.to_euclidean_division_equations; lia. }
    destruct (IH (n / 10) ltac:(lia) Hl) as (Hd & Hv & c & t & Et & Hc).
    destruct (digit_char_code (n mod 10) (Z.mod_pos_bound n 10 ltac:(lia))) as [H1 H2]. split_and!.
    + unfold all_digits in *. rewrite forallb_app, Hd. cbn [forallb]. by rewrite H2.
    + rewrite digits_value_app, Hv. cbn [fold_left]. rewrite H1. pose proof (Z.div_mod n 10 ltac:(lia)). lia.
    + rewrite Et. exists c, (t ++ [digit_char (n mod 10)]). split; [done|].
      intros ->. rewrite (Hc eq_refl) in Et. rewrite Et in Hv. change (digits_value ["0"%char]) with 0 in Hv. lia.
Qed.

Definition number_digits (n : Z) : bytes := digits (S (Z.to_nat (Z.log2 n))) n.

Lemma number_digits_spec n : 0 <= n →
  all_digits (number_digits n) ∧ digits_value (number_digits n) = n
  ∧ ∃ c t, number_digits n = c :: t ∧ (c = "0"%char → t = []).
Proof. intros H. apply digits_spec; [done|]. pose proof (Z.log2_nonneg n). lia. Qed.

Lemma decimal_cases z : decimal z = if z <? 0 then "-"%char :: number_digits (- z) else number_digits z.
Proof. reflexivity. Qed.

(** A number's digits are one JSON integer. *)
Lemma parse_digits n r : 0 <= n → not_num r → parse_number (number_digits n ++ r) = Some (number_digits n, r).
Proof.
  intros Hn Hr. destruct (number_digits_spec n Hn) as (Hd & _ & c & t & E & Hc). rewrite E in *. unfold all_digits in Hd.
  cbn [forallb] in Hd. apply andb_true_iff in Hd as [Hcd Ht].
  assert (Hs : Ascii.eqb c "-" = false) by (destruct (Ascii.eqb_spec c "-") as [->|]; [done|done]).
  assert (Hr' : parse_frac r = Some ([], r) ∧ parse_exp r = Some ([], r)).
  { unfold not_num in Hr. destruct r as [|x r]; [done|]. cbn [head_is] in Hr. cbn [parse_frac parse_exp].
    destruct (Ascii.eqb_spec x ".") as [->|]; [done|]. destruct (Ascii.eqb_spec x "e") as [->|]; [done|].
    destruct (Ascii.eqb_spec x "E") as [->|]; [done|]. done. }
  unfold parse_number. cbn [app]. rewrite Hs. cbn [parse_int]. destruct (Ascii.eqb_spec c "0") as [->|].
  - rewrite (Hc eq_refl). cbn [app mbind option_bind]. destruct Hr' as [-> Hx]. cbn [mbind option_bind].
    rewrite Hx. reflexivity.
  - rewrite Hcd, span_digits_rest by (done || by apply not_num_digit). cbn [mbind option_bind].
    destruct Hr' as [-> Hx]. cbn [mbind option_bind]. rewrite Hx. cbn [mbind option_bind app]. by rewrite app_nil_r.
Qed.

Lemma decimal_head z : ∃ c t, decimal z = c :: t ∧ (c = "-"%char ∨ is_digit c = true).
Proof.
  rewrite decimal_cases. destruct (Z.ltb_spec z 0); [by eauto|].
  destruct (number_digits_spec z ltac:(lia)) as (Hd & _ & c & t & E & _). rewrite E in *. exists c, t. split; [done|].
  right. unfold all_digits in Hd. cbn [forallb] in Hd. by apply andb_true_iff in Hd as [? _].
Qed.

Lemma parse_decimal z r : not_num r → parse_number (decimal z ++ r) = Some (decimal z, r).
Proof.
  intros Hr. rewrite decimal_cases. destruct (Z.ltb_spec z 0); [|by apply parse_digits].
  pose proof (parse_digits (- z) r ltac:(lia) Hr) as Hp.
  destruct (number_digits_spec (- z) ltac:(lia)) as (Hd & _ & c & t & E & _). rewrite E in *.
  assert (Hs : Ascii.eqb c "-" = false) by (destruct (Ascii.eqb_spec c "-") as [->|]; [by cbn in Hd|done]).
  unfold parse_number in Hp |- *. cbn [app] in Hp |- *. rewrite Hs in Hp. cbn [Ascii.eqb Bool.eqb].
  destruct (parse_int (c :: t ++ r)) as [[i l2]|]; [|done]. cbn [mbind option_bind] in Hp |- *.
  destruct (parse_frac l2) as [[f l3]|]; [|done]. cbn [mbind option_bind] in Hp |- *.
  destruct (parse_exp l3) as [[e l4]|]; [|done]. cbn [mbind option_bind app] in Hp |- *. injection Hp as -> ->. done.
Qed.

Lemma parse_i64_decimal z : is_i64 z → parse_i64 (decimal z) = Some z.
Proof.
  intros Hz. unfold parse_i64.
  assert (Hok : ∀ n, 0 <= n → bool_decide (number_digits n = []) || negb (forallb is_digit (number_digits n)) = false
    ∧ digits_value (number_digits n) = n).
  { intros n Hn. destruct (number_digits_spec n Hn) as (Hd & Hv & c & t & E & _). unfold all_digits in Hd. rewrite Hd.
    split; [|done]. rewrite E. reflexivity. }
  assert (Hr : (- two63 <=? z) && (z <? two63) = true).
  { unfold is_i64 in Hz. apply andb_true_iff. split; [apply Z.leb_le|apply Z.ltb_lt]; lia. }
  rewrite decimal_cases. destruct (Z.ltb_spec z 0).
  - rewrite Ascii.eqb_refl. cbv beta iota zeta. destruct (Hok (- z) ltac:(lia)) as [-> ->]. by rewrite Z.opp_involutive, Hr.
  - destruct (Hok z ltac:(lia)) as [Hb Hv]. destruct (number_digits_spec z ltac:(lia)) as (Hd & _ & c & t & E & _).
    rewrite E in *. unfold all_digits in Hd.
    assert (Hs : Ascii.eqb c "-" = false) by (destruct (Ascii.eqb_spec c "-") as [->|]; [by cbn in Hd|done]).
    rewrite Hs. cbv beta iota zeta. by rewrite Hb, Hv, Hr.
Qed.

(** ** Strings *)

Definition high (c : ascii) : Prop := 128 <= code c.

Lemma is_cont_high lo hi c : 128 <= lo → is_cont lo hi c = true → high c.
Proof. unfold is_cont, high. intros ? H. bool_prop. lia. Qed.

(** A rune is read from its own bytes, which are not ASCII. *)
Lemma decode_rune_own c t r n :
  high c → decode_rune (c :: t) = (r, n) →
  (n = 1%nat ∧ r = rune_error)
  ∨ ((1 < n ≤ length (c :: t))%nat ∧ Forall high (take n (c :: t)) ∧ ∀ x, decode_rune (take n (c :: t) ++ x) = (r, n)).
Proof.
  intros Hc. unfold high in Hc. unfold decode_rune. set (x0 := code c) in *.
  rewrite (proj2 (Z.ltb_ge x0 128) Hc).
  repeat (case_match; try (intros [= <- <-]; by left));
    intros [= <- <-]; right;
    repeat match goal with H : _ && _ = true |- _ => apply andb_true_iff in H as [? ?] end;
    (split; [simpl; lia|]);
    (split; [repeat constructor; first [exact Hc | eapply is_cont_high; [|eassumption]; lia]|]);
    intros x; cbn [take app]; fold x0;
    rewrite ?(proj2 (Z.ltb_ge x0 128) Hc); repeat match goal with H : ?b = _ |- context [?b] => rewrite H end; reflexivity.
Qed.

(** The text [q] inside a literal stands for the text [w]. *)
Record spells (q w : bytes) : Prop := {
  sp_parse X raw rest : parse_string X = Some (raw, rest) → parse_string (q ++ X) = Some (q ++ raw, rest);
  sp_unquote f l : (length (q ++ l) ≤ f)%nat →
    ∃ f', (length l ≤ f')%nat ∧ unquote_fuel f (q ++ l) = w ++ unquote_fuel f' l }.

Lemma spells_app q1 w1 q2 w2 : spells q1 w1 → spells q2 w2 → spells (q1 ++ q2) (w1 ++ w2).
Proof.
  intros [P1 U1] [P2 U2]. split.
  - intros X raw rest H. rewrite <-!app_assoc. by apply P1, P2.
  - intros f l Hf. rewrite <-app_assoc in *. destruct (U1 f (q2 ++ l) Hf) as (f1 & Hf1 & ->).
    destruct (U2 f1 l Hf1) as (f2 & Hf2 & ->). exists f2. split; [done|]. by rewrite <-app_assoc.
Qed.

(** A single escape, whose text is known. *)
Lemma spells_escape q w :
  (∀ X, parse_string (q ++ X) = '(raw, rest) ← parse_string X; Some (q ++ raw, rest)) →
  (0 < length q)%nat →
  (∀ f l, unquote_fuel (S f) (q ++ l) = w ++ unquote_fuel f l) → spells q w.
Proof.
  intros Hp Hq Hu. split; [by intros X raw rest H; rewrite Hp, H|].
  intros [|f] l Hf; rewrite length_app in Hf; [lia|]. exists f. split; [lia|]. apply Hu.
Qed.

Lemma spells_byte c : code c < 128 → spells (escape_byte c) [c].
Proof.
  intros Hc. apply spells_escape.
  - intros X. destruct c as [[] [] [] [] [] [] [] []]; try (vm_compute in Hc; discriminate);
      simpl; destruct (parse_string X) as [[raw rest]|]; reflexivity.
  - unfold escape_byte. repeat case_match; cbn; lia.
  - intros f l. destruct c as [[] [] [] [] [] [] [] []]; try (vm_compute in Hc; discriminate); reflexivity.
Qed.

Lemma spells_error : spells (lit "\ufffd") (encode_rune rune_error).
Proof.
  apply spells_escape; [|simpl; lia|reflexivity].
  intros X. simpl. destruct (parse_string X) as [[raw rest]|]; reflexivity.
Qed.

Lemma spells_separator r : r = 8232 ∨ r = 8233 → spells (lit "\u202" ++ [hex_char (r mod 16)]) (encode_rune r).
Proof.
  intros [-> | ->]; (apply spells_escape; [|simpl; lia|reflexivity]);
    intros X; simpl; destruct (parse_string X) as [[raw rest]|]; reflexivity.
Qed.

Lemma high_not_special c : high c → Ascii.eqb c quote = false ∧ Ascii.eqb c backslash = false ∧ (code c <? 32) = false ∧ (code c <? 128) = false.
Proof.
  unfold high. intros H. split_and!.
  - by destruct (Ascii.eqb_spec c quote) as [->|].
  - by destruct (Ascii.eqb_spec c backslash) as [->|].
  - apply Z.ltb_ge; lia.
  - apply Z.ltb_ge; lia.
Qed.

Lemma spells_rune c t r n :
  high c → decode_rune (c :: t) = (r, n) → ¬ (n = 1%nat ∧ r = rune_error) → spells (take n (c :: t)) (encode_rune r).
Proof.
  intros Hc E Hv. destruct (decode_rune_own c t r n Hc E) as [?|(Hn & Hh & Hown)]; [done|]. split.
  - clear Hown. intros X raw rest H. induction Hh as [|x q Hx _ IH]; [done|]. cbn [app parse_string].
    destruct (high_not_special x Hx) as (-> & -> & -> & _). rewrite IH. reflexivity.
  - intros [|f] l Hf; [destruct n; [lia|]; simpl in Hf; lia|]. rewrite length_app, length_take in Hf.
    exists f. split; [lia|]. destruct n as [|n]; [lia|]. specialize (Hown l).
    destruct (high_not_special c Hc) as (_ & H1 & _ & H2). cbn [take app] in *. cbn [unquote_fuel].
    rewrite H1, H2, Hown. do 2 f_equal. cbn [drop]. rewrite drop_app_length'; [done|]. rewrite length_take. simpl in Hn. lia.
Qed.

(** Text with each invalid byte replaced by U+FFFD, what a reader receives. *)
Fixpoint to_valid (fuel : nat) (l : bytes) : bytes :=
  match fuel, l with
  | O, _ | _, [] => []
  | S fuel, c :: l1 =>
      if code c <? 128 then c :: to_valid fuel l1
      else let '(r, n) := decode_rune l in encode_rune r ++ to_valid fuel (drop n l)
  end.
Definition ToValid (s : string) : string := str (to_valid (String.length s) (lit s)).

Lemma decode_rune_step c t r n : high c → decode_rune (c :: t) = (r, n) → ∃ m, n = S m.
Proof.
  intros Hc E. destruct (decode_rune_own c t r n Hc E) as [[-> _]|(Hn & _)]; [by exists 0%nat|].
  destruct n as [|m]; [lia|by exists m].
Qed.

Lemma escape_spells fuel l : spells (escape fuel l) (to_valid fuel l).
Proof.
  revert l. induction fuel as [|fuel IH]; intros l.
  { split; [done|]. intros f l' Hf. by exists f. }
  destruct l as [|c l]; [split; [done|]; intros f l' Hf; by exists f|]. cbn [escape to_valid].
  destruct (Z.ltb_spec (code c) 128) as [Hlt|Hge]; [by apply (spells_app _ [c]); [apply spells_byte|]|].
  destruct (decode_rune (c :: l)) as [r n] eqn:E. apply spells_app; [|apply IH].
  destruct (Nat.eqb n 1 && (r =? rune_error)) eqn:Ei.
  - apply andb_true_iff in Ei as [_ ->%Z.eqb_eq]. apply spells_error.
  - destruct ((r =? 8232) || (r =? 8233)) eqn:Es.
    + apply spells_separator. apply orb_true_iff in Es as [?%Z.eqb_eq|?%Z.eqb_eq]; [by left|by right].
    + eapply spells_rune; [done..|]. intros [-> ->]. by rewrite Z.eqb_refl in Ei.
Qed.

Lemma escape_string_parse s x : parse_string (escape_string s ++ quote :: x) = Some (escape_string s, x).
Proof.
  pose proof (sp_parse _ _ (escape_spells (String.length s) (lit s)) (quote :: x) [] x eq_refl) as H.
  rewrite app_nil_r in H. exact H.
Qed.

(** What is written as a string is read as its valid text. *)
Lemma unquote_escape s : unquote (escape_string s) = ToValid s.
Proof.
  unfold unquote, ToValid. f_equal.
  destruct (sp_unquote _ _ (escape_spells (String.length s) (lit s)) (length (escape_string s)) []) as (f & _ & H).
  { by rewrite app_nil_r. }
  rewrite app_nil_r in H. unfold escape_string at 2. rewrite H. destruct f; by rewrite app_nil_r.
Qed.

Lemma byte_of_code c : byte_of (code c) = c.
Proof. unfold byte_of, code. rewrite Nat2Z.id. apply ascii_nat_embedding. Qed.

Lemma byte_of_eq z c : z = code c → byte_of z = c.
Proof. intros ->. apply byte_of_code. Qed.

Lemma code_range c : 0 <= code c < 256.
Proof. unfold code. pose proof (nat_ascii_bounded c). lia. Qed.

(** A valid rune is encoded as the bytes it was decoded from. *)
Lemma encode_decode c t r n :
  high c → decode_rune (c :: t) = (r, n) → ¬ (n = 1%nat ∧ r = rune_error) → encode_rune r = take n (c :: t).
Proof.
  intros Hc E Hv. pose proof (code_range c) as Hr. unfold high in Hc. unfold decode_rune in E.
  rewrite (proj2 (Z.ltb_ge (code c) 128) Hc) in E. unfold is_cont in E.
  repeat match type of E with
  | (if ?b then _ else _) = _ => destruct b eqn:?
  | match ?l with [] => _ | _ :: _ => _ end = _ => destruct l eqn:?
  end; injection E as <- <-; try (by destruct Hv);
    bool_prop; repeat match goal with H : _ && _ = true |- _ => apply andb_true_iff in H as [? ?] end; bool_prop; subst;
    unfold encode_rune; cbn [take].
  all: repeat match goal with |- context [?a <? ?b] => destruct (Z.ltb_spec a b); try (exfalso; Z.to_euclidean_division_equations; lia) end.
  all: repeat f_equal; apply byte_of_eq; Z.to_euclidean_division_equations; lia.
Qed.

Lemma to_valid_id fuel l : (length l ≤ fuel)%nat → valid_utf8 fuel l = true → to_valid fuel l = l.
Proof.
  revert l. induction fuel as [|fuel IH]; intros l Hf Hv; [by destruct l; [|simpl in Hf; lia]|].
  destruct l as [|c l]; [done|]. cbn [to_valid valid_utf8] in *.
  destruct (Z.ltb_spec (code c) 128) as [Hlt|Hge].
  - f_equal. simpl in Hf. apply IH; [lia|]. unfold decode_rune in Hv. rewrite (proj2 (Z.ltb_lt _ _) Hlt) in Hv.
    apply andb_true_iff in Hv as [_ Hv]. exact Hv.
  - destruct (decode_rune (c :: l)) as [r n] eqn:E. apply andb_true_iff in Hv as [Hne Hv].
    assert (Hok : ¬ (n = 1%nat ∧ r = rune_error)) by (intros [-> ->]; by rewrite Z.eqb_refl in Hne).
    destruct (decode_rune_own c l r n Hge E) as [?|(Hn & _)]; [done|].
    rewrite (encode_decode c l r n Hge E Hok), IH; [apply take_drop| |done]. rewrite length_drop. simpl in *. lia.
Qed.

Lemma length_lit s : length (lit s) = String.length s.
Proof. unfold lit. induction s as [|c s IH]; simpl; [done|by rewrite IH]. Qed.

Lemma str_lit s : str (lit s) = s.
Proof. apply string_of_list_ascii_of_string. Qed.
Lemma lit_str l : lit (str l) = l.
Proof. apply list_ascii_of_string_of_list_ascii. Qed.

Lemma ToValid_id s : ValidString s = true → ToValid s = s.
Proof.
  intros H. unfold ToValid. rewrite to_valid_id; [apply str_lit| |exact H]. by rewrite length_lit.
Qed.

Lemma ToValid_empty s : ToValid s = ""%string ↔ s = ""%string.
Proof.
  split; [|by intros ->]. unfold ToValid. destruct s as [|c s]; [done|]. intros H. exfalso.
  cbn [String.length lit list_ascii_of_string to_valid] in H.
  destruct (Z.ltb_spec (code c) 128) as [|Hge]; [discriminate|].
  pose proof (decode_rune_range c (list_ascii_of_string s) Hge) as Hr.
  destruct (decode_rune (c :: list_ascii_of_string s)) as [r n]. simpl in Hr.
  destruct (encode_rune_head r Hr) as (y & u & E & _). rewrite E in H. discriminate.
Qed.

(** ** Values *)

(** Induction that reaches the elements of arrays and maps. *)
Lemma gv_rect_nested (P : gv → Prop) :
  P GNull → (∀ b, P (GBool b)) → (∀ z, P (GInt z)) → (∀ s, P (GStr s)) →
  (∀ l, Forall P l → P (GArr l)) → (∀ l, Forall (λ p, P (snd p)) l → P (GMap l)) → ∀ v, P v.
Proof.
  intros H1 H2 H3 H4 H5 H6. fix go 1. intros [|b|z|s|l|l]; [apply H1|apply H2|apply H3|apply H4| |].
  - apply H5. induction l as [|v l IH]; constructor; [apply go|exact IH].
  - apply H6. induction l as [|[k v] l IH]; constructor; [apply go|exact IH].
Qed.

(** What parsing a text means, in any context and with enough fuel. *)
Definition parses (q : bytes) (v : json) (depth : Z) : Prop := ∀ fuel d r,
  0 <= d → d + depth <= max_nesting → not_num r → (2 * length q ≤ fuel)%nat → parse_value fuel d (q ++ r) = Some (v, r).

Lemma parses_literal p c q v :
  (∀ fuel d r, parse_value (S fuel) d (c :: q ++ r) = parse_literal q v (q ++ r)) → p = c :: q → parses p v 0.
Proof.
  intros Hp -> [|fuel] d r _ _ _ Hf; [simpl in Hf; lia|]. cbn [app]. rewrite Hp. unfold parse_literal.
  assert (Hs : ∀ q r, strip q (q ++ r) = Some r).
  { clear. induction q as [|a q IH]; intros r; [done|]. simpl. by rewrite Ascii.eqb_refl. }
  by rewrite Hs.
Qed.

Lemma parses_null : parses (lit "null") JNull 0.
Proof. by apply (parses_literal _ "n"%char (lit "ull")). Qed.
Lemma parses_bool b : parses (Marshal (GBool b)) (JBool b) 0.
Proof. destruct b; [by apply (parses_literal _ "t"%char (lit "rue"))|by apply (parses_literal _ "f"%char (lit "alse"))]. Qed.

Lemma parses_string s : parses (marshal_string s) (JStr (escape_string s)) 0.
Proof.
  intros [|fuel] d r _ _ _ Hf; [simpl in Hf; lia|]. unfold marshal_string. cbn [app parse_value].
  rewrite Ascii.eqb_refl, <-app_assoc. cbn [app]. by rewrite escape_string_parse.
Qed.

Lemma parses_int z : parses (decimal z) (JNum (decimal z)) 0.
Proof.
  intros fuel d r _ _ Hr Hf. pose proof (parse_decimal z r Hr) as Hp.
  destruct (decimal_head z) as (c & t & E & Hc). rewrite E in *. destruct fuel as [|fuel]; [simpl in Hf; lia|].
  cbn [app parse_value] in *.
  assert (Hx : ∀ x, is_digit x = false → x ≠ "-"%char → Ascii.eqb c x = false).
  { intros x Hx Hne. destruct (Ascii.eqb_spec c x) as [->|]; [|done]. destruct Hc as [->|Hc]; [done|congruence]. }
  rewrite !Hx by done. by rewrite Hp.
Qed.

Lemma parses_head q v d0 : parses q v d0 → d0 <= max_nesting → ∃ c t, q = c :: t.
Proof.
  intros H Hd. destruct q as [|c t]; [|by eauto]. specialize (H 0%nat 0 [] ltac:(lia) ltac:(lia) eq_refl ltac:(simpl; lia)). done.
Qed.

(** A text that starts with no white space, as every value does. *)
Definition no_ws (q : bytes) : Prop := ∀ r, skip_ws (q ++ r) = q ++ r.

Lemma no_ws_cons c t : is_ws c = false → no_ws (c :: t).
Proof. intros H r. by apply skip_ws_id. Qed.

Lemma no_ws_value v : no_ws (Marshal v).
Proof.
  destruct v as [|[]|z|s|l|l]; try by apply no_ws_cons.
  cbn [Marshal]. destruct (decimal_head z) as (c & t & -> & Hc). apply no_ws_cons.
  destruct Hc as [->|Hc]; [done|]. unfold is_digit in Hc. unfold is_ws. bool_prop.
  repeat (apply orb_false_iff; split); apply Z.eqb_neq; lia.
Qed.

Lemma separated_cons x y l : separated (x :: y :: l) = x ++ ","%char :: separated (y :: l).
Proof. reflexivity. Qed.

Lemma delim_not_num c (r : bytes) : num_byte c = false → not_num (c :: r).
Proof. done. Qed.

(** The elements of an array, up to its closing bracket. *)
Lemma parse_elements_written vs depth fuel d r :
  Forall (λ v, parses (Marshal v) (json_of v) depth) vs → vs ≠ [] → 0 <= d → d + depth <= max_nesting →
  (2 * length (separated (map Marshal vs)) + 1 ≤ fuel)%nat →
  parse_elements fuel d (separated (map Marshal vs) ++ "]"%char :: r) = Some (map json_of vs, r).
Proof.
  intros H. revert fuel. induction H as [|v vs Hv Hvs IH]; intros fuel Hne Hd Hm Hf; [done|].
  destruct fuel as [|fuel]; [lia|]. destruct vs as [|v' vs].
  - cbn [map separated] in *. cbn [parse_elements]. rewrite (Hv fuel d) by (done || lia). done.
  - cbn [map] in *. rewrite separated_cons in *. rewrite length_app in Hf. cbn [length] in Hf.
    rewrite <-app_assoc. cbn [parse_elements app]. rewrite (Hv fuel d) by (done || lia). cbn [mbind option_bind].
    rewrite skip_ws_id by done. cbn [Ascii.eqb Bool.eqb].
    assert (Hs : skip_ws (separated (Marshal v' :: map Marshal vs) ++ "]"%char :: r)
      = separated (Marshal v' :: map Marshal vs) ++ "]"%char :: r).
    { pose proof (no_ws_value v') as Hw. destruct (map Marshal vs); [apply Hw|].
      rewrite separated_cons, <-app_assoc. apply Hw. }
    rewrite Hs, IH by (done || lia). done.
Qed.

(** The members of an object, in their order. *)
Lemma parse_members_written (ms : list (string * gv)) depth fuel d r :
  Forall (λ p, parses (Marshal (snd p)) (json_of (snd p)) depth) ms → ms ≠ [] → 0 <= d → d + depth <= max_nesting →
  let text := separated (map (λ p, marshal_member (fst p, Marshal (snd p))) ms) in
  (2 * length text + 1 ≤ fuel)%nat →
  parse_members fuel d (text ++ "}"%char :: r) = Some (map (λ p, (escape_string (fst p), json_of (snd p))) ms, r).
Proof.
  intros H. revert fuel. induction H as [|[k v] ms Hv Hms IH]; intros fuel Hne Hd Hm text Hf; [done|].
  destruct fuel as [|fuel]; [lia|]. unfold text in *. clear text. cbn [fst snd map] in *.
  set (m := marshal_member (k, Marshal v)) in *.
  assert (Em : ∀ x, m ++ x = quote :: escape_string k ++ quote :: ":"%char :: Marshal v ++ x).
  { intros x. unfold m, marshal_member, marshal_string. cbn [fst snd app]. by rewrite <-!app_assoc. }
  assert (El : (length m = length (escape_string k) + length (Marshal v) + 3)%nat).
  { pose proof (f_equal length (Em [])) as E. rewrite app_nil_r in E. rewrite E. cbn [length].
    rewrite length_app. cbn [length]. rewrite length_app. cbn. lia. }
  destruct ms as [|[k' v'] ms].
  - cbn [map separated] in *. rewrite Em. cbn [parse_members]. rewrite Ascii.eqb_refl. cbn [negb].
    rewrite escape_string_parse. cbn [mbind option_bind]. rewrite skip_ws_id by done. cbn [Ascii.eqb Bool.eqb negb].
    rewrite no_ws_value, (Hv fuel d) by (done || lia). done.
  - cbn [map] in *. rewrite separated_cons in *. rewrite length_app in Hf. cbn [length] in Hf.
    rewrite <-app_assoc, Em. cbn [parse_members]. rewrite Ascii.eqb_refl. cbn [negb].
    rewrite escape_string_parse. cbn [mbind option_bind]. rewrite skip_ws_id by done. cbn [Ascii.eqb Bool.eqb negb].
    rewrite no_ws_value, (Hv fuel d) by (done || lia). cbn [mbind option_bind].
    cbn [app]. rewrite skip_ws_id by done. cbn [Ascii.eqb Bool.eqb].
    set (rest := separated _) in *.
    assert (Hs : skip_ws (rest ++ "}"%char :: r) = rest ++ "}"%char :: r).
    { unfold rest. cbn [map separated]. destruct (map _ ms); [by apply no_ws_cons|]. by apply no_ws_cons. }
    rewrite Hs, IH by (done || lia). done.
Qed.

Lemma parses_weaken q v d1 d2 : d1 <= d2 → parses q v d1 → parses q v d2.
Proof. intros Hle H fuel d r Hd Hm Hr Hf. apply H; [done|lia|done|done]. Qed.

Lemma max_of_forall {A} (f : A → Z) l : Forall (λ x, f x <= foldr Z.max 0 (map f l)) l ∧ 0 <= foldr Z.max 0 (map f l).
Proof.
  induction l as [|x l [IH1 IH2]]; simpl; [done|]. split; [|lia]. constructor; [lia|].
  eapply Forall_impl; [exact IH1|]. simpl. lia.
Qed.

Lemma container_written {A} open close (mk : list A → json) (items : nat → Z → bytes → option (list A * bytes)) text l depth :
  0 <= depth →
  (∀ fuel d c t, parse_value (S fuel) d (open :: c :: t) = parse_container close mk (items fuel (d + 1)) d (c :: t)) →
  is_ws close = false →
  (l = [] → text = []) →
  (l ≠ [] → ∃ c t, text = c :: t ∧ is_ws c = false ∧ Ascii.eqb c close = false) →
  (∀ fuel d r, l ≠ [] → 0 <= d → d + depth <= max_nesting → (2 * length text + 1 ≤ fuel)%nat →
    items fuel d (text ++ close :: r) = Some (l, r)) →
  parses (open :: text ++ [close]) (mk l) (1 + depth).
Proof.
  intros Hdep Hv Hws Hnil Hcons Hitems [|fuel] d r Hd Hm _ Hf; [simpl in Hf; lia|].
  cbn [app length] in *. rewrite <-app_assoc, length_app in *. cbn [app length] in *.
  assert (Hmax : (max_nesting <=? d) = false) by (apply Z.leb_gt; lia).
  destruct l as [|x l].
  - rewrite Hnil by done. cbn [app]. rewrite Hv. unfold parse_container. rewrite Hmax, skip_ws_id by done.
    by rewrite Ascii.eqb_refl.
  - destruct (Hcons ltac:(done)) as (c & t & E & Hc & Hne). rewrite E in *. cbn [app]. rewrite Hv.
    unfold parse_container. rewrite Hmax, skip_ws_id by done. rewrite Hne.
    change (c :: t ++ close :: r) with ((c :: t) ++ close :: r). by rewrite Hitems by (done || lia).
Qed.

Lemma separated_head x xs : ∃ y, separated (x :: xs) = x ++ y.
Proof. destruct xs as [|z xs]; [exists []; cbn; by rewrite app_nil_r|by eexists]. Qed.

Lemma value_head v : ∃ c t, Marshal v = c :: t ∧ is_ws c = false ∧ Ascii.eqb c "]" = false.
Proof.
  destruct v as [|[]|z|s|l|l]; try (eexists _, _; split; [reflexivity|]; done).
  cbn [Marshal]. destruct (decimal_head z) as (c & t & -> & Hc). exists c, t. split; [done|].
  destruct Hc as [->|Hc]; [done|]. unfold is_digit, is_ws in *. bool_prop.
  split; [repeat (apply orb_false_iff; split); apply Z.eqb_neq; lia|].
  destruct (Ascii.eqb_spec c "]") as [->|]; [by vm_compute in H0|done].
Qed.

Lemma Marshal_parses v : parses (Marshal v) (json_of v) (gdepth v).
Proof.
  induction v as [|b|z|s|l IH|l IH] using gv_rect_nested; cbn [gdepth].
  - apply parses_null.
  - apply parses_bool.
  - apply parses_int.
  - apply parses_string.
  - set (D := foldr Z.max 0 (map gdepth l)). destruct (max_of_forall gdepth l) as [Hmax H0]. fold D in Hmax, H0.
    assert (Hl : Forall (λ v, parses (Marshal v) (json_of v) D) l).
    { rewrite Forall_forall in *. intros v Hv. eapply parses_weaken; [by apply Hmax|by apply IH]. }
    cbn [Marshal json_of]. apply (container_written "[" "]" JArr parse_elements); try done.
    + by intros ->%map_eq_nil.
    + intros Hne. destruct l as [|v l]; [done|]. cbn [map]. destruct (value_head v) as (c & t & E & Hc).
      destruct (separated_head (Marshal v) (map Marshal l)) as (y & ->). rewrite E. by eexists c, _.
    + intros fuel d r Hne Hd Hm Hf. apply (parse_elements_written l D); try done. by intros ->.
  - set (D := foldr Z.max 0 (map (λ p, gdepth (snd p)) l)).
    destruct (max_of_forall (λ p : string * gv, gdepth (snd p)) l) as [Hmax H0]. fold D in Hmax, H0.
    assert (Hl : Forall (λ p, parses (Marshal (snd p)) (json_of (snd p)) D) (sort_keys l)).
    { apply sort_keys_forall. rewrite Forall_forall in *. intros p Hp. eapply parses_weaken; [by apply Hmax|by apply IH]. }
    cbn [Marshal json_of]. rewrite !(sort_keys_map (A := gv)), !map_map. cbn [fst snd].
    apply (container_written "{" "}" JObj parse_members); try done.
    + by intros ->%map_eq_nil.
    + intros Hne. destruct (sort_keys l) as [|[k v] ms]; [done|]. cbn [map].
      destruct (separated_head (marshal_member (fst (k, v), Marshal (snd (k, v)))) (map (λ p, marshal_member (fst p, Marshal (snd p))) ms)) as (y & ->).
      by eexists _, _.
    + intros fuel d r Hne Hd Hm Hf. apply (parse_members_written (sort_keys l) D); try done. intros E. by rewrite E in Hne.
Qed.

(** What [json.Marshal] writes is the value again. *)
Lemma parse_Marshal v : gdepth v <= max_nesting → parse_json (Marshal v) = Some (json_of v).
Proof.
  intros Hd. unfold parse_json. pose proof (no_ws_value v []) as Hw. rewrite app_nil_r in Hw. rewrite Hw.
  pose proof (Marshal_parses v (json_fuel (Marshal v)) 0 []) as Hp. rewrite app_nil_r in Hp.
  by rewrite Hp by (done || unfold json_fuel; lia).
Qed.

(** No control byte, so no line break, is written. *)
Definition printable (c : ascii) : Prop := 32 <= code c.

Lemma printable_lit s : forallb (λ c, 32 <=? code c) (lit s) = true → Forall printable (lit s).
Proof. rewrite forallb_forall, Forall_forall. intros H x Hx. apply Z.leb_le, H. by apply list_elem_of_In. Qed.

Lemma printable_high c : high c → printable c.
Proof. unfold high, printable. lia. Qed.

Lemma escape_byte_printable c : code c < 128 → Forall printable (escape_byte c).
Proof.
  intros Hc. apply Forall_forall. intros x Hx. apply Z.leb_le.
  assert (H : forallb (λ c, 32 <=? code c) (escape_byte c) = true).
  { clear Hx. destruct c as [[] [] [] [] [] [] [] []]; try (vm_compute in Hc; discriminate); reflexivity. }
  rewrite forallb_forall in H. apply H. by apply list_elem_of_In.
Qed.

Lemma escape_printable fuel l : Forall printable (escape fuel l).
Proof.
  revert l. induction fuel as [|fuel IH]; intros l; [constructor|]. destruct l as [|c l]; [constructor|]. cbn [escape].
  destruct (Z.ltb_spec (code c) 128) as [Hlt|Hge]; [by apply Forall_app; split; [apply escape_byte_printable|]|].
  destruct (decode_rune (c :: l)) as [r n] eqn:E. apply Forall_app. split; [|apply IH].
  destruct (Nat.eqb n 1 && (r =? rune_error)) eqn:Ei; [by apply printable_lit|].
  destruct ((r =? 8232) || (r =? 8233)) eqn:Es.
  - apply orb_true_iff in Es as [->%Z.eqb_eq| ->%Z.eqb_eq]; by apply (printable_lit (str (lit "\u202" ++ [hex_char _]))).
  - destruct (decode_rune_own c l r n Hge E) as [[-> ->]|(_ & Hh & _)]; [done|].
    eapply Forall_impl; [exact Hh|]. apply printable_high.
Qed.

Lemma marshal_string_printable s : Forall printable (marshal_string s).
Proof.
  unfold marshal_string. constructor; [done|]. apply Forall_app. split; [apply escape_printable|]. by repeat constructor.
Qed.

Lemma digits_printable fuel n : 0 <= n → Forall printable (digits fuel n).
Proof.
  revert n. induction fuel as [|fuel IH]; intros n Hn; cbn [digits]; [constructor|].
  destruct (Z.ltb_spec n 10).
  - repeat constructor. unfold printable, digit_char. rewrite code_byte_of; lia.
  - apply Forall_app. split; [apply IH; Z.to_euclidean_division_equations; lia|]. repeat constructor.
    unfold printable, digit_char. rewrite code_byte_of; Z.to_euclidean_division_equations; lia.
Qed.

Lemma separated_printable l : Forall (Forall printable) l → Forall printable (separated l).
Proof.
  induction 1 as [|x l Hx Hl IH]; [constructor|]. destruct l as [|y l]; [done|]. rewrite separated_cons.
  apply Forall_app. split; [done|]. by constructor.
Qed.

Lemma Marshal_printable v : Forall printable (Marshal v).
Proof.
  induction v as [|[]|z|s|l IH|l IH] using gv_rect_nested; cbn [Marshal].
  - by apply printable_lit.
  - by apply printable_lit.
  - by apply printable_lit.
  - unfold decimal. destruct (Z.ltb_spec z 0); [constructor; [done|]|]; apply digits_printable; lia.
  - apply marshal_string_printable.
  - constructor; [done|]. apply Forall_app. split; [|by repeat constructor]. apply separated_printable.
    by apply Forall_map.
  - constructor; [done|]. apply Forall_app. split; [|by repeat constructor]. apply separated_printable.
    apply Forall_map. apply sort_keys_forall, Forall_map. eapply Forall_impl; [exact IH|]. intros [k v] Hv.
    unfold compose, marshal_member. cbn [fst snd] in *. apply Forall_app. split; [apply marshal_string_printable|].
    by constructor.
Qed.
