(* ===== verification/Number.v ===== *)
(** * JSON numbers as [float64]

    A number decoded into an [any] is a [float64], correctly rounded
    ([strconv.ParseFloat]); [int64] of it truncates, and [json.Marshal] writes
    the shortest digits that read back as the same number. *)

From Stdlib Require Import Floats.SpecFloat.
From S2P Require Import Prelude Json JsonFacts GoText Sse GoFloat Marshal.
Local Open Scope Z_scope.

(** ** Reading ([strconv.ParseFloat]) *)

(** The exponent of a literal; [readFloat] stops counting beyond 10000. *)
Definition exponent_value (l : bytes) : Z :=
  let value := fold_left (λ e c, if e <? 10000 then e * 10 + (code c - 48) else e) in
  match l with
  | [] => 0
  | _ :: c :: d => if Ascii.eqb c "-" then - value d 0 else if Ascii.eqb c "+" then value d 0 else value (c :: d) 0
  | _ => 0
  end.

Fixpoint skip_zeros (l : bytes) : bytes :=
  match l with c :: l' => if Ascii.eqb c "0" then skip_zeros l' else l | [] => [] end.

(** Sign, digits and exponent of a literal: [digits * 10 ^ e]. *)
Definition decimal_parts (raw : bytes) : bool * bytes * Z :=
  let '(sign, unsigned) := match raw with c :: d => if Ascii.eqb c "-" then (true, d) else (false, raw) | [] => (false, raw) end in
  let '(i, l1) := span_digits unsigned in
  let '(f, l2) := match l1 with
                  | c :: d => if Ascii.eqb c "." then span_digits d else ([], l1)
                  | [] => ([], [])
                  end in
  (sign, i ++ f, exponent_value l2 - Z.of_nat (length f)).

(** The power of ten the value is below. *)
Definition magnitude (ds : bytes) (e : Z) : Z := Z.of_nat (length (skip_zeros ds)) + e.

(** Is the literal's value below the numbers that round to infinity? *)
Definition float_in_range (raw : bytes) : bool :=
  let '(_, ds, e) := decimal_parts raw in
  let m := digits_value ds in
  let infinite := 2 ^ 1024 - 2 ^ 970 in
  if (m =? 0) || (magnitude ds e <=? 300) then true
  else if 400 <? magnitude ds e then false
  else if 0 <=? e then m * 10 ^ e <? infinite else m <? infinite * 10 ^ (- e).

Example float_max : float_in_range (lit "1.7976931348623157e308") = true ∧ float_in_range (lit "-1.7976931348623159e+308") = false
  ∧ float_in_range (lit "0.0001e99999999999999") = false ∧ float_in_range (lit "0e99999") = true.
Proof. by vm_compute. Qed.

(** The float64 nearest to [m * 10 ^ e]; the division rounds once. *)
Definition float_of_decimal (sign : bool) (m e : Z) : float64 :=
  match m with
  | Zpos p =>
      if 0 <=? e then binary_normalize prec64 emax64 (if sign then - (m * 10 ^ e) else m * 10 ^ e) 0 sign
      else SFdiv prec64 emax64 (S754_finite sign p 0) (S754_finite false (Z.to_pos (10 ^ (- e))) 0)
  | _ => S754_zero sign
  end.

(** Values below [10 ^ -400] are rounded to zero. *)
Definition parse_float (raw : bytes) : float64 :=
  let '(sign, ds, e) := decimal_parts raw in
  if magnitude ds e <? -400 then S754_zero sign else float_of_decimal sign (digits_value ds) e.

Example parse_float_ex :
  parse_float (lit "0.1") = S754_finite false 7205759403792794 (-56) ∧ parse_float (lit "-2.5e1") = S754_finite true 7036874417766400 (-48)
  ∧ parse_float (lit "5e-324") = S754_finite false 1 (-1074) ∧ parse_float (lit "2e-324") = S754_zero false
  ∧ parse_float (lit "2.2250738585072011e-308") = S754_finite false 4503599627370495 (-1074)
  ∧ parse_float (lit "9007199254740993") = S754_finite false 4503599627370496 1
  ∧ parse_float (lit "1.7976931348623158e308") = S754_finite false 9007199254740991 971.
Proof. by vm_compute. Qed.

(** ** To an integer: towards zero; what does not fit is the smallest integer
    (the conversion of amd64) *)

Definition truncated (m : positive) (e : Z) : Z := if 0 <=? e then Zpos m * 2 ^ e else Zpos m / 2 ^ (- e).
Definition float_to_int64 (x : float64) : Z :=
  match x with
  | S754_zero _ => 0
  | S754_finite s m e =>
      if 64 <? e then - two63
      else
        let z := if s then - truncated m e else truncated m e in
        if (z <? - two63) || (two63 <=? z) then - two63 else z
  | _ => - two63
  end.

Example to_int_ex : map (λ s, float_to_int64 (parse_float (lit s))) ["1720000000"; "-2.9"; "9223372036854775807"; "1e400"; "0.7"]%string
  = [1720000000; -2; - two63; - two63; 0].
Proof. by vm_compute. Qed.

(** ** Writing ([strconv.AppendFloat] with the shortest precision) *)

(** [x] as a fraction, and the [k] with [10 ^ (k - 1) <= x < 10 ^ k]. *)
Definition fraction (m : positive) (e : Z) : Z * Z := if 0 <=? e then (Zpos m * 2 ^ e, 1) else (Zpos m, 2 ^ (- e)).
Definition at_least_pow10 (num den k : Z) : bool := if 0 <=? k then den * 10 ^ k <=? num else den <=? num * 10 ^ (- k).
Definition decimal_exponent (num den : Z) : Z :=
  let guess := (Z.log2 num - Z.log2 den) * 30103 / 100000 in
  let k := guess - 1 in
  if negb (at_least_pow10 num den k) then k
  else if negb (at_least_pow10 num den (k + 1)) then k + 1
  else if negb (at_least_pow10 num den (k + 2)) then k + 2
  else k + 3.

(** The two decimals of [n] digits around [x], the nearer first (on a tie the
    even one), as multiples of [10 ^ (k - n)]. *)
Definition candidates (num den k : Z) (n : Z) : list Z :=
  let '(a, b) := if 0 <=? n - k then (num * 10 ^ (n - k), den) else (num, den * 10 ^ (k - n)) in
  let lo := a / b in let r := a mod b in
  if (2 * r <? b) || ((2 * r =? b) && Z.even lo) then [lo; lo + 1] else [lo + 1; lo].

Fixpoint shortest (fuel : nat) (m : positive) (e num den k n : Z) : Z * Z :=
  match fuel with
  | O => (0, 0)
  | S fuel =>
      match List.filter (λ c, match float_of_decimal false c (k - n) with
                              | S754_finite _ m' e' => (m' =? m)%positive && (e' =? e)
                              | _ => false
                              end) (candidates num den k n) with
      | c :: _ => (c, k - n)
      | [] => shortest fuel m e num den k (n + 1)
      end
  end.

(** The digits without trailing zeros, and where the decimal point is. *)
Definition shortest_digits (m : positive) (e : Z) : bytes * Z :=
  let '(num, den) := fraction m e in
  let '(c, scale) := shortest 17 m e num den (decimal_exponent num den) 1 in
  let ds := digits (S (Z.to_nat (Z.log2 c))) c in
  (rev (skip_zeros (rev ds)), len ds + scale).

(** [encoding/json]: [%f], or [%e] below 1e-6 and from 1e21 on, where the
    exponent has no leading zero. *)
Definition float_text (x : float64) : bytes :=
  match x with
  | S754_finite s m e =>
      let '(ds, dp) := shortest_digits m e in
      let zeros (n : Z) := repeat "0"%char (Z.to_nat n) in
      (if s then lit "-" else [])
      ++ if (dp <? -5) || (21 <? dp) then
           take 1 ds ++ (if (1 <? len ds) then "."%char :: drop 1 ds else [])
           ++ lit (if dp <? 1 then "e-" else "e+") ++ decimal (Z.abs (dp - 1))
         else if dp <=? 0 then lit "0." ++ zeros (- dp) ++ ds
         else if len ds <=? dp then ds ++ zeros (dp - len ds)
         else take (Z.to_nat dp) ds ++ "."%char :: drop (Z.to_nat dp) ds
  | S754_zero s => if s then lit "-0" else lit "0"
  | _ => []
  end.
Definition number_text (raw : bytes) : bytes := float_text (parse_float raw).

Example number_text_ex :
  map (λ s, str (number_text (lit s)))
    ["1"; "-0"; "1.50"; "100"; "1e20"; "1e21"; "123456789012345678901234"; "0.000001"; "0.00000012"; "1e-7"; "0.1"; "0.30000000000000004";
     "5e-324"; "1.7976931348623157e308"; "2.2250738585072014E-308"; "9007199254740993"; "33.333333333333336"; "1e23"; "-12.5e-10"]%string
  = ["1"; "-0"; "1.5"; "100"; "100000000000000000000"; "1e+21"; "1.2345678901234569e+23"; "0.000001"; "1.2e-7"; "1e-7"; "0.1";
     "0.30000000000000004"; "5e-324"; "1.7976931348623157e+308"; "2.2250738585072014e-308"; "9007199254740992"; "33.333333333333336"; "1e+23";
     "-1.25e-9"]%string.
Proof. by vm_compute. Qed.

(** ** Integers as float64 *)

Lemma digits2_iter p k : Zpos (digits2_pos (Pos.iter xO p k)) = Zpos (digits2_pos p) + Zpos k.
Proof.
  induction k as [|k IH] using Pos.peano_ind; [simpl; lia|]. rewrite Pos.iter_succ. cbn [digits2_pos]. lia.
Qed.
Lemma iter_double p k : Zpos (Pos.iter xO p k) = Zpos p * 2 ^ Zpos k.
Proof.
  induction k as [|k IH] using Pos.peano_ind; [simpl; lia|]. rewrite Pos.iter_succ, Pos2Z.inj_succ, Z.pow_succ_r by lia.
  change (Zpos (xO (Pos.iter xO p k))) with (2 * Zpos (Pos.iter xO p k)). lia.
Qed.
Lemma digits2_bound p : 2 ^ (Zpos (digits2_pos p) - 1) <= Zpos p.
Proof.
  induction p as [p IH|p IH|]; cbn [digits2_pos]; [..|done].
  - rewrite Pos2Z.inj_succ. replace (Z.succ (Zpos (digits2_pos p)) - 1) with (Z.succ (Zpos (digits2_pos p) - 1)) by lia.
    rewrite Z.pow_succ_r by lia. lia.
  - rewrite Pos2Z.inj_succ. replace (Z.succ (Zpos (digits2_pos p)) - 1) with (Z.succ (Zpos (digits2_pos p) - 1)) by lia.
    rewrite Z.pow_succ_r by lia. lia.
Qed.

Lemma round_exact s m e :
  Zpos (digits2_pos m) = 53 → -1074 <= e <= 971 → binary_round_aux prec64 emax64 s (Zpos m) e loc_Exact = S754_finite s m e.
Proof.
  intros Hd He. unfold binary_round_aux, shr_fexp. cbn [Zdigits2 shr_record_of_loc]. rewrite Hd.
  assert (Ef : fexp prec64 emax64 (53 + e) - e = 0) by (unfold fexp, emin, prec64, emax64; lia).
  rewrite Ef. cbn [shr shr_m loc_of_shr_record round_nearest_even Zdigits2 shr_record_of_loc]. rewrite Hd, Ef. cbn [shr shr_m].
  rewrite (proj2 (Z.leb_le _ _)); [done|]. unfold emax64, prec64. lia.
Qed.

(** Integers below 2^53 are exact. *)
Lemma float_of_integer p : Zpos p < 2 ^ 53 →
  ∃ m e, binary_normalize prec64 emax64 (Zpos p) 0 false = S754_finite false m e ∧ e <= 0 ∧ truncated m e = Zpos p.
Proof.
  intros Hp. pose proof (digits2_bound p) as Hb. set (d := Zpos (digits2_pos p)) in *.
  assert (Hd : 1 <= d <= 53).
  { split; [unfold d; lia|]. apply Z.le_ngt. intros Hlt. assert (2 ^ 53 <= 2 ^ (d - 1)) by (apply Z.pow_le_mono_r; lia). lia. }
  unfold binary_normalize, binary_round. fold d.
  assert (Ef : fexp prec64 emax64 (d + 0) = d - 53) by (unfold fexp, emin, prec64, emax64; lia).
  rewrite Ef. unfold shl_align. rewrite Z.sub_0_r. destruct (d - 53) as [|k|k] eqn:Ek; [|lia|].
  - exists p, 0. rewrite round_exact by lia. split; [done|]. split; [done|]. unfold truncated. cbn [Z.leb Z.compare]. lia.
  - exists (Pos.iter xO p k), (Zneg k). rewrite round_exact; [split; [done|]| |].
    + split; [lia|]. unfold truncated. cbn [Z.leb Z.compare Z.opp]. rewrite iter_double. apply Z.div_mul. lia.
    + rewrite digits2_iter. fold d. lia.
    + lia.
Qed.

Lemma decimal_parts_nat n : 0 <= n → decimal_parts (decimal n) = (false, number_digits n, 0).
Proof.
  intros Hn. rewrite decimal_cases. rewrite (proj2 (Z.ltb_ge _ _)) by done.
  destruct (number_digits_spec n Hn) as (Hd & _ & c & t & E & _). unfold decimal_parts, all_digits in *.
  assert (Hs : span_digits (number_digits n) = (number_digits n, [])).
  { rewrite <-(app_nil_r (number_digits n)) at 1. by apply span_digits_rest. }
  rewrite E in *. cbn [forallb] in Hd. destruct (Ascii.eqb_spec c "-") as [->|]; [done|]. rewrite Hs.
  by rewrite app_nil_r.
Qed.

Lemma skip_zeros_length l : (length (skip_zeros l) ≤ length l)%nat.
Proof. induction l as [|c l IH]; [done|]. cbn [skip_zeros]. destruct (Ascii.eqb c "0"); simpl; lia. Qed.

Lemma digits_length fuel n : (length (digits fuel n) ≤ fuel)%nat.
Proof. revert n. induction fuel as [|fuel IH]; intros n; [done|]. simpl. case_match; [simpl; lia|]. rewrite length_app. simpl. specialize (IH (n / 10)). lia. Qed.

(** A machine integer is read back from its text as a float64 that holds it,
    below 2^53. *)
Lemma parse_float_integer n : 0 < n < 2 ^ 53 → float_to_int64 (parse_float (decimal n)) = n.
Proof.
  intros Hn. unfold parse_float. rewrite decimal_parts_nat by lia.
  rewrite (proj2 (Z.ltb_ge _ _)) by (unfold magnitude; lia).
  destruct (number_digits_spec n ltac:(lia)) as (_ & -> & _). unfold float_of_decimal. destruct n as [|p|p]; [lia| |lia].
  cbn [Z.leb Z.compare]. rewrite Z.pow_0_r, Z.mul_1_r. destruct (float_of_integer p) as (m & e & -> & He & Ht); [lia|].
  unfold float_to_int64. rewrite (proj2 (Z.ltb_ge _ _)) by lia. rewrite Ht. change two63 with 9223372036854775808.
  rewrite (proj2 (Z.ltb_ge _ _)), (proj2 (Z.leb_gt _ _)) by lia. done.
Qed.

Lemma integer_in_range n : 0 <= n < 2 ^ 64 → float_in_range (decimal n) = true.
Proof.
  intros Hn. unfold float_in_range. rewrite decimal_parts_nat by lia. rewrite (proj2 (Z.leb_le (magnitude _ _) 300)), orb_true_r; [done|].
  unfold magnitude, number_digits. set (ds := digits _ _). pose proof (skip_zeros_length ds).
  assert (length ds ≤ 64)%nat; [|lia]. etransitivity; [apply digits_length|].
  destruct (decide (n = 0)) as [->|]; [simpl; lia|]. assert (Z.log2 n < 64) by (apply Z.log2_lt_pow2; lia). lia.
Qed.
