(* ===== verification/ChatChunks.v ===== *)
(** * Chat chunks the adapters write ([internal/providers/codingfinal/cursor.go])

    An adapter answers a streaming request with OpenAI chunks: one SSE event
    per delta, then a finish and [[DONE]].  The facts say what the gateway
    makes of such a stream: its reader ([Sse]) gives the events back one by
    one, and its observer ([Observer]) sees the texts and a completed response. *)

From S2P Require Import Prelude Json JsonFacts GoText Request RequestFacts Sse SseFacts Observer ObserverFacts Marshal.
Local Open Scope Z_scope.

Section Chunks.
Context (id : string) (created : Z) (model : string).

(** The map literal of [appendCursorRole], [appendCursorField] and
    [appendCursorFinish]. *)
Definition chunk_map (delta : list (string * gv)) (finish_reason : gv) : list (string * gv) :=
  [("id", GStr id); ("object", GStr "chat.completion.chunk"); ("created", GInt created); ("model", GStr model);
   ("choices", GArr [GMap [("index", GInt 0); ("delta", GMap delta); ("finish_reason", finish_reason)]])]%string.

Definition appendSSE (b : bytes) (v : gv) : bytes := b ++ lit "data: " ++ Marshal v ++ [newline; newline].

Definition appendCursorRole (b : bytes) : bytes :=
  appendSSE b (GMap (chunk_map [("role", GStr "assistant")]%string GNull)).
Definition appendCursorField (b : bytes) (key value : string) : bytes :=
  appendSSE b (GMap (chunk_map [(key, GStr value)] GNull)).
Definition appendCursorContent (b : bytes) (text : string) : bytes := appendCursorField b "content" text.
Definition done_text : bytes := lit "data: [DONE]" ++ [newline; newline].
Definition appendCursorFinish (b : bytes) (reason : string) : bytes :=
  appendSSE b (GMap (chunk_map [] (GStr reason))) ++ done_text.
End Chunks.

(** ** Events *)

Definition sse_event (v : gv) : bytes := lit "data: " ++ Marshal v ++ [newline; newline].

Lemma sse_event_written v : sse_event v = write_event [Marshal v].
Proof. unfold sse_event, write_event, data_line. cbn [map concat]. by rewrite app_nil_r, <-!app_assoc. Qed.

Lemma Marshal_is_line v : is_line (Marshal v).
Proof.
  pose proof (Marshal_printable v) as H. split.
  - unfold index_byte_free. eapply Forall_impl; [exact H|]. intros x Hx ->. by apply Hx.
  - intros Hl%last_Some_elem_of. rewrite Forall_forall in H. by apply (H _ Hl).
Qed.

Lemma event_data v : SSEData (sse_event v) = Marshal v.
Proof. rewrite sse_event_written, sse_data_write; [done|done|]. repeat constructor; apply Marshal_is_line. Qed.

Lemma split_on_line c a b : index_byte_free c a → split_on c (a ++ c :: b) = a :: split_on c b.
Proof.
  induction 1 as [|x a Hx Ha IH]; cbn [app split_on]; [by rewrite Ascii.eqb_refl|].
  destruct (Ascii.eqb_spec x c); [done|]. by rewrite IH.
Qed.

Lemma event_unnamed v : event_name (sse_event v) = ""%string.
Proof.
  unfold event_name, sse_event. rewrite app_assoc. change [newline; newline] with (newline :: [newline]).
  rewrite split_on_line by (apply Forall_app; split; [apply data_prefix_free|apply Marshal_is_line]). reflexivity.
Qed.

(** An ASCII byte that is not white space, at both ends: nothing to trim. *)
Definition plain_end (c : ascii) : Prop := code c < 128 ∧ is_space (code c) = false.

Lemma last_space_plain l e : plain_end e → last_space (l ++ [e]) = None.
Proof.
  intros [He Hs]. unfold last_space. rewrite (proj2 (list_find_None _ _)); [done|].
  apply Forall_forall. intros k Hk [Hle Hd]. set (s := drop _ _) in Hd.
  assert (Hlen : length s = k). { unfold s. rewrite length_drop. lia. }
  assert (Hlast : last s = Some e).
  { pose proof (last_snoc e l) as H. rewrite <-(take_drop (length (l ++ [e]) - k) (l ++ [e])), last_app in H. fold s in H.
    destruct (last s) eqn:El; [done|]. apply last_None in El. rewrite El in Hlen. 
    apply list_elem_of_In in Hk. simpl in Hk, Hlen. lia. }
  destruct s as [|c t]; [done|]. destruct (Z.ltb_spec (code c) 128) as [Hlt|Hge].
  - unfold decode_rune in Hd. rewrite (proj2 (Z.ltb_lt _ _) Hlt) in Hd. destruct Hd as [<- Hsp].
    destruct t; [|done]. cbn in Hlast. injection Hlast as ->. congruence.
  - destruct (decode_rune (c :: t)) as [r n] eqn:E. destruct Hd as [-> Hsp].
    destruct (decode_rune_own c t r k Hge E) as [[-> ->]|(_ & Hh & _)]; [done|].
    rewrite <-Hlen, firstn_all in Hh. rewrite Forall_forall in Hh. apply last_Some_elem_of, Hh in Hlast. unfold high in Hlast. lia.
Qed.

Lemma trim_space_plain c l e : plain_end c → plain_end e → trim_space (c :: l ++ [e]) = c :: l ++ [e].
Proof.
  intros [Hc Hs] He. unfold trim_space.
  assert (E : trim_left_space (length (c :: l ++ [e])) (c :: l ++ [e]) = c :: l ++ [e]).
  { cbn [length trim_left_space]. unfold decode_rune. by rewrite (proj2 (Z.ltb_lt _ _) Hc), Hs. }
  rewrite E. cbn [length trim_right_space]. change (c :: l ++ [e]) with ((c :: l) ++ [e]). by rewrite last_space_plain.
Qed.

Lemma trim_event m : trim_space (SSEData (sse_event (GMap m))) = Marshal (GMap m).
Proof. rewrite event_data. cbn [Marshal]. apply trim_space_plain; by vm_compute. Qed.

(** ** What the observer decodes *)

(** A delta of a stream: the role, or text under one of two keys. *)
Inductive piece := PRole | PField (key text : string).
Definition piece_delta (p : piece) : list (string * gv) :=
  match p with PRole => [("role", GStr "assistant")]%string | PField key text => [(key, GStr text)] end.
Definition piece_ok (p : piece) : Prop :=
  match p with PRole => True | PField key _ => key = "content"%string ∨ key = "reasoning_content"%string end.
(** The text of a piece that counts as output of the model. *)
Definition piece_content (p : piece) : string :=
  match p with PField key text => if (key =? "content")%string then ToValid text else "" | PRole => "" end.

Definition chunk_choice (content : string) (finish : option string) : chat_choice :=
  {| cc_index := 0; cc_finish := finish;
     cc_delta := {| cd_content := content; cd_refusal := ""; cd_tool_calls := nil_slice; cd_function_call := None |} |}.

Ltac known_keys :=
  repeat match goal with
  | |- context [selects ?n (escape_string ?k)] =>
      let v := eval vm_compute in (selects n (escape_string k)) in
      replace (selects n (escape_string k)) with v by (vm_compute; reflexivity)
  end.

Lemma delta_decodes p d :
  piece_ok p → d = zero_delta →
  decode_chat_delta (json_of (GMap (piece_delta p))) d
  = Some {| cd_content := piece_content p; cd_refusal := ""; cd_tool_calls := nil_slice; cd_function_call := None |}.
Proof.
  intros Hp ->. destruct p as [|key text]; cbn [piece_delta json_of map sort_keys foldr insert_key fst snd].
  - unfold decode_chat_delta, decode_struct. cbn [fold_left]. known_keys. reflexivity.
  - destruct Hp as [-> | ->]; unfold decode_chat_delta, decode_struct; cbn [fold_left]; known_keys;
      cbn [mbind option_bind String.eqb Ascii.eqb Bool.eqb decode_string piece_content]; [|reflexivity].
    by rewrite unquote_escape.
Qed.

(** The choices of a chunk, and the rest of it, as they are read. *)
Definition choices_json (delta finish : json) : json :=
  JArr [JObj [(escape_string "delta", delta); (escape_string "finish_reason", finish); (escape_string "index", JNum (decimal 0))]].

Lemma choices_decode delta finish d f :
  decode_chat_delta delta zero_delta = Some d → decode_string_ptr finish = Some f →
  decode_slice zero_choice decode_chat_choice (choices_json delta finish) nil_slice
  = Some (mk_slice [{| cc_index := 0; cc_finish := f; cc_delta := d |}] []).
Proof.
  intros Hd Hf. unfold choices_json, decode_slice. cbn [imap map length].
  assert (E : decode_chat_choice (JObj [(escape_string "delta", delta); (escape_string "finish_reason", finish);
    (escape_string "index", JNum (decimal 0))]) zero_choice = Some {| cc_index := 0; cc_finish := f; cc_delta := d |}).
  { unfold decode_chat_choice, decode_struct. cbn [fold_left]. known_keys.
    cbn [mbind option_bind String.eqb Ascii.eqb Bool.eqb cc_delta cc_index cc_finish zero_choice]. rewrite Hd.
    cbn [mbind option_bind cc_delta cc_index cc_finish]. rewrite Hf. reflexivity. }
  unfold mapM. cbn [mbind option_bind id default lookup list_lookup sl_elems sl_spare nil_slice app]. rewrite E. reflexivity.
Qed.

Definition choices_event (l : slice_of chat_choice) : event :=
  {| ev_type := ""; ev_error := None; ev_delta := None; ev_choices := l; ev_candidates := nil_slice; ev_block := "" |}.

(** A chunk, possibly with a usage member, decodes to its one choice. *)
Lemma chunk_decodes id created model delta finish extra d f :
  decode_chat_delta (json_of (GMap delta)) zero_delta = Some d → decode_string_ptr (json_of finish) = Some f →
  extra = [] ∨ (∃ u, extra = [("usage"%string, u)]) →
  decode_event (json_of (GMap (chunk_map id created model delta finish ++ extra))) zero_event
  = Some (choices_event (mk_slice [{| cc_index := 0; cc_finish := f; cc_delta := d |}] [])).
Proof.
  intros Hd Hf Hextra. pose proof (choices_decode (json_of (GMap delta)) (json_of finish) d f Hd Hf) as Hc.
  set (dj := json_of (GMap delta)) in *. set (fj := json_of finish) in *.
  assert (E : ∃ before after, json_of (GMap (chunk_map id created model delta finish ++ extra))
      = JObj (before ++ (escape_string "choices", choices_json dj fj) :: after)
    ∧ before = [] ∧ ∃ u, after = [(escape_string "created", JNum (decimal created)); (escape_string "id", JStr (escape_string id));
        (escape_string "model", JStr (escape_string model)); (escape_string "object", JStr (escape_string "chat.completion.chunk"))] ++ u
      ∧ (u = [] ∨ ∃ v, u = [(escape_string "usage", v)])).
  { destruct Hextra as [-> | (u & ->)]; (eexists [], _; split; [reflexivity|]; split; [done|]).
    - exists []. split; [done|by left].
    - eexists [_]. split; [reflexivity|right; by eexists]. }
  destruct E as (? & ? & -> & -> & u & -> & Hu). unfold decode_event, decode_struct. cbn [app fold_left]. known_keys.
  cbn [mbind option_bind String.eqb Ascii.eqb Bool.eqb ev_choices ev_type ev_error ev_delta ev_candidates ev_block zero_event].
  rewrite Hc. cbn [mbind option_bind].
  destruct Hu as [-> | (v & ->)]; cbn [fold_left]; [reflexivity|]. known_keys. reflexivity.
Qed.

Lemma chunk_depth id created model delta finish extra :
  gdepth (GMap delta) <= 1 → gdepth finish = 0 → Forall (λ p, gdepth (snd p) <= 1) extra →
  gdepth (GMap (chunk_map id created model delta finish ++ extra)) <= max_nesting.
Proof.
  intros Hd Hf Hx. assert (H0 : foldr Z.max 0 (map (λ p : string * gv, gdepth (snd p)) extra) <= 1).
  { induction Hx; simpl in *; lia. }
  unfold chunk_map. cbn [app gdepth map foldr snd] in *. rewrite Hf. unfold max_nesting. lia.
Qed.

Lemma chunk_event id created model delta finish extra d f :
  decode_chat_delta (json_of (GMap delta)) zero_delta = Some d → decode_string_ptr (json_of finish) = Some f →
  gdepth (GMap delta) <= 1 → gdepth finish = 0 →
  extra = [] ∨ (∃ u, extra = [("usage"%string, u)] ∧ gdepth u <= 1) →
  chat_event (sse_event (GMap (chunk_map id created model delta finish ++ extra)))
  = Some (choices_event (mk_slice [{| cc_index := 0; cc_finish := f; cc_delta := d |}] [])).
Proof.
  intros Hd Hf Hgd Hgf Hx. unfold chat_event. rewrite trim_event, event_unnamed.
  set (m := chunk_map id created model delta finish ++ extra).
  assert (Hne : bool_decide (Marshal (GMap m) = []) = false ∧ bool_decide (Marshal (GMap m) = lit "[DONE]") = false).
  { split; apply bool_decide_false; cbn [Marshal]; discriminate. }
  destruct Hne as [-> ->]. rewrite parse_Marshal.
  - cbn [String.eqb orb mbind option_bind].
    unfold m. erewrite chunk_decodes; [|done|done|destruct Hx as [?|(u & ? & _)]; eauto]. reflexivity.
  - apply chunk_depth; [done|done|]. destruct Hx as [-> | (u & -> & Hu)]; [constructor|by repeat constructor].
Qed.

Lemma piece_event id created model p :
  piece_ok p →
  chat_event (sse_event (GMap (chunk_map id created model (piece_delta p) GNull)))
  = Some (choices_event (mk_slice [chunk_choice (piece_content p) None] [])).
Proof.
  intros Hp. rewrite <-(app_nil_r (chunk_map _ _ _ _ _)).
  apply chunk_event; [by apply delta_decodes|done|by destruct p|done|by left].
Qed.

Lemma finish_event id created model reason extra :
  extra = [] ∨ (∃ u, extra = [("usage"%string, u)] ∧ gdepth u <= 1) →
  chat_event (sse_event (GMap (chunk_map id created model [] (GStr reason) ++ extra)))
  = Some (choices_event (mk_slice [chunk_choice "" (Some (ToValid reason))] [])).
Proof.
  intros Hx. apply chunk_event; [done| |done|done|done]. cbn [json_of decode_string_ptr decode_string mbind option_bind].
  by rewrite unquote_escape.
Qed.

(** ** Whole streams *)

(** The gateway's reader gives these frames, and then the end. *)
Fixpoint reads_frames (size : nat) (limit : Z) (frames : list bytes) (l : bytes) : Prop :=
  match frames with
  | [] => outcome (Next size limit true l) = Err SseEOF
  | f :: frames => ∃ r, outcome (Next size limit true l) = Ok (f, r) ∧ reads_frames size limit frames r
  end.

(** A stream the gateway takes for a completed answer made of [texts]. *)
Record answers (out : bytes) (frames : list bytes) (texts : list string) : Prop := {
  an_bytes : concat frames = out;
  an_read size limit : (2 ≤ size)%nat → 0 <= limit → Forall (λ f, len f <= limit) frames → reads_frames size limit frames out;
  an_texts : ∃ vs, mapM chat_event (removelast frames) = Some vs
    ∧ concat (map (λ v, map (λ c, cd_content (cc_delta c)) (sl_elems (ev_choices v))) vs) = texts;
  an_observed : let o := observe_all frames (new_observer "chat") in
    o_Complete o = true ∧ o_Terminal o = true ∧ o_Error o = ""%string
    ∧ o_SawOutput o = existsb (λ t, negb (t =? "")%string) texts }.

Section Stream.
Context (id : string) (created : Z) (model : string).

Definition piece_frame (p : piece) : bytes := sse_event (GMap (chunk_map id created model (piece_delta p) GNull)).
Definition finish_frame (reason : string) (extra : list (string * gv)) : bytes :=
  sse_event (GMap (chunk_map id created model [] (GStr reason) ++ extra)).
Definition stream_frames (pieces : list piece) (reason : string) (extra : list (string * gv)) : list bytes :=
  map piece_frame pieces ++ [finish_frame reason extra; done_text].

Lemma done_is_event : done_text = write_event [lit "[DONE]"].
Proof. reflexivity. Qed.

Lemma frames_read size limit frames :
  (2 ≤ size)%nat → 0 <= limit → Forall (λ f, ∃ d, f = write_event [d] ∧ is_line d) frames →
  Forall (λ f, len f <= limit) frames → reads_frames size limit frames (concat frames).
Proof.
  intros Hs H0 Hf. induction Hf as [|f frames (d & -> & Hd) Hf IH]; intros Hl; cbn [reads_frames concat].
  - rewrite next_spec by done. unfold next_event. change (split_event _ []) with (@None (bytes * bytes)).
    change (len []) with 0. by rewrite (proj2 (Z.ltb_ge _ _) H0).
  - inversion_clear Hl as [|? ? Hl1 Hl2]. exists (concat frames). split; [|by apply IH].
    rewrite next_spec by done. unfold next_event. rewrite split_written; [|by apply Forall_singleton|].
    + by rewrite (proj2 (Z.ltb_ge _ _) Hl1).
    + unfold write_event. rewrite !length_app. simpl. lia.
Qed.

Lemma stream_events pieces reason extra :
  Forall (λ f, ∃ d, f = write_event [d] ∧ is_line d) (stream_frames pieces reason extra).
Proof.
  apply Forall_app. split; [apply Forall_map, Forall_true; intros p|repeat constructor].
  - eexists. split; [apply sse_event_written|apply Marshal_is_line].
  - eexists. split; [apply sse_event_written|apply Marshal_is_line].
  - exists (lit "[DONE]"). split; [done|]. split; [repeat constructor; done|done].
Qed.

Definition usage_member (extra : list (string * gv)) : Prop :=
  extra = [] ∨ ∃ u, extra = [("usage"%string, u)] ∧ gdepth u <= 1.

Lemma chunks_decode pieces reason extra :
  Forall piece_ok pieces → usage_member extra →
  mapM chat_event (map piece_frame pieces ++ [finish_frame reason extra])
  = Some (map (λ p, choices_event (mk_slice [chunk_choice (piece_content p) None] [])) pieces
      ++ [choices_event (mk_slice [chunk_choice "" (Some (ToValid reason))] [])]).
Proof.
  intros Hp Hx. induction Hp as [|p pieces Hp _ IH]; cbn [map app mapM].
  - by rewrite (finish_event id created model reason extra Hx : chat_event (finish_frame reason extra) = _).
  - rewrite (piece_event id created model p Hp : chat_event (piece_frame p) = _). cbn [mbind option_bind]. by rewrite IH.
Qed.

Lemma existsb_texts ps : existsb (λ c, has_content (cc_delta c)) (map (λ p, chunk_choice (piece_content p) None) ps)
  = existsb (λ t, negb (t =? "")%string) (map piece_content ps).
Proof. induction ps as [|p ps IH]; [done|]. cbn [map existsb]. rewrite IH. f_equal. unfold has_content. simpl. by rewrite !orb_false_r. Qed.

Lemma valid_pieces ps : forallb (λ c, valid_index (cc_index c)) (map (λ p, chunk_choice (piece_content p) None) ps) = true.
Proof. by induction ps. Qed.

(** Any stream of pieces, finished and marked done, is an answer. *)
Lemma stream_answers pieces reason extra :
  Forall piece_ok pieces → usage_member extra →
  answers (concat (stream_frames pieces reason extra)) (stream_frames pieces reason extra) (map piece_content pieces ++ [""%string]).
Proof.
  intros Hp Hx. pose proof (chunks_decode pieces reason extra Hp Hx) as Hd.
  assert (Hrl : removelast (stream_frames pieces reason extra) = map piece_frame pieces ++ [finish_frame reason extra]).
  { unfold stream_frames. by rewrite removelast_app. }
  split; [done| | |].
  - intros size limit Hs H0. apply frames_read; [done|done|apply stream_events].
  - rewrite Hrl. eexists. split; [exact Hd|]. rewrite map_app, concat_app. f_equal.
    clear. induction pieces as [|p ps IH]; [done|]. cbn. by rewrite IH.
  - pose proof (observe_all_chat _ _ [] _ Hd saw_chunks_new) as Ho. cbn [app] in Ho.
    unfold stream_frames. change [finish_frame reason extra; done_text] with ([finish_frame reason extra] ++ [done_text]).
    rewrite app_assoc. unfold observe_all. rewrite fold_left_app. cbn [fold_left].
    change (fold_left _ (map piece_frame pieces ++ _) _) with
      (observe_all (map piece_frame pieces ++ [finish_frame reason extra]) (new_observer "chat")).
    set (o := observe_all _ _) in *. change done_text with done_frame. rewrite Observe_done by apply Ho. cbv zeta.
    cbn [finish set_o_progress o_Complete o_Terminal o_Error o_SawOutput].
    rewrite map_app, concat_app in Ho. cbn [map concat sl_elems ev_choices choices_event] in Ho.
    assert (E : concat (map (λ v, sl_elems (ev_choices v)) (map (λ p, choices_event (mk_slice [chunk_choice (piece_content p) None] [])) pieces))
      = map (λ p, chunk_choice (piece_content p) None) pieces).
    { clear. induction pieces as [|p ps IH]; [done|]. cbn. by rewrite IH. }
    rewrite E in Ho. split_and!; [done|done| |].
    + rewrite (sc_error _ _ Ho), forallb_app, valid_pieces. reflexivity.
    + rewrite (sc_output _ _ Ho), !existsb_app, existsb_texts. reflexivity.
Qed.
End Stream.
