(* ===== verification/Wire.v ===== *)
(** * Protobuf fields and Connect frames ([internal/providers/codingfinal/wire.go])

    The encoders and decoders the Cursor, Warp and Windsurf adapters share.
    Positions are those of the code; a decoded field keeps its bytes.  A
    reader is the bytes still to come and whether they end in [io.EOF];
    decompression is an interface.  Fuel is the length of the data: a field
    has at least its tag's byte. *)

From S2P Require Import Prelude Json JsonFacts GoText Sse.
Local Open Scope Z_scope.

(** What the code distinguishes of an error: the sentinel it wraps. *)
Inductive adapter_error :=
| ErrUnsupported
| ErrTruncated
| ErrUpstream
| ErrInvalid
| ErrContext
| ErrStatus (status : Z).

Definition connectFlagCompressed : Z := 1.
Definition connectFlagEndStream : Z := 2.
Definition maxConnectFrameBytes : Z := 16777216.
Definition maxDecodedFrameBytes : Z := 16777216.

(** ** Encoding *)

Fixpoint varint_loop (n : nat) (value : Z) : bytes :=
  match n with
  | O => []
  | S n =>
      if 128 <=? value then byte_of (Z.lor (value mod 256) 128) :: varint_loop n (Z.shiftr value 7)
      else [byte_of value]
  end.
(** [out] has ten bytes, enough for any [uint64]. *)
Definition encodeVarint (value : Z) : bytes := varint_loop 10 value.

Definition encodeTag (field wire : Z) : bytes := encodeVarint (Z.lor (u64 (Z.shiftl field 3)) wire).

Definition encodeBytesField (field : Z) (value : bytes) : bytes :=
  encodeTag field 2 ++ encodeVarint (len value) ++ value.
Definition encodeStringField (field : Z) (value : string) : bytes :=
  if (value =? "")%string then [] else encodeBytesField field (lit value).
Definition encodeMessageField (field : Z) (parts : list bytes) : bytes := encodeBytesField field (concat parts).
Definition encodeVarintField (field value : Z) : bytes :=
  if value =? 0 then [] else encodeTag field 0 ++ encodeVarint value.

(** ** Decoding *)

Record protoField := { pf_number : Z; pf_wire : Z; pf_varint : Z; pf_bytes : bytes }.

(** The loop of [decodeProtoVarint] with [i] bytes read; [n] is [10 - i]. *)
Fixpoint varint_at (data : bytes) (n i pos : nat) (value : Z) : res adapter_error (Z * nat) :=
  match n with
  | O => Err ErrInvalid
  | S n =>
      match data !! pos with
      | None => Err ErrInvalid
      | Some b =>
          if Nat.eqb i 9 && (1 <? code b) then Err ErrInvalid
          else
            let value := Z.lor value (u64 (Z.shiftl (Z.land (code b) 127) (7 * Z.of_nat i))) in
            if Z.land (code b) 128 =? 0 then Ok (value, S pos) else varint_at data n (S i) (S pos) value
      end
  end.
Definition decodeProtoVarint (data : bytes) (start : nat) : res adapter_error (Z * nat) := varint_at data 10 0 start 0.

(** [data[a:b]] *)
Definition slice (data : bytes) (a b : nat) : bytes := take (b - a) (drop a data).

(** One iteration: the field at [pos] and the position after it. *)
Definition decode_field (data : bytes) (pos : nat) : res adapter_error (protoField * nat) :=
  let? (tag, pos) := decodeProtoVarint data pos in
  let number := i64 (Z.shiftr tag 3) in
  let wire := Z.land tag 7 in
  reject number <=? 0 with ErrInvalid ;;
  if wire =? 0 then
    let? (value, next) := decodeProtoVarint data pos in
    Ok ({| pf_number := number; pf_wire := wire; pf_varint := value; pf_bytes := [] |}, next)
  else if wire =? 1 then
    reject Z.of_nat (length data) - Z.of_nat pos <? 8 with ErrInvalid ;;
    Ok ({| pf_number := number; pf_wire := wire; pf_varint := 0; pf_bytes := slice data pos (pos + 8) |}, (pos + 8)%nat)
  else if wire =? 2 then
    let? (length_, next) := decodeProtoVarint data pos in
    reject Z.of_nat (length data) - Z.of_nat next <? length_ with ErrInvalid ;;
    let end_ := (next + Z.to_nat length_)%nat in
    Ok ({| pf_number := number; pf_wire := wire; pf_varint := 0; pf_bytes := slice data next end_ |}, end_)
  else if wire =? 5 then
    reject Z.of_nat (length data) - Z.of_nat pos <? 4 with ErrInvalid ;;
    Ok ({| pf_number := number; pf_wire := wire; pf_varint := 0; pf_bytes := slice data pos (pos + 4) |}, (pos + 4)%nat)
  else Err ErrInvalid.

Fixpoint proto_loop (fuel : nat) (data : bytes) (pos : nat) (fields : list protoField) : option (res adapter_error (list protoField)) :=
  if (pos <? length data)%nat then
    match fuel with
    | O => None
    | S fuel =>
        match decode_field data pos with
        | Ok (f, pos) => proto_loop fuel data pos (fields ++ [f])
        | Err e => Some (Err e)
        end
    end
  else Some (Ok fields).

Definition decodeProtoFields (data : bytes) : option (res adapter_error (list protoField)) :=
  proto_loop (length data) data 0 [].

(** The same; [wire_decoder_exact] shows that the fuel is enough. *)
Definition protoFields (data : bytes) : res adapter_error (list protoField) := default (Err ErrInvalid) (decodeProtoFields data).

Definition firstField (fields : list protoField) (number wire : Z) : option protoField :=
  snd <$> list_find (λ f, pf_number f = number ∧ pf_wire f = wire) fields.

(** ** Connect frames *)

(** [binary.BigEndian.PutUint32] and [Uint32] *)
Definition be32 (n : Z) : bytes :=
  [byte_of (n / 16777216 mod 256); byte_of (n / 65536 mod 256); byte_of (n / 256 mod 256); byte_of (n mod 256)].
Definition be_value (l : bytes) : Z := fold_left (λ acc b, acc * 256 + code b) l 0.

Definition connectFrame (payload : bytes) (flags : Z) : res adapter_error bytes :=
  reject maxConnectFrameBytes <? len payload with ErrTruncated ;;
  Ok (byte_of flags :: be32 (len payload) ++ payload).

(** An [io.Reader]: what is left, and whether it then reports [io.EOF]. *)
Record reader := { rd_rest : bytes; rd_eof : bool }.
Inductive read_error := ReadEOF | ReadShort.

(** [io.ReadFull] of [n] bytes: [io.EOF] only if nothing was read. *)
Definition ReadFull (r : reader) (n : nat) : res read_error bytes * reader :=
  if (n <=? length (rd_rest r))%nat
  then (Ok (take n (rd_rest r)), {| rd_rest := drop n (rd_rest r); rd_eof := rd_eof r |})
  else (Err (if bool_decide (rd_rest r = []) && rd_eof r then ReadEOF else ReadShort), {| rd_rest := []; rd_eof := rd_eof r |}).

(** What a [bufio.Scanner] yields: lines (the last one may lack its line feed),
    then a line that does not fit its buffer of 2^20 bytes, or the end. *)
Definition scanner_limit : Z := 1048576.
Inductive scanned := ScanLine (line : bytes) (terminated : bool) | ScanTooLong.
Definition scanned_line (segment : bytes) (terminated : bool) : scanned :=
  if len segment <? scanner_limit then ScanLine (trim_suffix_byte carriage_return segment) terminated else ScanTooLong.
Fixpoint scan_segments (segments : list bytes) : list scanned :=
  match segments with
  | [] => []
  | [s] => if bool_decide (s = []) then [] else [scanned_line s false]
  | s :: segments => scanned_line s true :: scan_segments segments
  end.
Definition Scan (l : bytes) : list scanned := scan_segments (split_on newline l).

(** [compress/gzip]: what a reader of [data] gives, and whether it then ends
    without an error; [None] when the header is refused. *)
Class Gzip := { gzip_read : bytes → option (bytes * bool) }.

Definition gunzipBounded `{Gzip} (data : bytes) : res adapter_error bytes :=
  match gzip_read data with
  | None => Err ErrTruncated
  | Some (decoded, ok) =>
      (* [io.LimitReader] stops before an error that lies beyond the limit *)
      if maxDecodedFrameBytes + 1 <=? len decoded then Err ErrUnsupported
      else if negb ok then Err ErrTruncated else Ok decoded
  end.

Inductive next_error := FrameEOF | FrameError (e : adapter_error).

(** [connectReader.next]: flags and payload of one frame. *)
Definition connect_next `{Gzip} (r : reader) : res next_error (Z * bytes) * reader :=
  match ReadFull r 5 with
  | (Err ReadEOF, r) => (Err FrameEOF, r)
  | (Err ReadShort, r) => (Err (FrameError ErrTruncated), r)
  | (Ok header, r) =>
      let length_ := be_value (drop 1 header) in
      if maxConnectFrameBytes <? length_ then (Err (FrameError ErrUnsupported), r)
      else
        match ReadFull r (Z.to_nat length_) with
        | (Err _, r) => (Err (FrameError ErrTruncated), r)
        | (Ok payload, r) =>
            let flags := be_value (take 1 header) in
            if negb (Z.ldiff flags (Z.lor connectFlagCompressed connectFlagEndStream) =? 0) then (Err (FrameError ErrUnsupported), r)
            else if Z.land flags connectFlagCompressed =? 0 then (Ok (flags, payload), r)
            else
              match gunzipBounded payload with
              | Err e => (Err (FrameError e), r)
              | Ok decoded => (Ok (Z.ldiff flags connectFlagCompressed, decoded), r)
              end
        end
  end.

Example wire_varint : encodeVarint 300 = map byte_of [172; 2].
Proof. vm_compute. reflexivity. Qed.
Example wire_max : encodeVarint (two64 - 1) = map byte_of [255; 255; 255; 255; 255; 255; 255; 255; 255; 1]
  ∧ decodeProtoVarint (encodeVarint (two64 - 1)) 0 = Ok (two64 - 1, 10%nat).
Proof. by vm_compute. Qed.
Example wire_fields : decodeProtoFields (encodeMessageField 1 [encodeStringField 1 "hi"; encodeVarintField 4 1])
  = Some (Ok [{| pf_number := 1; pf_wire := 2; pf_varint := 0; pf_bytes := map byte_of [10; 2; 104; 105; 32; 1] |}]).
Proof. vm_compute. reflexivity. Qed.
