(* ===== verification/WireFacts.v ===== *)
(** * The protobuf grammar and Connect streams

    The decoder of [Wire] accepts exactly the texts of a declarative grammar
    of fields, what the encoders write is in that grammar, and a stream of
    Connect frames is read back frame by frame, wherever it is cut. *)

From S2P Require Import Prelude Json JsonFacts GoText Sse SseFacts Marshal Wire.
Local Open Scope Z_scope.

(** ** The grammar *)

(** Base-128 digits, least significant first, all but the last marked. *)
Inductive varint_text : bytes → Z → Prop :=
| vt_last b : code b < 128 → varint_text [b] (code b)
| vt_more b bs v : 128 <= code b → varint_text bs v → varint_text (b :: bs) (code b - 128 + 128 * v).

Definition is_varint (bs : bytes) (v : Z) : Prop := varint_text bs v ∧ (length bs ≤ 10)%nat ∧ is_u64 v.

Definition tag_value (number wire : Z) : Z := 8 * number + wire.

Inductive field_text : bytes → protoField → Prop :=
| ft_varint tag number bs v :
    0 < number → is_varint tag (tag_value number 0) → is_varint bs v →
    field_text (tag ++ bs) {| pf_number := number; pf_wire := 0; pf_varint := v; pf_bytes := [] |}
| ft_fixed64 tag number b :
    0 < number → is_varint tag (tag_value number 1) → length b = 8%nat →
    field_text (tag ++ b) {| pf_number := number; pf_wire := 1; pf_varint := 0; pf_bytes := b |}
| ft_bytes tag number size b :
    0 < number → is_varint tag (tag_value number 2) → is_varint size (len b) →
    field_text (tag ++ size ++ b) {| pf_number := number; pf_wire := 2; pf_varint := 0; pf_bytes := b |}
| ft_fixed32 tag number b :
    0 < number → is_varint tag (tag_value number 5) → length b = 4%nat →
    field_text (tag ++ b) {| pf_number := number; pf_wire := 5; pf_varint := 0; pf_bytes := b |}.

Inductive message : bytes → list protoField → Prop :=
| msg_nil : message [] []
| msg_cons t f rest fs : field_text t f → message rest fs → message (t ++ rest) (f :: fs).

(** ** Varints *)

Lemma varint_text_nonneg bs v : varint_text bs v → 0 <= v ∧ bs ≠ [].
Proof. induction 1 as [b Hb|b bs v Hb Hv IH]; pose proof (code_range b); (split; [lia|done]). Qed.

(** A varint is followed by whatever comes next: no varint is another's prefix. *)
Lemma varint_text_unique a b x y v w :
  varint_text a v → varint_text b w → a ++ x = b ++ y → a = b ∧ x = y ∧ v = w.
Proof.
  intros Ha. revert b w. induction Ha as [c Hc|c a v Hc Ha IH]; intros b w Hb E; inversion Hb; subst;
    simpl in E; injection E as E1 E2; subst.
  - done.
  - lia.
  - lia.
  - destruct (IH _ _ H0 E2) as (-> & -> & ->). done.
Qed.

Lemma lor_add a b i : 0 <= i → 0 <= a < 2 ^ i → 0 <= b → Z.lor a (Z.shiftl b i) = a + b * 2 ^ i.
Proof.
  intros Hi Ha Hb. rewrite <-Z.shiftl_mul_pow2 by done.
  assert (Hl : Z.land a (Z.shiftl b i) = 0).
  { apply Z.bits_inj'. intros n Hn. rewrite Z.land_spec, Z.bits_0. destruct (Z.ltb_spec n i).
    - rewrite (Z.shiftl_spec_low b i n) by done. apply andb_false_r.
    - replace (Z.testbit a n) with false; [done|]. symmetry.
      rewrite <-(Z.mod_small a (2 ^ i)) by done. by apply Z.mod_pow2_bits_high. }
  by rewrite <-Z.lxor_lor, <-Z.add_nocarry_lxor.
Qed.

Lemma land_low7 c : Z.land (code c) 127 = code c mod 128.
Proof. change 127 with (Z.ones 7). by rewrite Z.land_ones. Qed.

Lemma high_bit c : (Z.land (code c) 128 =? 0) = (code c <? 128).
Proof. by destruct c as [[] [] [] [] [] [] [] []]. Qed.

Definition two_pow7 (i : nat) : Z := 2 ^ (7 * Z.of_nat i).

Lemma two_pow7_S i : two_pow7 (S i) = 128 * two_pow7 i.
Proof.
  unfold two_pow7. replace (7 * Z.of_nat (S i)) with (7 + 7 * Z.of_nat i) by lia. by rewrite Z.pow_add_r by lia.
Qed.
Lemma two_pow7_pos i : 0 < two_pow7 i.
Proof. apply Z.pow_pos_nonneg; lia. Qed.
Lemma two_pow7_mono i j : (i ≤ j)%nat → two_pow7 i <= two_pow7 j.
Proof. intros H. apply Z.pow_le_mono_r; lia. Qed.

(** One byte of a varint, added to the value of those before it. *)
Lemma varint_byte value b i :
  (i < 10)%nat → 0 <= value < two_pow7 i → (i = 9%nat → code b <= 1) →
  Z.lor value (u64 (Z.shiftl (Z.land (code b) 127) (7 * Z.of_nat i))) = value + (code b mod 128) * two_pow7 i.
Proof.
  intros Hi Hv Hb. pose proof (code_range b) as Hr. rewrite land_low7.
  assert (Hm : 0 <= code b mod 128 < 128) by (apply Z.mod_pos_bound; lia).
  assert (Hp : (code b mod 128) * two_pow7 i < two64).
  { destruct (decide (i = 9%nat)) as [->|Hne].
    - rewrite (Z.mod_small (code b)) in * by (specialize (Hb eq_refl); lia). specialize (Hb eq_refl). unfold two_pow7, two64. simpl. lia.
    - pose proof (two_pow7_mono i 8 ltac:(lia)) as H8. pose proof (two_pow7_pos i).
      change (two_pow7 8) with 72057594037927936 in H8. unfold two64. nia. }
  rewrite u64_small.
  - rewrite lor_add; [done|lia|exact Hv|lia].
  - rewrite Z.shiftl_mul_pow2 by lia. pose proof (two_pow7_pos i). unfold is_u64. fold (two_pow7 i). nia.
Qed.

(** The decoder, from the middle of a varint. *)
Lemma varint_at_spec data n i pos value v next :
  (n + i = 10)%nat → 0 <= value < two_pow7 i →
  varint_at data n i pos value = Ok (v, next) ↔
  ∃ bs rest w, drop pos data = bs ++ rest ∧ varint_text bs w ∧ (length bs ≤ n)%nat
    ∧ v = value + w * two_pow7 i ∧ v < two64 ∧ next = (pos + length bs)%nat.
Proof.
  revert i pos value. induction n as [|n IH]; intros i pos value Hn Hv; cbn [varint_at].
  { split; [done|]. intros (bs & rest & w & _ & Hb & Hl & _). by destruct Hb; simpl in Hl; lia. }
  destruct (data !! pos) as [b|] eqn:Eb.
  2:{ split; [done|]. intros (bs & rest & w & E & Hb & _). apply lookup_ge_None in Eb.
      rewrite drop_ge in E by done. by destruct Hb. }
  pose proof (drop_S data b pos Eb) as Ed. pose proof (code_range b) as Hr. pose proof (two_pow7_pos i) as Hp.
  assert (Htop : i = 9%nat → two_pow7 i = 9223372036854775808) by by intros ->.
  destruct (Nat.eqb i 9 && (1 <? code b)) eqn:Ec.
  { split; [done|]. apply andb_true_iff in Ec as [->%Nat.eqb_eq Hc%Z.ltb_lt]. rewrite (Htop eq_refl).
    intros (bs & rest & w & E & Hb & Hl & -> & Hlt & _). rewrite Ed in E. unfold two64 in Hlt.
    destruct Hb as [c Hc'|c bs w Hc' Hb]; injection E as -> _; [lia|]. apply varint_text_nonneg in Hb as [Hb ?].
    destruct bs; [done|]. simpl in Hl. lia. }
  assert (Hb9 : i = 9%nat → code b <= 1).
  { intros ->. simpl in Ec. by apply Z.ltb_ge in Ec. }
  rewrite varint_byte by (done || lia). rewrite high_bit. destruct (Z.ltb_spec (code b) 128) as [Hlt|Hge].
  - rewrite (Z.mod_small (code b)) by lia. split.
    + intros [= <- <-]. exists [b], (drop (S pos) data), (code b). rewrite Ed. split_and!; try done; [by constructor|simpl; lia| |simpl; lia].
      destruct (decide (i = 9%nat)) as [Hi|Hi]; [specialize (Htop Hi); specialize (Hb9 Hi); unfold two64; lia|].
      pose proof (two_pow7_mono i 8 ltac:(lia)) as H8. change (two_pow7 8) with 72057594037927936 in H8. unfold two64. nia.
    + intros (bs & rest & w & E & Hb & Hl & -> & Hlt' & ->). rewrite Ed in E.
      destruct Hb as [c Hc'|c bs w Hc' Hb]; injection E as -> _; [|lia]. do 2 f_equal; simpl; lia.
  - assert (Hmod : code b mod 128 = code b - 128) by (Z.to_euclidean_division_equations; lia). rewrite Hmod.
    assert (Hi : i ≠ 9%nat) by (intros Hi; specialize (Hb9 Hi); lia).
    rewrite IH by (lia || (rewrite two_pow7_S; nia)). rewrite two_pow7_S. split.
    + intros (bs & rest & w & E & Hb & Hl & -> & Hlt & ->). exists (b :: bs), rest, (code b - 128 + 128 * w).
      rewrite Ed, E. split_and!; [done|by constructor|simpl; lia|lia|lia|simpl; lia].
    + intros (bs & rest & w & E & Hb & Hl & -> & Hlt & ->). rewrite Ed in E.
      destruct Hb as [c Hc'|c bs w Hc' Hb]; injection E as -> E; [lia|]. exists bs, rest, w.
      split_and!; [done|done|simpl in Hl; lia|lia|lia|simpl; lia].
Qed.

Lemma decode_varint_spec data pos v next :
  decodeProtoVarint data pos = Ok (v, next) ↔
  ∃ bs rest, drop pos data = bs ++ rest ∧ is_varint bs v ∧ next = (pos + length bs)%nat.
Proof.
  unfold decodeProtoVarint. rewrite varint_at_spec; [|done|by vm_compute]. change (two_pow7 0) with 1. split.
  - intros (bs & rest & w & E & Hb & Hl & -> & Hlt & ->). exists bs, rest. rewrite Z.add_0_l, Z.mul_1_r in *.
    split_and!; [done| |done]. split; [done|]. split; [done|]. apply varint_text_nonneg in Hb as [? _]. by split.
  - intros (bs & rest & E & (Hb & Hl & Hv) & ->). exists bs, rest, v. rewrite Z.add_0_l, Z.mul_1_r.
    split_and!; try done. apply Hv.
Qed.

Lemma low_byte_marked v : 0 <= v → code (byte_of (Z.lor (v mod 256) 128)) = v mod 128 + 128.
Proof.
  intros Hv. assert (H : ∀ x, 0 <= x < 256 → Z.lor x 128 = x mod 128 + 128).
  { intros x Hx. replace x with (code (byte_of x)) by by apply code_byte_of. generalize (byte_of x). intros c.
    by destruct c as [[] [] [] [] [] [] [] []]. }
  rewrite H by (apply Z.mod_pos_bound; lia). rewrite code_byte_of.
  - f_equal. symmetry. apply Znumtheory.Zmod_div_mod; [lia|lia|by exists 2].
  - pose proof (Z.mod_pos_bound (v mod 256) 128). lia.
Qed.

Lemma varint_loop_spec n v : 0 <= v < two_pow7 n → (0 < n)%nat → varint_text (varint_loop n v) v ∧ (length (varint_loop n v) ≤ n)%nat.
Proof.
  revert v. induction n as [|n IH]; intros v Hv Hn; [lia|]. cbn [varint_loop]. destruct (Z.leb_spec 128 v) as [Hge|Hlt].
  - assert (Hs : Z.shiftr v 7 = v / 128) by by rewrite Z.shiftr_div_pow2. rewrite Hs.
    rewrite two_pow7_S in Hv. destruct n as [|n]; [change (two_pow7 0) with 1 in Hv; lia|].
    destruct (IH (v / 128)) as [H1 H2]; [|lia|].
    { pose proof (two_pow7_pos (S n)). split; [apply Z.div_pos; lia|]. apply Z.div_lt_upper_bound; lia. }
    split; [|simpl in *; lia]. pose proof (low_byte_marked v ltac:(lia)) as Hc.
    replace v with (code (byte_of (Z.lor (v mod 256) 128)) - 128 + 128 * (v / 128)) at 3.
    + constructor; [|done]. rewrite Hc. pose proof (Z.mod_pos_bound v 128). lia.
    + rewrite Hc. pose proof (Z.div_mod v 128). lia.
  - split; [|simpl; lia]. rewrite <-(code_byte_of v) at 2 by lia. constructor. rewrite code_byte_of; lia.
Qed.

Lemma encodeVarint_spec v : is_u64 v → is_varint (encodeVarint v) v.
Proof.
  intros Hv. destruct (varint_loop_spec 10 v) as [H1 H2]; [|lia|done].
  unfold is_u64, two64, two_pow7 in *. simpl. lia.
Qed.

(** ** Fields *)

Lemma slice_app (pre b rest : bytes) : slice (pre ++ b ++ rest) (length pre) (length pre + length b) = b.
Proof. unfold slice. rewrite drop_app_length. replace (_ - _)%nat with (length b) by lia. apply take_app_length. Qed.

(** A tag splits into the field's number and its wire type. *)
Lemma tag_split tag : is_u64 tag →
  i64 (Z.shiftr tag 3) = tag / 8 ∧ Z.land tag 7 = tag mod 8.
Proof.
  intros [H0 H]. split.
  - rewrite Z.shiftr_div_pow2 by lia. apply i64_small. unfold is_i64, two63, two64 in *.
    split; [pose proof (Z.div_pos tag 8); lia|]. change (2 ^ 3) with 8. apply Z.div_lt_upper_bound; lia.
  - change 7 with (Z.ones 3). by rewrite Z.land_ones.
Qed.

Lemma tag_fields number wire t :
  0 < number → is_varint t (tag_value number wire) → 0 <= wire < 8 →
  i64 (Z.shiftr (tag_value number wire) 3) = number ∧ Z.land (tag_value number wire) 7 = wire ∧ (number <=? 0) = false.
Proof.
  intros Hn (_ & _ & Ht) Hw. destruct (tag_split _ Ht) as [-> ->]. unfold tag_value.
  split_and!; [Z.to_euclidean_division_equations; lia..|by apply Z.leb_gt].
Qed.

Lemma drop_split (data : bytes) pos x y : drop pos data = x ++ y → (pos ≤ length data)%nat →
  ∃ pre, data = pre ++ x ++ y ∧ length pre = pos.
Proof. intros E Hp. exists (take pos data). rewrite <-E, take_drop, length_take. split; [done|lia]. Qed.

Definition varint_prefix (data : bytes) (pos : nat) (v : Z) (next : nat) : Prop :=
  ∃ bs rest, drop pos data = bs ++ rest ∧ is_varint bs v ∧ next = (pos + length bs)%nat.

Lemma prefix_app pre bs rest v : is_varint bs v →
  decodeProtoVarint (pre ++ bs ++ rest) (length pre) = Ok (v, length (pre ++ bs)).
Proof.
  intros Hv. apply decode_varint_spec. exists bs, rest. rewrite drop_app_length, length_app. done.
Qed.

Lemma remaining (pre rest : bytes) : Z.of_nat (length (pre ++ rest)) - Z.of_nat (length pre) = len rest.
Proof. rewrite length_app. unfold len. lia. Qed.

Lemma field_decodes pre t f rest :
  field_text t f → decode_field (pre ++ t ++ rest) (length pre) = Ok (f, (length pre + length t)%nat).
Proof.
  intros H. unfold decode_field. destruct H as [tag number bs v Hn Ht Hv|tag number b Hn Ht Hb|tag number size b Hn Ht Hs|tag number b Hn Ht Hb].
  all: destruct (tag_fields _ _ _ Hn Ht ltac:(lia)) as (E1 & E2 & E3).
  all: rewrite <-?app_assoc, (prefix_app pre tag _ _ Ht); cbn [res_bind]; rewrite E1, E2, E3; cbn [Z.eqb Pos.eqb].
  - rewrite app_assoc, (prefix_app (pre ++ tag) bs rest v Hv). cbn [res_bind]. do 2 f_equal. rewrite !length_app. lia.
  - rewrite app_assoc. rewrite remaining, len_app, (proj2 (Z.ltb_ge _ _)) by (pose proof (len_nonneg rest); unfold len at 1; lia).
    do 2 f_equal; [f_equal|rewrite !length_app; lia]. rewrite <-Hb. apply slice_app.
  - rewrite app_assoc, (prefix_app (pre ++ tag) size _ _ Hs). cbn [res_bind]. rewrite app_assoc, remaining.
    rewrite len_app, (proj2 (Z.ltb_ge _ _)) by (pose proof (len_nonneg rest); lia).
    unfold len. rewrite Nat2Z.id. do 2 f_equal; [f_equal; apply slice_app|rewrite !length_app; lia].
  - rewrite app_assoc. rewrite remaining, len_app, (proj2 (Z.ltb_ge _ _)) by (pose proof (len_nonneg rest); unfold len at 1; lia).
    do 2 f_equal; [f_equal|rewrite !length_app; lia]. rewrite <-Hb. apply slice_app.
Qed.

Lemma take_slice data a n : (a + n ≤ length data)%nat → drop a data = slice data a (a + n) ++ drop (a + n) data ∧ length (slice data a (a + n)) = n.
Proof.
  intros H. unfold slice. replace (a + n - a)%nat with n by lia. rewrite <-drop_drop, take_drop. split; [done|].
  rewrite length_take, length_drop. lia.
Qed.

(** A tag read by the decoder, rebuilt from its number and wire type. *)
Lemma tag_rebuild tag t :
  is_varint t tag → i64 (Z.shiftr tag 3) <=? 0 = false → ∀ w, Z.land tag 7 = w →
  0 < i64 (Z.shiftr tag 3) ∧ is_varint t (tag_value (i64 (Z.shiftr tag 3)) w).
Proof.
  intros Ht Hn w <-. destruct (tag_split tag) as [E1 E2]; [apply Ht|]. rewrite E1, E2 in *. apply Z.leb_gt in Hn.
  split; [done|]. unfold tag_value. rewrite <-Z.div_mod by lia. done.
Qed.

Lemma field_decoded data pos f next :
  decode_field data pos = Ok (f, next) →
  ∃ t rest, drop pos data = t ++ rest ∧ field_text t f ∧ next = (pos + length t)%nat.
Proof.
  unfold decode_field. intros H. apply res_bind_ok in H as ([tag p1] & Htag & H).
  apply decode_varint_spec in Htag as (t & r1 & E1 & Ht & ->).
  destruct (i64 (Z.shiftr tag 3) <=? 0) eqn:Hn; [done|]. pose proof (tag_rebuild tag t Ht Hn) as Hr.
  assert (Hd : drop (pos + length t) data = r1).
  { by rewrite <-drop_drop, E1, drop_app_length. }
  assert (Hlen : ∀ n, (n ≤ length r1)%nat → ∃ b r2, slice data (pos + length t) (pos + length t + n) = b ∧ r1 = b ++ r2 ∧ length b = n).
  { intros n Hle. eexists _, (drop n r1). split; [reflexivity|]. unfold slice. rewrite Hd. replace (_ - _)%nat with n by lia.
    rewrite take_drop, length_take. split; [done|lia]. }
  assert (Hrem : Z.of_nat (length data) - Z.of_nat (pos + length t) <= len r1).
  { rewrite <-Hd. unfold len. rewrite length_drop. lia. }
  destruct (Z.eqb_spec (Z.land tag 7) 0) as [Hw|_]; [|destruct (Z.eqb_spec (Z.land tag 7) 1) as [Hw|_];
    [|destruct (Z.eqb_spec (Z.land tag 7) 2) as [Hw|_]; [|destruct (Z.eqb_spec (Z.land tag 7) 5) as [Hw|_]; [|done]]]];
    destruct (Hr _ Hw) as [Hpos Hv].
  - apply res_bind_ok in H as ([v p2] & Hvar & H). injection H as <- <-.
    apply decode_varint_spec in Hvar as (bs & r2 & E2 & Hb & ->). rewrite Hd in E2. subst r1.
    exists (t ++ bs), r2. rewrite <-app_assoc, length_app. rewrite Hw. split_and!; [done|by constructor|lia].
  - destruct (_ <? 8) eqn:Hl; [done|]. injection H as <- <-. apply Z.ltb_ge in Hl.
    destruct (Hlen 8%nat) as (b & r2 & -> & -> & Hb); [unfold len in *; lia|].
    exists (t ++ b), r2. rewrite <-app_assoc, length_app. rewrite Hw. split_and!; [done|by constructor|lia].
  - apply res_bind_ok in H as ([v p2] & Hvar & H). apply decode_varint_spec in Hvar as (bs & r2 & E2 & Hb & ->).
    rewrite Hd in E2. subst r1. destruct (_ <? v) eqn:Hl; [done|]. injection H as <- <-. apply Z.ltb_ge in Hl.
    assert (Hd2 : drop (pos + length t + length bs) data = r2).
    { by rewrite <-drop_drop, Hd, drop_app_length. }
    assert (Hv0 : 0 <= v) by apply Hb.
    assert (Hle : (Z.to_nat v ≤ length r2)%nat).
    { rewrite <-Hd2, length_drop. lia. }
    set (b := slice data _ _). assert (Eb : b = take (Z.to_nat v) r2).
    { unfold b, slice. rewrite Hd2. f_equal. lia. }
    assert (Elen : len b = v). { unfold len. rewrite Eb, length_take. lia. }
    exists (t ++ bs ++ b), (drop (Z.to_nat v) r2). rewrite <-!app_assoc, Eb, take_drop. rewrite Hw.
    split_and!; [done| |rewrite !length_app, length_take; lia]. rewrite <-Eb. constructor; [done|done|]. by rewrite Elen.
  - destruct (_ <? 4) eqn:Hl; [done|]. injection H as <- <-. apply Z.ltb_ge in Hl.
    destruct (Hlen 4%nat) as (b & r2 & -> & -> & Hb); [unfold len in *; lia|].
    exists (t ++ b), r2. rewrite <-app_assoc, length_app. rewrite Hw. split_and!; [done|by constructor|lia].
Qed.

(** ** Messages *)

Lemma is_varint_ne bs v : is_varint bs v → (0 < length bs)%nat.
Proof. intros [H _]. apply varint_text_nonneg in H as [_ H]. destruct bs; [done|simpl; lia]. Qed.

Lemma field_text_ne t f : field_text t f → (0 < length t)%nat.
Proof. destruct 1 as [??? ?? Ht|??? ? Ht|???? ? Ht|??? ? Ht]; apply is_varint_ne in Ht; rewrite !length_app; lia. Qed.

Lemma proto_loop_spec fuel data pos acc fs :
  (pos ≤ length data)%nat → (length data - pos ≤ fuel)%nat →
  proto_loop fuel data pos acc = Some (Ok fs) ↔ ∃ gs, fs = acc ++ gs ∧ message (drop pos data) gs.
Proof.
  revert pos acc. induction fuel as [|fuel IH]; intros pos acc Hp Hf; cbn [proto_loop];
    destruct (Nat.ltb_spec pos (length data)) as [Hlt|Hge]; try lia.
  1,3: rewrite drop_ge by lia; (split; [intros [= <-]; exists []; rewrite app_nil_r; split; [done|constructor]|]);
    intros (gs & -> & Hm); inversion Hm as [|t f rest gs' Hft _ Et]; [by rewrite app_nil_r|];
    apply field_text_ne in Hft; apply (f_equal length) in Et; rewrite length_app in Et; simpl in Et; lia.
  split.
  - destruct (decode_field data pos) as [[f next]|e] eqn:Ed; [|done].
    apply field_decoded in Ed as (t & rest & E & Hft & ->). pose proof (field_text_ne t f Hft).
    assert (Hlt' : (pos + length t ≤ length data)%nat).
    { apply (f_equal length) in E. rewrite length_drop, length_app in E. lia. }
    intros (gs & -> & Hm)%IH; [|lia|lia]. exists (f :: gs). rewrite <-app_assoc. split; [done|].
    rewrite E. constructor; [done|]. rewrite <-drop_drop, E, drop_app_length in Hm. done.
  - intros (gs & -> & Hm). inversion Hm as [E|t f rest gs' Hft Hm' E]; subst.
    { apply (f_equal length) in E. rewrite length_drop in E. simpl in E. lia. }
    symmetry in E. destruct (drop_split data pos t rest E Hp) as (pre & -> & Hpre).
    rewrite <-Hpre at 1. rewrite (field_decodes pre t f rest Hft).
    pose proof (field_text_ne t f Hft) as Hne. apply IH.
    + rewrite !length_app. lia.
    + rewrite !length_app in *. lia.
    + exists gs'. rewrite <-app_assoc. split; [done|].
      rewrite app_assoc, <-length_app, drop_app_length. done.
Qed.

Lemma proto_loop_ends fuel data pos acc :
  (pos ≤ length data)%nat → (length data - pos ≤ fuel)%nat → proto_loop fuel data pos acc ≠ None.
Proof.
  revert pos acc. induction fuel as [|fuel IH]; intros pos acc Hp Hf; cbn [proto_loop];
    destruct (Nat.ltb_spec pos (length data)) as [Hlt|Hge]; try (done || lia).
  destruct (decode_field data pos) as [[f next]|e] eqn:Ed; [|done].
  apply field_decoded in Ed as (t & rest & E & Hft & ->). pose proof (field_text_ne t f Hft).
  apply (f_equal length) in E. rewrite length_drop, length_app in E. apply IH; lia.
Qed.

Lemma decode_fields_spec data fs : decodeProtoFields data = Some (Ok fs) ↔ message data fs.
Proof.
  unfold decodeProtoFields. rewrite proto_loop_spec by lia. rewrite drop_0. split; [by intros (gs & -> & H)|by exists fs].
Qed.

(** ** What the encoders write *)

Definition field_number (n : Z) : Prop := 0 < n < 2 ^ 60.

Lemma encodeTag_spec field wire : field_number field → 0 <= wire < 8 → is_varint (encodeTag field wire) (tag_value field wire).
Proof.
  unfold field_number. intros Hf Hw. unfold encodeTag, tag_value.
  assert (Hs : u64 (Z.shiftl field 3) = Z.shiftl field 3).
  { rewrite Z.shiftl_mul_pow2 by lia. apply u64_small. unfold is_u64, two64. lia. }
  rewrite Hs, Z.lor_comm, lor_add by lia. change (2 ^ 3) with 8. replace (wire + field * 8) with (8 * field + wire) by lia.
  apply encodeVarint_spec. unfold is_u64, two64. lia.
Qed.

Definition bytes_field (n : Z) (b : bytes) : protoField := {| pf_number := n; pf_wire := 2; pf_varint := 0; pf_bytes := b |}.
Definition varint_field (n v : Z) : protoField := {| pf_number := n; pf_wire := 0; pf_varint := v; pf_bytes := [] |}.

Lemma bytes_field_text n b : field_number n → len b < two64 → field_text (encodeBytesField n b) (bytes_field n b).
Proof.
  intros Hn Hb. unfold encodeBytesField. constructor; [by destruct Hn|by apply encodeTag_spec|].
  apply encodeVarint_spec. split; [apply len_nonneg|done].
Qed.

Lemma varint_field_text n v : field_number n → is_u64 v → v ≠ 0 → field_text (encodeVarintField n v) (varint_field n v).
Proof.
  intros Hn Hv H0. unfold encodeVarintField. rewrite (proj2 (Z.eqb_neq v 0) H0).
  constructor; [by destruct Hn|by apply encodeTag_spec|by apply encodeVarint_spec].
Qed.

Lemma message_one t f : field_text t f → message t [f].
Proof. intros H. rewrite <-(app_nil_r t). constructor; [done|constructor]. Qed.

Lemma message_app t1 f1 t2 f2 : message t1 f1 → message t2 f2 → message (t1 ++ t2) (f1 ++ f2).
Proof. induction 1 as [|t f rest fs Hf Hm IH]; intros H2; [done|]. rewrite <-app_assoc. simpl. constructor; [done|by apply IH]. Qed.

(** Default values are left out. *)
Definition string_fields (n : Z) (s : string) : list protoField := if (s =? "")%string then [] else [bytes_field n (lit s)].
Definition varint_fields (n v : Z) : list protoField := if v =? 0 then [] else [varint_field n v].

Lemma string_message n s : field_number n → slen s < two64 → message (encodeStringField n s) (string_fields n s).
Proof.
  intros Hn Hs. unfold encodeStringField, string_fields. destruct (s =? "")%string; [constructor|].
  apply message_one, bytes_field_text; [done|]. unfold len. by rewrite length_lit.
Qed.
Lemma varint_message n v : field_number n → is_u64 v → message (encodeVarintField n v) (varint_fields n v).
Proof.
  intros Hn Hv. unfold varint_fields. destruct (Z.eqb_spec v 0) as [->|H0]; [constructor|]. by apply message_one, varint_field_text.
Qed.
Lemma nested_message n parts : field_number n → len (concat parts) < two64 → message (encodeMessageField n parts) [bytes_field n (concat parts)].
Proof. intros Hn Hl. by apply message_one, bytes_field_text. Qed.

(** ** Connect frames *)

Lemma be32_length n : length (be32 n) = 4%nat.
Proof. reflexivity. Qed.

Lemma be32_value n : 0 <= n < 4294967296 → be_value (be32 n) = n.
Proof.
  intros Hn. unfold be_value, be32. cbn [fold_left].
  rewrite !code_byte_of by (apply Z.mod_pos_bound; lia). Z.to_euclidean_division_equations; lia.
Qed.

Definition connect_text (flags : Z) (payload : bytes) : bytes := byte_of flags :: be32 (len payload) ++ payload.

Lemma connectFrame_ok payload flags :
  len payload <= maxConnectFrameBytes → connectFrame payload flags = Ok (connect_text flags payload).
Proof. intros H. unfold connectFrame. by rewrite (proj2 (Z.ltb_ge _ _) H). Qed.

Lemma ReadFull_app a b eof : ReadFull {| rd_rest := a ++ b; rd_eof := eof |} (length a) = (Ok a, {| rd_rest := b; rd_eof := eof |}).
Proof.
  unfold ReadFull. cbn [rd_rest rd_eof]. rewrite length_app, (proj2 (Nat.leb_le _ _)) by lia.
  by rewrite take_app_length, drop_app_length.
Qed.

Lemma ReadFull_short a n eof : (length a < n)%nat →
  ReadFull {| rd_rest := a; rd_eof := eof |} n = (Err (if bool_decide (a = []) && eof then ReadEOF else ReadShort), {| rd_rest := []; rd_eof := eof |}).
Proof. intros H. unfold ReadFull. cbn [rd_rest rd_eof]. by rewrite (proj2 (Nat.leb_gt _ _) H). Qed.

Section Connect.
Context `{Gzip}.

(** What a frame's flags and payload mean to the caller. *)
Definition frame_result (flags : Z) (payload : bytes) : res next_error (Z * bytes) :=
  if Z.testbit flags 0 then
    match gunzipBounded payload with Ok d => Ok (Z.ldiff flags 1, d) | Err e => Err (FrameError e) end
  else Ok (flags, payload).

Lemma connect_next_frame flags payload rest eof :
  0 <= flags < 4 → len payload <= maxConnectFrameBytes →
  connect_next {| rd_rest := connect_text flags payload ++ rest; rd_eof := eof |}
  = (frame_result flags payload, {| rd_rest := rest; rd_eof := eof |}).
Proof.
  intros Hf Hp. assert (Hl : be_value (be32 (len payload)) = len payload).
  { apply be32_value. pose proof (len_nonneg payload). unfold maxConnectFrameBytes in Hp. lia. }
  unfold connect_next, connect_text.
  change (byte_of flags :: be32 (len payload) ++ payload) with ((byte_of flags :: be32 (len payload)) ++ payload).
  rewrite <-app_assoc. change 5%nat with (length (byte_of flags :: be32 (len payload))). rewrite ReadFull_app.
  cbn [drop take be32]. change [_; _; _; _] with (be32 (len payload)). rewrite Hl, (proj2 (Z.ltb_ge _ _) Hp).
  change (Z.to_nat (len payload)) with (Z.to_nat (Z.of_nat (length payload))). rewrite Nat2Z.id, ReadFull_app.
  replace (be_value [byte_of flags]) with flags by (unfold be_value; cbn [fold_left]; rewrite code_byte_of; lia).
  unfold frame_result. assert (Hc : flags = 0 ∨ flags = 1 ∨ flags = 2 ∨ flags = 3) by lia.
  destruct Hc as [-> |[-> |[-> | ->]]]; cbn; try done; by destruct (gunzipBounded payload).
Qed.

Lemma connect_next_end eof : connect_next {| rd_rest := []; rd_eof := eof |}
  = (Err (if eof then FrameEOF else FrameError ErrTruncated), {| rd_rest := []; rd_eof := eof |}).
Proof. unfold connect_next. rewrite ReadFull_short by (simpl; lia). by destruct eof. Qed.

(** A frame cut short is an error, never a shorter frame. *)
Lemma connect_next_cut flags payload t u eof :
  0 <= flags < 4 → len payload <= maxConnectFrameBytes →
  connect_text flags payload = t ++ u → t ≠ [] → u ≠ [] →
  connect_next {| rd_rest := t; rd_eof := eof |} = (Err (FrameError ErrTruncated), {| rd_rest := []; rd_eof := eof |}).
Proof.
  intros Hf Hp E Ht Hu. unfold connect_next, connect_text in *.
  destruct (le_lt_dec 5 (length t)) as [Hlt|Hlt].
  - assert (E5 : take 5 (t ++ u) = byte_of flags :: be32 (len payload)) by by rewrite <-E.
    rewrite take_app_le in E5 by done.
    assert (Hl : be_value (be32 (len payload)) = len payload).
    { apply be32_value. pose proof (len_nonneg payload). unfold maxConnectFrameBytes in Hp. lia. }
    assert (Ed : drop 5 t ++ u = payload).
    { pose proof (f_equal (drop 5) E) as E'. rewrite drop_app_le in E' by done. by rewrite <-E'. }
    rewrite <-(take_drop 5 t) at 1. rewrite E5. change 5%nat with (length (byte_of flags :: be32 (len payload))) at 2.
    rewrite ReadFull_app. cbn [drop take be32]. change [_; _; _; _] with (be32 (len payload)).
    rewrite Hl, (proj2 (Z.ltb_ge _ _) Hp). rewrite ReadFull_short; [done|].
    rewrite <-Ed, len_app. unfold len. assert (0 < length u)%nat by (destruct u; simpl; [done|lia]). lia.
  - rewrite ReadFull_short by done. by destruct t.
Qed.
End Connect.

Lemma ReadFull_rest r n x r' : ReadFull r n = (x, r') → (length (rd_rest r') ≤ length (rd_rest r))%nat
  ∧ (is_ok x = true → length (rd_rest r') + n = length (rd_rest r))%nat.
Proof.
  unfold ReadFull. destruct (Nat.leb_spec n (length (rd_rest r))); intros [= <- <-]; cbn [rd_rest is_ok length];
    rewrite ?length_drop; split; try done; lia.
Qed.

(** Every frame takes bytes from the stream. *)
Lemma connect_next_shorter `{Gzip} r x r' : connect_next r = (Ok x, r') → (length (rd_rest r') < length (rd_rest r))%nat.
Proof.
  unfold connect_next. destruct (ReadFull r 5) as [[header|[]] r1] eqn:E1; [|done..].
  destruct (_ <? _); [done|]. destruct (ReadFull r1 _) as [[payload|] r2] eqn:E2; [|done].
  apply ReadFull_rest in E1 as [_ E1], E2 as [E2 _]. specialize (E1 eq_refl). intros Hx.
  assert (r' = r2) as ->; [|lia]. destruct (negb _); [done|]. destruct (_ =? 0); [congruence|]. destruct (gunzipBounded _); congruence.
Qed.

(** ** Streams of frames *)

(** What a client of the reader sees: frames, and why there are no more. *)
Fixpoint read_stream `{Gzip} (fuel : nat) (r : reader) : list (Z * bytes) * option next_error :=
  match fuel with
  | O => ([], None)
  | S fuel =>
      match connect_next r with
      | (Ok x, r) => let '(xs, e) := read_stream fuel r in (x :: xs, e)
      | (Err e, _) => ([], Some e)
      end
  end.
Definition read_all `{Gzip} (r : reader) : list (Z * bytes) * option next_error := read_stream (S (length (rd_rest r))) r.

Definition stream_text (frames : list (Z * bytes)) : bytes := concat (map (λ f, connect_text (fst f) (snd f)) frames).
Definition frame_ok (f : Z * bytes) : Prop := 0 <= fst f < 4 ∧ len (snd f) <= maxConnectFrameBytes.

(** The beginning of a frame that was cut off, possibly nothing. *)
Definition cut_frame (t : bytes) : Prop := t = [] ∨ ∃ f u, frame_ok f ∧ u ≠ [] ∧ connect_text (fst f) (snd f) = t ++ u.

Lemma read_stream_frames `{Gzip} fuel frames xs t eof :
  Forall2 (λ f x, frame_ok f ∧ frame_result (fst f) (snd f) = Ok x) frames xs → cut_frame t →
  (length (stream_text frames ++ t) < fuel)%nat →
  read_stream fuel {| rd_rest := stream_text frames ++ t; rd_eof := eof |}
  = (xs, Some (if bool_decide (t = []) && eof then FrameEOF else FrameError ErrTruncated)).
Proof.
  intros Hf Ht. revert fuel. induction Hf as [|f x frames xs [[Hf1 Hf2] Hx] _ IH]; intros [|fuel] Hlen; try lia; cbn [read_stream].
  - cbn [stream_text map concat app]. destruct Ht as [-> |(f & u & [H1 H2] & Hu & E)].
    + rewrite connect_next_end. by destruct eof.
    + destruct (decide (t = [])) as [->|Hne]; [rewrite connect_next_end; by destruct eof|].
      rewrite (connect_next_cut _ _ t u) by done. by rewrite bool_decide_false.
  - unfold stream_text in *. cbn [map concat] in *. rewrite <-app_assoc in *. rewrite connect_next_frame, Hx by done.
    rewrite IH; [done|]. rewrite length_app in Hlen. assert (0 < length (connect_text (fst f) (snd f)))%nat by (simpl; lia). lia.
Qed.

(** ** Trees of fields *)

Lemma protoFields_message data fs : message data fs → protoFields data = Ok fs.
Proof. intros H%decode_fields_spec. unfold protoFields. by rewrite H. Qed.

(** A string or number that is left out when empty or zero, or a message. *)
Inductive wfield := WStr (n : Z) (s : string) | WVar (n v : Z) | WMsg (n : Z) (l : list wfield).

Fixpoint wenc (f : wfield) : bytes :=
  match f with
  | WStr n s => encodeStringField n s
  | WVar n v => encodeVarintField n v
  | WMsg n l => encodeMessageField n (map wenc l)
  end.
Definition wencs (l : list wfield) : bytes := concat (map wenc l).

Definition number_ok (n : Z) : bool := (0 <? n) && (n <? 2 ^ 60).
Fixpoint wok (f : wfield) : bool :=
  match f with
  | WStr n _ => number_ok n
  | WVar n v => number_ok n && (0 <=? v) && (v <? two64)
  | WMsg n l => number_ok n && forallb wok l
  end.

(** The bytes of the first length-delimited field along a path of numbers. *)
Fixpoint dig (path : list Z) (data : bytes) : option bytes :=
  match path with
  | [] => Some data
  | n :: path =>
      match protoFields data with
      | Ok fs => f ← firstField fs n 2; dig path (pf_bytes f)
      | Err _ => None
      end
  end.

Fixpoint wfirst (n : Z) (l : list wfield) : option (string + list wfield) :=
  match l with
  | [] => None
  | WStr m s :: l => if (m =? n) && negb (s =? "")%string then Some (inl s) else wfirst n l
  | WVar _ _ :: l => wfirst n l
  | WMsg m sub :: l => if m =? n then Some (inr sub) else wfirst n l
  end.

Fixpoint wdig (path : list Z) (l : list wfield) : option bytes :=
  match path with
  | [] => Some (wencs l)
  | n :: path =>
      match wfirst n l with
      | None => None
      | Some (inl s) => dig path (lit s)
      | Some (inr sub) => wdig path sub
      end
  end.

Definition in_bounds (b : bytes) : Prop := len b < two64.

Lemma in_bounds_app a b : in_bounds (a ++ b) → in_bounds a ∧ in_bounds b.
Proof. unfold in_bounds. rewrite len_app. pose proof (len_nonneg a). pose proof (len_nonneg b). lia. Qed.

Lemma number_ok_spec n : number_ok n = true ↔ field_number n.
Proof. unfold number_ok, field_number. rewrite andb_true_iff, Z.ltb_lt, Z.ltb_lt. done. Qed.

Definition wfields (f : wfield) : list protoField :=
  match f with
  | WStr n s => string_fields n s
  | WVar n v => varint_fields n v
  | WMsg n l => [bytes_field n (wencs l)]
  end.

Lemma wfield_message f : wok f = true → in_bounds (wenc f) → message (wenc f) (wfields f).
Proof.
  destruct f as [n s|n v|n l]; cbn [wok wenc wfields]; intros Hok Hb; bool_prop;
    repeat match goal with H : number_ok _ = true |- _ => apply number_ok_spec in H
      | H : _ && _ = true |- _ => apply andb_true_iff in H as [? ?] end; bool_prop.
  - apply string_message; [done|]. unfold encodeStringField in Hb. destruct (String.eqb_spec s "") as [->|]; [by vm_compute|].
    unfold encodeBytesField in Hb. apply in_bounds_app in Hb as [_ [_ Hb]%in_bounds_app]. unfold in_bounds, len in Hb.
    by rewrite length_lit in Hb.
  - apply varint_message; [done|by split].
  - apply nested_message; [done|]. unfold encodeMessageField, encodeBytesField in Hb.
    by apply in_bounds_app in Hb as [_ [_ Hb]%in_bounds_app].
Qed.

Lemma wfields_message l : forallb wok l = true → in_bounds (wencs l) → message (wencs l) (concat (map wfields l)).
Proof.
  induction l as [|f l IH]; intros Hok Hb; [constructor|]. cbn [forallb] in Hok. apply andb_true_iff in Hok as [Hf Hl].
  unfold wencs in *. cbn [map concat] in *. apply in_bounds_app in Hb as [Hbf Hbl]. apply message_app; [by apply wfield_message|by apply IH].
Qed.

Lemma firstField_cons f fs n :
  firstField (f :: fs) n 2 = if (pf_number f =? n) && (pf_wire f =? 2) then Some f else firstField fs n 2.
Proof.
  unfold firstField. cbn [list_find]. destruct (Z.eqb_spec (pf_number f) n), (Z.eqb_spec (pf_wire f) 2); cbn [andb];
    [rewrite decide_True by done; done|rewrite decide_False by tauto..]; by destruct (list_find _ fs) as [[]|].
Qed.

Lemma wfirst_spec n l :
  firstField (concat (map wfields l)) n 2
  = (λ x, bytes_field n (match x with inl s => lit s | inr sub => wencs sub end)) <$> wfirst n l.
Proof.
  induction l as [|[m s|m v|m sub] l IH]; [done|..]; cbn [map concat wfields wfirst].
  - unfold string_fields. destruct (s =? "")%string; cbn [app negb]; [by rewrite andb_false_r|]. rewrite firstField_cons.
    cbn [pf_number pf_wire bytes_field]. rewrite !andb_true_r. destruct (Z.eqb_spec m n) as [->|]; [done|exact IH].
  - unfold varint_fields. destruct (v =? 0); cbn [app]; [done|]. rewrite firstField_cons. cbn. by rewrite andb_false_r.
  - cbn [app]. rewrite firstField_cons. cbn [pf_number pf_wire bytes_field]. rewrite andb_true_r.
    destruct (Z.eqb_spec m n) as [->|]; [done|exact IH].
Qed.

Lemma wfirst_ok n l sub : wfirst n l = Some (inr sub) → forallb wok l = true → in_bounds (wencs l) →
  forallb wok sub = true ∧ in_bounds (wencs sub).
Proof.
  induction l as [|f l IH]; [done|]. cbn [forallb]. intros Hs [Hf Hl]%andb_true_iff Hb.
  unfold wencs in Hb. cbn [map concat] in Hb. apply in_bounds_app in Hb as [Hbf Hbl].
  destruct f as [m s|m v|m sub']; cbn [wfirst] in Hs.
  - destruct ((m =? n) && _); [done|by apply IH].
  - by apply IH.
  - destruct (m =? n); [|by apply IH]. injection Hs as <-. cbn [wok] in Hf. apply andb_true_iff in Hf as [_ Hf].
    split; [done|]. cbn [wenc] in Hbf. unfold encodeMessageField, encodeBytesField in Hbf.
    by apply in_bounds_app in Hbf as [_ [_ Hbf]%in_bounds_app].
Qed.

(** What is read along a path is what the tree has there. *)
Lemma dig_tree path l : forallb wok l = true → in_bounds (wencs l) → dig path (wencs l) = wdig path l.
Proof.
  revert l. induction path as [|n path IH]; intros l Hok Hb; [done|]. cbn [dig wdig].
  rewrite (protoFields_message _ _ (wfields_message l Hok Hb)), wfirst_spec.
  destruct (wfirst n l) as [[s|sub]|] eqn:E; cbn [fmap option_fmap option_map mbind option_bind pf_bytes bytes_field]; [done| |done].
  destruct (wfirst_ok n l sub E Hok Hb) as [H1 H2]. by apply IH.
Qed.

(** ** The theorems *)

(** C33: the protobuf decoder ends on every input, and accepts exactly the
    texts of the grammar: fields one after the other, each a tag of at most ten
    base-128 digits below 2^64 with a positive number and a wire type of 0, 1,
    2 or 5, and a varint, eight, four or as many bytes as announced.  Anything
    else (an overlong or truncated varint, a length beyond the data, a group)
    is an error, and what was decoded before is not returned. *)
Theorem wire_decoder_exact data :
  decodeProtoFields data ≠ None
  ∧ (∀ fs, decodeProtoFields data = Some (Ok fs) ↔ message data fs)
  ∧ (∀ fs fs', message data fs → message data fs' → fs = fs').
Proof.
  split_and!; [apply proto_loop_ends; lia|apply decode_fields_spec|].
  intros fs fs' H1%decode_fields_spec H2%decode_fields_spec. congruence.
Qed.

Lemma wire_decoder_exact_witness :
  ∃ fs, message (encodeStringField 1 "hi" ++ encodeVarintField 2 300) fs ∧ length fs = 2%nat
    ∧ ∀ fs', message (encodeStringField 1 "hi" ++ encodeVarintField 2 300) fs' → fs = fs'.
Proof.
  destruct (wire_decoder_exact (encodeStringField 1 "hi" ++ encodeVarintField 2 300)) as (_ & H1 & H2).
  assert (E : ∃ fs, decodeProtoFields (encodeStringField 1 "hi" ++ encodeVarintField 2 300) = Some (Ok fs) ∧ length fs = 2%nat).
  { eexists. split; vm_compute; reflexivity. }
  destruct E as (fs & Hd & Hl). apply H1 in Hd. exists fs. split; [exact Hd|]. split; [exact Hl|]. intros fs' H. exact (H2 fs fs' Hd H).
Defined.

(** A Connect stream is read back frame by frame, wherever it ends.  For
    frames the encoder can write (flags 0 to 3, at most 16 MiB), the reader
    returns each frame, decompressed where it is marked; if the stream then
    stops inside a frame, or with an error, the last result is a truncation,
    and only a stream that ends between frames ends in [io.EOF]. *)
Theorem connect_stream_reads_back `{Gzip} frames xs t eof :
  Forall2 (λ f x, frame_ok f ∧ frame_result (fst f) (snd f) = Ok x) frames xs → cut_frame t →
  Forall (λ f, connectFrame (snd f) (fst f) = Ok (connect_text (fst f) (snd f))) frames
  ∧ read_all {| rd_rest := stream_text frames ++ t; rd_eof := eof |}
    = (xs, Some (if bool_decide (t = []) && eof then FrameEOF else FrameError ErrTruncated)).
Proof.
  intros Hf Ht. split.
  - clear Ht. induction Hf as [|f x frames xs [[_ Hf] _] _ IH]; constructor; [by apply connectFrame_ok|done].
  - apply read_stream_frames; [done|done|]. cbn [rd_rest]. lia.
Qed.

(** A decompressor for the witnesses: it accepts what starts with one byte. *)
#[local] Instance demo_gzip : Gzip := {| gzip_read d := match d with x :: d => Some (d, true) | [] => None end |}.

Lemma connect_stream_reads_back_witness :
  read_all {| rd_rest := stream_text [(0, lit "ab"); (3, lit "xy")] ++ [byte_of 0; byte_of 0]; rd_eof := true |}
  = ([(0, lit "ab"); (2, lit "y")], Some (FrameError ErrTruncated)).
Proof.
  apply (connect_stream_reads_back [(0, lit "ab"); (3, lit "xy")] [(0, lit "ab"); (2, lit "y")] [byte_of 0; byte_of 0] true).
  - do 2 (constructor; [split; [split; [simpl; lia|vm_compute; discriminate]|vm_compute; reflexivity]|]). constructor.
  - right. exists (0, lit "z"), (map byte_of [0; 0; 1; 122]). split_and!; [split; [simpl; lia|vm_compute; discriminate]|done|reflexivity].
Defined.
