(* ===== verification/ChatRequest.v ===== *)
(** * The chat request an adapter takes ([internal/providers/codingfinal/client.go])

    [decodeChatRequest] and its parts, on the JSON of [Json].  Every error of
    this file wraps [ErrUnsupported].  A Go [any] is kept as its JSON value;
    decoding into one fails only on a number beyond the range of [float64]. *)

From S2P Require Import Prelude Json JsonFacts GoText Number Wire.
Local Open Scope Z_scope.

(** ** Values decoded into [any] *)

(** Does [json.Unmarshal] into an [any] succeed? *)
Fixpoint any_ok (v : json) : bool :=
  match v with
  | JNum raw => float_in_range raw
  | JArr l => forallb any_ok l
  | JObj m => forallb (λ p, any_ok (snd p)) m
  | _ => true
  end.

(** ** Messages *)

Record toolCall := { tc_ID : string; tc_Name : string; tc_Arguments : string }.
Record chatMessage := { cm_Role : string; cm_Content : string; cm_ToolCallID : string; cm_ToolCalls : list toolCall }.
Record toolDefinition := { td_Name : string; td_Description : string; td_Parameters : json; td_Strict : bool }.
Record chatRequest := {
  cr_Messages : list chatMessage; cr_Tools : list toolDefinition; cr_ToolChoice : option json; cr_Parallel : option bool;
  cr_Raw : gmap string json }.

Abbreviation object := (gmap string json).

(** A non-nil [map[string]json.RawMessage]. *)
Definition raw_object (v : option json) : option object := match v with Some (JObj m) => decode_map (JObj m) | _ => None end.
(** A [[]json.RawMessage]; nil for a null. *)
Definition raw_array (v : option json) : option (list json) :=
  match v with Some (JArr l) => Some l | Some JNull => Some [] | _ => None end.
(** [json.Unmarshal(m[key], &text)] *)
Definition raw_string (m : object) (key : string) : option string := v ← m !! key; decode_string v "".
(** The same with the error ignored. *)
Definition raw_text (m : object) (key : string) : string := default ""%string (raw_string m key).

Definition decode_or {A} (o : option A) : res adapter_error A := match o with Some a => Ok a | None => Err ErrUnsupported end.

Definition decodeToolCall (value : json) : res adapter_error toolCall :=
  let? outer := decode_or (raw_object (Some value)) in
  reject negb (raw_text outer "type" =? "function")%string with ErrUnsupported ;;
  let? id := decode_or (raw_string outer "id") in
  reject (id =? "")%string with ErrUnsupported ;;
  let? fn := decode_or (raw_object (outer !! "function"%string)) in
  let? name := decode_or (raw_string fn "name") in
  reject (name =? "")%string with ErrUnsupported ;;
  let? args := decode_or (raw_string fn "arguments") in
  Ok {| tc_ID := id; tc_Name := name; tc_Arguments := args |}.

Definition decodeToolCalls (raw : json) : res adapter_error (list toolCall) :=
  let? values := decode_or (raw_array (Some raw)) in
  fold_res (λ out v, let? c := decodeToolCall v in Ok (out ++ [c])) [] values.

Definition no_parameters : json :=
  JObj [(lit "type", JStr (lit "object")); (lit "properties", JObj [])].

Definition decodeTool (value : json) : res adapter_error toolDefinition :=
  let? outer := decode_or (raw_object (Some value)) in
  let? typ := decode_or (raw_string outer "type") in
  reject negb (typ =? "function")%string with ErrUnsupported ;;
  let? fn := decode_or (raw_object (outer !! "function"%string)) in
  let? name := decode_or (raw_string fn "name") in
  reject (TrimSpace name =? "")%string || (256 <? slen name) with ErrUnsupported ;;
  let description := raw_text fn "description" in
  let? params :=
    match fn !! "parameters"%string with
    | Some p => if any_ok p then Ok p else Err ErrUnsupported
    | None => Ok no_parameters
    end in
  let? strict :=
    match fn !! "strict"%string with
    | Some b => decode_or (decode_bool b false)
    | None => Ok false
    end in
  Ok {| td_Name := name; td_Description := description; td_Parameters := params; td_Strict := strict |}.

Definition decodeTools (raw : json) : res adapter_error (list toolDefinition) :=
  let? values := decode_or (raw_array (Some raw)) in
  fold_res (λ tools v, let? t := decodeTool v in Ok (tools ++ [t])) [] values.

(** A block of a content array: its text. *)
Definition text_block (b : json) : res adapter_error string :=
  let? m := decode_or (match b with JNull => Some ∅ | _ => raw_object (Some b) end) in
  reject negb (forallb (λ p, contains ["type"; "text"]%string (fst p)) (map_to_list m)) with ErrUnsupported ;;
  let? typ := decode_or (raw_string m "type") in
  reject negb (typ =? "text")%string with ErrUnsupported ;;
  decode_or (raw_string m "text").

Definition textContent (raw : option json) : res adapter_error string :=
  match raw with
  | None | Some JNull => Ok ""%string
  | Some (JStr s) => Ok (unquote s)
  | Some (JArr blocks) =>
      (* the array is decoded before its first block is looked at *)
      reject negb (forallb (λ b, match b with JObj _ | JNull => true | _ => false end) blocks) with ErrUnsupported ;;
      fold_res (λ out b, let? x := text_block b in Ok (out ++ x)%string) ""%string blocks
  | Some _ => Err ErrUnsupported
  end.

Definition chat_roles : list string := ["system"; "developer"; "user"; "assistant"; "tool"]%string.

Definition decode_message (b : json) : res adapter_error chatMessage :=
  let? m := decode_or (raw_object (Some b)) in
  let? role := decode_or (raw_string m "role") in
  reject (role =? "")%string with ErrUnsupported ;;
  reject negb (contains chat_roles role) with ErrUnsupported ;;
  let? content := textContent (m !! "content"%string) in
  reject contains ["user"; "system"; "developer"; "tool"]%string role && bool_decide (m !! "content"%string = None) with ErrUnsupported ;;
  let? calls :=
    match m !! "tool_calls"%string with Some v => decodeToolCalls v | None => Ok [] end in
  Ok {| cm_Role := role; cm_Content := content; cm_ToolCallID := raw_text m "tool_call_id"; cm_ToolCalls := calls |}.

(** [json.Unmarshal(v, &r.ToolChoice)], its error ignored. *)
Definition tool_choice (v : json) : option json :=
  match v with JNull => None | JNum raw => if float_in_range raw then Some v else None | _ => Some v end.

Definition decodeChatRequest (body : bytes) : res adapter_error chatRequest :=
  let? root := decode_or (raw_object (parse_json body)) in
  let? raw := decode_or (raw_array (root !! "messages"%string)) in
  reject bool_decide (raw = []) with ErrUnsupported ;;
  let? messages := fold_res (λ ms b, let? m := decode_message b in Ok (ms ++ [m])) [] raw in
  let? tools := match root !! "tools"%string with Some v => decodeTools v | None => Ok [] end in
  let choice := v ← root !! "tool_choice"%string; tool_choice v in
  let? parallel :=
    match root !! "parallel_tool_calls"%string with
    | Some v => let? x := decode_or (decode_bool v false) in Ok (Some x)
    | None => Ok None
    end in
  Ok {| cr_Messages := messages; cr_Tools := tools; cr_ToolChoice := choice; cr_Parallel := parallel; cr_Raw := root |}.

Example decode_ex : is_ok (decodeChatRequest (js "{'model':'m','messages':[{'role':'user','content':[{'type':'text','text':'hi'}]}]}")) = true
  ∧ is_ok (decodeChatRequest (js "{'messages':[{'role':'user'}]}")) = false.
Proof. by vm_compute. Qed.
