(* ===== verification/Cursor.v ===== *)
(** * The Cursor adapter ([internal/providers/codingfinal/cursor.go])

    A chat request is written as one Connect frame of protobuf fields, and the
    answer's frames are turned into chat chunks.  The random identifiers and
    the time are arguments; [ctx n] says whether the context is done at the
    [n]-th look at it. *)

From S2P Require Import Prelude Json JsonFacts GoText Sse Observer Catalog Marshal ChatChunks Wire ChatRequest.
Local Open Scope Z_scope.

Definition maxEventBytes : Z := 67108864.
Definition maxOutputBytes : Z := 67108864.

(** ** The request *)

Section Request.
Context `{Unicode}.

Definition cursorParameter : Type := string * string.

Definition composer_names : list string := [""; "composer-2-5"; "composer-latest"]%string.
Definition composer_fast_names : list string := ["composer-2-5-fast"; "composer-2.5-sdk-fast"; "composer-latest-fast"]%string.

(** One effort suffix of a Claude or GPT model. *)
Definition effort_of (id suffix : string) : option (string * list cursorParameter) :=
  let marker := ("-" ++ suffix)%string in
  if has_prefix id "claude-" && has_suffix id marker && (slen "claude-" + slen marker <? slen id)
  then Some (trim_suffix id marker, [("effort", suffix)]%string)
  else if has_prefix id "gpt-" && has_suffix id marker && (slen "gpt-" + slen marker <? slen id)
  then Some (trim_suffix id marker, [("reasoning", suffix)]%string)
  else None.

Definition first_some {A B} (f : A → option B) (l : list A) : option B :=
  fold_left (λ found a, match found with Some _ => found | None => f a end) l None.

Definition resolveCursorModel (model : string) : string * list cursorParameter :=
  let id := TrimSpace (trim_prefix model "cursor/") in
  let lower := ToLower id in
  if contains composer_names lower then ("composer-2.5", [])%string
  else if contains composer_fast_names lower then ("composer-2.5", [("fast", "true")])%string
  else if (lower =? "composer-2.5-sdk")%string then ("composer-2.5", [])%string
  else if (lower =? "auto")%string then ("default", [])%string
  else
    match first_some (λ level, if (id =? "auto-" ++ level)%string then Some ("default", [("optimization", level)])%string else None)
            ["cost"; "balance"; "intelligence"]%string with
    | Some r => r
    | None =>
        if has_prefix id "composer-" && has_suffix id "-fast" then (trim_suffix id "-fast", [("fast", "true")])%string
        else default (id, []) (first_some (effort_of id) ["low"; "medium"; "high"; "xhigh"]%string)
    end.

Definition blank_line : string := str [newline; newline].

(** [strings.Join] *)
Fixpoint Join (l : list string) (sep : string) : string :=
  match l with [] => "" | [x] => x | x :: l' => (x ++ sep ++ Join l' sep)%string end.

Definition joinCursorSystemText (systemTexts : list string) (body : string) : string :=
  if bool_decide (systemTexts = []) then body else (Join systemTexts blank_line ++ blank_line ++ body)%string.

Definition turn_parts (m : chatMessage) : list string :=
  let text := cm_Content m in
  let labelled (label : string) := if (text =? "")%string then [] else [(label ++ ": " ++ text)%string] in
  if (cm_Role m =? "user")%string then labelled "User"%string
  else if (cm_Role m =? "assistant")%string then
    labelled "Assistant"%string
    ++ map (λ tc, ("Assistant called tool " ++ tc_Name tc ++ " (" ++ tc_ID tc ++ ") with arguments: " ++ tc_Arguments tc)%string)
         (cm_ToolCalls m)
  else if (cm_Role m =? "tool")%string then [("Tool result (" ++ cm_ToolCallID m ++ "): " ++ text)%string]
  else labelled (cm_Role m).

Definition flattenCursorMessages (messages : list chatMessage) : string :=
  if bool_decide (messages = []) then ""
  else
    let is_system m := (cm_Role m =? "system")%string in
    let systemTexts := List.filter (λ t, negb (t =? "")%string) (map cm_Content (List.filter is_system messages)) in
    let turn := List.filter (λ m, negb (is_system m)) messages in
    match turn with
    | [m] =>
        if (cm_Role m =? "user")%string && bool_decide (cm_ToolCalls m = [])
        then joinCursorSystemText systemTexts (cm_Content m)
        else joinCursorSystemText systemTexts (Join (turn_parts m) blank_line)
    | _ => joinCursorSystemText systemTexts (Join (concat (map turn_parts turn)) blank_line)
    end.

(** The fields both direct adapters refuse. *)
Definition unsupported_request (req : chatRequest) (model : string) : bool :=
  bool_decide (cr_Messages req = [])
  || bool_decide (cr_Tools req ≠ []) || bool_decide (cr_ToolChoice req ≠ None)
  || negb (forallb (λ p, contains ["messages"; "model"; "stream"]%string (fst p)) (map_to_list (cr_Raw req)))
  || match cr_Raw req !! "model"%string with
     | Some raw =>
         match decode_string raw "" with
         | Some requested => negb (requested =? "")%string && negb (requested =? model)%string
         | None => true
         end
     | None => false
     end.

(** The message of [Run]: one user turn, the model twice, the conversation. *)
Definition cursor_run (text resolved : string) (params : list cursorParameter) (uuid conversation : string) : bytes :=
  let user := encodeMessageField 1 [encodeStringField 1 text; encodeStringField 2 uuid; encodeMessageField 3 []; encodeVarintField 4 1] in
  let action := encodeMessageField 2 [encodeMessageField 1 [user]] in
  let modelDetails := encodeMessageField 3 [encodeStringField 1 resolved; encodeStringField 3 resolved; encodeStringField 4 resolved] in
  let requestedParts := encodeStringField 1 resolved
    ++ concat (map (λ p, encodeMessageField 3 [encodeStringField 1 (fst p); encodeStringField 2 (snd p)]) params) in
  let requested := encodeMessageField 9 [requestedParts] in
  encodeMessageField 1 [encodeMessageField 1 []; action; modelDetails; encodeStringField 5 conversation; requested;
    encodeVarintField 12 0; encodeStringField 16 conversation].

Definition EncodeCursorRequest (req : chatRequest) (model conversation uuid : string) : res adapter_error bytes :=
  reject unsupported_request req model with ErrUnsupported ;;
  reject existsb (λ m, (cm_Role m =? "tool")%string || bool_decide (cm_ToolCalls m ≠ [])) (cr_Messages req) with ErrUnsupported ;;
  let text := flattenCursorMessages (cr_Messages req) in
  reject (text =? "")%string with ErrUnsupported ;;
  let '(resolved, params) := resolveCursorModel model in
  connectFrame (cursor_run text resolved params uuid conversation) 0.

Definition BuildCursorRequest (body : bytes) (model conversation uuid : string) : res adapter_error bytes :=
  let? req := decodeChatRequest body in
  EncodeCursorRequest req model conversation uuid.
End Request.

(** ** The answer *)

(** [parseJSONError] of an end-of-stream trailer *)
Definition parseJSONError (data : bytes) : res adapter_error unit :=
  if bool_decide (trim_space data = []) then Ok tt
  else
    match parse_json data with
    | Some (JObj m) =>
        if any_ok (JObj m) then
          match fold_left (λ acc '(k, x), if (unquote k =? "error")%string then Some x else acc) m None with
          | None | Some JNull => Ok tt
          | Some _ => Err ErrUpstream
          end
        else Err ErrTruncated
    | _ => Err ErrTruncated
    end.

Definition nestedCursorText (data : bytes) : res adapter_error bytes :=
  let? fields := protoFields data in
  match firstField fields 1 2 with Some f => Ok (pf_bytes f) | None => Err ErrInvalid end.

(** Wrapped in [ErrTruncated]. *)
Definition as_truncated {A} (x : res adapter_error A) : res adapter_error A :=
  match x with Ok a => Ok a | Err _ => Err ErrTruncated end.

(** The variables of [cursorFramesToSSE]. *)
Record conversion := { cv_role : bool; cv_textSeen : bool; cv_terminal : bool; cv_endStream : bool; cv_total : Z; cv_out : bytes }.

Definition start_conversion : conversion :=
  {| cv_role := false; cv_textSeen := false; cv_terminal := false; cv_endStream := false; cv_total := 0; cv_out := [] |}.
Definition with_out (role textSeen : bool) (out : bytes) (s : conversion) : conversion :=
  {| cv_role := role; cv_textSeen := textSeen; cv_terminal := cv_terminal s; cv_endStream := cv_endStream s;
     cv_total := cv_total s; cv_out := out |}.
Definition with_terminal (s : conversion) : conversion :=
  {| cv_role := cv_role s; cv_textSeen := cv_textSeen s; cv_terminal := true; cv_endStream := cv_endStream s;
     cv_total := cv_total s; cv_out := cv_out s |}.
Definition with_total (total : Z) (s : conversion) : conversion :=
  {| cv_role := cv_role s; cv_textSeen := cv_textSeen s; cv_terminal := cv_terminal s; cv_endStream := cv_endStream s;
     cv_total := total; cv_out := cv_out s |}.

Section Answer.
Context `{Gzip} (ctx : nat → bool) (id : string) (created : Z) (model : string).

(** A text or thinking delta. *)
Definition cursor_delta (key : string) (u : protoField) (s : conversion) : res adapter_error conversion :=
  if negb (pf_wire u =? 2) then Ok s
  else
    let? inner := as_truncated (protoFields (pf_bytes u)) in
    match firstField inner 1 2 with
    | None => Ok s
    | Some f =>
        let out := if cv_role s then cv_out s else appendCursorRole id created model (cv_out s) in
        let? v := as_truncated (nestedCursorText (pf_bytes f)) in
        if bool_decide (v = []) then Ok (with_out true (cv_textSeen s) out s)
        else Ok (with_out true true (appendCursorField id created model out key (str v)) s)
    end.

Definition cursor_update (s : conversion) (u : protoField) : res adapter_error conversion :=
  if pf_number u =? 1 then cursor_delta "content" u s
  else if pf_number u =? 4 then cursor_delta "reasoning_content" u s
  else if pf_number u =? 14 then Ok (with_terminal s)
  else Ok s.

Definition cursor_top (s : conversion) (top : protoField) : res adapter_error conversion :=
  if (pf_number top =? 4) && (pf_wire top =? 2) then Ok (if cv_textSeen s then with_terminal s else s)
  else if negb (pf_number top =? 1) || negb (pf_wire top =? 2) then Ok s
  else
    let? updates := as_truncated (protoFields (pf_bytes top)) in
    fold_res cursor_update s updates.

(** The finish, within the limit. *)
Definition cursor_finish (s : conversion) : res adapter_error bytes :=
  let out := appendCursorFinish id created model (cv_out s) "stop" in
  reject maxOutputBytes <? len out with ErrUnsupported ;; Ok out.

(** One frame: the result, or the state to go on with. *)
Definition cursor_frame (s : conversion) (flags : Z) (payload : bytes) : res adapter_error (bytes + conversion) :=
  let s := with_total (cv_total s + len payload) s in
  reject maxEventBytes <? cv_total s with ErrUnsupported ;;
  if negb (Z.land flags connectFlagEndStream =? 0) then
    reject cv_endStream s with ErrTruncated ;;
    ensure parseJSONError payload ;;
    if cv_textSeen s then let? out := cursor_finish s in Ok (inl out) else Err ErrTruncated
  else
    reject cv_endStream s with ErrTruncated ;;
    let? fields := as_truncated (protoFields payload) in
    let? s := fold_res cursor_top s fields in
    reject maxOutputBytes <? len (cv_out s) with ErrUnsupported ;;
    if cv_terminal s then
      reject negb (cv_textSeen s) with ErrTruncated ;;
      let? out := cursor_finish s in Ok (inl out)
    else Ok (inr s).

(** At the end of the stream. *)
Definition cursor_end (s : conversion) : res adapter_error bytes :=
  reject negb (cv_terminal s) && negb (cv_endStream s) with ErrTruncated ;;
  reject negb (cv_textSeen s) with ErrTruncated ;;
  cursor_finish s.

Fixpoint cursorFramesToSSE (fuel : nat) (n : nat) (r : reader) (s : conversion) : option (res adapter_error bytes) :=
  match fuel with
  | O => None
  | S fuel =>
      if ctx n then Some (Err ErrContext)
      else
        match connect_next r with
        | (Err FrameEOF, _) => Some (cursor_end s)
        | (Err (FrameError e), _) => Some (Err e)
        | (Ok (flags, payload), r) =>
            match cursor_frame s flags payload with
            | Err e => Some (Err e)
            | Ok (inl out) => Some (Ok out)
            | Ok (inr s) => cursorFramesToSSE fuel (S n) r s
            end
        end
  end.

Definition cursorToSSE (r : reader) : option (res adapter_error bytes) :=
  cursorFramesToSSE (S (length (rd_rest r))) 0 r start_conversion.
End Answer.
