(* ===== verification/CursorFacts.v ===== *)
(** * What the Cursor adapter guarantees

    Its request can be read back by the upstream; its conversion ends, and a
    conversion that succeeds is a stream the gateway takes for a completed
    answer. *)

From S2P Require Import Prelude Json JsonFacts GoText Sse SseFacts Observer ObserverFacts Catalog Marshal ChatChunks.
From S2P Require Import Wire WireFacts ChatRequest Cursor.
Local Open Scope Z_scope.

(** ** The request, read back *)

Definition param_field (p : cursorParameter) : wfield := WMsg 3 [WStr 1 (fst p); WStr 2 (snd p)].

(** The tree of fields a request carries. *)
Definition cursor_tree (text resolved : string) (params : list cursorParameter) (uuid conversation : string) : list wfield :=
  [WMsg 1 [WMsg 1 [];
     WMsg 2 [WMsg 1 [WMsg 1 [WStr 1 text; WStr 2 uuid; WMsg 3 []; WVar 4 1]]];
     WMsg 3 [WStr 1 resolved; WStr 3 resolved; WStr 4 resolved];
     WStr 5 conversation;
     WMsg 9 (WStr 1 resolved :: map param_field params);
     WVar 12 0; WStr 16 conversation]].

Lemma cursor_run_tree text resolved params uuid conversation :
  cursor_run text resolved params uuid conversation = wencs (cursor_tree text resolved params uuid conversation).
Proof.
  unfold cursor_run, cursor_tree, wencs. cbn [map wenc concat]. rewrite (app_nil_r (encodeMessageField 1 (_ :: _))).
  set (a := encodeStringField 1 resolved ++ _). set (b := encodeStringField 1 resolved :: map wenc _).
  assert (E : encodeMessageField 9 [a] = encodeMessageField 9 b); [|by rewrite E].
  unfold encodeMessageField. f_equal. unfold a, b. cbn [concat]. by rewrite app_nil_r, map_map.
Qed.

Lemma cursor_tree_ok text resolved params uuid conversation : forallb wok (cursor_tree text resolved params uuid conversation) = true.
Proof.
  unfold cursor_tree. cbn [forallb wok]. assert (H : forallb wok (map param_field params) = true).
  { by induction params as [|p ps IH]. }
  rewrite H. reflexivity.
Qed.

Lemma substring_length n s : (n ≤ String.length s)%nat → String.length (String.substring 0 n s) = n.
Proof. revert n. induction s as [|c s IH]; intros [|n] H; simpl in *; try lia. rewrite IH; lia. Qed.

Lemma trim_suffix_nonempty s p : slen p < slen s → trim_suffix s p ≠ ""%string.
Proof.
  unfold trim_suffix, slen. intros H E. destruct (has_suffix s p).
  - apply (f_equal String.length) in E. rewrite substring_length in E; simpl in *; lia.
  - subst s. simpl in H. lia.
Qed.

Lemma prefix_length p s : has_prefix s p = true → slen p <= slen s.
Proof.
  unfold has_prefix, slen. revert s. induction p as [|a p IH]; intros [|b s] H; simpl in *; try lia; try done.
  destruct (ascii_dec a b); [|done]. specialize (IH s H). lia.
Qed.

Lemma first_some_spec {A B} (f : A → option B) l r : first_some f l = Some r → ∃ a, a ∈ l ∧ f a = Some r.
Proof.
  unfold first_some. assert (H : ∀ o, fold_left (λ found a, match found with Some _ => found | None => f a end) l o = Some r →
    o = Some r ∨ ∃ a, a ∈ l ∧ f a = Some r).
  { induction l as [|a l IH]; intros o Ho; [by left|]. apply IH in Ho as [Ho|(b & Hb & Ho)].
    - destruct o; [by left|]. right. exists a. split; [by left|done].
    - right. exists b. split; [by right|done]. }
  intros [?|?]%H; done.
Qed.

Lemma effort_nonempty id suffix r : effort_of id suffix = Some r → fst r ≠ ""%string.
Proof.
  unfold effort_of. set (m := ("-" ++ suffix)%string).
  assert (H : ∀ p, (slen p + slen m <? slen id) = true → trim_suffix id m ≠ ""%string).
  { intros p Hlt%Z.ltb_lt. apply trim_suffix_nonempty. unfold slen in *. lia. }
  destruct (has_prefix id "claude-" && _ && _) eqn:E; [|destruct (has_prefix id "gpt-" && _ && _) eqn:E2; [|done]];
    intros [= <-]; eapply H.
  - apply andb_true_iff in E as [_ E]. exact E.
  - apply andb_true_iff in E2 as [_ E2]. exact E2.
Qed.

(** A model always has a name for the upstream. *)
Lemma resolved_nonempty `{Unicode} model : fst (resolveCursorModel model) ≠ ""%string.
Proof.
  unfold resolveCursorModel. set (id := TrimSpace _). destruct (contains composer_names _) eqn:E0; [done|].
  assert (Hid : id ≠ ""%string) by (by intros ->). repeat (case_match; [done|]).
  destruct (first_some _ ["cost"; _; _]%string) as [r|] eqn:El.
  { apply first_some_spec in El as (level & _ & E). cbn beta in E. destruct (id =? _)%string; [|discriminate]. injection E as <-. cbn. discriminate. }
  destruct (has_prefix id "composer-" && has_suffix id "-fast") eqn:Ef.
  { apply andb_true_iff in Ef as [Hp%prefix_length _]. apply trim_suffix_nonempty. unfold slen in *. simpl in *. lia. }
  destruct (first_some (effort_of id) _) as [r|] eqn:E; [|done].
  apply first_some_spec in E as (suffix & _ & E). by apply effort_nonempty in E.
Qed.

Lemma in_bounds_frame b : len b <= maxConnectFrameBytes → in_bounds b.
Proof. unfold in_bounds, maxConnectFrameBytes, two64. lia. Qed.

(** What a request holds, read along the paths of the upstream's schema. *)
Lemma cursor_run_read text resolved params uuid conversation :
  let run := cursor_run text resolved params uuid conversation in
  in_bounds run → text ≠ ""%string → resolved ≠ ""%string → conversation ≠ ""%string →
  dig [1; 2; 1; 1; 1] run = Some (lit text)
  ∧ dig [1; 3; 1] run = Some (lit resolved) ∧ dig [1; 9; 1] run = Some (lit resolved)
  ∧ dig [1; 9] run = Some (wencs (WStr 1 resolved :: map param_field params))
  ∧ dig [1; 5] run = Some (lit conversation) ∧ dig [1; 16] run = Some (lit conversation).
Proof.
  intros run Hb Ht Hr Hc. unfold run in *. rewrite cursor_run_tree in *.
  pose proof (cursor_tree_ok text resolved params uuid conversation) as Hok.
  apply String.eqb_neq in Ht, Hr, Hc.
  rewrite !dig_tree by done. unfold cursor_tree. cbn [wdig wfirst Z.eqb Pos.eqb andb]. rewrite Ht, Hr, Hc. by cbn.
Qed.

(** ** The answer *)

Section Answer.
Context `{Gzip} (ctx : nat → bool) (id : string) (created : Z) (model : string).

Abbreviation piece_text := (piece_frame id created model).

(** The deltas written so far: none empty, each under a known key. *)
Definition deltas_ok (ds : list (string * string)) : Prop :=
  Forall (λ d, (fst d = "content" ∨ fst d = "reasoning_content")%string ∧ snd d ≠ ""%string) ds.
Definition delta_pieces (role : bool) (ds : list (string * string)) : list piece :=
  (if role then [PRole] else []) ++ map (λ d, PField (fst d) (snd d)) ds.

(** The output is the role, once it is due, and the deltas in order. *)
Record wrote (s : conversion) (ds : list (string * string)) : Prop := {
  wr_out : cv_out s = concat (map piece_text (delta_pieces (cv_role s) ds));
  wr_ok : deltas_ok ds;
  wr_role : ds ≠ [] → cv_role s = true;
  wr_seen : cv_textSeen s = bool_decide (ds ≠ []) }.


Lemma append_event b v : appendSSE b v = b ++ sse_event v.
Proof. reflexivity. Qed.

Lemma append_field b key text : appendCursorField id created model b key text = b ++ piece_text (PField key text).
Proof. reflexivity. Qed.

Lemma delta_pieces_snoc role ds key text :
  concat (map piece_text (delta_pieces role (ds ++ [(key, text)])))
  = concat (map piece_text (delta_pieces role ds)) ++ piece_text (PField key text).
Proof. unfold delta_pieces. rewrite !map_app, !concat_app, <-app_assoc. cbn [map concat]. by rewrite app_nil_r. Qed.

(** The role is written before the first delta. *)
Lemma role_pieces s ds : wrote s ds →
  (if cv_role s then cv_out s else appendCursorRole id created model (cv_out s)) = concat (map piece_text (delta_pieces true ds)).
Proof.
  intros [Ho _ Hr _]. rewrite Ho. destruct (cv_role s) eqn:Er; [done|].
  destruct ds as [|d ds]; [|by specialize (Hr ltac:(done))]. cbn. by rewrite app_nil_r.
Qed.








(** A finished output: the stream of the deltas. *)
Definition answer_of (ds : list (string * string)) : list bytes :=
  stream_frames id created model (PRole :: map (λ d, PField (fst d) (snd d)) ds) "stop" [].


(** The frames that end the conversion. *)
Definition ends_answer (s : conversion) : Prop := cv_terminal s = true.



(** *** The frames of an answer *)

(** The interaction update of a delta, as the upstream writes it. *)
Definition delta_number (d : string * string) : Z := if (fst d =? "content")%string then 1 else 4.
Definition delta_payload (d : string * string) : bytes :=
  encodeMessageField 1 [encodeMessageField (delta_number d) [encodeMessageField 1 [encodeStringField 1 (snd d)]]].
Definition delta_tree (d : string * string) : list wfield := [WMsg 1 [WMsg (delta_number d) [WMsg 1 [WStr 1 (snd d)]]]].

Lemma delta_payload_tree d : delta_payload d = wencs (delta_tree d).
Proof. unfold delta_payload, delta_tree, wencs. cbn [map wenc concat]. by rewrite app_nil_r. Qed.

(** The state after the deltas [ds] and [total] bytes. *)
Definition after (ds : list (string * string)) (total : Z) : conversion :=
  {| cv_role := bool_decide (ds ≠ []); cv_textSeen := bool_decide (ds ≠ []); cv_terminal := false; cv_endStream := false;
     cv_total := total; cv_out := concat (map piece_text (delta_pieces (bool_decide (ds ≠ [])) ds)) |}.

Lemma one_field n l : forallb wok l = true → number_ok n = true → in_bounds (wencs [WMsg n l]) →
  protoFields (wencs [WMsg n l]) = Ok [bytes_field n (wencs l)] ∧ in_bounds (wencs l).
Proof.
  intros Hl Hn Hb. split.
  - assert (Hok : forallb wok [WMsg n l] = true) by (cbn [forallb wok]; by rewrite Hn, Hl).
    apply protoFields_message, (wfields_message _ Hok Hb).
  - apply (wfirst_ok n [WMsg n l]); [cbn [wfirst]; by rewrite Z.eqb_refl|cbn [forallb wok]; by rewrite Hn, Hl|done].
Qed.

Lemma delta_frame_step ds d total :
  deltas_ok (ds ++ [d]) → in_bounds (delta_payload d) → total + len (delta_payload d) <= maxEventBytes →
  len (cv_out (after (ds ++ [d]) 0)) <= maxOutputBytes →
  cursor_frame id created model (after ds total) 0 (delta_payload d) = Ok (inr (after (ds ++ [d]) (total + len (delta_payload d)))).
Proof.
  intros Hok Hb Ht Hout. apply Forall_app in Hok as [Hok Hd]. apply Forall_inv in Hd. destruct d as [key text]. cbn [fst snd] in Hd.
  unfold cursor_frame. set (s0 := with_total _ (after ds total)).
  assert (Hw : wrote s0 ds) by (split; [done|done|intros H1; by apply bool_decide_true|done]).
  change (cv_total s0) with (total + len (delta_payload (key, text))). rewrite (proj2 (Z.ltb_ge _ _) Ht).
  change (cv_endStream s0) with false. cbn [Z.land Z.eqb negb].
  assert (Hn : number_ok (delta_number (key, text)) = true) by (by destruct Hd as [[-> | ->] _]).
  rewrite delta_payload_tree in Hb. unfold delta_tree in Hb. cbn [snd] in Hb.
  destruct (one_field 1 [WMsg (delta_number (key, text)) [WMsg 1 [WStr 1 text]]]) as [E1 B1]; [cbn [forallb wok]; by rewrite Hn|done|done|].
  destruct (one_field (delta_number (key, text)) [WMsg 1 [WStr 1 text]] eq_refl Hn B1) as [E2 B2].
  destruct (one_field 1 [WStr 1 text] eq_refl eq_refl B2) as [E3 B3].
  assert (E4 : nestedCursorText (wencs [WStr 1 text]) = Ok (lit text)).
  { unfold nestedCursorText. rewrite (protoFields_message _ _ (wfields_message [WStr 1 text] eq_refl B3)). cbn [res_bind].
    rewrite wfirst_spec. cbn [wfirst Z.eqb Pos.eqb andb]. rewrite (proj2 (String.eqb_neq text "")) by apply Hd. done. }
  rewrite (delta_payload_tree (key, text) : delta_payload _ = wencs [WMsg 1 [WMsg _ [WMsg 1 [WStr 1 text]]]]) in *.
  rewrite E1. cbn [as_truncated res_bind fold_res].
  assert (Hstep : ∀ s, cursor_top id created model s (bytes_field 1 (wencs [WMsg (delta_number (key, text)) [WMsg 1 [WStr 1 text]]]))
    = cursor_delta id created model key (bytes_field (delta_number (key, text)) (wencs [WMsg 1 [WStr 1 text]])) s).
  { intros s. unfold cursor_top. cbn [pf_number pf_wire pf_bytes bytes_field Z.eqb Pos.eqb andb orb negb]. rewrite E2.
    cbn [as_truncated res_bind fold_res].
    assert (E : ∀ b, cursor_update id created model s (bytes_field (delta_number (key, text)) b)
      = cursor_delta id created model key (bytes_field (delta_number (key, text)) b) s).
    { intros b. by destruct Hd as [[-> | ->] _]. }
    rewrite E. match goal with |- res_bind ?x _ = _ => by destruct x end. }
  rewrite Hstep. unfold cursor_delta. cbn [pf_wire bytes_field Z.eqb Pos.eqb negb pf_bytes]. rewrite E3.
  cbn [as_truncated res_bind]. rewrite firstField_cons. cbn [pf_number pf_wire bytes_field Z.eqb Pos.eqb andb pf_bytes].
  rewrite E4. cbn [as_truncated res_bind].
  rewrite (role_pieces s0 ds Hw).
  rewrite bool_decide_false by (by intros E; apply (f_equal str) in E; rewrite str_lit in E; destruct Hd).
  cbn [res_bind]. rewrite append_field, <-delta_pieces_snoc, str_lit.
  assert (Hne : bool_decide (ds ++ [(key, text)] ≠ []) = true) by (apply bool_decide_true; by destruct ds).
  unfold after in Hout. cbn [cv_out] in Hout. rewrite Hne in Hout.
  cbn [with_out cv_out]. rewrite (proj2 (Z.ltb_ge _ _) Hout). unfold after. rewrite Hne.
  rewrite <-(delta_payload_tree (key, text) : delta_payload _ = wencs [WMsg 1 [WMsg _ [WMsg 1 [WStr 1 text]]]]). reflexivity.
Qed.

Definition delta_frames (ds : list (string * string)) : list (Z * bytes) := map (λ d, (0, delta_payload d)) ds.
Definition total_of (ds : list (string * string)) : Z := foldr (λ d n, len (delta_payload d) + n) 0 ds.

Lemma total_nonneg ds : 0 <= total_of ds.
Proof. induction ds as [|d ds IH]; [done|]. change (total_of (d :: ds)) with (len (delta_payload d) + total_of ds). pose proof (len_nonneg (delta_payload d)). lia. Qed.

(** Output only grows. *)
Lemma after_out_mono ds more : len (cv_out (after ds 0)) <= len (cv_out (after (ds ++ more) 0)).
Proof.
  unfold after. cbn [cv_out]. destruct ds as [|d ds]; [apply len_nonneg|].
  rewrite !bool_decide_true by done. set (f := λ d : string * string, PField d.1 d.2).
  assert (E : ∀ a b, delta_pieces true (a ++ b) = delta_pieces true a ++ map f b).
  { intros a b. unfold delta_pieces. by rewrite map_app, app_assoc. }
  rewrite E, map_app, concat_app, len_app. pose proof (len_nonneg (concat (map piece_text (map f more)))). lia.
Qed.

Section Run.
Hypothesis live : ∀ n, ctx n = false.

Lemma run_deltas ds2 ds1 total fuel n rest eof :
  deltas_ok (ds1 ++ ds2) → Forall (λ d, len (delta_payload d) <= maxConnectFrameBytes) ds2 →
  total + total_of ds2 <= maxEventBytes → len (cv_out (after (ds1 ++ ds2) 0)) <= maxOutputBytes →
  cursorFramesToSSE ctx id created model (length ds2 + fuel) n {| rd_rest := stream_text (delta_frames ds2) ++ rest; rd_eof := eof |} (after ds1 total)
  = cursorFramesToSSE ctx id created model fuel (length ds2 + n) {| rd_rest := rest; rd_eof := eof |} (after (ds1 ++ ds2) (total + total_of ds2)).
Proof.
  revert ds1 total n. induction ds2 as [|d ds2 IH]; intros ds1 total n Hok Hf Ht Ho.
  { cbn. by rewrite app_nil_r, Z.add_0_r. }
  inversion_clear Hf as [|? ? Hd Hf']. cbn [total_of foldr] in Ht. fold (total_of ds2) in Ht.
  pose proof (total_nonneg ds2) as Hnn. rewrite (cons_middle d ds1 ds2), app_assoc in Hok, Ho |- *.
  cbn [length plus cursorFramesToSSE]. rewrite live. unfold stream_text, delta_frames in *. cbn [map concat fst snd]. rewrite <-app_assoc.
  rewrite connect_next_frame by (done || lia). change (frame_result 0 (delta_payload d)) with (Ok (E := next_error) (0, delta_payload d)).
  cbv beta iota. rewrite delta_frame_step.
  - rewrite IH by (done || lia). cbn [total_of foldr]. fold (total_of ds2). f_equal; [lia|]. f_equal. lia.
  - by apply Forall_app in Hok as [Hok _].
  - apply (Z.le_lt_trans _ maxConnectFrameBytes); [done|by vm_compute].
  - lia.
  - etransitivity; [apply (after_out_mono _ ds2)|done].
Qed.

Lemma run_end ds total fuel n trailer rest eof :
  ds ≠ [] → parseJSONError trailer = Ok tt → len trailer <= maxConnectFrameBytes → total + len trailer <= maxEventBytes →
  len (concat (answer_of ds)) <= maxOutputBytes →
  cursorFramesToSSE ctx id created model (S fuel) n {| rd_rest := connect_text 2 trailer ++ rest; rd_eof := eof |} (after ds total)
  = Some (Ok (concat (answer_of ds))).
Proof.
  intros Hne Hp Hl Ht Ho. cbn [cursorFramesToSSE]. rewrite live, connect_next_frame by (done || lia).
  change (frame_result 2 trailer) with (Ok (E := next_error) (2, trailer)). cbv beta iota.
  assert (Hout : appendCursorFinish id created model (cv_out (after ds total)) "stop" = concat (answer_of ds)).
  { unfold appendCursorFinish. rewrite append_event. unfold answer_of, stream_frames, finish_frame, after. cbn [cv_out].
    rewrite bool_decide_true by done. rewrite concat_app, app_nil_r. cbn [concat]. by rewrite app_nil_r, <-!app_assoc. }
  unfold cursor_frame. set (s0 := with_total _ (after ds total)).
  assert (Hseen : cv_textSeen s0 = true) by by apply bool_decide_true.
  change (cv_total s0) with (total + len trailer). rewrite (proj2 (Z.ltb_ge _ _) Ht).
  change (cv_endStream s0) with false. change (negb (Z.land 2 connectFlagEndStream =? 0)) with true. cbv beta iota.
  rewrite Hp, Hseen. cbn [res_bind]. unfold cursor_finish. change (cv_out s0) with (cv_out (after ds total)).
  rewrite Hout, (proj2 (Z.ltb_ge _ _) Ho). reflexivity.
Qed.

Lemma run_cut ds total fuel n t eof :
  cut_frame t → cursorFramesToSSE ctx id created model (S fuel) n {| rd_rest := t; rd_eof := eof |} (after ds total) = Some (Err ErrTruncated).
Proof.
  intros Ht. cbn [cursorFramesToSSE]. rewrite live. destruct (decide (t = [])) as [->|Hne].
  - rewrite connect_next_end. by destruct eof.
  - destruct Ht as [?|(f & u & [H1 H2] & Hu & E)]; [done|]. by rewrite (connect_next_cut (fst f) (snd f) t u).
Qed.
End Run.

Lemma deltas_fuel ds rest : (length ds ≤ length (stream_text (delta_frames ds) ++ rest))%nat.
Proof.
  induction ds as [|d ds IH]; [simpl; lia|]. unfold stream_text, delta_frames in *. cbn [map concat length fst snd].
  rewrite <-app_assoc, length_app. assert (0 < length (connect_text 0 (delta_payload d)))%nat by (simpl; lia). lia.
Qed.
End Answer.

(** ** The theorems *)




(** A Cursor stream is converted delta by delta.  For deltas the upstream
    frames as text or thinking updates, within the limits, followed by its end
    of stream, the conversion is exactly their answer, whatever comes after;
    and if the stream is cut anywhere before that end, between or inside
    frames, the result is a truncation and no output at all. *)
Theorem cursor_stream_converted `{Gzip} ctx id created model ds trailer rest t eof :
  (∀ n, ctx n = false) →
  deltas_ok ds → ds ≠ [] → Forall (λ d, len (delta_payload d) <= maxConnectFrameBytes) ds →
  total_of ds + len trailer <= maxEventBytes → len (concat (answer_of id created model ds)) <= maxOutputBytes →
  parseJSONError trailer = Ok tt → len trailer <= maxConnectFrameBytes → cut_frame t →
  cursorToSSE ctx id created model {| rd_rest := stream_text (delta_frames ds) ++ connect_text 2 trailer ++ rest; rd_eof := eof |}
    = Some (Ok (concat (answer_of id created model ds)))
  ∧ cursorToSSE ctx id created model {| rd_rest := stream_text (delta_frames ds) ++ t; rd_eof := eof |} = Some (Err ErrTruncated).
Proof.
  intros Hlive Hok Hne Hf Ht Ho Hp Hl Hcut.
  assert (Hafter : len (cv_out (after id created model ds 0)) <= maxOutputBytes).
  { etransitivity; [|exact Ho]. unfold answer_of, stream_frames, after. cbn [cv_out]. rewrite bool_decide_true by done.
    rewrite concat_app, len_app. pose proof (len_nonneg (concat [finish_frame id created model "stop" []; done_text])).
    unfold delta_pieces. cbn [app]. lia. }
  pose proof (len_nonneg trailer). unfold cursorToSSE.
  change start_conversion with (after id created model [] 0). split.
  - match goal with |- cursorFramesToSSE _ _ _ _ (S ?n) _ _ _ = _ => replace (S n) with (length ds + S (n - length ds))%nat end.
    2:{ pose proof (deltas_fuel ds (connect_text 2 trailer ++ rest)). cbn [rd_rest]. lia. }
    rewrite run_deltas by (done || lia). by apply run_end; try done.
  - match goal with |- cursorFramesToSSE _ _ _ _ (S ?n) _ _ _ = _ => replace (S n) with (length ds + S (n - length ds))%nat end.
    2:{ pose proof (deltas_fuel ds t). cbn [rd_rest]. lia. }
    rewrite run_deltas by (done || lia). by apply run_cut.
Qed.

(** What a request must be to be encoded. *)
Lemma supported_request req model : unsupported_request req model = false →
  cr_Tools req = [] ∧ cr_ToolChoice req = None ∧ (∀ k v, cr_Raw req !! k = Some v → k ∈ ["messages"; "model"; "stream"]%string).
Proof.
  unfold unsupported_request. intros Hu. apply orb_false_iff in Hu as [[[[_ Ht]%orb_false_iff Hc]%orb_false_iff Hk]%orb_false_iff _].
  apply bool_decide_eq_false in Ht, Hc. split_and!; [by apply dec_stable|by apply dec_stable|]. intros k v Hl.
  apply negb_false_iff in Hk. rewrite forallb_forall in Hk. apply contains_spec, (Hk (k, v)), list_elem_of_In, elem_of_map_to_list.
  exact Hl.
Qed.

Lemma encoded_request `{Unicode} req model conversation uuid body :
  EncodeCursorRequest req model conversation uuid = Ok body →
  let text := flattenCursorMessages (cr_Messages req) in
  let run := cursor_run text (fst (resolveCursorModel model)) (snd (resolveCursorModel model)) uuid conversation in
  unsupported_request req model = false ∧ text ≠ ""%string ∧ len run <= maxConnectFrameBytes ∧ body = connect_text 0 run.
Proof.
  unfold EncodeCursorRequest. destruct (unsupported_request req model); [done|]. destruct (existsb _ _); [done|].
  destruct (String.eqb_spec (flattenCursorMessages (cr_Messages req)) "") as [|Ht]; [done|].
  destruct (resolveCursorModel model) as [r params]. cbn [fst snd]. set (run := cursor_run _ _ _ _ _). clearbody run.
  unfold connectFrame. destruct (_ <? _) eqn:Hl; [done|]. intros E. split_and!; [done|done|by apply Z.ltb_ge|].
  unfold connect_text. congruence.
Qed.

(** C35: the upstream reads from a Cursor request exactly what the client
    asked.  A request is only encoded when it is a plain chat (messages, no
    tools, no other fields, no other model) with some text; its body is then
    one Connect frame, and along the paths of the upstream's schema its message
    holds the flattened messages, the resolved model (never empty) in both
    places, the model's parameters and the conversation. *)
Theorem cursor_request_reads_back `{Gzip} `{Unicode} req model conversation uuid body eof :
  EncodeCursorRequest req model conversation uuid = Ok body → conversation ≠ ""%string →
  let text := flattenCursorMessages (cr_Messages req) in
  let resolved := fst (resolveCursorModel model) in
  cr_Tools req = [] ∧ cr_ToolChoice req = None ∧ (∀ k v, cr_Raw req !! k = Some v → k ∈ ["messages"; "model"; "stream"]%string)
  ∧ text ≠ ""%string ∧ resolved ≠ ""%string
  ∧ ∃ run, connect_next {| rd_rest := body; rd_eof := eof |} = (Ok (0, run), {| rd_rest := []; rd_eof := eof |})
    ∧ dig [1; 2; 1; 1; 1] run = Some (lit text)
    ∧ dig [1; 3; 1] run = Some (lit resolved) ∧ dig [1; 9; 1] run = Some (lit resolved)
    ∧ dig [1; 9] run = Some (wencs (WStr 1 resolved :: map param_field (snd (resolveCursorModel model))))
    ∧ dig [1; 5] run = Some (lit conversation) ∧ dig [1; 16] run = Some (lit conversation).
Proof.
  intros Henc Hc text resolved. destruct (encoded_request req model conversation uuid body Henc) as (Hu & Ht & Hl & ->).
  destruct (supported_request req model Hu) as (H1 & H2 & H3).
  pose proof (resolved_nonempty model) as Hr. split_and!; [exact H1|exact H2|exact H3|exact Ht|exact Hr|].
  pose proof (cursor_run_read _ _ (snd (resolveCursorModel model)) uuid _ (in_bounds_frame _ Hl) Ht Hr Hc) as Hread.
  fold text resolved in Hread, Hl |- *. set (run := cursor_run _ _ _ _ _) in *. clearbody run.
  exists run. split; [|exact Hread]. rewrite <-(app_nil_r (connect_text _ _)). exact (connect_next_frame 0 run [] eof ltac:(lia) Hl).
Qed.

(** *** Concrete runs *)

Section Witness.
#[local] Instance demo_gzip : Gzip := {| gzip_read d := Some (d, true) |}.
#[local] Instance demo_unicode : Unicode := {| unicode_lower r := r; unicode_upper r := r |}.

Definition demo_deltas : list (string * string) := [("reasoning_content", "hm"); ("content", "hi")]%string.
Definition demo_request : bytes :=
  js "{'model':'gpt-5-high','messages':[{'role':'system','content':'be brief'},{'role':'user','content':'hi'}]}".


Lemma cursor_stream_converted_witness :
  cursorToSSE (λ _, false) "c" 1 "m" {| rd_rest := stream_text (delta_frames demo_deltas) ++ [byte_of 0]; rd_eof := true |}
  = Some (Err ErrTruncated).
Proof.
  refine (proj2 (cursor_stream_converted (λ _, false) "c" 1 "m" demo_deltas (lit "{}") [] [byte_of 0] true _ _ _ _ _ _ _ _ _)).
  - reflexivity.
  - constructor; [split; [right; reflexivity|discriminate]|]. constructor; [split; [left; reflexivity|discriminate]|constructor].
  - discriminate.
  - constructor; [vm_compute; discriminate|]. constructor; [vm_compute; discriminate|constructor].
  - vm_compute. discriminate.
  - vm_compute. discriminate.
  - vm_compute. reflexivity.
  - vm_compute. discriminate.
  - right. exists (0, lit "z"), (map byte_of [0; 0; 0; 1; 122]). split; [split; [simpl; lia|vm_compute; discriminate]|].
    split; [discriminate|reflexivity].
Defined.

Lemma cursor_request_reads_back_witness :
  ∃ req body run, decodeChatRequest demo_request = Ok req ∧ EncodeCursorRequest req "gpt-5-high" "conv" "uuid" = Ok body
  ∧ connect_next {| rd_rest := body; rd_eof := true |} = (Ok (0, run), {| rd_rest := []; rd_eof := true |})
  ∧ dig [1; 3; 1] run = Some (lit "gpt-5").
Proof.
  assert (E : ∃ req, decodeChatRequest demo_request = Ok req ∧ ∃ body, EncodeCursorRequest req "gpt-5-high" "conv" "uuid" = Ok body).
  { eexists. split; [vm_compute; reflexivity|]. eexists. vm_compute. reflexivity. }
  destruct E as (req & Hreq & body & Hb).
  destruct (cursor_request_reads_back req "gpt-5-high" "conv" "uuid" body true Hb ltac:(discriminate))
    as (_ & _ & _ & _ & _ & run & Hrun & _ & Hm & _).
  exists req, body, run. split; [exact Hreq|]. split; [exact Hb|]. split; [exact Hrun|exact Hm].
Defined.
End Witness.
