(* ===== verification/Warp.v ===== *)
(** * The Warp adapter ([internal/providers/codingfinal/warp.go])

    A request of one user message as a protobuf message, and the conversion of
    Warp's event stream, whose data lines carry protobuf in hexadecimal or
    base64.  The lines are those of a [bufio.Scanner]. *)

From S2P Require Import Prelude Json JsonFacts GoText Sse Observer Catalog Marshal ChatChunks Wire ChatRequest Cursor.
Local Open Scope Z_scope.

Definition maxRequestBytes : Z := 16777216.

(** ** The request *)

Definition warp_models : list string :=
  ["auto"; "warp-basic"; "claude-4-sonnet"; "claude-4-opus"; "claude-4.1-opus"; "gpt-5"; "gpt-4o"; "gpt-4.1"; "o3"; "o4-mini"; "gemini-2.5-pro"]%string.

Definition flattenWarpMessages (messages : list chatMessage) : string :=
  match messages with [m] => cm_Content m | _ => "" end.

Definition warp_message (query modelBase conversation : string) : bytes :=
  let inputQuery := encodeMessageField 1 [encodeStringField 1 query] in
  let userInput := encodeMessageField 1 [inputQuery] in
  let input := encodeMessageField 6 [userInput] in
  let request := encodeMessageField 2 [input] in
  let modelConfig := encodeMessageField 1 [encodeStringField 1 modelBase; encodeStringField 2 "o3"; encodeStringField 3 "auto"] in
  let settings := modelConfig ++ concat
    [encodeVarintField 2 0; encodeVarintField 3 0; encodeVarintField 4 0; encodeVarintField 5 0; encodeVarintField 6 0;
     encodeVarintField 7 0; encodeVarintField 8 0; encodeVarintField 10 0; encodeVarintField 11 1; encodeVarintField 12 0;
     encodeVarintField 13 0] in
  request ++ encodeMessageField 3 [settings] ++ encodeMessageField 4 [encodeStringField 1 conversation].

Definition EncodeWarpRequest `{Unicode} (req : chatRequest) (model conversation : string) : res adapter_error bytes :=
  reject unsupported_request req model with ErrUnsupported ;;
  match cr_Messages req with
  | [m] =>
      reject negb (cm_Role m =? "user")%string with ErrUnsupported ;;
      reject bool_decide (cm_ToolCalls m ≠ []) with ErrUnsupported ;;
      let query := flattenWarpMessages (cr_Messages req) in
      reject (query =? "")%string with ErrUnsupported ;;
      let modelBase := ToLower (TrimSpace model) in
      reject negb (contains warp_models modelBase) with ErrUnsupported ;;
      let request := warp_message query modelBase conversation in
      reject maxRequestBytes <? len request with ErrUnsupported ;;
      Ok request
  | _ => Err ErrUnsupported
  end.

(** ** Payloads in text *)

(** [encoding/hex] *)
Fixpoint hex_decode (l : bytes) : option bytes :=
  match l with
  | [] => Some []
  | a :: b :: l => if is_hex a && is_hex b then r ← hex_decode l; Some (byte_of (hex_digit a * 16 + hex_digit b) :: r) else None
  | _ => None
  end.

(** [encoding/base64]: the value of a character, with the last two of the
    alphabet. *)
Definition base64_value (c62 c63 : ascii) (c : ascii) : option Z :=
  let x := code c in
  if (65 <=? x) && (x <=? 90) then Some (x - 65)
  else if (97 <=? x) && (x <=? 122) then Some (x - 71)
  else if (48 <=? x) && (x <=? 57) then Some (x + 4)
  else if Ascii.eqb c c62 then Some 62
  else if Ascii.eqb c c63 then Some 63
  else None.

(** The first [n] bytes of a quantum of 24 bits. *)
Definition quantum (n : nat) (a b c d : Z) : bytes :=
  let v := a * 262144 + b * 4096 + c * 64 + d in
  take n [byte_of (v / 65536 mod 256); byte_of (v / 256 mod 256); byte_of (v mod 256)].

Section Base64.
Context (value : ascii → option Z) (padded : bool).

Fixpoint base64_decode (l : bytes) : option bytes :=
  match l with
  | [] => Some []
  | a :: b :: c :: d :: rest =>
      a ← value a; b ← value b;
      if padded && Ascii.eqb c "=" then
        if Ascii.eqb d "=" && bool_decide (rest = []) then Some (quantum 1 a b 0 0) else None
      else
        c ← value c;
        if padded && Ascii.eqb d "=" then
          if bool_decide (rest = []) then Some (quantum 2 a b c 0) else None
        else d ← value d; r ← base64_decode rest; Some (quantum 3 a b c d ++ r)
  | [a; b; c] => if padded then None else a ← value a; b ← value b; c ← value c; Some (quantum 2 a b c 0)
  | [a; b] => if padded then None else a ← value a; b ← value b; Some (quantum 1 a b 0 0)
  | [_] => None
  end.
End Base64.

Definition base64_url : bytes → option bytes := base64_decode (base64_value "-" "_") false.
Definition base64_std : bytes → option bytes := base64_decode (base64_value "+" "/") true.

(** [strings.TrimRight(s, "=")] *)
Fixpoint trim_left_byte (c : ascii) (l : bytes) : bytes :=
  match l with x :: l' => if Ascii.eqb x c then trim_left_byte c l' else l | [] => [] end.
Definition trim_right_byte (c : ascii) (l : bytes) : bytes := rev (trim_left_byte c (rev l)).

(** [strings.Map] would also rewrite invalid UTF-8, which no decoder takes. *)
Definition decodeWarpPayload (encoded : bytes) : option bytes :=
  let compact := List.filter (λ c, negb (is_ws c)) encoded in
  if bool_decide (compact = []) then None
  else
    match hex_decode compact with
    | Some d => Some d
    | None =>
        match base64_url (trim_right_byte "=" compact) with
        | Some d => Some d
        | None => base64_std (compact ++ repeat "="%char ((4 - length compact mod 4) mod 4))
        end
    end.

Example hex_ex : decodeWarpPayload (lit "4a 4B") = Some (lit "JK") ∧ decodeWarpPayload (lit "aGk") = Some (lit "hi")
  ∧ decodeWarpPayload (lit "aGk=") = Some (lit "hi") ∧ decodeWarpPayload (lit "/w") = Some [byte_of 255] ∧ decodeWarpPayload (lit "a*") = None.
Proof. by vm_compute. Qed.

(** Hexadecimal is tried first, so a base64 text of hexadecimal digits only is
    read as hexadecimal. *)
Lemma payload_ambiguous :
  base64_std (lit "cafe") = Some (map byte_of [113; 167; 222]) ∧ decodeWarpPayload (lit "cafe") = Some (map byte_of [202; 254]).
Proof. split; vm_compute; reflexivity. Qed.

(** ** The answer *)

Record warpUsage := { wu_input : Z; wu_output : Z; wu_cacheRead : Z; wu_cacheWrite : Z }.
Definition no_warp_usage : warpUsage := {| wu_input := 0; wu_output := 0; wu_cacheRead := 0; wu_cacheWrite := 0 |}.

Definition decodeWarpUsage (data : bytes) : res adapter_error warpUsage :=
  let? fields := as_truncated (protoFields data) in
  Ok (fold_left (λ u f,
      if negb (pf_wire f =? 0) then u
      else if pf_number f =? 2 then {| wu_input := pf_varint f; wu_output := wu_output u; wu_cacheRead := wu_cacheRead u; wu_cacheWrite := wu_cacheWrite u |}
      else if pf_number f =? 3 then {| wu_input := wu_input u; wu_output := pf_varint f; wu_cacheRead := wu_cacheRead u; wu_cacheWrite := wu_cacheWrite u |}
      else if pf_number f =? 4 then {| wu_input := wu_input u; wu_output := wu_output u; wu_cacheRead := pf_varint f; wu_cacheWrite := wu_cacheWrite u |}
      else if pf_number f =? 5 then {| wu_input := wu_input u; wu_output := wu_output u; wu_cacheRead := wu_cacheRead u; wu_cacheWrite := pf_varint f |}
      else u) fields no_warp_usage).

Definition add_usage (a b : warpUsage) : warpUsage :=
  {| wu_input := u64 (wu_input a + wu_input b); wu_output := u64 (wu_output a + wu_output b);
     wu_cacheRead := u64 (wu_cacheRead a + wu_cacheRead b); wu_cacheWrite := u64 (wu_cacheWrite a + wu_cacheWrite b) |}.

(** The variables of [decodeWarpFinished]. *)
Record warpFinished := { wf_seen : bool; wf_usage : warpUsage; wf_reason : string; wf_reasons : Z }.

Definition finished_field (w : warpFinished) (f : protoField) : res adapter_error warpFinished :=
  let reasons := if (1 <=? pf_number f) && (pf_number f <=? 7) then wf_reasons w + 1 else wf_reasons w in
  let with_reason (reason : string) :=
    if negb (pf_wire f =? 2) then Err ErrTruncated
    else Ok {| wf_seen := wf_seen w; wf_usage := wf_usage w; wf_reason := reason; wf_reasons := reasons |} in
  let failed := if negb (pf_wire f =? 2) then Err ErrTruncated else Err ErrUpstream in
  let n := pf_number f in
  if (n =? 1) || (n =? 2) then with_reason "stop"%string
  else if (n =? 3) || (n =? 5) then with_reason "length"%string
  else if (n =? 4) || (n =? 6) || (n =? 7) then failed
  else if n =? 8 then
    if negb (pf_wire f =? 2) then Ok w
    else
      let? usage := decodeWarpUsage (pf_bytes f) in
      Ok {| wf_seen := true; wf_usage := add_usage (wf_usage w) usage; wf_reason := wf_reason w; wf_reasons := reasons |}
  else Ok w.

Definition decodeWarpFinished (data : bytes) : res adapter_error warpFinished :=
  let? fields := as_truncated (protoFields data) in
  let? w := fold_res finished_field {| wf_seen := false; wf_usage := no_warp_usage; wf_reason := "stop"; wf_reasons := 0 |} fields in
  reject negb (wf_reasons w =? 1) with ErrTruncated ;;
  Ok w.

Section Answer.
Context (ctx : nat → bool) (id : string) (created : Z) (model : string).

(** The output and whether the role was written. *)
Definition warp_output : Type := bytes * bool.

Definition warp_text (o : warp_output) (text : protoField) : warp_output :=
  if negb (pf_wire text =? 2) || (negb (pf_number text =? 1) && negb (pf_number text =? 2)) || bool_decide (pf_bytes text = [])
  then o
  else
    let out := if snd o then fst o else appendCursorRole id created model (fst o) in
    let key := if pf_number text =? 2 then "reasoning_content"%string else "content"%string in
    (appendCursorField id created model out key (str (pf_bytes text)), true).

Definition warp_variant (o : warp_output) (variant : protoField) : res adapter_error warp_output :=
  reject pf_number variant =? 4 with ErrUnsupported ;;
  if negb (pf_number variant =? 3) || negb (pf_wire variant =? 2) then Ok o
  else
    let? output := as_truncated (protoFields (pf_bytes variant)) in
    Ok (fold_left warp_text output o).

Definition warpActionMessage (o : warp_output) (data : bytes) (actionNumber : Z) : res adapter_error warp_output :=
  let? fields := as_truncated (protoFields data) in
  let messageNumber := if actionNumber =? 3 then 2 else 1 in
  fold_res (λ o field,
    if negb (pf_number field =? messageNumber) || negb (pf_wire field =? 2) then Ok o
    else
      let? variants := as_truncated (protoFields (pf_bytes field)) in
      fold_res warp_variant o variants) o fields.

Definition warp_action (o : warp_output) (action : protoField) : res adapter_error warp_output :=
  if negb (pf_wire action =? 2) || (negb (pf_number action =? 3) && negb (pf_number action =? 5)) then Ok o
  else warpActionMessage o (pf_bytes action) (pf_number action).

Definition warpClientActions (o : warp_output) (data : bytes) : res adapter_error warp_output :=
  let? fields := as_truncated (protoFields data) in
  fold_res (λ o list_,
    if negb (pf_number list_ =? 1) || negb (pf_wire list_ =? 2) then Ok o
    else
      let? actions := as_truncated (protoFields (pf_bytes list_)) in
      fold_res warp_action o actions) o fields.

(** The variables of [warpToSSE]. *)
Record warp_state := {
  ws_output : warp_output; ws_data : bytes; ws_inputTotal : Z; ws_finished : bool; ws_seenEvent : bool;
  ws_usage : option warpUsage; ws_finishReason : string }.

Definition warp_start : warp_state :=
  {| ws_output := ([], false); ws_data := []; ws_inputTotal := 0; ws_finished := false; ws_seenEvent := false;
     ws_usage := None; ws_finishReason := "stop" |}.
Definition set_output (o : warp_output) (s : warp_state) : warp_state :=
  {| ws_output := o; ws_data := ws_data s; ws_inputTotal := ws_inputTotal s; ws_finished := ws_finished s;
     ws_seenEvent := ws_seenEvent s; ws_usage := ws_usage s; ws_finishReason := ws_finishReason s |}.
Definition set_data (d : bytes) (s : warp_state) : warp_state :=
  {| ws_output := ws_output s; ws_data := d; ws_inputTotal := ws_inputTotal s; ws_finished := ws_finished s;
     ws_seenEvent := ws_seenEvent s; ws_usage := ws_usage s; ws_finishReason := ws_finishReason s |}.
Definition set_total (n : Z) (s : warp_state) : warp_state :=
  {| ws_output := ws_output s; ws_data := ws_data s; ws_inputTotal := n; ws_finished := ws_finished s;
     ws_seenEvent := ws_seenEvent s; ws_usage := ws_usage s; ws_finishReason := ws_finishReason s |}.
Definition set_seen (s : warp_state) : warp_state :=
  {| ws_output := ws_output s; ws_data := ws_data s; ws_inputTotal := ws_inputTotal s; ws_finished := ws_finished s;
     ws_seenEvent := true; ws_usage := ws_usage s; ws_finishReason := ws_finishReason s |}.
Definition set_finished (w : warpFinished) (s : warp_state) : warp_state :=
  {| ws_output := ws_output s; ws_data := ws_data s; ws_inputTotal := ws_inputTotal s; ws_finished := true;
     ws_seenEvent := ws_seenEvent s; ws_usage := if wf_seen w then Some (wf_usage w) else ws_usage s;
     ws_finishReason := if (wf_reason w =? "")%string then ws_finishReason s else wf_reason w |}.

Definition warp_event (s : warp_state) (event : protoField) : res adapter_error warp_state :=
  if negb (pf_wire event =? 2) then Ok s
  else if pf_number event =? 2 then
    let? o := warpClientActions (ws_output s) (pf_bytes event) in Ok (set_output o s)
  else if pf_number event =? 3 then
    let? w := decodeWarpFinished (pf_bytes event) in Ok (set_finished w s)
  else Ok s.

Definition process (s : warp_state) (encoded : bytes) : res adapter_error warp_state :=
  let encoded := trim_space encoded in
  if bool_decide (encoded = []) || bool_decide (encoded = lit "[DONE]") then Ok s
  else
    match decodeWarpPayload encoded with
    | None => Err ErrTruncated
    | Some raw =>
        let? fields := as_truncated (protoFields raw) in
        fold_res warp_event (set_seen s) fields
    end.

Definition warp_finish (s : warp_state) : res adapter_error bytes :=
  reject negb (ws_seenEvent s) with ErrTruncated ;;
  reject negb (ws_finished s) with ErrTruncated ;;
  reject negb (snd (ws_output s)) with ErrTruncated ;;
  let usage := match ws_usage s with
    | Some u => [("usage", GMap [("prompt_tokens", GInt (wu_input u)); ("completion_tokens", GInt (wu_output u));
                                 ("total_tokens", GInt (u64 (wu_input u + wu_output u)))])]%string
    | None => []
    end in
  let out := appendSSE (fst (ws_output s)) (GMap (chunk_map id created model [] (GStr (ws_finishReason s)) ++ usage)) ++ done_text in
  reject maxOutputBytes <? len out with ErrUnsupported ;;
  Ok out.

(** After the loop: [eof] is [sc.Err() == nil]. *)
Definition warp_end (eof : bool) (s : warp_state) : res adapter_error bytes :=
  reject negb eof with ErrInvalid ;;
  let? s := if bool_decide (ws_data s ≠ []) && negb (ws_finished s) then process s (ws_data s) else Ok s in
  warp_finish s.

(** One line: the state, and whether the loop ends. *)
Definition warp_line (s : warp_state) (line : bytes) : res adapter_error (warp_state * bool) :=
  let line := trim_suffix_byte carriage_return line in
  let s := set_total (ws_inputTotal s + (len line + 1)) s in
  reject maxEventBytes <? ws_inputTotal s with ErrUnsupported ;;
  match strip (lit "data:") line with
  | Some rest => Ok (set_data (ws_data s ++ trim_space rest) s, false)
  | None =>
      if bool_decide (line ≠ []) then Ok (s, false)
      else
        let? s :=
          if bool_decide (ws_data s ≠ []) then
            let? s' := process (set_data [] s) (ws_data s) in
            reject maxOutputBytes <? len (fst (ws_output s')) with ErrUnsupported ;; Ok s'
          else Ok s in
        Ok (s, ws_finished s)
  end.

Fixpoint warp_lines (n : nat) (lines : list scanned) (eof : bool) (s : warp_state) : res adapter_error bytes :=
  match lines with
  | [] => warp_end eof s
  | ScanTooLong :: _ => Err ErrInvalid
  | ScanLine line terminated :: lines =>
      reject ctx n with ErrContext ;;
      let? (s, stop) := warp_line s line in
      (* the reader's error is known once the last line has been read *)
      if stop then warp_end (terminated || eof) s else warp_lines (S n) lines eof s
  end.

Definition warpToSSE (r : reader) : res adapter_error bytes := warp_lines 0 (Scan (rd_rest r)) (rd_eof r) warp_start.
End Answer.
