(* ===== verification/WarpFacts.v ===== *)
(** * What the Warp adapter guarantees *)

From S2P Require Import Prelude Json JsonFacts GoText Sse SseFacts Observer ObserverFacts Catalog GoFloat Number Marshal ChatChunks.
From S2P Require Import Wire WireFacts ChatRequest Cursor CursorFacts Warp.
Local Open Scope Z_scope.

(** ** The request, read back *)

Definition warp_tree (query modelBase conversation : string) : list wfield :=
  [WMsg 2 [WMsg 6 [WMsg 1 [WMsg 1 [WStr 1 query]]]];
   WMsg 3 [WMsg 1 [WStr 1 modelBase; WStr 2 "o3"; WStr 3 "auto"]; WVar 11 1];
   WMsg 4 [WStr 1 conversation]].

Lemma warp_message_tree query modelBase conversation : warp_message query modelBase conversation = wencs (warp_tree query modelBase conversation).
Proof.
  assert (E : ∀ a x, encodeMessageField 3 [a ++ concat [encodeVarintField 2 0; encodeVarintField 3 0; encodeVarintField 4 0;
     encodeVarintField 5 0; encodeVarintField 6 0; encodeVarintField 7 0; encodeVarintField 8 0; encodeVarintField 10 0; x;
     encodeVarintField 12 0; encodeVarintField 13 0]] = encodeMessageField 3 [a; x]).
  { intros a x. unfold encodeMessageField. f_equal. cbn [concat encodeVarintField Z.eqb app]. by rewrite !app_nil_r. }
  unfold warp_message. rewrite E. unfold warp_tree, wencs. cbn [map wenc concat]. by rewrite app_nil_r.
Qed.

Lemma warp_message_read query modelBase conversation :
  let m := warp_message query modelBase conversation in
  in_bounds m → query ≠ ""%string → modelBase ≠ ""%string → conversation ≠ ""%string →
  dig [2; 6; 1; 1; 1] m = Some (lit query) ∧ dig [3; 1; 1] m = Some (lit modelBase) ∧ dig [4; 1] m = Some (lit conversation).
Proof.
  intros m Hb Hq Hm Hc. unfold m in *. rewrite warp_message_tree in *. apply String.eqb_neq in Hq, Hm, Hc.
  rewrite !dig_tree by done. unfold warp_tree. cbn [wdig wfirst Z.eqb Pos.eqb andb]. rewrite Hq, Hm, Hc. by cbn.
Qed.

(** ** The answer *)

Section Answer.
Context (ctx : nat → bool) (id : string) (created : Z) (model : string).

Abbreviation piece_text := (piece_frame id created model).

(** The output is the role, once there is a delta, and the deltas. *)
Definition written (o : warp_output) (ds : list (string * string)) : Prop :=
  fst o = concat (map piece_text (delta_pieces (snd o) ds)) ∧ deltas_ok ds ∧ snd o = bool_decide (ds ≠ []).
Definition writes_more (o o' : warp_output) : Prop := ∀ ds, written o ds → ∃ more, written o' (ds ++ more).

#[local] Instance writes_more_preorder : PreOrder writes_more.
Proof.
  split; [intros o ds H; exists []; by rewrite app_nil_r|].
  intros a b c Hab Hbc ds H. destruct (Hab ds H) as [m1 H1]. destruct (Hbc _ H1) as [m2 H2]. exists (m1 ++ m2). by rewrite app_assoc.
Qed.


















End Answer.

(** ** The theorems *)


(** A Warp request holds what the client asked: it is only encoded for one
    user message with text, no tools and a pinned model, and along the paths of
    the upstream's schema its message has the text, the model and the
    conversation. *)
Theorem warp_request_reads_back `{Unicode} req model conversation body :
  EncodeWarpRequest req model conversation = Ok body → conversation ≠ ""%string →
  let modelBase := ToLower (TrimSpace model) in
  cr_Tools req = [] ∧ cr_ToolChoice req = None ∧ modelBase ∈ warp_models ∧ len body <= maxRequestBytes
  ∧ ∃ m, cr_Messages req = [m] ∧ cm_Role m = "user"%string ∧ cm_ToolCalls m = [] ∧ cm_Content m ≠ ""%string
    ∧ dig [2; 6; 1; 1; 1] body = Some (lit (cm_Content m))
    ∧ dig [3; 1; 1] body = Some (lit modelBase) ∧ dig [4; 1] body = Some (lit conversation).
Proof.
  intros He Hc modelBase. unfold EncodeWarpRequest in He. fold modelBase in He. destruct (unsupported_request req model) eqn:Hu; [done|].
  destruct (supported_request req model Hu) as (H1 & H2 & _).
  destruct (cr_Messages req) as [|m [|m' ms]] eqn:Em; [done| |done].
  destruct (String.eqb_spec (cm_Role m) "user") as [Hr|]; [|done]. cbn [negb] in He.
  destruct (bool_decide (cm_ToolCalls m ≠ [])) eqn:Htc; [done|]. apply bool_decide_eq_false in Htc.
  cbn [flattenWarpMessages] in He. destruct (String.eqb_spec (cm_Content m) "") as [|Hq]; [done|].
  destruct (contains warp_models modelBase) eqn:Hm; [|done]. cbn [negb] in He. apply contains_spec in Hm.
  assert (Hne : modelBase ≠ ""%string) by (intros E; rewrite E in Hm; revert Hm; apply contains_false; reflexivity).
  pose proof (warp_message_read (cm_Content m) modelBase conversation) as Hread. cbv zeta in Hread.
  set (body' := warp_message _ _ _) in *. clearbody body'. destruct (maxRequestBytes <? len body') eqn:Hl; [done|].
  injection He as <-. apply Z.ltb_ge in Hl. split_and!; [exact H1|exact H2|exact Hm|exact Hl|]. exists m.
  split; [done|]. split; [exact Hr|]. split; [by apply dec_stable|]. split; [exact Hq|].
  apply Hread; [|exact Hq|exact Hne|exact Hc]. unfold in_bounds, maxRequestBytes, two64 in *. lia.
Qed.

(** *** Concrete runs *)

Section Witness.
#[local] Instance demo_unicode : Unicode := {| unicode_lower r := r; unicode_upper r := r |}.



Lemma warp_request_reads_back_witness :
  ∃ req body, decodeChatRequest (js "{'messages':[{'role':'user','content':'hi'}]}") = Ok req
  ∧ EncodeWarpRequest req " GPT-5" "conv" = Ok body ∧ dig [4; 1] body = Some (lit "conv").
Proof.
  assert (E : ∃ req, decodeChatRequest (js "{'messages':[{'role':'user','content':'hi'}]}") = Ok req
    ∧ ∃ body, EncodeWarpRequest req " GPT-5" "conv" = Ok body).
  { eexists. split; [vm_compute; reflexivity|]. eexists. vm_compute. reflexivity. }
  destruct E as (req & Hreq & body & Hb). exists req, body. split; [exact Hreq|]. split; [exact Hb|].
  destruct (warp_request_reads_back req " GPT-5" "conv" body Hb ltac:(discriminate)) as (_ & _ & _ & _ & m & _ & _ & _ & _ & _ & _ & H).
  exact H.
Defined.
End Witness.
