(* ===== verification/Collect.v ===== *)
(** * Whole answers from a stream of chunks ([internal/providers/codingfinal/client.go])

    What the adapters do when the client does not stream: they convert the
    upstream's answer to chat chunks and collect these into one response, the
    fragments of tool calls put together by index.  A Go [any] is its JSON
    value; the random identifier and the time are arguments. *)

From S2P Require Import Prelude Json JsonFacts GoText Sse GoFloat Number Marshal Wire ChatRequest Cursor Warp.
Local Open Scope Z_scope.

(** ** Values of type [any] *)

(** [value.(map[string]any)] and [value.(string)] *)
Definition any_object (v : option json) : option object := match v with Some (JObj m) => decode_map (JObj m) | _ => None end.
Definition any_string (v : option json) : option string := match v with Some (JStr raw) => Some (unquote raw) | _ => None end.
(** Present and not nil, but not a string. *)
Definition not_text (v : option json) : bool := match v with None | Some JNull | Some (JStr _) => false | Some _ => true end.

(** Of several members of one name the last counts. *)
Definition last_wins {A} (l : list (string * A)) : list (string * A) :=
  foldr (λ p acc, if existsb (λ q, (fst q =? fst p)%string) acc then acc else p :: acc) [] l.
Definition marshal_object (l : list (string * bytes)) : bytes :=
  "{"%char :: separated (map marshal_member (sort_keys l)) ++ ["}"%char].

(** [json.Marshal] of a decoded value. *)
Fixpoint marshal_any (v : json) : bytes :=
  match v with
  | JNull => lit "null"
  | JBool b => if b then lit "true" else lit "false"
  | JNum raw => number_text raw
  | JStr raw => marshal_string (unquote raw)
  | JArr l => "["%char :: separated (map marshal_any l) ++ ["]"%char]
  | JObj m => marshal_object (last_wins (map (λ p, (unquote (fst p), marshal_any (snd p))) m))
  end.

(** ** Tool calls *)

Definition maxToolCallCount : Z := 4096.

(** An accumulated call; its [index] is its position. *)
Record call := { oc_id : string; oc_type : string; oc_name : string; oc_arguments : string }.
Definition new_call : call := {| oc_id := ""; oc_type := "function"; oc_name := ""; oc_arguments := "" |}.

Definition openAIToolIndex (value : option json) : res adapter_error nat :=
  match value with
  | None | Some JNull => Ok O
  | Some (JNum raw) =>
      let n := parse_float raw in
      reject fltb n f0 || negb (feqb (f_of_Z (float_to_int64 n)) n) || fltb (f_of_Z (maxToolCallCount - 1)) n with ErrUnsupported ;;
      let index := float_to_int64 n in
      reject (index <? 0) || (maxToolCallCount <=? index) with ErrUnsupported ;;
      Ok (Z.to_nat index)
  | Some _ => Err ErrUnsupported
  end.

Definition openAIToolFragment (value : json) : string :=
  match value with
  | JNull => ""
  | JStr raw => unquote raw
  | v => str (marshal_any v)
  end.

(** A text member that is there and not empty replaces the old one. *)
Definition replaced (v : option json) (old : string) : string :=
  match any_string v with Some s => if (s =? "")%string then old else s | None => old end.

(** What a delta does to its call. *)
Definition extend_call (delta : object) (out : call) : call :=
  let id := replaced (delta !! "id"%string) (oc_id out) in
  let typ := replaced (delta !! "type"%string) (oc_type out) in
  match any_object (delta !! "function"%string) with
  | None => {| oc_id := id; oc_type := typ; oc_name := oc_name out; oc_arguments := oc_arguments out |}
  | Some incoming =>
      {| oc_id := id; oc_type := typ;
         oc_name := replaced (incoming !! "name"%string) (oc_name out);
         oc_arguments := oc_arguments out ++ default "" (any_string (incoming !! "arguments"%string))
                         ++ match incoming !! "input"%string with Some v => openAIToolFragment v | None => "" end |}
  end.

Definition tool_delta (raw : json) : res adapter_error (object * nat) :=
  match any_object (Some raw) with
  | None => Err ErrTruncated
  | Some delta =>
      let? index := openAIToolIndex (delta !! "index"%string) in
      reject not_text (delta !! "id"%string) with ErrTruncated ;;
      reject not_text (delta !! "type"%string) with ErrTruncated ;;
      match delta !! "function"%string with
      | None | Some JNull => Ok (delta, index)
      | Some v =>
          match any_object (Some v) with
          | None => Err ErrTruncated
          | Some incoming =>
              reject not_text (incoming !! "name"%string) with ErrTruncated ;;
              reject not_text (incoming !! "arguments"%string) with ErrTruncated ;;
              Ok (delta, index)
          end
      end
  end.

Definition appendOpenAIToolDelta (existing : list call) (raw : json) : res adapter_error (list call) :=
  let? (delta, index) := tool_delta raw in
  let existing := existing ++ replicate (S index - length existing) new_call in
  Ok (alter (extend_call delta) index existing).

Definition call_object (index : nat) (c : call) : bytes :=
  marshal_object [("index", decimal (Z.of_nat index)); ("id", marshal_string (oc_id c)); ("type", marshal_string (oc_type c));
    ("function", marshal_object [("name", marshal_string (oc_name c)); ("arguments", marshal_string (oc_arguments c))]%string)]%string.

(** The accumulated calls have no [input]. *)
Definition streamOutputBytes (contentLen reasoningLen : Z) (calls : list call) : Z :=
  fold_left (λ total c, total + slen (oc_name c) + slen (oc_arguments c)) calls (contentLen + reasoningLen).

(** ** The collector *)

Definition parseStreamError (value : object) : res adapter_error unit :=
  match value !! "error"%string with
  | None | Some JNull =>
      match value !! "statusCodeValue"%string with
      | Some (JNum raw) =>
          if feqb (parse_float raw) (f_of_Z 200) then Ok tt else Err (ErrStatus (float_to_int64 (parse_float raw)))
      | _ => Ok tt
      end
  | Some _ => Err ErrUpstream
  end.

(** The variables of [collectOpenAISSE]. *)
Record collection := {
  cl_total : Z; cl_text : string; cl_reasoning : string; cl_id : string; cl_created : Z; cl_finish : option json;
  cl_calls : list call; cl_seenEvent : bool }.
Definition start_collection : collection :=
  {| cl_total := 0; cl_text := ""; cl_reasoning := ""; cl_id := ""; cl_created := 0; cl_finish := None; cl_calls := [];
     cl_seenEvent := false |}.
Definition with_bytes (n : Z) (s : collection) : collection :=
  {| cl_total := n; cl_text := cl_text s; cl_reasoning := cl_reasoning s; cl_id := cl_id s; cl_created := cl_created s;
     cl_finish := cl_finish s; cl_calls := cl_calls s; cl_seenEvent := cl_seenEvent s |}.
Definition with_stamp (id : string) (created : Z) (s : collection) : collection :=
  {| cl_total := cl_total s; cl_text := cl_text s; cl_reasoning := cl_reasoning s; cl_id := id; cl_created := created;
     cl_finish := cl_finish s; cl_calls := cl_calls s; cl_seenEvent := cl_seenEvent s |}.
Definition with_seen (s : collection) : collection :=
  {| cl_total := cl_total s; cl_text := cl_text s; cl_reasoning := cl_reasoning s; cl_id := cl_id s; cl_created := cl_created s;
     cl_finish := cl_finish s; cl_calls := cl_calls s; cl_seenEvent := true |}.

Definition collect_choice (s : collection) (cv : json) : res adapter_error collection :=
  match any_object (Some cv) with
  | None => Err ErrTruncated
  | Some choice =>
      let finish := match choice !! "finish_reason"%string with None | Some JNull => cl_finish s | Some x => Some x end in
      let? d := match choice !! "delta"%string with
                | None | Some JNull => Ok ∅
                | Some v => match any_object (Some v) with Some d => Ok d | None => Err ErrTruncated end
                end in
      let text := (cl_text s ++ default "" (any_string (d !! "content"%string)))%string in
      let reasoning := (cl_reasoning s ++ default "" (any_string (d !! "reasoning_content"%string)))%string in
      let? calls := match d !! "tool_calls"%string with
                    | None | Some JNull => Ok (cl_calls s)
                    | Some (JArr values) => fold_res appendOpenAIToolDelta (cl_calls s) values
                    | Some _ => Err ErrTruncated
                    end in
      let? calls := match d !! "function_call"%string with
                    | None | Some JNull => Ok calls
                    | Some raw => appendOpenAIToolDelta calls (JObj [(lit "index", JNum (lit "0")); (lit "function", raw)])
                    end in
      Ok {| cl_total := cl_total s; cl_text := text; cl_reasoning := reasoning; cl_id := cl_id s; cl_created := cl_created s;
            cl_finish := finish; cl_calls := calls; cl_seenEvent := cl_seenEvent s |}
  end.

Definition collect_chunk (s : collection) (data : bytes) : res adapter_error collection :=
  match parse_json data with
  | Some (JObj m) =>
      reject negb (any_ok (JObj m)) with ErrTruncated ;;
      let chunk := default ∅ (decode_map (JObj m)) in
      ensure parseStreamError chunk ;;
      let id := replaced (chunk !! "id"%string) (cl_id s) in
      let created := match chunk !! "created"%string with Some (JNum raw) => float_to_int64 (parse_float raw) | _ => cl_created s end in
      let s := with_stamp id created s in
      match chunk !! "choices"%string with
      | None | Some (JArr []) => Ok s
      | Some (JArr choices) =>
          let? s := fold_res collect_choice (with_seen s) choices in
          reject maxOutputBytes <? streamOutputBytes (slen (cl_text s)) (slen (cl_reasoning s)) (cl_calls s) with ErrUnsupported ;;
          Ok s
      | Some _ => Err ErrTruncated
      end
  | _ => Err ErrTruncated
  end.

(** One line; [true] when it is the end marker. *)
Definition collect_line (s : collection) (l : bytes) : res adapter_error (collection * bool) :=
  let line := trim_space l in
  let s := with_bytes (cl_total s + (len l + 1)) s in
  reject maxEventBytes <? cl_total s with ErrUnsupported ;;
  match strip (lit "data:") line with
  | None => Ok (s, false)
  | Some rest =>
      let data := trim_space rest in
      if bool_decide (data = lit "[DONE]") then Ok (s, true)
      else let? s := collect_chunk s data in Ok (s, false)
  end.

Section Collect.
Context (ctx : nat → bool) (random : string) (now : Z) (model : string).

Definition collected_message (s : collection) : bytes :=
  marshal_object ([("role", marshal_string "assistant"); ("content", marshal_string (cl_text s))]%string
    ++ (if (cl_reasoning s =? "")%string then [] else [("reasoning_content", marshal_string (cl_reasoning s))]%string)
    ++ (if bool_decide (cl_calls s = []) then []
        else [("tool_calls", "["%char :: separated (imap call_object (cl_calls s)) ++ ["]"%char])]%string)).

Definition collect_end (done : bool) (s : collection) : res adapter_error bytes :=
  reject negb (cl_seenEvent s) with ErrTruncated ;;
  reject negb done && bool_decide (cl_finish s = None) with ErrTruncated ;;
  let id := if (cl_id s =? "")%string then random else cl_id s in
  let created := if cl_created s =? 0 then now else cl_created s in
  let fr := match cl_finish s with Some x => marshal_any x | None => marshal_string "stop" end in
  let choice := marshal_object [("index", decimal 0); ("message", collected_message s); ("finish_reason", fr)]%string in
  let data := marshal_object [("id", marshal_string id); ("object", marshal_string "chat.completion"); ("created", decimal created);
    ("model", marshal_string model); ("choices", "["%char :: separated [choice] ++ ["]"%char])]%string in
  reject maxOutputBytes <? len data with ErrUnsupported ;;
  Ok data.

Fixpoint collect_lines (n : nat) (lines : list scanned) (s : collection) : res adapter_error bytes :=
  match lines with
  | [] => collect_end false s
  | ScanTooLong :: _ => Err ErrInvalid
  | ScanLine l _ :: lines =>
      reject ctx n with ErrContext ;;
      let? (s, done) := collect_line s l in
      if done then collect_end true s else collect_lines (S n) lines s
  end.

Definition collectOpenAISSE (data : bytes) : res adapter_error bytes := collect_lines 0 (Scan data) start_collection.

(** ** Streams passed through ([readOpenAISSE], [validateSSE]) *)

Fixpoint copy_lines (n : nat) (lines : list scanned) (eof : bool) (total : Z) (out : bytes) : res adapter_error bytes :=
  match lines with
  | [] =>
      reject negb eof with ErrInvalid ;;
      reject bool_decide (out = []) with ErrTruncated ;;
      Ok out
  | ScanTooLong :: _ => Err ErrInvalid
  | ScanLine line terminated :: lines =>
      reject ctx n with ErrContext ;;
      let total := total + (len line + 1) in
      reject maxEventBytes <? total with ErrUnsupported ;;
      let out := out ++ line ++ [newline] in
      let trimmed := trim_space line in
      if bool_decide (fold_key (trim_space (default trimmed (strip (lit "data:") trimmed))) = fold_key (lit "[done]"))
      then reject negb (terminated || eof) with ErrInvalid ;; Ok out
      else copy_lines (S n) lines eof total out
  end.
Definition readOpenAISSE (r : reader) : res adapter_error bytes := copy_lines 0 (Scan (rd_rest r)) (rd_eof r) 0 [].
End Collect.

(** The response itself is dropped. *)
Definition validateSSE (ctx : nat → bool) (random : string) (now : Z) (r : reader) : res adapter_error bytes :=
  let? data := readOpenAISSE ctx r in
  ensure collectOpenAISSE ctx random now "upstream" data ;;
  Ok data.

(** ** Streamed or whole ([Client.Do], the conversion of each adapter) *)

Section Generate.
Context `{Gzip} (ctx : nat → bool) (id : string) (created : Z) (random : string) (now : Z) (model : string).

Definition whole_answer (stream : bool) (sse : res adapter_error bytes) : res adapter_error bytes :=
  let? sse := sse in if stream then Ok sse else collectOpenAISSE ctx random now model sse.
Definition cursor_answer (stream : bool) (r : reader) : option (res adapter_error bytes) :=
  whole_answer stream <$> cursorToSSE ctx id created model r.
Definition warp_answer (stream : bool) (r : reader) : res adapter_error bytes := whole_answer stream (warpToSSE ctx id created model r).
End Generate.
