(* ===== verification/CollectFacts.v ===== *)
(** * What collecting a stream gives

    The chunks of a stream ([ChatChunks]) are collected into one response with
    the texts joined; tool calls are put together by index; and an adapter's
    streamed and collected answers agree. *)

From S2P Require Import Prelude Json JsonFacts GoText Sse SseFacts GoFloat Number Observer ObserverFacts Catalog Marshal ChatChunks.
From S2P Require Import Wire WireFacts ChatRequest Cursor CursorFacts Warp WarpFacts Collect.
Local Open Scope Z_scope.

(** ** Lines of a stream *)










(** ** What a chunk holds *)






(** ** One chunk *)






(** ** The lines of a stream, collected *)

Section Stream.
Context (ctx : nat → bool) (random : string) (now : Z) (asked : string) (id : string) (created : Z) (model : string).
Hypothesis live : ∀ n, ctx n = false.
Hypothesis created_exact : 0 < created < 2 ^ 53.
Hypothesis id_nonempty : id ≠ ""%string.

Abbreviation run := (collect_lines ctx random now asked).
Abbreviation frame_of := (piece_frame id created model).


Lemma data_bytes d l : lit "data: " ++ d = "d"%char :: l → l = lit "ata: " ++ d.
Proof. intros H. by injection H. Qed.









(** *** The response *)













End Stream.

(** ** Tool calls put together *)

Lemma tool_index_bound v n : openAIToolIndex v = Ok n → (n < 4096)%nat.
Proof.
  unfold openAIToolIndex. destruct v as [[]|]; intros Hn; try done; try (injection Hn as <-; lia). revert Hn.
  destruct (_ || _); [done|]. destruct (_ || _) eqn:E; [done|]. apply orb_false_iff in E as [E1%Z.ltb_ge E2%Z.leb_gt].
  intros [= <-]. unfold maxToolCallCount in E2. lia.
Qed.

Lemma tool_delta_bound v d : tool_delta v = Ok d → (snd d < 4096)%nat.
Proof.
  unfold tool_delta. destruct (any_object (Some v)) as [delta|]; [|done]. destruct (openAIToolIndex _) as [n|] eqn:En; [|done]. cbn [res_bind].
  apply tool_index_bound in En. destruct (not_text _); [done|]. destruct (not_text _); [done|].
  assert (H : ∀ d', Ok (E := adapter_error) (delta, n) = Ok d' → (snd d' < 4096)%nat) by (intros d' [= <-]; exact En).
  destruct (delta !! "function"%string) as [f|]; [|apply H].
  assert (Hf : ∀ x : option object, match x with
    | Some incoming => reject not_text (incoming !! "name"%string) with ErrTruncated ;;
        reject not_text (incoming !! "arguments"%string) with ErrTruncated ;; Ok (delta, n)
    | None => Err ErrTruncated end = Ok d → (snd d < 4096)%nat).
  { intros [incoming|]; [|done]. destruct (not_text _); [done|]. destruct (not_text _); [done|]. apply H. }
  destruct f; first [apply H|apply Hf].
Qed.

(** The deltas of one answer, each with its index. *)
Definition decode_deltas (vs : list json) : res adapter_error (list (object * nat)) :=
  foldr (λ v acc, let? d := tool_delta v in let? ds := acc in Ok (d :: ds)) (Ok []) vs.
(** The call of an index: its deltas in order, from an empty call. *)
Definition assembled (ds : list (object * nat)) (i : nat) : call :=
  fold_left (λ c d, if Nat.eqb (snd d) i then extend_call (fst d) c else c) ds new_call.
Definition call_count (ds : list (object * nat)) : nat := foldr (λ d n, Nat.max (S (snd d)) n) 0%nat ds.
Definition assemble (ds : list (object * nat)) : list call := map (assembled ds) (seq 0 (call_count ds)).

Lemma call_count_snoc ds d : call_count (ds ++ [d]) = Nat.max (call_count ds) (S (snd d)).
Proof. induction ds as [|x ds IH]; [simpl; lia|]. cbn [app call_count foldr]. unfold call_count in IH. rewrite IH. lia. Qed.

Lemma assembled_above ds i : (call_count ds ≤ i)%nat → assembled ds i = new_call.
Proof.
  unfold assembled. generalize new_call. induction ds as [|d ds IH]; intros c Hi; [done|]. cbn [fold_left call_count foldr] in *.
  unfold call_count in IH. destruct (Nat.eqb_spec (snd d) i); [lia|]. apply IH. lia.
Qed.

Lemma assemble_lookup ds i : assemble ds !! i = if (i <? call_count ds)%nat then Some (assembled ds i) else None.
Proof.
  unfold assemble. rewrite list_lookup_fmap. destruct (Nat.ltb_spec i (call_count ds)).
  - by rewrite lookup_seq_lt by lia.
  - by rewrite lookup_seq_ge by lia.
Qed.

Lemma assemble_snoc ds d :
  assemble (ds ++ [d])
  = alter (extend_call (fst d)) (snd d) (assemble ds ++ replicate (S (snd d) - length (assemble ds)) new_call).
Proof.
  assert (Hlen : length (assemble ds) = call_count ds) by (unfold assemble; by rewrite length_map, length_seq).
  apply list_eq. intros i. rewrite assemble_lookup, call_count_snoc, Hlen.
  assert (Ha : assembled (ds ++ [d]) i = if Nat.eqb (snd d) i then extend_call (fst d) (assembled ds i) else assembled ds i).
  { unfold assembled. by rewrite fold_left_app. }
  assert (Hx : (assemble ds ++ replicate (S (snd d) - call_count ds) new_call) !! i
    = if (i <? Nat.max (call_count ds) (S (snd d)))%nat then Some (assembled ds i) else None).
  { destruct (Nat.ltb_spec i (call_count ds)) as [Hi|Hi].
    - rewrite lookup_app_l by lia. rewrite assemble_lookup, (proj2 (Nat.ltb_lt _ _)) by lia. by rewrite (proj2 (Nat.ltb_lt _ _)) by lia.
    - rewrite lookup_app_r by lia. rewrite Hlen, assembled_above by lia.
      destruct (Nat.ltb_spec i (Nat.max (call_count ds) (S (snd d)))).
      + apply lookup_replicate_2. lia.
      + apply lookup_ge_None. rewrite length_replicate. lia. }
  destruct (decide (snd d = i)) as [Heq|Hne].
  - rewrite Heq, Nat.eqb_refl in Ha. rewrite Heq in Hx |- *. rewrite list_lookup_alter_eq, Hx, Ha. by destruct (_ <? _)%nat.
  - rewrite (proj2 (Nat.eqb_neq _ _) Hne) in Ha. by rewrite list_lookup_alter_ne, Hx, Ha.
Qed.

Lemma append_deltas vs ds0 :
  fold_res appendOpenAIToolDelta (assemble ds0) vs
  = let? ds := decode_deltas vs in Ok (assemble (ds0 ++ ds)).
Proof.
  revert ds0. induction vs as [|v vs IH]; intros ds0; cbn [fold_res decode_deltas foldr res_bind]; [by rewrite app_nil_r|].
  unfold appendOpenAIToolDelta at 1. destruct (tool_delta v) as [[delta index]|e]; [|done]. cbn [res_bind].
  pose proof (assemble_snoc ds0 (delta, index)) as Es. cbn [fst snd] in Es. rewrite <-Es, IH. fold (decode_deltas vs).
  destruct (decode_deltas vs) as [ds|e]; [|done]. cbn [res_bind]. by rewrite <-app_assoc.
Qed.

(** What a delta adds to the arguments of its call. *)
Definition fragment (delta : object) : string :=
  match any_object (delta !! "function"%string) with
  | Some f => default "" (any_string (f !! "arguments"%string))
              ++ match f !! "input"%string with Some v => openAIToolFragment v | None => "" end
  | None => ""
  end.
Definition fragments (ds : list (object * nat)) (i : nat) : string :=
  foldr (λ d t, if Nat.eqb (snd d) i then (fragment (fst d) ++ t)%string else t) "" ds.

Lemma assembled_arguments ds i : oc_arguments (assembled ds i) = fragments ds i.
Proof.
  unfold assembled. assert (H : ∀ c, oc_arguments (fold_left (λ c d, if Nat.eqb (snd d) i then extend_call (fst d) c else c) ds c)
    = (oc_arguments c ++ fragments ds i)%string); [|rewrite H; reflexivity].
  induction ds as [|d ds IH]; intros c; cbn [fold_left fragments foldr]; [by rewrite string_app_nil_r|]. rewrite IH.
  destruct (Nat.eqb (snd d) i); [|done]. unfold extend_call, fragment. destruct (any_object _) as [f|]; cbn [oc_arguments].
  - by rewrite !string_app_assoc.
  - done.
Qed.

(** ** The theorems *)







(** C40: the fragments of tool calls are put together by index.  Deltas, each
    valid with an index below 4096, give as many calls as the largest index
    says; the call at an index is its own deltas applied in order, and its
    arguments are their fragments joined in order, whatever comes between
    them.  One invalid delta makes the whole an error. *)
Theorem tool_calls_are_put_together vs :
  fold_res appendOpenAIToolDelta [] vs = (let? ds := decode_deltas vs in Ok (assemble ds))
  ∧ ∀ ds, decode_deltas vs = Ok ds →
      (length (assemble ds) ≤ 4096)%nat
      ∧ ∀ i, (i < length (assemble ds))%nat →
          ∃ c, assemble ds !! i = Some c ∧ c = assembled ds i ∧ oc_arguments c = fragments ds i.
Proof.
  split; [apply (append_deltas vs [])|]. intros ds Hds. assert (Hlen : length (assemble ds) = call_count ds).
  { unfold assemble. by rewrite length_map, length_seq. }
  rewrite Hlen. split.
  - revert ds Hds Hlen. induction vs as [|v vs IH]; intros ds Hds Hlen; cbn [decode_deltas foldr] in Hds; [injection Hds as <-; simpl; lia|].
    destruct (tool_delta v) as [d|] eqn:Ed; [|done]. cbn [res_bind] in Hds. fold (decode_deltas vs) in Hds.
    destruct (decode_deltas vs) as [ds'|] eqn:E; [|done]. injection Hds as <-. apply tool_delta_bound in Ed.
    cbn [call_count foldr]. specialize (IH ds' eq_refl). unfold assemble in IH. rewrite length_map, length_seq in IH.
    specialize (IH eq_refl). unfold call_count in IH. lia.
  - intros i Hi. exists (assembled ds i). rewrite assemble_lookup, (proj2 (Nat.ltb_lt _ _)) by done.
    split_and!; [done|done|apply assembled_arguments].
Qed.

(** *** Concrete runs *)

Section Witness.
#[local] Instance demo_gzip : Gzip := {| gzip_read d := Some (d, true) |}.


Lemma tool_calls_are_put_together_witness :
  let vs := default [] (raw_array (parse_json (js "[{'index':1,'id':'t','function':{'name':'f','arguments':'{'}},{'function':{'name':'g'}},{'index':1,'function':{'arguments':'}'}}]"))) in
  ∃ ds, decode_deltas vs = Ok ds ∧ (length (assemble ds) ≤ 4096)%nat ∧ fragments ds 1 = "{}"%string.
Proof.
  set (vs := default [] _). destruct (tool_calls_are_put_together vs) as [_ H].
  assert (E : match decode_deltas vs with Ok ds => fragments ds 1 =s "{}" | Err _ => false end = true) by (vm_compute; reflexivity).
  destruct (decode_deltas vs) as [ds|] eqn:Hd; [|discriminate E]. exists ds. destruct (H ds eq_refl) as [Hl _].
  split; [exact Hd|]. split; [exact Hl|]. by apply String.eqb_eq.
Defined.
End Witness.
