(* ===== verification/EventStream.v ===== *)
(** * AWS event streams ([internal/providers/codingmore/eventstream.go])

    The frames of the Amazon Q adapter: a prelude with its CRC, typed headers,
    a JSON payload and the CRC of the whole; and their conversion to chat
    chunks, streamed and collected.  Random identifiers and the time are
    arguments. *)

From S2P Require Import Prelude Json JsonFacts GoText Sse Observer Catalog Marshal ChatChunks Wire ChatRequest.
Local Open Scope Z_scope.

Definition maxEventFrame : Z := 16777216.
Definition maxEventBytes : Z := 67108864.

(** ** CRC-32 ([hash/crc32], the IEEE polynomial, bit by bit) *)

Definition crc_poly : Z := 3988292384.
Definition crc_bit (c : Z) : Z := if Z.odd c then Z.lxor (Z.shiftr c 1) crc_poly else Z.shiftr c 1.
Definition crc_byte (c : Z) (b : ascii) : Z := Nat.iter 8 crc_bit (Z.lxor c (code b)).
Definition ChecksumIEEE (data : bytes) : Z := Z.lxor (fold_left crc_byte data 4294967295) 4294967295.

Example crc_check : ChecksumIEEE (lit "123456789") = 3421780262.
Proof. vm_compute. reflexivity. Qed.

(** ** Frames *)

Inductive event_error :=
| EventEOF
| EventTruncated
| EventInvalid
| EventUpstream
| EventContext.

Record eventFrame := { ef_headers : gmap string string; ef_payload : object }.
Record eventReader := { er_r : reader; er_bytes : Z; er_frames : Z; er_maxByte : Z }.
Definition newEventReader (r : reader) : eventReader := {| er_r := r; er_bytes := 0; er_frames := 0; er_maxByte := maxEventBytes |}.

(** [base64.RawURLEncoding.EncodeToString] *)
Definition base64_char (v : Z) : ascii :=
  if v <? 26 then byte_of (65 + v) else if v <? 52 then byte_of (71 + v) else if v <? 62 then byte_of (v - 4)
  else if v =? 62 then "-"%char else "_"%char.
Fixpoint base64_encode (l : bytes) : bytes :=
  match l with
  | a :: b :: c :: l =>
      let v := code a * 65536 + code b * 256 + code c in
      base64_char (v / 262144) :: base64_char (v / 4096 mod 64) :: base64_char (v / 64 mod 64) :: base64_char (v mod 64)
        :: base64_encode l
  | [a; b] =>
      let v := code a * 65536 + code b * 256 in
      [base64_char (v / 262144); base64_char (v / 4096 mod 64); base64_char (v / 64 mod 64)]
  | [a] => let v := code a * 65536 in [base64_char (v / 262144); base64_char (v / 4096 mod 64)]
  | [] => []
  end.

(** A header's value of type [typ]: the value and the rest. *)
Definition header_value (typ : Z) (data : bytes) : option (string * bytes) :=
  let number (n : nat) := if (length data <? n)%nat then None else Some (str (decimal (be_value (take n data))), drop n data) in
  if typ =? 0 then Some ("true"%string, data)
  else if typ =? 1 then Some ("false"%string, data)
  else if typ =? 2 then number 1%nat
  else if typ =? 3 then number 2%nat
  else if typ =? 4 then number 4%nat
  else if (typ =? 5) || (typ =? 8) then number 8%nat
  else if (typ =? 6) || (typ =? 7) then
    if (length data <? 2)%nat then None
    else
      let n := Z.to_nat (be_value (take 2 data)) in
      let data := drop 2 data in
      if (length data <? n)%nat then None else Some (str (take n data), drop n data)
  else if typ =? 9 then
    if (length data <? 16)%nat then None else Some (str (base64_encode (take 16 data)), drop 16 data)
  else None.

(** One iteration: the header at the front, and the rest. *)
Definition next_header (data : bytes) : option (string * string * bytes) :=
  match data with
  | [] => None
  | n :: data =>
      let nameLength := Z.to_nat (code n) in
      if Nat.eqb nameLength 0 || (length data <? nameLength + 1)%nat then None
      else
        let name := str (take nameLength data) in
        match drop nameLength data with
        | typ :: data => '(value, rest) ← header_value (code typ) data; Some (name, value, rest)
        | [] => None
        end
  end.

Fixpoint headers_loop (fuel : nat) (data : bytes) (headers : gmap string string) : option (gmap string string) :=
  match fuel, data with
  | _, [] => Some headers
  | O, _ => None
  | S fuel, _ =>
      '(name, value, rest) ← next_header data;
      match headers !! name with
      | Some _ => None
      | None => headers_loop fuel rest (<[name := value]> headers)
      end
  end.
Definition parseEventHeaders (data : bytes) : option (gmap string string) := headers_loop (length data) data ∅.

(** A frame's text after its checks: headers and payload. *)
Definition frame_content (frame : bytes) (headerLength : Z) : res event_error eventFrame :=
  let rest := drop 12 frame in
  match parseEventHeaders (take (Z.to_nat headerLength) rest) with
  | None => Err EventInvalid
  | Some headers =>
      let payloadBytes := take (length frame - 4 - (12 + Z.to_nat headerLength)) (drop (Z.to_nat headerLength) rest) in
      if bool_decide (payloadBytes = []) then Ok {| ef_headers := headers; ef_payload := ∅ |}
      else
        match raw_object (parse_json payloadBytes) with
        | Some payload => Ok {| ef_headers := headers; ef_payload := payload |}
        | None => Err EventInvalid
        end
  end.

Definition Next (r : eventReader) : res event_error eventFrame * eventReader :=
  let with_rest rest := {| er_r := rest; er_bytes := er_bytes r; er_frames := er_frames r; er_maxByte := er_maxByte r |} in
  match ReadFull (er_r r) 12 with
  | (Err ReadEOF, rest) => (Err EventEOF, with_rest rest)
  | (Err ReadShort, rest) => (Err EventTruncated, with_rest rest)
  | (Ok prelude, rest) =>
      let total := be_value (take 4 prelude) in
      let headerLength := be_value (take 4 (drop 4 prelude)) in
      if (total <? 16) || (maxEventFrame <? total) || (total - 16 <? headerLength) then (Err EventInvalid, with_rest rest)
      else if negb (ChecksumIEEE (take 8 prelude) =? be_value (drop 8 prelude)) then (Err EventInvalid, with_rest rest)
      else
        match ReadFull rest (Z.to_nat total - 12) with
        | (Err _, rest) => (Err EventTruncated, with_rest rest)
        | (Ok body, rest) =>
            let frame := prelude ++ body in
            let end_ := (length frame - 4)%nat in
            if negb (ChecksumIEEE (take end_ frame) =? be_value (drop end_ frame)) then (Err EventInvalid, with_rest rest)
            else
              let r := {| er_r := rest; er_bytes := er_bytes r + len frame; er_frames := er_frames r + 1; er_maxByte := er_maxByte r |} in
              if er_maxByte r <? er_bytes r then (Err EventInvalid, r)
              else (frame_content frame headerLength, r)
        end
  end.

(** ** Amazon Q events *)

Record usage := { us_prompt : Z; us_completion : Z; us_cacheRead : Z; us_cacheWrite : Z }.
#[global] Instance usage_eq_dec : EqDecision usage.
Proof. solve_decision. Defined.
Definition no_usage : usage := {| us_prompt := 0; us_completion := 0; us_cacheRead := 0; us_cacheWrite := 0 |}.

Record amazonQEvent := {
  aq_typ : string; aq_content : string; aq_reasoning : string; aq_id : string; aq_terminal : bool; aq_usage : usage }.

(** [rawString], [firstString], [firstInt] *)
Definition rawString (o : object) (key : string) : string := raw_text o key.
Fixpoint firstString (o : object) (keys : list string) : string :=
  match keys with
  | [] => ""
  | key :: keys => if (rawString o key =? "")%string then firstString o keys else rawString o key
  end.
Fixpoint firstInt (o : object) (keys : list string) : Z :=
  match keys with
  | [] => 0
  | key :: keys =>
      match v ← o !! key; decode_int64 v 0 with
      | Some value => if 0 <=? value then value else firstInt o keys
      | None => firstInt o keys
      end
  end.

Definition parseUsage (o : object) : usage :=
  {| us_prompt := firstInt o ["inputTokens"; "prompt_tokens"; "input_tokens"]%string;
     us_completion := firstInt o ["outputTokens"; "completion_tokens"; "output_tokens"]%string;
     us_cacheRead := firstInt o ["cacheReadInputTokens"; "cacheReadTokens"; "cache_read_input_tokens"]%string;
     us_cacheWrite := firstInt o ["cacheWriteInputTokens"; "cacheCreationTokens"; "cache_creation_input_tokens"]%string |}.

(** [strings.Contains] *)
Fixpoint contains_text (l part : bytes) : bool :=
  match strip part l with
  | Some _ => true
  | None => match l with [] => false | _ :: l => contains_text l part end
  end.

Definition amazonq_types : list string :=
  ["assistantresponseevent"; "codeevent"; "reasoningcontentevent"; "metadataevent"; "contextusageevent"; "meteringevent";
   "metricsevent"; "messagestopevent"]%string.
Definition amazonq_envelopes : list string :=
  ["assistantResponseEvent"; "assistant_response_event"; "codeEvent"; "reasoningContentEvent"; "metadataEvent";
   "contextUsageEvent"; "meteringEvent"]%string.

(** The payload, or the first envelope in it. *)
Definition event_object (payload : object) : object :=
  match list_find (λ key, is_Some (raw_object (payload !! key))) amazonq_envelopes with
  | Some (_, key) => default payload (raw_object (payload !! key))
  | None => payload
  end.

Definition event_reasoning (o : object) : string :=
  let reasoning :=
    match o !! "reasoningText"%string with
    | None => ""%string
    | Some raw =>
        let text := default ""%string (decode_struct ["text"]%string (λ _ _ v, decode_string v "") raw ""%string) in
        if (text =? "")%string then rawString o "reasoningText" else text
    end in
  if (reasoning =? "")%string then rawString o "text" else reasoning.

(** A member that is an object (or null), as usage. *)
Definition usage_of (o : object) (key : string) (old : usage) : usage :=
  match raw ← o !! key; decode_map raw with Some nested => parseUsage nested | None => old end.

Definition event_usage (o : object) : usage :=
  let u := usage_of o "usage" (usage_of o "metricsEvent" no_usage) in
  if bool_decide (u = no_usage) then parseUsage o else u.

Section AmazonQ.
Context `{Unicode}.

Definition normalize (eventType : string) : string :=
  ToLower (str (List.filter (λ c, negb (ascii_in c "_-:")) (lit eventType))).

Definition decodeAmazonQEvent (frame : eventFrame) : res event_error amazonQEvent :=
  let header name := default ""%string (ef_headers frame !! name) in
  let eventType := if (header ":event-type" =? "")%string then header "event-type"%string else header ":event-type"%string in
  let normalized := normalize eventType in
  let messageType := ToLower (header ":message-type"%string) in
  reject (messageType =? "exception")%string || (messageType =? "error")%string
         || contains_text (lit normalized) (lit "error") || contains_text (lit normalized) (lit "exception") with EventUpstream ;;
  reject negb (contains amazonq_types normalized) with EventInvalid ;;
  reject bool_decide (is_Some (ef_payload frame !! "error"%string)) with EventUpstream ;;
  let o := event_object (ef_payload frame) in
  let content := rawString o "content" in
  reject ((normalized =? "assistantresponseevent")%string || (normalized =? "codeevent")%string)
         && match o !! "content"%string with Some v => bool_decide (decode_string v "" = None) | None => false end
    with EventInvalid ;;
  let id := firstString o ["messageId"; "conversationId"; "id"]%string in
  let reasoning := if (normalized =? "reasoningcontentevent")%string then event_reasoning o else ""%string in
  let status := ToLower (firstString o ["messageStatus"; "status"]%string) in
  let terminal := (normalized =? "messagestopevent")%string || contains ["completed"; "complete"; "success"; "end_turn"]%string status in
  reject (status =? "error")%string || (status =? "failed")%string with EventUpstream ;;
  let u := if (normalized =? "metadataevent")%string || (normalized =? "metricsevent")%string then event_usage o else no_usage in
  Ok {| aq_typ := normalized; aq_content := content; aq_reasoning := reasoning; aq_id := id; aq_terminal := terminal; aq_usage := u |}.

(** ** The stream ([amazonQStream]) *)

Record amazonQStream := {
  sq_reader : eventReader; sq_id : string; sq_pending : bytes; sq_sawFrame : bool; sq_started : bool; sq_terminal : bool;
  sq_finished : bool; sq_usage : usage }.

Definition newAmazonQStream (body : reader) : amazonQStream :=
  {| sq_reader := newEventReader body; sq_id := ""; sq_pending := []; sq_sawFrame := false; sq_started := false;
     sq_terminal := false; sq_finished := false; sq_usage := no_usage |}.

Definition usage_map (u : usage) : list (string * gv) :=
  [("prompt_tokens", GInt (us_prompt u)); ("completion_tokens", GInt (us_completion u));
   ("total_tokens", GInt (i64 (us_prompt u + us_completion u)))]%string
  ++ (if 0 <? us_cacheRead u then [("cache_read_input_tokens", GInt (us_cacheRead u))]%string else [])
  ++ (if 0 <? us_cacheWrite u then [("cache_creation_input_tokens", GInt (us_cacheWrite u))]%string else []).
Definition usageJSON (u : usage) : gv := GMap (usage_map u).

Section Stream.
Context (random : string) (created : Z) (model : string).

Definition with_pending (p : bytes) (s : amazonQStream) : amazonQStream :=
  {| sq_reader := sq_reader s; sq_id := sq_id s; sq_pending := p; sq_sawFrame := sq_sawFrame s; sq_started := sq_started s;
     sq_terminal := sq_terminal s; sq_finished := sq_finished s; sq_usage := sq_usage s |}.
Definition with_reader (r : eventReader) (saw : bool) (s : amazonQStream) : amazonQStream :=
  {| sq_reader := r; sq_id := sq_id s; sq_pending := sq_pending s; sq_sawFrame := saw; sq_started := sq_started s;
     sq_terminal := sq_terminal s; sq_finished := sq_finished s; sq_usage := sq_usage s |}.
Definition with_id (id : string) (started : bool) (s : amazonQStream) : amazonQStream :=
  {| sq_reader := sq_reader s; sq_id := id; sq_pending := sq_pending s; sq_sawFrame := sq_sawFrame s; sq_started := started;
     sq_terminal := sq_terminal s; sq_finished := sq_finished s; sq_usage := sq_usage s |}.
Definition with_end (terminal finished : bool) (u : usage) (s : amazonQStream) : amazonQStream :=
  {| sq_reader := sq_reader s; sq_id := sq_id s; sq_pending := sq_pending s; sq_sawFrame := sq_sawFrame s; sq_started := sq_started s;
     sq_terminal := terminal; sq_finished := finished; sq_usage := u |}.

(** The stream's [appendSSE] writes as the one of [ChatChunks]. *)
Definition append_chunk (delta : list (string * gv)) (s : amazonQStream) : amazonQStream :=
  with_pending (appendSSE (sq_pending s) (GMap (chunk_map (sq_id s) created model delta GNull))) s.

Definition appendStart (s : amazonQStream) : amazonQStream :=
  let s := with_id (if (sq_id s =? "")%string then random else sq_id s) true s in
  append_chunk [("role", GStr "assistant")]%string s.
Definition appendContent (content : string) : amazonQStream → amazonQStream := append_chunk [("content", GStr content)]%string.
Definition appendReasoning (content : string) : amazonQStream → amazonQStream := append_chunk [("reasoning_content", GStr content)]%string.
Definition appendFinish (s : amazonQStream) : amazonQStream :=
  let u := if bool_decide (sq_usage s = no_usage) then [] else [("usage", usageJSON (sq_usage s))]%string in
  with_pending (appendSSE (sq_pending s) (GMap (chunk_map (sq_id s) created model [] (GStr "stop") ++ u)) ++ done_text) s.

(** What the loop of [Read] does with an event. *)
Definition begin_event (event : amazonQEvent) (s : amazonQStream) : amazonQStream :=
  let s := if negb (aq_id event =? "")%string && (sq_id s =? "")%string then with_id (aq_id event) (sq_started s) s else s in
  if sq_started s then s else appendStart s.
Definition write_event_of (event : amazonQEvent) (s : amazonQStream) : amazonQStream :=
  let s := begin_event event s in
  let s := if (aq_content event =? "")%string then s else appendContent (aq_content event) s in
  let s := if (aq_reasoning event =? "")%string then s else appendReasoning (aq_reasoning event) s in
  let u := if bool_decide (aq_usage event = no_usage) then sq_usage s else aq_usage event in
  with_end (sq_terminal s || aq_terminal event) (sq_finished s) u s.

(** One iteration; [cancelled] is the context's state when it is looked at. *)
Definition stream_step (cancelled : bool) (s : amazonQStream) : res event_error amazonQStream * amazonQStream :=
  match Next (sq_reader s) with
  | (Err e, r) =>
      let s := with_reader r (sq_sawFrame s) s in
      if cancelled then (Err EventContext, s)
      else
        match e with
        | EventEOF =>
            if negb (sq_sawFrame s) then (Err EventInvalid, s)
            else if negb (sq_terminal s) then (Err EventTruncated, s)
            else let s := appendFinish s in let s := with_end (sq_terminal s) true (sq_usage s) s in (Ok s, s)
        | e => (Err e, s)
        end
  | (Ok frame, r) =>
      let s := with_reader r true s in
      match decodeAmazonQEvent frame with
      | Err e => (Err e, s)
      | Ok event => let s := write_event_of event s in (Ok s, s)
      end
  end.

Fixpoint fill (fuel : nat) (ctx : nat → bool) (n : nat) (s : amazonQStream) : option (res event_error amazonQStream * amazonQStream) :=
  if bool_decide (sq_pending s ≠ []) || sq_finished s then Some (Ok s, s)
  else
    match fuel with
    | O => None
    | S fuel =>
        match stream_step (ctx n) s with
        | (Ok s, _) => fill fuel ctx (S n) s
        | (Err e, s) => Some (Err e, s)
        end
    end.

(** [Read] into a buffer of [size] bytes; [None] inside is [io.EOF]. *)
Definition Read (ctx : nat → bool) (size : nat) (s : amazonQStream) : option (res event_error (option bytes) * amazonQStream) :=
  match fill (S (length (rd_rest (er_r (sq_reader s))))) ctx 0 s with
  | None => None
  | Some (Err e, s) => Some (Err e, s)
  | Some (Ok s, _) =>
      let n := Nat.min size (length (sq_pending s)) in
      let out := take n (sq_pending s) in
      let s := with_pending (drop n (sq_pending s)) s in
      if Nat.eqb n 0 && sq_finished s then Some (Ok None, s) else Some (Ok (Some out), s)
  end.

(** Reading to the end: what was delivered, and the error that ended it.
    [ctx n i] is the state of the context at the [i]-th look during the
    [n]-th call. *)
Fixpoint drain (fuel : nat) (ctx : nat → nat → bool) (size : nat → nat) (n : nat) (s : amazonQStream) :
    option (bytes * option event_error) :=
  match fuel with
  | O => None
  | S fuel =>
      match Read (ctx n) (size n) s with
      | None => None
      | Some (Err e, _) => Some ([], Some e)
      | Some (Ok None, _) => Some ([], None)
      | Some (Ok (Some b), s) => '(out, e) ← drain fuel ctx size (S n) s; Some (b ++ out, e)
      end
  end.
End Stream.

(** ** The whole answer ([collectAmazonQ]) *)

Record collectedAmazonQ := { ca_id : string; ca_text : string; ca_reasoning : string; ca_usage : usage }.

Definition collect_event (event : amazonQEvent) (c : collectedAmazonQ) : collectedAmazonQ :=
  {| ca_id := if (aq_id event =? "")%string then ca_id c else aq_id event;
     ca_text := ca_text c ++ aq_content event;
     ca_reasoning := ca_reasoning c ++ aq_reasoning event;
     ca_usage := if bool_decide (aq_usage event = no_usage) then ca_usage c else aq_usage event |}.

Fixpoint collect_loop (fuel : nat) (ctx : nat → bool) (n : nat) (reader : eventReader) (sawFrame terminal : bool) (result : collectedAmazonQ) :
    option (res event_error collectedAmazonQ) :=
  match fuel with
  | O => None
  | S fuel =>
      match Next reader with
      | (Err e, _) =>
          if ctx n then Some (Err EventContext)
          else
            match e with
            | EventEOF =>
                if negb sawFrame then Some (Err EventInvalid)
                else if negb terminal then Some (Err EventTruncated)
                else Some (Ok result)
            | e => Some (Err e)
            end
      | (Ok frame, reader) =>
          match decodeAmazonQEvent frame with
          | Err e => Some (Err e)
          | Ok event => collect_loop fuel ctx (S n) reader true (terminal || aq_terminal event) (collect_event event result)
          end
      end
  end.

Definition collected_response (random : string) (created : Z) (model : string) (result : collectedAmazonQ) : list (string * gv) :=
  let id := if (ca_id result =? "")%string then random else ca_id result in
  let message := [("role", GStr "assistant"); ("content", GStr (ca_text result))]%string
    ++ (if 0 <? slen (ca_reasoning result) then [("reasoning_content", GStr (ca_reasoning result))]%string else []) in
  let choice := GMap [("index", GInt 0); ("message", GMap message); ("finish_reason", GStr "stop")]%string in
  let u := ca_usage result in
  [("id", GStr id); ("object", GStr "chat.completion"); ("created", GInt created); ("model", GStr model); ("choices", GArr [choice])]%string
  ++ (if (0 <? us_prompt u) || (0 <? us_completion u) || (0 <? us_cacheRead u) || (0 <? us_cacheWrite u)
      then [("usage", usageJSON u)]%string else []).

Definition collectAmazonQ (random : string) (created : Z) (ctx : nat → bool) (body : reader) (model : string) :
    option (res event_error (list (string * gv))) :=
  match collect_loop (S (length (rd_rest body))) ctx 0 (newEventReader body) false false
          {| ca_id := ""; ca_text := ""; ca_reasoning := ""; ca_usage := no_usage |} with
  | Some (Ok result) => Some (Ok (collected_response random created model result))
  | Some (Err e) => Some (Err e)
  | None => None
  end.
End AmazonQ.
