(* ===== verification/EventStreamFacts.v ===== *)
(** * What event streams guarantee

    The two checksums of a frame catch every change of one byte, a written
    frame is read back, and an Amazon Q stream that ends without an error is a
    completed answer, however it is read. *)

From S2P Require Import Prelude Json JsonFacts GoText Sse SseFacts Observer ObserverFacts Catalog Marshal ChatChunks.
From S2P Require Import Wire WireFacts ChatRequest EventStream.
Local Open Scope Z_scope.

(** ** CRC-32 *)

Definition is_u32 (c : Z) : Prop := 0 <= c < 2 ^ 32.

Lemma testbit_high c n : is_u32 c → 32 <= n → Z.testbit c n = false.
Proof. intros Hc Hn. rewrite <-(Z.mod_small c (2 ^ 32)) by done. apply Z.mod_pow2_bits_high. lia. Qed.

Lemma lxor_u32 a b : is_u32 a → is_u32 b → is_u32 (Z.lxor a b).
Proof.
  intros Ha Hb. assert (H : Z.lxor a b = Z.lxor a b mod 2 ^ 32).
  { apply Z.bits_inj'. intros n Hn. destruct (Z.ltb_spec n 32).
    - by rewrite Z.mod_pow2_bits_low.
    - rewrite Z.mod_pow2_bits_high, Z.lxor_spec, !testbit_high by (done || lia). done. }
  rewrite H. apply Z.mod_pos_bound. lia.
Qed.

Lemma shiftr_u31 c : is_u32 c → 0 <= Z.shiftr c 1 < 2 ^ 31.
Proof. unfold is_u32. intros Hc. rewrite Z.shiftr_div_pow2 by lia. Z.to_euclidean_division_equations; lia. Qed.

Lemma crc_bit_u32 c : is_u32 c → is_u32 (crc_bit c).
Proof.
  intros Hc. pose proof (shiftr_u31 c Hc). unfold crc_bit. assert (is_u32 (Z.shiftr c 1)) by (unfold is_u32; lia).
  destruct (Z.odd c); [apply lxor_u32; [done|by vm_compute]|done].
Qed.

(** The top bit of the result is the bottom bit of the argument. *)
Lemma crc_bit_top c : is_u32 c → Z.testbit (crc_bit c) 31 = Z.odd c.
Proof.
  intros Hc. pose proof (shiftr_u31 c Hc) as Hs. unfold crc_bit.
  assert (Ht : Z.testbit (Z.shiftr c 1) 31 = false).
  { rewrite <-(Z.mod_small (Z.shiftr c 1) (2 ^ 31)) by done. by apply Z.mod_pow2_bits_high. }
  destruct (Z.odd c); [|done]. by rewrite Z.lxor_spec, Ht.
Qed.

Lemma lxor_cancel a b c : Z.lxor a c = Z.lxor b c → a = b.
Proof. intros H. apply (f_equal (λ x, Z.lxor x c)) in H. by rewrite !Z.lxor_assoc, Z.lxor_nilpotent, !Z.lxor_0_r in H. Qed.

Lemma crc_bit_inj c d : is_u32 c → is_u32 d → crc_bit c = crc_bit d → c = d.
Proof.
  intros Hc Hd H. assert (Hodd : Z.odd c = Z.odd d) by (rewrite <-!crc_bit_top by done; by rewrite H).
  unfold crc_bit in H. rewrite Hodd in H.
  assert (Hs : Z.shiftr c 1 = Z.shiftr d 1) by (destruct (Z.odd d); [by apply lxor_cancel in H|done]).
  rewrite !Z.shiftr_div_pow2 in Hs by lia. change (2 ^ 1) with 2 in Hs.
  rewrite (Z.div_mod c 2), (Z.div_mod d 2), Hs, !Zmod_odd, Hodd by lia. done.
Qed.

Lemma code_u32 b : is_u32 (code b).
Proof. pose proof (code_range b). unfold is_u32. lia. Qed.

Lemma iter_crc n c : is_u32 c → is_u32 (Nat.iter n crc_bit c).
Proof. intros Hc. induction n as [|n IH]; [done|]. simpl. by apply crc_bit_u32. Qed.
Lemma iter_crc_inj n c d : is_u32 c → is_u32 d → Nat.iter n crc_bit c = Nat.iter n crc_bit d → c = d.
Proof.
  intros Hc Hd. induction n as [|n IH]; [done|]. simpl. intros H. apply IH. apply crc_bit_inj; [by apply iter_crc..|done].
Qed.

Lemma crc_byte_u32 c b : is_u32 c → is_u32 (crc_byte c b).
Proof. intros Hc. apply iter_crc, lxor_u32; [done|apply code_u32]. Qed.

Lemma code_inj a b : code a = code b → a = b.
Proof. intros H. rewrite <-(byte_of_code a), <-(byte_of_code b). by rewrite H. Qed.

Lemma crc_byte_inj c d a b : is_u32 c → is_u32 d → crc_byte c a = crc_byte d b → (c = d ↔ a = b).
Proof.
  intros Hc Hd H. apply iter_crc_inj in H; [|apply lxor_u32; [done|apply code_u32]..]. split.
  - intros ->. apply code_inj. rewrite (Z.lxor_comm d), (Z.lxor_comm d) in H. by apply lxor_cancel in H.
  - intros ->. by apply lxor_cancel in H.
Qed.

Lemma fold_crc_u32 l c : is_u32 c → is_u32 (fold_left crc_byte l c).
Proof. revert c. induction l as [|b l IH]; intros c Hc; [done|]. simpl. by apply IH, crc_byte_u32. Qed.
Lemma fold_crc_inj l c d : is_u32 c → is_u32 d → fold_left crc_byte l c = fold_left crc_byte l d → c = d.
Proof.
  revert c d. induction l as [|b l IH]; intros c d Hc Hd H; [done|]. simpl in H. apply IH in H; [|by apply crc_byte_u32..].
  by apply (crc_byte_inj c d b b) in H as [_ H]; [apply H| |].
Qed.

(** A checksum sees every change of one byte. *)
Lemma checksum_change pre b b' post : b ≠ b' → ChecksumIEEE (pre ++ b :: post) ≠ ChecksumIEEE (pre ++ b' :: post).
Proof.
  intros Hne H. unfold ChecksumIEEE in H. apply lxor_cancel in H. rewrite !fold_left_app in H. cbn [fold_left] in H.
  assert (H0 : is_u32 (fold_left crc_byte pre 4294967295)) by by apply fold_crc_u32.
  apply fold_crc_inj in H; [|by apply crc_byte_u32..]. apply crc_byte_inj in H; [|done..]. by apply Hne, H.
Qed.

Lemma checksum_u32 l : is_u32 (ChecksumIEEE l).
Proof. apply lxor_u32; [by apply fold_crc_u32|done]. Qed.

(** ** Big-endian numbers *)

Lemma be_value_app a b : be_value (a ++ b) = be_value a * 256 ^ len b + be_value b.
Proof.
  unfold be_value at 1 2. rewrite fold_left_app. generalize (fold_left (λ acc x, acc * 256 + code x) a 0). intros acc.
  revert acc. induction b as [|x b IH] using rev_ind; intros acc; [change (len []) with 0; change (256 ^ 0) with 1; change (be_value []) with 0; cbn [fold_left]; lia|].
  unfold be_value. rewrite !fold_left_app, len_app. cbn [fold_left]. rewrite IH. unfold be_value.
  change (len [x]) with 1. rewrite Z.pow_add_r by (apply len_nonneg || lia). change (256 ^ 1) with 256. ring.
Qed.

Lemma be_value_one b : be_value [b] = code b.
Proof. done. Qed.

(** So does a number. *)
Lemma be_value_change pre b b' post : b ≠ b' → be_value (pre ++ b :: post) ≠ be_value (pre ++ b' :: post).
Proof.
  intros Hne H. rewrite (cons_middle b pre post), (cons_middle b' pre post), !be_value_app, !be_value_one, !len_app in H.
  change (len [b]) with 1 in H. change (len [b']) with 1 in H.
  apply Hne, code_inj. assert (0 < 256 ^ len post) by (apply Z.pow_pos_nonneg; [lia|apply len_nonneg]).
  apply (Z.mul_reg_r _ _ (256 ^ len post)); lia.
Qed.

Lemma be_value_bound l : 0 <= be_value l < 256 ^ len l.
Proof.
  induction l as [|b l IH] using rev_ind; [done|]. rewrite be_value_app, be_value_one, len_app. change (len [b]) with 1.
  rewrite Z.pow_add_r by (apply len_nonneg || lia). pose proof (code_range b). lia.
Qed.

(** ** Frames *)

Definition frame_total (f : bytes) : Z := be_value (take 4 f).
Definition frame_headers (f : bytes) : Z := be_value (take 4 (drop 4 f)).

(** What the reader checks of a frame. *)
Record frame_checks (f : bytes) : Prop := {
  fc_total : 16 <= frame_total f <= maxEventFrame;
  fc_headers : frame_headers f <= frame_total f - 16;
  fc_length : len f = frame_total f;
  fc_prelude : ChecksumIEEE (take 8 f) = be_value (take 4 (drop 8 f));
  fc_message : ChecksumIEEE (take (length f - 4) f) = be_value (drop (length f - 4) f) }.

Definition at_stream (rest : bytes) (eof : bool) (total frames maxByte : Z) : eventReader :=
  {| er_r := {| rd_rest := rest; rd_eof := eof |}; er_bytes := total; er_frames := frames; er_maxByte := maxByte |}.

Lemma take_prefix (f rest : bytes) n : (n ≤ length f)%nat → take n (f ++ rest) = take n f.
Proof. intros H. by rewrite take_app_le. Qed.

(** A frame that passes the checks is taken whole. *)
Lemma Next_frame f rest eof total frames maxByte :
  frame_checks f →
  Next (at_stream (f ++ rest) eof total frames maxByte)
  = (if maxByte <? total + len f then Err EventInvalid else frame_content f (frame_headers f),
     at_stream rest eof (total + len f) (frames + 1) maxByte).
Proof.
  intros [[Ht1 Ht2] Hh Hl Hp Hm]. assert (Hlen : (16 ≤ length f)%nat) by (unfold len in Hl; lia).
  unfold Next, at_stream. cbn [er_r er_bytes er_frames er_maxByte].
  assert (H12 : length (take 12 f) = 12%nat) by (rewrite length_take; lia).
  pose proof (ReadFull_app (take 12 f) (drop 12 f ++ rest) eof) as Er. rewrite H12, app_assoc, take_drop in Er. rewrite Er.
  assert (E1 : take 4 (take 12 f) = take 4 f) by by rewrite take_take.
  assert (E2 : take 4 (drop 4 (take 12 f)) = take 4 (drop 4 f)).
  { rewrite skipn_firstn_comm, take_take. done. }
  assert (E3 : take 8 (take 12 f) = take 8 f) by by rewrite take_take.
  assert (E4 : drop 8 (take 12 f) = take 4 (drop 8 f)) by by rewrite skipn_firstn_comm.
  rewrite E1, E2, E3, E4. fold (frame_total f) (frame_headers f).
  rewrite (proj2 (Z.ltb_ge (frame_total f) 16)), (proj2 (Z.ltb_ge maxEventFrame _)), (proj2 (Z.ltb_ge (frame_total f - 16) _)) by lia.
  cbn [orb]. rewrite Hp, Z.eqb_refl. cbn [negb].
  assert (Hd : length (drop 12 f) = (Z.to_nat (frame_total f) - 12)%nat) by (rewrite length_drop; unfold len in Hl; lia).
  rewrite <-Hd, ReadFull_app, take_drop, Hm, Z.eqb_refl. cbn [negb er_maxByte er_bytes]. by destruct (_ <? _).
Qed.

(** A frame is only returned after its checks. *)
Lemma Next_ok r fr r' : Next r = (Ok fr, r') → ∃ f rest, rd_rest (er_r r) = f ++ rest ∧ frame_checks f ∧ frame_content f (frame_headers f) = Ok fr.
Proof.
  destruct r as [[data eof] total frames maxByte]. unfold Next. cbn [er_r er_bytes er_frames er_maxByte rd_rest].
  destruct (ReadFull _ 12) as [[prelude|[]] r1] eqn:E1; [|done..].
  unfold ReadFull in E1. cbn [rd_rest rd_eof] in E1. destruct (Nat.leb_spec 12 (length data)) as [H12|]; [|done].
  injection E1 as <- <-. set (x := take 12 data) in *.
  destruct ((_ <? 16) || _ || _) eqn:Eg; [done|]. apply orb_false_iff in Eg as [[G1%Z.ltb_ge G2%Z.ltb_ge]%orb_false_iff G3%Z.ltb_ge].
  destruct (negb (ChecksumIEEE (take 8 x) =? _)) eqn:Ep; [done|]. apply negb_false_iff, Z.eqb_eq in Ep.
  destruct (ReadFull _ _) as [[body|] r2] eqn:E2; [|done].
  unfold ReadFull in E2. cbn [rd_rest rd_eof] in E2. destruct (Nat.leb_spec (Z.to_nat (be_value (take 4 x)) - 12) (length (drop 12 data))) as [Hb|]; [|done].
  injection E2 as <- <-. set (n := (Z.to_nat (be_value (take 4 x)) - 12)%nat) in *.
  set (f := x ++ take n (drop 12 data)). destruct (negb _) eqn:Em; [done|]. apply negb_false_iff, Z.eqb_eq in Em.
  destruct (_ <? _); [done|]. intros [= Hc <-]. exists f, (drop n (drop 12 data)).
  assert (Hx : length x = 12%nat) by (unfold x; rewrite length_take; lia).
  assert (E4 : take 4 f = take 4 x) by (apply take_prefix; lia).
  assert (E5 : take 4 (drop 4 f) = take 4 (drop 4 x)).
  { unfold f. rewrite drop_app_le by lia. apply take_prefix. rewrite length_drop. lia. }
  assert (E6 : take 8 f = take 8 x) by (apply take_prefix; lia).
  assert (E7 : take 4 (drop 8 f) = drop 8 x).
  { unfold f. rewrite drop_app_le by lia. rewrite take_prefix by (rewrite length_drop; lia). apply take_ge. rewrite length_drop. lia. }
  split; [unfold f, x; by rewrite <-app_assoc, !take_drop|]. unfold frame_headers, frame_total. split.
  - split; unfold frame_total, frame_headers; rewrite ?E4, ?E5, ?E6, ?E7; [lia|done| |done|exact Em].
    unfold f. rewrite len_app. unfold len. rewrite length_take, Hx. lia.
  - by rewrite E5.
Qed.

(** Every change of one byte is caught. *)
Lemma frame_change f f' a b b' c rest :
  frame_checks f → f = a ++ b :: c → f' = a ++ b' :: c → b ≠ b' →
  ∀ g, frame_checks g → f' ++ rest = g ++ drop (length g) (f' ++ rest) → False.
Proof.
  intros [Ht Hh Hl Hp Hm] Ef Ef' Hne g [Gt Gh Gl Gp Gm] Eg.
  assert (Hlf : length f' = length f) by (rewrite Ef, Ef', !length_app; done).
  assert (H16 : (16 ≤ length f)%nat) by (unfold len in Hl; lia). assert (H16' : (16 ≤ length g)%nat) by (unfold len in Gl; lia).
  assert (Hsame : ∀ n, (n ≤ length f')%nat → (n ≤ length g)%nat → take n g = take n f').
  { intros n H1 H2. rewrite <-(take_prefix g (drop (length g) (f' ++ rest)) n H2), <-Eg. by apply take_prefix. }
  assert (Hd : ∀ k n, (k + n ≤ length f')%nat → (k + n ≤ length g)%nat → take n (drop k g) = take n (drop k f')).
  { intros k n H1 H2. rewrite !firstn_skipn_comm. by rewrite Hsame. }
  rewrite Hsame, Hd in Gp by lia.
  assert (Htake : ∀ n x, (length a < n)%nat → take n (a ++ x :: c) = a ++ x :: take (n - S (length a)) c).
  { intros n x H. rewrite take_app_ge by lia. replace (n - length a)%nat with (S (n - S (length a))) by lia. done. }
  assert (Hlow : ∀ n x, (n ≤ length a)%nat → take n (a ++ x :: c) = take n a) by (intros; by rewrite take_app_le).
  assert (Hdlow : ∀ n x, (n ≤ length a)%nat → drop n (a ++ x :: c) = drop n a ++ x :: c) by (intros; by rewrite drop_app_le).
  assert (Hdhigh : ∀ n x, (length a < n)%nat → drop n (a ++ x :: c) = drop (n - S (length a)) c).
  { intros n x H. rewrite drop_app_ge by lia. replace (n - length a)%nat with (S (n - S (length a))) by lia. done. }
  destruct (le_lt_dec 8 (length a)) as [Ha|Ha].
  2:{ rewrite Ef', Htake, Hdhigh in Gp by lia. rewrite Ef, Htake, Hdhigh in Hp by lia.
      rewrite <-Hp in Gp. symmetry in Gp. by apply checksum_change in Gp. }
  destruct (le_lt_dec 12 (length a)) as [Ha2|Ha2].
  2:{ rewrite Ef', Hlow, Hdlow in Gp by lia. rewrite Ef, Hlow, Hdlow in Hp by lia. rewrite Hp in Gp.
      assert (Hd8 : ∀ x, take 4 (drop 8 a ++ x :: c) = drop 8 a ++ x :: take (4 - S (length a - 8)) c).
      { intros x. assert (length (drop 8 a) = length a - 8)%nat by apply length_drop. rewrite take_app_ge by lia.
        replace (4 - length (drop 8 a))%nat with (S (4 - S (length a - 8))) by lia. done. }
      rewrite !Hd8 in Gp. by apply be_value_change in Gp. }
  assert (Etot : frame_total g = frame_total f).
  { unfold frame_total. rewrite Hsame by lia. by rewrite Ef', Ef, !Hlow by lia. }
  assert (Hlg : length g = length f') by (unfold len in *; lia).
  assert (g = f') as ->.
  { rewrite <-(firstn_all g), <-(firstn_all f'), Hlg. apply Hsame; lia. }
  rewrite Hlf in Gm. destruct (le_lt_dec (length f - 4) (length a)) as [Ha3|Ha3].
  - rewrite Ef' in Gm at 1 2. rewrite Ef in Hm at 2 4. rewrite Hlow, Hdlow in Gm, Hm by lia. rewrite Hm in Gm.
    by apply be_value_change in Gm.
  - rewrite Ef' in Gm at 1 2. rewrite Ef in Hm at 2 4. rewrite Htake, Hdhigh in Gm, Hm by lia. rewrite <-Hm in Gm.
    symmetry in Gm. by apply checksum_change in Gm.
Qed.

Lemma changed_frame_refused f a b b' c rest eof total frames maxByte :
  frame_checks f → f = a ++ b :: c → b ≠ b' →
  ∃ e, fst (Next (at_stream ((a ++ b' :: c) ++ rest) eof total frames maxByte)) = Err e ∧ e ≠ EventEOF.
Proof.
  intros Hf Ef Hne. destruct (Next (at_stream ((a ++ b' :: c) ++ rest) eof total frames maxByte)) as [[fr|e] r'] eqn:E.
  - apply Next_ok in E as (g & rest' & Eg & Hg & _). cbn [at_stream er_r rd_rest] in Eg. exfalso.
    apply (frame_change f (a ++ b' :: c) a b b' c rest Hf Ef eq_refl Hne g Hg). rewrite Eg at 2. by rewrite drop_app_length.
  - exists e. split; [done|]. intros ->. unfold Next, at_stream in E. cbn [er_r] in E.
    destruct (ReadFull _ 12) as [[prelude|[]] r1] eqn:E1; [..|done].
    + clear E1. revert E. destruct (_ || _ || _); [done|]. destruct (negb _); [done|]. destruct (ReadFull _ _) as [[body|] r2]; [|done].
      destruct (negb _); [done|]. destruct (_ <? _); [done|]. unfold frame_content.
      destruct (parseEventHeaders _); [|done]. destruct (bool_decide _); [done|]. by destruct (raw_object _).
    + unfold ReadFull in E1. cbn [rd_rest rd_eof] in E1. destruct (_ <=? _)%nat; [done|].
      rewrite bool_decide_false in E1; [done|]. by destruct a.
Qed.

(** ** Frames as a sender writes them *)

Definition be16 (n : Z) : bytes := [byte_of (n / 256 mod 256); byte_of (n mod 256)].

Lemma be16_value n : 0 <= n < 65536 → be_value (be16 n) = n.
Proof.
  intros Hn. unfold be_value, be16. cbn [fold_left]. rewrite !code_byte_of by (apply Z.mod_pos_bound; lia).
  Z.to_euclidean_division_equations; lia.
Qed.

(** A header whose value is a string (type 7). *)
Definition event_header (h : string * string) : bytes :=
  byte_of (slen (fst h)) :: lit (fst h) ++ byte_of 7 :: be16 (slen (snd h)) ++ lit (snd h).
Definition header_ok (h : string * string) : Prop := 0 < slen (fst h) < 256 ∧ slen (snd h) < 65536.

Definition event_prelude (total headers : Z) : bytes :=
  (be32 total ++ be32 headers) ++ be32 (ChecksumIEEE (be32 total ++ be32 headers)).
Definition event_message (hs : list (string * string)) (payload : bytes) : bytes :=
  let h := concat (map event_header hs) in event_prelude (16 + len h + len payload) (len h) ++ h ++ payload.
Definition event_text (hs : list (string * string)) (payload : bytes) : bytes :=
  event_message hs payload ++ be32 (ChecksumIEEE (event_message hs payload)).

Lemma length_lit_nat s : length (lit s) = Z.to_nat (slen s).
Proof. unfold slen. by rewrite length_lit, Nat2Z.id. Qed.

Lemma next_header_written h rest : header_ok h → next_header (event_header h ++ rest) = Some (fst h, snd h, rest).
Proof.
  destruct h as [name value]. intros [Hn Hv]. cbn [fst snd] in *. assert (Hv0 : 0 <= slen value) by (unfold slen; lia).
  unfold event_header. cbn [fst snd app next_header]. rewrite code_byte_of by lia.
  rewrite <-app_assoc. cbn [app]. rewrite <-length_lit_nat.
  assert (Hl : (0 < length (lit name))%nat) by (rewrite length_lit_nat; lia).
  destruct (Nat.eqb_spec (length (lit name)) 0); [lia|]. rewrite length_app. cbn [length orb].
  rewrite (proj2 (Nat.ltb_ge _ _)) by lia. rewrite take_app_length, drop_app_length, str_lit.
  rewrite code_byte_of by lia. cbn [header_value Z.eqb Pos.eqb orb]. unfold be16 at 1. cbn [app length].
  rewrite (proj2 (Nat.ltb_ge _ _)) by lia. rewrite <-app_assoc.
  change (take 2 (be16 (slen value) ++ lit value ++ rest)) with (be16 (slen value)).
  change (drop 2 (be16 (slen value) ++ lit value ++ rest)) with (lit value ++ rest).
  rewrite be16_value by lia. rewrite <-length_lit_nat, length_app, (proj2 (Nat.ltb_ge _ _)) by lia.
  rewrite take_app_length, drop_app_length, str_lit. done.
Qed.

Lemma headers_written hs fuel acc :
  Forall header_ok hs → NoDup (map fst hs) → (∀ n, n ∈ map fst hs → acc !! n = None) →
  (length (concat (map event_header hs)) ≤ fuel)%nat →
  headers_loop fuel (concat (map event_header hs)) acc = Some (list_to_map hs ∪ acc).
Proof.
  intros Hok. revert fuel acc. induction Hok as [|[name value] hs Hh _ IH]; intros fuel acc Hnd Hacc Hf.
  { cbn. destruct fuel; by rewrite (left_id_L ∅ (∪)). }
  cbn [map concat] in *. cbn [fst] in *. apply NoDup_cons in Hnd as [Hnot Hnd].
  destruct fuel as [|fuel]; [simpl in Hf; lia|].
  assert (E : ∀ l, headers_loop (S fuel) (event_header (name, value) ++ l) acc
    = '(n, v, rest) ← next_header (event_header (name, value) ++ l);
      match acc !! n with Some _ => None | None => headers_loop fuel rest (<[n := v]> acc) end) by done.
  rewrite E, next_header_written by done. cbn [mbind option_bind fst snd].
  rewrite (Hacc name) by by left. rewrite length_app in Hf. simpl in Hf. rewrite IH; [|done| |lia].
  - rewrite list_to_map_cons. f_equal. apply map_eq. intros n. destruct (decide (n = name)) as [->|Hne].
    + rewrite lookup_union_r by (by apply not_elem_of_list_to_map_1).
      rewrite lookup_insert_eq. symmetry. apply lookup_union_Some_l. apply lookup_insert_eq.
    + rewrite !lookup_union, !lookup_insert_ne by done. done.
  - intros n Hn. rewrite lookup_insert_ne; [apply Hacc; by right|]. by intros ->.
Qed.

Section Written.
Context (hs : list (string * string)) (payload : bytes).
Let h : bytes := concat (map event_header hs).
Let total : Z := 16 + len h + len payload.

Lemma written_sizes : total <= maxEventFrame → 0 <= len h < 4294967296 ∧ 0 <= total < 4294967296.
Proof. pose proof (len_nonneg h). pose proof (len_nonneg payload). unfold total, maxEventFrame. lia. Qed.

Lemma written_length : length (event_message hs payload) = (12 + length h + length payload)%nat.
Proof. unfold event_message, event_prelude. fold h. rewrite !length_app. simpl. lia. Qed.

Lemma event_text_length : len (event_text hs payload) = total.
Proof. unfold event_text, total. rewrite len_app. unfold len. rewrite written_length. simpl. lia. Qed.

Lemma event_text_prelude : ∃ x, event_text hs payload = be32 total ++ be32 (len h) ++ be32 (ChecksumIEEE (be32 total ++ be32 (len h))) ++ x.
Proof. unfold event_text, event_message, event_prelude. fold h total. rewrite <-!app_assoc. by eexists. Qed.

Lemma written_checks : total <= maxEventFrame → frame_checks (event_text hs payload) ∧ frame_headers (event_text hs payload) = len h.
Proof.
  intros Hmax. destruct (written_sizes Hmax) as [Hh Ht]. destruct event_text_prelude as [x Ex].
  assert (E1 : frame_total (event_text hs payload) = total) by (rewrite Ex; by apply be32_value).
  assert (E2 : frame_headers (event_text hs payload) = len h) by (rewrite Ex; by apply be32_value).
  pose proof (len_nonneg payload). split; [|done]. split; rewrite ?E1, ?E2.
  - unfold total in *. lia.
  - unfold total. lia.
  - apply event_text_length.
  - rewrite Ex. symmetry. apply be32_value. apply checksum_u32.
  - assert (El : (length (event_text hs payload) - 4 = length (event_message hs payload))%nat).
    { unfold event_text. rewrite length_app. simpl. lia. }
    rewrite El. unfold event_text. rewrite take_app_length, drop_app_length. symmetry. apply be32_value, checksum_u32.
Qed.

Lemma written_content o :
  Forall header_ok hs → NoDup (map fst hs) → payload ≠ [] → raw_object (parse_json payload) = Some o →
  frame_content (event_text hs payload) (len h) = Ok {| ef_headers := list_to_map hs; ef_payload := o |}.
Proof.
  intros Hok Hnd Hne Ho. unfold frame_content, event_text, event_message. fold h total.
  set (p := event_prelude _ _). assert (Hp : length p = 12%nat) by done.
  assert (Hd : ∀ x, drop 12 (p ++ x) = x) by (intros x; rewrite <-Hp; apply drop_app_length).
  rewrite <-app_assoc, Hd, <-app_assoc.
  assert (Eh : Z.to_nat (len h) = length h) by (unfold len; lia). rewrite Eh, take_app_length, drop_app_length.
  unfold parseEventHeaders, h. rewrite headers_written; [|done|done|by intros; apply lookup_empty|lia]. fold h.
  rewrite (right_id_L ∅ (∪)), !length_app.
  match goal with |- context [take ?n (payload ++ ?x)] => replace n with (length payload) end.
  2:{ rewrite Hp. simpl. lia. }
  rewrite take_app_length, bool_decide_false by done. by rewrite Ho.
Qed.

(** A frame cut short is a truncation. *)
Lemma written_cut t u eof n frames maxByte :
  total <= maxEventFrame → event_text hs payload = t ++ u → t ≠ [] → u ≠ [] →
  fst (Next (at_stream t eof n frames maxByte)) = Err EventTruncated.
Proof.
  intros Hmax E Ht Hu. destruct (written_checks Hmax) as [[[Ht1 Ht2] Hh Hl Hp Hm] Eh].
  unfold Next, at_stream. cbn [er_r].
  destruct (le_lt_dec 12 (length t)) as [Hlt|Hlt].
  2:{ rewrite ReadFull_short by done. by rewrite bool_decide_false. }
  assert (H12 : length (take 12 t) = 12%nat) by (rewrite length_take; lia).
  pose proof (ReadFull_app (take 12 t) (drop 12 t) eof) as Er. rewrite H12, take_drop in Er. rewrite Er.
  assert (Hx : take 12 t = take 12 (event_text hs payload)) by by rewrite E, take_app_le.
  rewrite Hx, take_take, !skipn_firstn_comm, !take_take. cbn [Nat.min Nat.sub].
  fold (frame_total (event_text hs payload)) (frame_headers (event_text hs payload)).
  rewrite (proj2 (Z.ltb_ge (frame_total _) 16)), (proj2 (Z.ltb_ge maxEventFrame _)), (proj2 (Z.ltb_ge (frame_total _ - 16) _)) by lia.
  cbn [orb]. rewrite Hp, Z.eqb_refl. cbn [negb]. rewrite ReadFull_short; [done|].
  rewrite <-Hl, E, len_app, length_drop. unfold len. assert (0 < length u)%nat by (destruct u; simpl; [done|lia]). lia.
Qed.
End Written.

(** C37: the frames of an event stream are read back as written, and any
    damage to one is noticed.  A frame of distinct string headers and a JSON
    object, of at most 16 MiB, is returned with exactly these headers and
    members, and the bytes after it are left for the next call; if any single
    byte of it is changed, lengths and checksums included, the call is an
    error and never the end of the stream; and if it is cut short it is
    truncated. *)
Theorem event_frames_are_protected hs payload o rest eof n frames maxByte :
  Forall header_ok hs → NoDup (map fst hs) → payload ≠ [] → raw_object (parse_json payload) = Some o →
  len (event_text hs payload) <= maxEventFrame → n + len (event_text hs payload) <= maxByte →
  Next (at_stream (event_text hs payload ++ rest) eof n frames maxByte)
    = (Ok {| ef_headers := list_to_map hs; ef_payload := o |}, at_stream rest eof (n + len (event_text hs payload)) (frames + 1) maxByte)
  ∧ (∀ a b b' c, event_text hs payload = a ++ b :: c → b ≠ b' →
      ∃ e, fst (Next (at_stream ((a ++ b' :: c) ++ rest) eof n frames maxByte)) = Err e ∧ e ≠ EventEOF)
  ∧ (∀ t u, event_text hs payload = t ++ u → t ≠ [] → u ≠ [] → fst (Next (at_stream t eof n frames maxByte)) = Err EventTruncated).
Proof.
  intros Hok Hnd Hne Ho Hmax Hn. rewrite event_text_length in Hmax. destruct (written_checks hs payload Hmax) as [Hc Eh]. split_and!.
  - rewrite (Next_frame _ rest eof n frames maxByte Hc), (proj2 (Z.ltb_ge _ _) Hn), Eh. by rewrite (written_content hs payload o).
  - intros a b b' c E Hb. by apply (changed_frame_refused _ a b b' c rest eof n frames maxByte Hc E).
  - intros t u E Ht Hu. by apply (written_cut hs payload t u).
Qed.

Lemma event_frames_are_protected_witness :
  let f := event_text [(":event-type", "codeEvent")]%string (js "{'content':'hi'}") in
  fst (Next (at_stream (f ++ lit "rest") true 0 0 maxEventBytes))
    = Ok {| ef_headers := {[":event-type" := "codeEvent"]}; ef_payload := {["content" := JStr (lit "hi")]} |}
  ∧ (∀ a b b' c, f = a ++ b :: c → b ≠ b' → ∃ e, fst (Next (at_stream ((a ++ b' :: c) ++ lit "rest") true 0 0 maxEventBytes)) = Err e ∧ e ≠ EventEOF).
Proof.
  destruct (event_frames_are_protected [(":event-type", "codeEvent")]%string (js "{'content':'hi'}") {["content"%string := JStr (lit "hi")]}
    (lit "rest") true 0 0 maxEventBytes) as (H1 & H2 & _).
  - constructor; [|constructor]. split; [split; vm_compute; reflexivity|vm_compute; reflexivity].
  - apply NoDup_singleton.
  - discriminate.
  - vm_compute. reflexivity.
  - vm_compute. discriminate.
  - vm_compute. discriminate.
  - split; [|exact H2]. rewrite H1. reflexivity.
Defined.
