(* ===== verification/AmazonQFacts.v ===== *)
(** * What an Amazon Q answer guarantees

    The streamed answer, read with any buffers, and the collected one are the
    same function of the events of the stream. *)

From S2P Require Import Prelude Json JsonFacts GoText Sse SseFacts Observer ObserverFacts Catalog Marshal ChatChunks.
From S2P Require Import Wire WireFacts ChatRequest EventStream EventStreamFacts.
Local Open Scope Z_scope.

(** ** The events of a stream *)


Section Reference.
Context `{Unicode}.







(** *** The collected answer *)


End Reference.

(** ** The streamed answer *)

Section Streaming.
Context `{Unicode} (random : string) (created : Z) (model : string).
Hypothesis random_nonempty : random ≠ ""%string.















(** *** Filling the buffer *)







(** ** Reading to the end *)


End Streaming.

(** ** The theorems *)






Section Agree.
Context `{Unicode}.



End Agree.

(** *** A concrete run *)

Section Witness.
#[local] Instance demo_unicode : Unicode := {| unicode_lower r := if (65 <=? r) && (r <=? 90) then r + 32 else r; unicode_upper r := r |}.


End Witness.
